(** * DGen/SDL platform layer (sdl.cpp): a shallow embedding

    The development follows [src/sdl/sdl.cpp]: the freeze reference counter,
    the graphics initialisation gate, the circular audio buffer with the
    audio callback, the combo tracker, the calibration state machine, the
    filter stack rebuild, the stretch filter's repeat tables and the text
    input line editor; then the sound set-up, the filter descriptors, the
    Game Genie prompt, the controls, the delayed release of mouse motion
    and the pixel loops of the filters.

    Conventions.  C integers are [Z] with the wrap-around of their width
    written out; [assert()] calls change no state and are left out (they
    are discussed where they matter); memory handed to a function as a
    (pointer, length) pair is a list. *)

From Stdlib Require Import String Ascii.
From Stdlib Require Import ZArith Lia Bool List.
From stdpp Require Import base tactics option list numbers.

Local Open Scope Z_scope.

(** ** Machine integers *)

(** [unsigned int] is 32 bits wide. *)
Definition UINT_MOD : Z := 2 ^ 32.
Definition UINT_MAX : Z := UINT_MOD - 1.

(** [int] is 32 bits wide. *)
Definition INT_MAX : Z := 2 ^ 31 - 1.

(** [size_t] on the ILP32 ARM target of this port. *)
Definition SIZE_MOD : Z := 2 ^ 32.

Definition uint_wrap (x : Z) : Z := x mod UINT_MOD.
Definition size_wrap (x : Z) : Z := x mod SIZE_MOD.

(** ** Freeze reference counter ([pd_freeze], [pd_freeze_ref], [freeze]) *)

Module Freeze.

Record state := mk_state {
  pd_freeze : bool;     (* bool pd_freeze *)
  pd_freeze_ref : Z     (* static unsigned int pd_freeze_ref *)
}.

(** [bool pd_freeze = false; static unsigned int pd_freeze_ref = 0;] *)
Definition init : state := mk_state false 0.

(** [static void freeze(bool toggle)] *)
Definition freeze (toggle : bool) (st : state) : state :=
  if toggle then
    let frozen := if pd_freeze_ref st =? 0 then true else pd_freeze st in
    mk_state frozen (uint_wrap (pd_freeze_ref st + 1))
  else if negb (pd_freeze_ref st =? 0) then
    let r := uint_wrap (pd_freeze_ref st - 1) in
    mk_state (if r =? 0 then false else pd_freeze st) r
  else st.

(** The relation the three [assert()]s of [freeze] spell out. *)
Definition inv (st : state) : Prop :=
  0 <= pd_freeze_ref st < UINT_MOD /\
  (pd_freeze st = true <-> 0 < pd_freeze_ref st).

(** A sequence of [freeze] calls, first call first. *)
Definition run (ops : list bool) (st : state) : state :=
  fold_left (fun s b => freeze b s) ops st.

End Freeze.

(** ** Graphics initialisation gate ([video], [pd_graphics_init]) *)

Module Graphics.

(** The fields of the static [video] struct that [pd_graphics_init] writes;
    [width] is [const] and [palette] is only touched by [screen_init]. *)
Record video_t := mk_video {
  video_width : Z;
  video_height : Z;
  video_hz : Z;
  video_is_pal : Z
}.

(** What the SDL calls made after the gate report back. *)
Record sdl_env := mk_env {
  sdl_init_fails : bool;      (* SDL_Init(SDL_INIT_VIDEO) != 0 *)
  screen_init_result : Z      (* screen_init(0, 0): 0, -1 or -2 *)
}.

(** [int pd_graphics_init(int want_sound, int want_pal, int hz)]: the
    returned value and the [video] struct it leaves behind. *)
Definition pd_graphics_init (env : sdl_env) (want_sound want_pal hz : Z)
    (video : video_t) : Z * video_t :=
  if (hz <=? 0) || (hz >? 1000) then (0, video)
  else
    let video1 :=
      if negb (want_pal =? 0)
      then mk_video (video_width video) 240 (uint_wrap hz) 1
      else mk_video (video_width video) 224 (uint_wrap hz) 0 in
    if sdl_init_fails env then (0, video1)
    else if negb (screen_init_result env =? 0) then (0, video1)
    else (1, video1).

End Graphics.

(** ** Circular buffer ([cbuf_t], [cbuf_write], [cbuf_read]) and the
       audio callback ([snd_callback]) *)

Module Cbuf.

Abbreviation byte := Byte.byte.

Record cbuf_t := mk_cbuf {
  cbuf_i : Z;             (* size_t i: data start index *)
  cbuf_s : Z;             (* size_t s: data size *)
  cbuf_size : Z;          (* size_t size: buffer size *)
  cbuf_data : list byte   (* data.u8: storage *)
}.

(** [memcpy(&dst[off], src, n)]: the first [n] bytes of [src] replace the
    bytes of [dst] from index [off] on. *)
Definition memcpy (dst : list byte) (off : Z) (src : list byte) (n : Z)
    : list byte :=
  list_inserts (Z.to_nat off) (take (Z.to_nat n) src) dst.

(** [memset(&dst[off], c, n)] *)
Definition memset (dst : list byte) (off : Z) (c : byte) (n : Z) : list byte :=
  list_inserts (Z.to_nat off) (replicate (Z.to_nat n) c) dst.

(** [&p[k]] for a source pointer [p]. *)
Definition ptr_add (p : list byte) (k : Z) : list byte := drop (Z.to_nat k) p.

(** [size_t cbuf_write(cbuf_t *cbuf, uint8_t *src, size_t size)]: the
    returned count and the buffer afterwards.  [None] is the division by
    zero of [% cbuf->size] in a buffer whose [size] is zero. *)
Definition cbuf_write (cbuf : cbuf_t) (src : list byte) (size : Z)
    : option (Z * cbuf_t) :=
  let over := size >? cbuf_size cbuf in
  let src := if over then ptr_add src (size_wrap (size - cbuf_size cbuf)) else src in
  let size := if over then cbuf_size cbuf else size in
  let k := size_wrap (cbuf_size cbuf - cbuf_s cbuf) in
  if cbuf_size cbuf =? 0 then None else
  let j := size_wrap (cbuf_i cbuf + cbuf_s cbuf) mod cbuf_size cbuf in
  let i' :=
    if size >? k
    then size_wrap (cbuf_i cbuf + size_wrap (size - k)) mod cbuf_size cbuf
    else cbuf_i cbuf in
  let s' := if size >? k then cbuf_size cbuf else size_wrap (cbuf_s cbuf + size) in
  let k := size_wrap (cbuf_size cbuf - j) in
  let data' :=
    if k >=? size then memcpy (cbuf_data cbuf) j src size
    else memcpy (memcpy (cbuf_data cbuf) j src k)
                0 (ptr_add src k) (size_wrap (size - k)) in
  Some (size, mk_cbuf i' s' (cbuf_size cbuf) data').

(** [size_t cbuf_read(uint8_t *dst, cbuf_t *cbuf, size_t size)]: the
    returned count, the destination afterwards and the buffer afterwards.
    [None] is the division by zero of [% cbuf->size], after the copy, in
    a buffer whose [size] is zero. *)
Definition cbuf_read (dst : list byte) (cbuf : cbuf_t) (size : Z)
    : option (Z * list byte * cbuf_t) :=
  let size := if size >? cbuf_s cbuf then cbuf_s cbuf else size in
  let dst' :=
    if size_wrap (cbuf_i cbuf + size) >? cbuf_size cbuf then
      let k := size_wrap (cbuf_size cbuf - cbuf_i cbuf) in
      memcpy (memcpy dst 0 (ptr_add (cbuf_data cbuf) (cbuf_i cbuf)) k)
             k (cbuf_data cbuf) (size_wrap (size - k))
    else memcpy dst 0 (ptr_add (cbuf_data cbuf) (cbuf_i cbuf)) size in
  if cbuf_size cbuf =? 0 then None else
  Some (size, dst',
        mk_cbuf (size_wrap (cbuf_i cbuf + size) mod cbuf_size cbuf)
                (size_wrap (cbuf_s cbuf - size))
                (cbuf_size cbuf) (cbuf_data cbuf)).

(** [static void snd_callback(void *, Uint8 *stream, int len)], on
    [sound.cbuf]; [(size_t)len] is [size_wrap len].  [None] is the
    division by zero in [cbuf_read]. *)
Definition snd_callback (stream : list byte) (len : Z) (sound_cbuf : cbuf_t)
    : option (list byte * cbuf_t) :=
  match cbuf_read stream sound_cbuf (size_wrap len) with
  | None => None
  | Some (wrote, stream1, cbuf1) =>
      if wrote =? size_wrap len then Some (stream1, cbuf1)
      else Some (memset stream1 wrote Byte.x00
                        (size_wrap (size_wrap len - wrote)), cbuf1)
  end.

(** A buffer as the two operations keep it: [size >= 1] bytes of
    storage, start index inside it, occupancy at most [size].
    ([pd_sound_init] sets such a buffer up unless the size it computes
    wraps to zero.)  Like every C object the storage is no larger than
    [PTRDIFF_MAX], half the range of [size_t], so the sum of two in-range
    indices fits a [size_t]. *)
Definition wf (c : cbuf_t) : Prop :=
  1 <= cbuf_size c /\ 2 * cbuf_size c <= SIZE_MOD /\
  0 <= cbuf_i c < cbuf_size c /\
  0 <= cbuf_s c <= cbuf_size c /\
  Z.of_nat (length (cbuf_data c)) = cbuf_size c.

(** The buffered bytes, oldest first: [s] bytes from index [i], wrapping
    at [size]. *)
Definition contents (c : cbuf_t) : list byte :=
  take (Z.to_nat (cbuf_s c))
       (drop (Z.to_nat (cbuf_i c)) (cbuf_data c ++ cbuf_data c)).

(** The last [k] elements of a list. *)
Definition lastn {A} (k : nat) (l : list A) : list A := drop (length l - k) l.

(** Programs over one buffer: writes of byte strings and reads of a
    requested length into a fresh destination of that length. *)
Inductive op :=
| Write (src : list byte)
| Read (n : nat).

(** State of a run: the buffer, the bytes accepted so far, the bytes
    delivered so far, and whether some write found too little room. *)
Record run_state := mk_run {
  run_cbuf : cbuf_t;
  run_written : list byte;
  run_delivered : list byte;
  run_overflowed : bool
}.

(** One operation; [None] when it divides by zero. *)
Definition step (st : run_state) (o : op) : option run_state :=
  match o with
  | Write src =>
      let n := Z.of_nat (length src) in
      match cbuf_write (run_cbuf st) src n with
      | None => None
      | Some (_, c') =>
          Some (mk_run c' (run_written st ++ src) (run_delivered st)
                       (run_overflowed st ||
                        (cbuf_s (run_cbuf st) + n >? cbuf_size (run_cbuf st))))
      end
  | Read n =>
      let dst := replicate n Byte.x00 in
      match cbuf_read dst (run_cbuf st) (Z.of_nat n) with
      | None => None
      | Some (k, dst', c') =>
          Some (mk_run c' (run_written st)
                       (run_delivered st ++ take (Z.to_nat k) dst')
                       (run_overflowed st))
      end
  end.

Fixpoint run (ops : list op) (st : run_state) : option run_state :=
  match ops with
  | [] => Some st
  | o :: ops' =>
      match step st o with
      | None => None
      | Some st' => run ops' st'
      end
  end.

(** A run starts with nothing written or delivered yet. *)
Definition start (c : cbuf_t) : run_state := mk_run c [] [] false.

(** The bytes a program hands to [cbuf_write], in order. *)
Definition writes_of (ops : list op) : list byte :=
  flat_map (fun o => match o with Write src => src | Read _ => [] end) ops.

(** A small buffer for examples: capacity 4, two bytes buffered at the
    end of the storage. *)
Definition demo_cbuf : cbuf_t :=
  mk_cbuf 2 2 4 [Byte.x01; Byte.x02; Byte.x03; Byte.x04].

End Cbuf.

(** ** Combo tracker ([combos], [manage_combos], [check_combos]) *)

Module Combos.

(** Modelled from the spec: [enum rc_binding_type] is declared in
    [rc-vars.h], which is not among the sources.  The spec speaks of
    keyboard, joystick and mouse bindings; the code names them [RCBK],
    [RCBJ] and [RCBM] and uses [RCB_NUM] for their count and for "no
    binding". *)
Inductive rc_binding_type := RCBK | RCBJ | RCBM | RCB_NUM.

Definition rc_binding_type_eqb (a b : rc_binding_type) : bool :=
  match a, b with
  | RCBK, RCBK | RCBJ, RCBJ | RCBM, RCBM | RCB_NUM, RCB_NUM => true
  | _, _ => false
  end.

(** Modelled from the spec: [struct rc_binding_item] is declared in
    [rc-vars.h], which is not among the sources.  The spec's ComboEntry is
    an assigned flag, a binding type and a code, the three fields the code
    reads and writes. *)
Record rc_binding_item := mk_item {
  assigned : bool;
  type : rc_binding_type;
  code : Z                  (* intptr_t *)
}.

(** [elemof(combos)] *)
Definition COMBOS_NUM : nat := 64.

(** [static struct rc_binding_item combos[64]], zero-initialised. *)
Definition combos_init : list rc_binding_item :=
  replicate COMBOS_NUM (mk_item false RCBK 0).

(** [(combos[i].type != type) || (combos[i].code != code)] *)
Definition mismatch (c : rc_binding_item) (t : rc_binding_type) (k : Z) : bool :=
  negb (rc_binding_type_eqb (type c) t) || negb (code c =? k).

(** [memmove(&a[dst], &a[src], n * sizeof(a[0]))] inside one array. *)
Definition memmove {A} (a : list A) (dst src n : nat) : list A :=
  list_inserts dst (take n (drop src a)) a.

(** The [for] loop of [manage_combos], entered at index [i] with [n]
    iterations left before [i] reaches [elemof(combos)]. *)
Fixpoint manage_combos_loop (n i : nat) (combos : list rc_binding_item)
    (pressed : bool) (t : rc_binding_type) (k : Z) : list rc_binding_item :=
  match n with
  | O => combos
  | S n' =>
      match combos !! i with
      | None => combos
      | Some c =>
          if negb (assigned c) then
            if negb pressed then combos
            else <[i := mk_item true t k]> combos
          else if mismatch c t k then
            manage_combos_loop n' (S i) combos pressed t k
          else if pressed then combos
          else memmove combos i (i + 1) (COMBOS_NUM - (i + 1))
      end
  end.

(** [static void manage_combos(md&, bool pressed, enum rc_binding_type
    type, intptr_t code)], as a function of the [combos] array. *)
Definition manage_combos (combos : list rc_binding_item) (pressed : bool)
    (t : rc_binding_type) (k : Z) : list rc_binding_item :=
  manage_combos_loop COMBOS_NUM 0 combos pressed t k.

(** The inner [for (j ...)] loop of [check_combos]: is [it] among the
    leading assigned entries of [combos]? *)
Fixpoint find_loop (n j : nat) (combos : list rc_binding_item)
    (it : rc_binding_item) : bool :=
  match n with
  | O => false
  | S n' =>
      match combos !! j with
      | None => false
      | Some c =>
          if negb (assigned c) then false
          else if mismatch c (type it) (code it) then find_loop n' (S j) combos it
          else true
      end
  end.

(** The outer loop of [check_combos] from index [i], [n] iterations before
    [i] reaches [num]: the final values of [num] and [found], or [None]
    when [item] is read past its end. *)
Fixpoint check_loop (n i : nat) (combos item : list rc_binding_item)
    (found : Z) : option (Z * Z) :=
  match n with
  | O => Some (Z.of_nat i, found)
  | S n' =>
      match item !! i with
      | None => None
      | Some it =>
          if negb (assigned it) then Some (Z.of_nat i, found)
          else
            let found' :=
              if find_loop COMBOS_NUM 0 combos it
              then uint_wrap (found + 1) else found in
            check_loop n' (S i) combos item found'
      end
  end.

(** [static bool check_combos(md&, struct rc_binding_item item[],
    unsigned int num)] *)
Definition check_combos (combos item : list rc_binding_item) (num : Z)
    : option bool :=
  match check_loop (Z.to_nat num) 0 combos item 0 with
  | None => None
  | Some (num', found) =>
      Some (if num' =? 0 then false else found =? num')
  end.

(** The tracked set: the (type, code) pairs of the leading assigned
    entries, in order of arrival. *)
Fixpoint held (combos : list rc_binding_item) : list (rc_binding_type * Z) :=
  match combos with
  | [] => []
  | c :: rest => if assigned c then (type c, code c) :: held rest else []
  end.

(** The members of a requested combo: the entries of [item[0..num)] up to
    the first unassigned one. *)
Definition members (item : list rc_binding_item) (num : Z)
    : list (rc_binding_type * Z) :=
  held (take (Z.to_nat num) item).

#[global] Instance rc_binding_type_eq_dec : EqDecision rc_binding_type.
Proof. solve_decision. Defined.

(** The entry a press stores for a pair. *)
Definition item_of (p : rc_binding_type * Z) : rc_binding_item :=
  mk_item true (fst p) (snd p).

(** A table as presses and releases leave it: 64 entries, the assigned
    ones first. *)
Definition tidy (combos : list rc_binding_item) : Prop :=
  exists (H : list (rc_binding_type * Z)) (U : list rc_binding_item),
    combos = map item_of H ++ U /\
    Forall (fun c => assigned c = false) U /\
    length combos = COMBOS_NUM.

(** A list without the first occurrence of [x]. *)
Fixpoint remove_first (x : rc_binding_type * Z)
    (l : list (rc_binding_type * Z)) : list (rc_binding_type * Z) :=
  match l with
  | [] => []
  | y :: rest => if decide (x = y) then rest else y :: remove_first x rest
  end.

(** Key presses of the codes [k], [k+1], ..., one after the other. *)
Fixpoint press_codes (n : nat) (k : Z) (combos : list rc_binding_item)
    : list rc_binding_item :=
  match n with
  | O => combos
  | S n' => press_codes n' (k + 1) (manage_combos combos true RCBK k)
  end.

(** The table after 64 distinct keys went down and none came up. *)
Definition combos_full : list rc_binding_item :=
  Eval vm_compute in press_codes 64 0 combos_init.

End Combos.

(** ** Calibration ([calibration_steps], [manage_calibration],
       [prompt_cmd_calibrate]) *)

Module Calibration.
Import Combos.

(** [enum ctl_e], in the order of the source (the [WITH_PICO] entries are
    conditional and play no part in calibration). *)
Inductive ctl_e :=
| CTL_PAD1_UP | CTL_PAD1_DOWN | CTL_PAD1_LEFT | CTL_PAD1_RIGHT
| CTL_PAD1_A | CTL_PAD1_B | CTL_PAD1_C
| CTL_PAD1_X | CTL_PAD1_Y | CTL_PAD1_Z
| CTL_PAD1_MODE | CTL_PAD1_START
| CTL_PAD2_UP | CTL_PAD2_DOWN | CTL_PAD2_LEFT | CTL_PAD2_RIGHT
| CTL_PAD2_A | CTL_PAD2_B | CTL_PAD2_C
| CTL_PAD2_X | CTL_PAD2_Y | CTL_PAD2_Z
| CTL_PAD2_MODE | CTL_PAD2_START
| CTL_DGEN_QUIT | CTL_DGEN_CRAPTV_TOGGLE | CTL_DGEN_SCALING_TOGGLE
| CTL_DGEN_RESET
| CTL_DGEN_SLOT0 | CTL_DGEN_SLOT1 | CTL_DGEN_SLOT2 | CTL_DGEN_SLOT3
| CTL_DGEN_SLOT4 | CTL_DGEN_SLOT5 | CTL_DGEN_SLOT6 | CTL_DGEN_SLOT7
| CTL_DGEN_SLOT8 | CTL_DGEN_SLOT9
| CTL_DGEN_SLOT_NEXT | CTL_DGEN_SLOT_PREV
| CTL_DGEN_SAVE | CTL_DGEN_LOAD
| CTL_DGEN_Z80_TOGGLE | CTL_DGEN_CPU_TOGGLE
| CTL_DGEN_STOP | CTL_DGEN_PROMPT | CTL_DGEN_GAME_GENIE
| CTL_DGEN_VOLUME_INC | CTL_DGEN_VOLUME_DEC
| CTL_DGEN_FULLSCREEN_TOGGLE | CTL_DGEN_FIX_CHECKSUM
| CTL_DGEN_SCREENSHOT | CTL_DGEN_DEBUG_ENTER
| CTL_.

Scheme Equality for ctl_e.

(** The binding slots of the control table: for a control [id] and a
    binding type [type], the code held in the [rc] array of [control[id]]. *)
Definition control_table := ctl_e -> rc_binding_type -> Z.

(** The assignment of [code] to slot [type] of [control[id].rc]. *)
Definition set_binding (ctl : control_table) (id : ctl_e)
    (t : rc_binding_type) (k : Z) : control_table :=
  fun id' t' =>
    if ctl_e_beq id' id && rc_binding_type_eqb t' t then k else ctl id' t'.

(** One element of [calibration_steps[]]. *)
Record calibration_step := mk_step {
  name : option String.string;   (* NULL in the last element *)
  id : ctl_e * ctl_e;            (* enum ctl_e const id[2] *)
  once : bool;
  twice : bool;
  step_type : rc_binding_type;
  step_code : Z
}.

Definition fresh_step (n : option String.string) (i1 i2 : ctl_e)
    : calibration_step :=
  mk_step n (i1, i2) false false RCB_NUM (-1).

(** The initialiser of [calibration_steps[]]: twelve buttons and the
    closing element. *)
Definition calibration_steps_init : list calibration_step :=
  [ fresh_step (Some "START"%string) CTL_PAD1_START CTL_PAD2_START;
    fresh_step (Some "MODE"%string) CTL_PAD1_MODE CTL_PAD2_MODE;
    fresh_step (Some "A"%string) CTL_PAD1_A CTL_PAD2_A;
    fresh_step (Some "B"%string) CTL_PAD1_B CTL_PAD2_B;
    fresh_step (Some "C"%string) CTL_PAD1_C CTL_PAD2_C;
    fresh_step (Some "X"%string) CTL_PAD1_X CTL_PAD2_X;
    fresh_step (Some "Y"%string) CTL_PAD1_Y CTL_PAD2_Y;
    fresh_step (Some "Z"%string) CTL_PAD1_Z CTL_PAD2_Z;
    fresh_step (Some "UP"%string) CTL_PAD1_UP CTL_PAD2_UP;
    fresh_step (Some "DOWN"%string) CTL_PAD1_DOWN CTL_PAD2_DOWN;
    fresh_step (Some "LEFT"%string) CTL_PAD1_LEFT CTL_PAD2_LEFT;
    fresh_step (Some "RIGHT"%string) CTL_PAD1_RIGHT CTL_PAD2_RIGHT;
    fresh_step None CTL_ CTL_ ].

(** [elemof(calibration_steps)] *)
Definition STEPS_NUM : nat := 13.

Record state := mk_state {
  calibrating : bool;
  calibrating_controller : Z;      (* unsigned int, 0 or 1 *)
  calibration_steps : list calibration_step;
  frz : Freeze.state;              (* pd_freeze, pd_freeze_ref *)
  control : control_table
}.

(** [calibration_steps[i].id[calibrating_controller]] *)
Definition step_id (s : calibration_step) (controller : Z) : ctl_e :=
  if controller =? 0 then fst (id s) else snd (id s).

(** The [while] loop: the index of the first step that is not both
    [once] and [twice], at most [elemof(calibration_steps)]. *)
Fixpoint first_open (n step : nat) (l : list calibration_step) : nat :=
  match n with
  | O => step
  | S n' =>
      match l !! step with
      | Some s => if once s && twice s then first_open n' (S step) l else step
      | None => step
      end
  end.

(** The "reset everything" loop. *)
Definition reset_steps (l : list calibration_step) : list calibration_step :=
  map (fun s => mk_step (name s) (id s) false false RCB_NUM (-1)) l.

(** The commit loop under [ask:]. *)
Definition commit (controller : Z) (l : list calibration_step)
    (ctl : control_table) : control_table :=
  fold_left
    (fun c s =>
       if negb (ctl_e_beq (step_id s controller) CTL_) &&
          negb (rc_binding_type_eqb (step_type s) RCB_NUM)
       then set_binding c (step_id s controller) (step_type s) (step_code s)
       else c)
    l ctl.

(** The code from the label [ask:] on, reached with [step]. *)
Definition ask (step : nat) (st : state) : state :=
  if Nat.eqb step STEPS_NUM then
    match calibration_steps st !! (STEPS_NUM - 1)%nat with
    | Some last =>
        if step_code last =? -1 then st
        else mk_state (calibrating st) (calibrating_controller st) (calibration_steps st)
                      (frz st)
                      (commit (calibrating_controller st) (calibration_steps st) (control st))
    | None => st
    end
  else st.

(** [static void manage_calibration(enum rc_binding_type type,
    intptr_t code)] *)
Definition manage_calibration (t : rc_binding_type) (k : Z) (st : state)
    : state :=
  if negb (calibrating st) then
    ask 0 (mk_state true (calibrating_controller st) (calibration_steps st)
                    (Freeze.freeze true (frz st)) (control st))
  else
    let step := first_open STEPS_NUM 0 (calibration_steps st) in
    if Nat.eqb step STEPS_NUM then
      mk_state false (calibrating_controller st) (reset_steps (calibration_steps st))
               (Freeze.freeze false (frz st)) (control st)
    else
      match calibration_steps st !! step with
      | None => st
      | Some s =>
          let s1 :=
            if negb (once s)
            then mk_step (name s) (id s) true (twice s) t k
            else s in
          let st1 := mk_state (calibrating st) (calibrating_controller st)
                              (<[step := s1]> (calibration_steps st)) (frz st) (control st) in
          if negb (once s1) || negb (twice s1) then st1
          else ask (S step) st1
      end.

(** [prompt_cmd_calibrate] with a valid controller number: select the
    controller and enter calibration. *)
Definition prompt_cmd_calibrate (controller : Z) (st : state) : state :=
  manage_calibration RCB_NUM (-1)
    (mk_state (calibrating st) controller (calibration_steps st) (frz st) (control st)).

(** Physical input events delivered while calibrating, first one first. *)
Definition deliver (events : list (rc_binding_type * Z)) (st : state) : state :=
  fold_left (fun s e => manage_calibration (fst e) (snd e) s) events st.

(** The program state before [calibrate] is typed. *)
Definition idle (fr : Freeze.state) (ctl : control_table) : state :=
  mk_state false 0 calibration_steps_init fr ctl.

(** Calibration is under way and no step has its second confirmation. *)
Definition unconfirmed (st : state) : Prop :=
  calibrating st = true /\ length (calibration_steps st) = STEPS_NUM /\
  Forall (fun s => twice s = false) (calibration_steps st).

(** Two events for each of the twelve buttons: keys 1, 1, 2, 2, ... *)
Definition two_per_step : list (rc_binding_type * Z) :=
  flat_map (fun k => [(RCBK, k); (RCBK, k)]) (seqZ 1 12).

(** One event for each of the twelve buttons. *)
Definition one_per_step : list (rc_binding_type * Z) :=
  map (fun k => (RCBK, k)) (seqZ 1 12).

End Calibration.

(** ** Filter stack ([filters_available], [filters_stack],
       [filters_stack_update] and the mutators) *)

Module Filters.

(** The three filtering functions a [struct filter] can point to. *)
Inductive filter_func := filter_stretch | filter_scale | filter_off.

(** [struct filter] *)
Record filter := mk_filter {
  filter_name : String.string;
  func : filter_func;
  safe : bool;
  ctv : bool;
  resize : bool
}.

(** [static const struct filter filters_available[]] *)
Definition filters_available : list filter :=
  [ mk_filter "stretch" filter_stretch false false true;
    mk_filter "scale" filter_scale false false true ].

(** [&filters_available[0]], the default filter of [filters_stack_update]. *)
Definition default_filter : filter :=
  mk_filter "stretch" filter_stretch false false true.

(** [elemof(filters_stack)] *)
Definition STACK_MAX : nat := 64.

(** The filter globals.  The array [filters_stack[]] and its fill count
    [filters_stack_size] are one list: the entries in use, bottom first,
    its length being [filters_stack_size].  The two scratch buffers
    [filters_stack_data_buf[0..1]] are reduced to being allocated or
    not. *)
Record state := mk_state {
  filters_stack : list filter;
  filters_stack_default : bool;
  data_buf0 : bool;
  data_buf1 : bool
}.

(** The environment of a rebuild: the byte size [screen.pitch *
    screen.height] asked of [realloc], and whether the [n]-th [realloc]
    call of the rebuild returns a buffer. *)
Record env := mk_env {
  buf_size : Z;
  realloc_ok : nat -> bool
}.

(** The first loop's count of filters that are not [safe] and not on top,
    for the stack from index [i] on. *)
Fixpoint count_buffers (l : list filter) : nat :=
  match l with
  | [] => 0
  | [_] => 0
  | f :: rest => (if safe f then 0 else 1) + count_buffers rest
  end.

(** The removal loop run after a failed [realloc]: the first filter that
    is not [safe] leaves the stack. *)
Fixpoint remove_first_unsafe (l : list filter) : list filter :=
  match l with
  | [] => []
  | f :: rest => if safe f then f :: remove_first_unsafe rest else rest
  end.

(** How one pass from the label [retry:] ends. *)
Inductive pass_end :=
| Retry (st : state) (calls : nat)     (* goto retry *)
| Wired (st : state).                  (* falls through to the I/O wiring *)

(** The reallocation loop over buffers [i], [i+1], ... below [buffers];
    [calls] counts the [realloc] calls made so far. *)
Fixpoint realloc_loop (n i : nat) (e : env) (calls : nat) (st : state)
    : pass_end :=
  match n with
  | O => Wired st
  | S n' =>
      let got := realloc_ok e calls in
      let set_buf (b : bool) :=
        if Nat.eqb i 0
        then mk_state (filters_stack st) (filters_stack_default st) b (data_buf1 st)
        else mk_state (filters_stack st) (filters_stack_default st) (data_buf0 st) b in
      if buf_size e =? 0 then
        realloc_loop n' (S i) e (S calls) (set_buf false)
      else if negb got then
        let st1 := set_buf false in
        Retry (mk_state (remove_first_unsafe (filters_stack st1))
                        (filters_stack_default st1)
                        (data_buf0 st1) (data_buf1 st1))
              (S calls)
      else realloc_loop n' (S i) e (S calls) (set_buf true)
  end.

(** One pass of [filters_stack_update] from [retry:] up to the wiring of
    the I/O descriptors (which reads the stack and writes only
    [filters_stack_data]). *)
Definition update_pass (e : env) (calls : nat) (st : state) : pass_end :=
  let buffers := count_buffers (filters_stack st) in
  match filters_stack st with
  | [] =>
      Retry (mk_state [default_filter] true (data_buf0 st) (data_buf1 st)) calls
  | _ :: rest =>
      if (Nat.ltb 1 (length (filters_stack st))) && filters_stack_default st then
        Retry (mk_state rest false (data_buf0 st) (data_buf1 st)) calls
      else if negb (Nat.eqb buffers 0) then
        if Nat.ltb 2 buffers then realloc_loop 2 0 e calls st
        else
          realloc_loop buffers 0 e calls
            (mk_state (filters_stack st) (filters_stack_default st)
                      (data_buf0 st) false)
      else
        Wired (mk_state (filters_stack st) (filters_stack_default st) false false)
  end.

(** The [retry:] loop, at most [fuel] passes. *)
Fixpoint update_loop (fuel : nat) (e : env) (calls : nat) (st : state)
    : option state :=
  match fuel with
  | O => None
  | S fuel' =>
      match update_pass e calls st with
      | Wired st' => Some st'
      | Retry st' calls' => update_loop fuel' e calls' st'
      end
  end.

(** [static void filters_stack_update()] *)
Definition filters_stack_update (e : env) (st : state) : option state :=
  update_loop (2 * length (filters_stack st) + 5) e 0 st.

(** [static void filters_push(const struct filter *f)], [f != NULL] *)
Definition filters_push (e : env) (f : filter) (st : state) : option state :=
  if Nat.eqb (length (filters_stack st)) STACK_MAX then Some st
  else filters_stack_update e
         (mk_state (filters_stack st ++ [f]) (filters_stack_default st)
                   (data_buf0 st) (data_buf1 st)).

(** [static void filters_insert(const struct filter *f)], [f != NULL] *)
Definition filters_insert (e : env) (f : filter) (st : state) : option state :=
  if Nat.eqb (length (filters_stack st)) STACK_MAX then Some st
  else filters_stack_update e
         (mk_state (f :: filters_stack st) (filters_stack_default st)
                   (data_buf0 st) (data_buf1 st)).

(** [static void filters_remove(unsigned int index)] *)
Definition filters_remove (e : env) (index : nat) (st : state) : option state :=
  if Nat.leb (length (filters_stack st)) index then Some st
  else filters_stack_update e
         (mk_state (delete index (filters_stack st)) (filters_stack_default st)
                   (data_buf0 st) (data_buf1 st)).

Definition filter_eqb (f g : filter) : bool :=
  String.eqb (filter_name f) (filter_name g).

(** [static void filters_pluck(const struct filter *f)], [f != NULL];
    the filters of [filters_available] are told apart by their names. *)
Definition filters_pluck (e : env) (f : filter) (st : state) : option state :=
  filters_stack_update e
    (mk_state (List.filter (fun g => negb (filter_eqb g f)) (filters_stack st))
              (filters_stack_default st) (data_buf0 st) (data_buf1 st)).

(** Passes still possible from a state: the bound that makes the
    [retry:] loop finite. *)
Definition passes_left (st : state) : nat :=
  match filters_stack st with
  | [] => 4%nat
  | _ :: _ => (2 * length (filters_stack st) +
              (if filters_stack_default st then 1 else 0))%nat
  end.

(** The stack and flag as the program starts: nothing pushed, no default
    inserted. *)
Definition initial : state := mk_state [] false false false.

End Filters.

(** ** Stretch filter ([filter_stretch]): initialisation of the repeat
       tables *)

Module Stretch.

(** How the initialisation part of [filter_stretch] ends. *)
Inductive init_result :=
| Fallback                     (* out->failed = true; filter_off(in, out) *)
| Undefined                    (* a division by zero *)
| Ready (h_table v_table : list Z) (dst_w dst_h : Z).

(** [++table[i]] on a [uint8_t] table. *)
Definition incr (i : Z) (table : list Z) : list Z :=
  alter (fun c => (c + 1) mod 256) (Z.to_nat i) table.

(** The loop [for (dst = d; dst != dst_dim; ++dst)] that fills one table,
    with [n] iterations to go; [None] when [ratio] is zero at a division. *)
Fixpoint fill_loop (n : nat) (d ratio src_dim : Z) (table : list Z)
    : option (list Z) :=
  match n with
  | O => Some table
  | S n' =>
      if ratio =? 0 then None
      else
        let s := uint_wrap (Z.shiftl d 10) / ratio in
        fill_loop n' (d + 1) ratio src_dim
                  (if s <? src_dim then incr s table else table)
  end.

(** The table for one dimension, from the [calloc]ed zeroes. *)
Definition fill_table (dst_dim ratio src_dim : Z) : option (list Z) :=
  fill_loop (Z.to_nat dst_dim) 0 ratio src_dim
            (replicate (Z.to_nat src_dim) 0).

(** The block under [if (dgen_aspect)]: the output size that keeps the
    source's aspect ratio. *)
Definition aspect_fix (src_w src_h dst_w dst_h : Z) : Z * Z :=
  let w := uint_wrap (dst_h * src_w) / src_h in
  let h := uint_wrap (dst_w * src_h) / src_w in
  if w >=? dst_w then (dst_w, if h =? 0 then uint_wrap (h + 1) else h)
  else (if w =? 0 then uint_wrap (w + 1) else w, dst_h).

(** The initialisation path of [filter_stretch] (entered with
    [out->failed] and [out->updated] clear) for an input of [src_w] by
    [src_h] pixels and an output of [out_w] by [out_h]; [Bpp] is
    [screen.Bpp], [aspect] is [dgen_aspect != 0], [calloc_ok] tells
    whether [calloc] returns a block. *)
Definition filter_stretch_init (Bpp : Z) (aspect calloc_ok : bool)
    (src_w src_h in_pitch out_w out_h out_pitch : Z) : init_result :=
  if (src_h =? 0) || (src_w =? 0) then Fallback
  else if Bpp =? 0 then Undefined
  else if negb (in_pitch mod Bpp =? 0) || negb (out_pitch mod Bpp =? 0)
  then Fallback
  else if negb ((Bpp =? 1) || (Bpp =? 2) || (Bpp =? 3) || (Bpp =? 4))
  then Fallback
  else
    let '(dst_w, dst_h) :=
      if aspect then aspect_fix src_w src_h out_w out_h else (out_w, out_h) in
    let h_ratio := uint_wrap (Z.shiftl dst_w 10) / src_w in
    let v_ratio := uint_wrap (Z.shiftl dst_h 10) / src_h in
    if negb calloc_ok then Fallback
    else
      match fill_table dst_w h_ratio src_w with
      | None => Undefined
      | Some h_table =>
          match fill_table dst_h v_ratio src_h with
          | None => Undefined
          | Some v_table => Ready h_table v_table dst_w dst_h
          end
      end.

(** Sum of a table. *)
Definition table_sum (table : list Z) : Z := fold_right Z.add 0 table.

(** First destination coordinate that maps to source coordinate [s] or
    beyond, for a ratio [r]: the ceiling of [s * r / 1024]. *)
Definition first_dst (r s : Z) : Z := (s * r + 1023) / 1024.

(** Number of destination coordinates below [k] that map to source
    coordinate [s]. *)
Definition hits (r k s : Z) : Z :=
  Z.min k (first_dst r (s + 1)) - Z.min k (first_dst r s).

End Stretch.

(** ** Text input ([kb_input_t], [kb_input]) *)

Module KbInput.

(** The two memory blocks [kb_input] touches. *)
Inductive region :=
| InputBuf      (* the block input->buf points to *)
| History.      (* static char history[HISTORY_LEN][64] *)

(** Results of code that reads and writes memory by index: a value, or
    the first access outside the block it was aimed at. *)
Inductive outcome (A : Type) :=
| Ok (a : A)
| OutOfBounds (r : region) (index : Z).
Arguments Ok {A} a.
Arguments OutOfBounds {A} r index.

Definition bind {A B} (c : outcome A) (k : A -> outcome B) : outcome B :=
  match c with
  | Ok a => k a
  | OutOfBounds r i => OutOfBounds r i
  end.

Notation "x <- c ;; k" := (bind c (fun x => k))
  (at level 100, c at next level, right associativity).

(** [mem[i]] as an rvalue. *)
Definition load (r : region) (mem : list Z) (i : Z) : outcome Z :=
  if (0 <=? i) && (i <? Z.of_nat (length mem)) then
    match mem !! Z.to_nat i with
    | Some c => Ok c
    | None => OutOfBounds r i
    end
  else OutOfBounds r i.

(** [mem[i] = c] *)
Definition store (r : region) (mem : list Z) (i c : Z) : outcome (list Z) :=
  if (0 <=? i) && (i <? Z.of_nat (length mem)) then Ok (<[Z.to_nat i := c]> mem)
  else OutOfBounds r i.

(** [memmove(&mem[dst], &mem[src], n)]: [n] bytes are read from [src] on
    and written from [dst] on; the reported index is the first one past
    the block. *)
Definition memmove (r : region) (mem : list Z) (dst src n : Z)
    : outcome (list Z) :=
  let len := Z.of_nat (length mem) in
  if n =? 0 then Ok mem
  else if (src <? 0) || (src + n >? len) then OutOfBounds r (Z.max src len)
  else if (dst <? 0) || (dst + n >? len) then OutOfBounds r (Z.max dst len)
  else Ok (list_inserts (Z.to_nat dst)
                        (take (Z.to_nat n) (drop (Z.to_nat src) mem)) mem).

(** The [n] characters [strncpy(dst, &mem[i], n)] writes: those of the
    string at [mem[i]] up to its terminator, then zeroes. *)
Fixpoint strncpy_chars (r : region) (mem : list Z) (i : Z) (n : nat)
    : outcome (list Z) :=
  match n with
  | O => Ok []
  | S n' =>
      c <- load r mem i ;;
      if c =? 0 then Ok (replicate (S n') 0)
      else rest <- strncpy_chars r mem (i + 1) n' ;; Ok (c :: rest)
  end.

(** [strlen(&mem[i])], looking at no more than [fuel] characters. *)
Fixpoint strlen (r : region) (mem : list Z) (i : Z) (fuel : nat) : outcome Z :=
  match fuel with
  | O => OutOfBounds r i
  | S fuel' =>
      c <- load r mem i ;;
      if c =? 0 then Ok 0
      else l <- strlen r mem (i + 1) fuel' ;; Ok (l + 1)
  end.

(** The key codes [kb_input] compares [ksym] with.  [KEYSYM_MOD_CTRL] is
    defined in [pd-defs.h] and the [SDLK_*] codes in SDL's headers,
    neither of which is among the sources: [kb_input] takes them as a
    parameter. *)
Record keysyms := mk_keysyms {
  KEYSYM_MOD_CTRL : Z;
  SDLK_DELETE : Z;
  SDLK_BACKSPACE : Z;
  SDLK_LEFT : Z;
  SDLK_RIGHT : Z;
  SDLK_RETURN : Z;
  SDLK_KP_ENTER : Z;
  SDLK_ESCAPE : Z;
  SDLK_UP : Z;
  SDLK_DOWN : Z
}.

(** The codes of SDL 1.2, with bit 28 for the Ctrl modifier, for the
    examples. *)
Definition sdl_keysyms : keysyms :=
  mk_keysyms 268435456 127 8 276 275 13 271 27 273 274.

(** [kb_input_t]: [buf] is the block [input->buf] points to. *)
Record kb_input_t := mk_input {
  buf : list Z;
  pos : Z;       (* size_t *)
  size : Z       (* size_t *)
}.

(** [enum kb_input] *)
Inductive kb_input_e :=
| KB_INPUT_ABORTED | KB_INPUT_ENTERED | KB_INPUT_CONSUMED | KB_INPUT_IGNORED.

Definition HISTORY_LEN : Z := 32.
Definition HISTORY_ROW : Z := 64.

(** The function's statics: [history] (its rows laid end to end),
    [history_pos] and [history_len]. *)
Record history_t := mk_history {
  history : list Z;
  history_pos : Z;   (* int *)
  history_len : Z    (* int *)
}.

Definition history_init : history_t :=
  mk_history (replicate (Z.to_nat (HISTORY_LEN * HISTORY_ROW)) 0) (-1) 0.

(** [isprint(c)] in the C locale. *)
Definition isprint (c : Z) : bool := (32 <=? c) && (c <=? 126).

(** The tail shared by the [SDLK_UP] and [SDLK_DOWN] branches:
    [strncpy(input->buf, history[history_pos], input->size);
     input->buf[input->size - 1] = 0; input->pos = strlen(input->buf);] *)
Definition recall (input : kb_input_t) (h : history_t)
    : outcome (kb_input_e * kb_input_t * history_t) :=
  chars <- strncpy_chars History (history h)
             (history_pos h * HISTORY_ROW) (Z.to_nat (size input)) ;;
  (if size input >? Z.of_nat (length (buf input))
   then OutOfBounds InputBuf (Z.of_nat (length (buf input)))
   else
     let buf1 := list_inserts 0 chars (buf input) in
     buf2 <- store InputBuf buf1 (size_wrap (size input - 1)) 0 ;;
     l <- strlen InputBuf buf2 0 (S (length buf2)) ;;
     Ok (KB_INPUT_CONSUMED, mk_input buf2 l (size input), h)).

(** [static enum kb_input kb_input(kb_input_t *input, uint32_t ksym,
    uint16_t ksym_uni)] *)
Definition kb_input (K : keysyms) (input : kb_input_t) (h : history_t)
    (ksym ksym_uni : Z) : outcome (kb_input_e * kb_input_t * history_t) :=
  let c := ksym_uni mod 256 in
  if negb (Z.land ksym (KEYSYM_MOD_CTRL K) =? 0) then
    Ok (KB_INPUT_IGNORED, input, h)
  else if isprint c then
    if pos input >=? size_wrap (size input - 1) then
      Ok (KB_INPUT_CONSUMED, input, h)
    else
      c0 <- load InputBuf (buf input) (pos input) ;;
      buf1 <- (if c0 =? 0
               then store InputBuf (buf input) (size_wrap (pos input + 1)) 0
               else Ok (buf input)) ;;
      buf2 <- store InputBuf buf1 (pos input) c ;;
      Ok (KB_INPUT_CONSUMED,
          mk_input buf2 (size_wrap (pos input + 1)) (size input), h)
  else if ksym =? SDLK_DELETE K then
    c0 <- load InputBuf (buf input) (pos input) ;;
    if c0 =? 0 then Ok (KB_INPUT_CONSUMED, input, h)
    else
      let tail := size_wrap (size_wrap (size input - pos input) + 1) in
      buf1 <- memmove InputBuf (buf input) (pos input)
                      (size_wrap (pos input + 1)) tail ;;
      Ok (KB_INPUT_CONSUMED, mk_input buf1 (pos input) (size input), h)
  else if ksym =? SDLK_BACKSPACE K then
    if pos input =? 0 then Ok (KB_INPUT_CONSUMED, input, h)
    else
      let pos1 := size_wrap (pos input - 1) in
      let tail := size_wrap (size_wrap (size input - pos1) + 1) in
      buf1 <- memmove InputBuf (buf input) pos1 (size_wrap (pos1 + 1)) tail ;;
      Ok (KB_INPUT_CONSUMED, mk_input buf1 pos1 (size input), h)
  else if ksym =? SDLK_LEFT K then
    Ok (KB_INPUT_CONSUMED,
        mk_input (buf input)
                 (if pos input =? 0 then pos input else size_wrap (pos input - 1))
                 (size input), h)
  else if ksym =? SDLK_RIGHT K then
    c0 <- load InputBuf (buf input) (pos input) ;;
    Ok (KB_INPUT_CONSUMED,
        mk_input (buf input)
                 (if c0 =? 0 then pos input else size_wrap (pos input + 1))
                 (size input), h)
  else if (ksym =? SDLK_RETURN K) || (ksym =? SDLK_KP_ENTER K) then
    if pos input =? 0 then
      Ok (KB_INPUT_ABORTED, input, mk_history (history h) (-1) (history_len h))
    else
      let len1 := if history_len h <? HISTORY_LEN
                  then history_len h + 1 else history_len h in
      hist1 <- memmove History (history h) HISTORY_ROW 0
                       (size_wrap ((len1 - 1) * HISTORY_ROW)) ;;
      chars <- strncpy_chars InputBuf (buf input) 0 (Z.to_nat HISTORY_ROW) ;;
      Ok (KB_INPUT_ENTERED, input,
          mk_history (list_inserts 0 chars hist1) (-1) len1)
  else if ksym =? SDLK_ESCAPE K then
    Ok (KB_INPUT_ABORTED, input, mk_history (history h) 0 (history_len h))
  else if ksym =? SDLK_UP K then
    if size input =? 0 then Ok (KB_INPUT_CONSUMED, input, h)
    else
      let hp := if history_pos h <? history_len h - 1
                then history_pos h + 1 else history_pos h in
      recall input (mk_history (history h) hp (history_len h))
  else if ksym =? SDLK_DOWN K then
    if (size input =? 0) || (history_pos h <? 0) then
      Ok (KB_INPUT_CONSUMED, input, h)
    else
      let hp := if history_pos h >? 0
                then history_pos h - 1 else history_pos h in
      recall input (mk_history (history h) hp (history_len h))
  else Ok (KB_INPUT_IGNORED, input, h).

(** The Game Genie prompt's buffer ([static char buf[12]] of
    [manage_game_genie]) after [A] and [B] were typed and the cursor was
    moved back to the start of the line. *)
Definition genie_input : kb_input_t :=
  mk_input [65; 66; 0; 0; 0; 0; 0; 0; 0; 0; 0; 0] 0 12.

End KbInput.

(** ** Sound set-up and the sample pointers ([sound], [sndi],
       [pd_sound_init], [pd_sound_deinit], [pd_sound_rp], [pd_sound_wp],
       [pd_sound_write]) *)

Module Sound.
Import Cbuf.

(** [struct sndinfo] is declared in [md.h], which is not among the
    sources; the code uses two fields of [sndi]: [lr], the frame's
    interleaved 16-bit samples (here as bytes, [None] for [NULL]), and
    [len], an unsigned count of stereo samples per frame. *)
Record sndinfo := mk_sndinfo {
  lr : option (list byte);
  len : Z
}.

(** The static [sound] struct; [data_set] tells whether
    [sound.cbuf.data.i16] is not [NULL]. *)
Record sound_t := mk_sound {
  rate : Z;            (* unsigned int *)
  samples : Z;         (* unsigned int *)
  cbuf : cbuf_t;
  data_set : bool
}.

(** [memset(&sound, 0, sizeof(sound))] *)
Definition sound_zero : sound_t := mk_sound 0 0 (mk_cbuf 0 0 0 []) false.

(** What SDL and the allocator report to [pd_sound_init]. *)
Record audio_env := mk_audio_env {
  init_subsystem_fails : bool;   (* SDL_InitSubSystem(SDL_INIT_AUDIO) != 0 *)
  open_audio_fails : bool;       (* SDL_OpenAudio(&wanted, &spec) < 0 *)
  spec_channels : Z;             (* spec.channels *)
  spec_format_ok : bool;         (* spec.format == wanted.format *)
  spec_freq : Z;                 (* spec.freq, an int *)
  spec_samples : Z;              (* spec.samples, a Uint16 *)
  calloc_lr_ok : bool;           (* the allocator has room for sndi.lr *)
  calloc_data_ok : bool          (* the allocator has room for the buffer *)
}.

(** [calloc(nmemb, size)]: zeroed storage, or [NULL] when the allocator
    has no room or the product does not fit a [size_t]. *)
Definition calloc (ok : bool) (nmemb size : Z) : option (list byte) :=
  if ok && (nmemb * size <? SIZE_MOD)
  then Some (replicate (Z.to_nat (nmemb * size)) Byte.x00)
  else None.

(** [void pd_sound_deinit()], on [sound] and [sndi]. *)
Definition pd_sound_deinit (sound : sound_t) (sndi : sndinfo)
    : sound_t * sndinfo :=
  (sound_zero, mk_sndinfo None (len sndi)).

(** The code under the label [snd_error:]. *)
Definition snd_error : sound_t * sndinfo := (sound_zero, mk_sndinfo None 0).

(** What [pd_sound_init] leaves behind: the returned value, the two
    reference arguments and the two globals. *)
Record init_result := mk_result {
  ret : Z;
  freq_out : Z;
  samples_out : Z;
  sound_out : sound_t;
  sndi_out : sndinfo
}.

(** [int pd_sound_init(long &freq, unsigned int &samples)], the code
    under [#ifndef NOSOUND]; [video_hz] is [video.hz].  [None] stands for
    the division by a zero [video.hz]. *)
Definition pd_sound_init (env : audio_env) (video_hz : Z)
    (freq samples_in : Z) (sound : sound_t) (sndi : sndinfo)
    : option init_result :=
  let '(sound0, sndi0) := pd_sound_deinit sound sndi in
  if init_subsystem_fails env then
    Some (mk_result 0 freq samples_in sound0 sndi0)
  else if open_audio_fails env then
    Some (mk_result 0 freq samples_in sound0 sndi0)
  else if negb (spec_channels env =? 2) then
    Some (mk_result 0 freq samples_in (fst snd_error) (snd snd_error))
  else if negb (spec_format_ok env) then
    Some (mk_result 0 freq samples_in (fst snd_error) (snd snd_error))
  else if video_hz =? 0 then None
  else
    let rate1 := uint_wrap (spec_freq env) in
    let len1 := uint_wrap (spec_freq env) / video_hz in
    let samples1 := uint_wrap (samples_in + spec_samples env) in
    let size1 := size_wrap (uint_wrap (samples1 * 4)) in
    let lr1 := calloc (calloc_lr_ok env) 2 (size_wrap (len1 * 2)) in
    let data1 := calloc (calloc_data_ok env) 1 size1 in
    match lr1, data1 with
    | Some l, Some d =>
        Some (mk_result 1 (spec_freq env) samples1
                (mk_sound rate1 (spec_samples env) (mk_cbuf 0 0 size1 d) true)
                (mk_sndinfo (Some l) len1))
    | _, _ =>
        Some (mk_result 0 (spec_freq env) samples1
                (fst snd_error) (snd snd_error))
    end.

(** [unsigned int pd_sound_rp()] *)
Definition pd_sound_rp (sound : sound_t) : Z :=
  if cbuf_size (cbuf sound) =? 0 then 0
  else Z.shiftr (uint_wrap (cbuf_i (cbuf sound))) 2.

(** [unsigned int pd_sound_wp()] *)
Definition pd_sound_wp (sound : sound_t) : Z :=
  if cbuf_size (cbuf sound) =? 0 then 0
  else
    Z.shiftr
      (uint_wrap (size_wrap (cbuf_i (cbuf sound) + cbuf_s (cbuf sound))
                  mod cbuf_size (cbuf sound))) 2.

(** [void pd_sound_write()]: the frame in [sndi.lr] goes into
    [sound.cbuf].  Past the test of [sound.cbuf.size], [cbuf_write] does
    not divide by zero. *)
Definition pd_sound_write (sound : sound_t) (sndi : sndinfo) : sound_t :=
  if cbuf_size (cbuf sound) =? 0 then sound
  else
    let src := match lr sndi with Some l => l | None => [] end in
    match cbuf_write (cbuf sound) src (size_wrap (uint_wrap (len sndi * 4))) with
    | Some (_, c') => mk_sound (rate sound) (samples sound) c' (data_set sound)
    | None => sound
    end.

(** [snd_callback] on the [sound] struct; [None] is its division by
    zero. *)
Definition callback (stream : list byte) (n : Z) (sound : sound_t)
    : option (list byte * sound_t) :=
  match snd_callback stream n (cbuf sound) with
  | None => None
  | Some (stream', c') =>
      Some (stream', mk_sound (rate sound) (samples sound) c' (data_set sound))
  end.

End Sound.

(** ** Filter descriptors: the I/O wiring of [filters_stack_update] and
       [filters_find] *)

Module FilterData.
Import Filters.

(** The buffers a [filter_data] can point into: the Mega Drive screen
    [mdscr.data], the SDL surface [screen.buf] and the two scratch
    buffers [buf[0]] and [buf[1]] of [filters_stack_update]. *)
Inductive buffer :=
| Mdscr
| ScreenBuf
| Tmp (second : bool).     (* buf[0] is [Tmp false], buf[1] is [Tmp true] *)

(** [struct filter_data]; [fd_data] tells whether [data] is not [NULL]. *)
Record filter_data := mk_fd {
  fd_buf : buffer;
  fd_width : Z;
  fd_height : Z;
  fd_pitch : Z;
  fd_data : bool;
  fd_updated : bool;
  fd_failed : bool
}.

(** The globals the two descriptors [in_fd] and [out_fd] are made of. *)
Record geometry := mk_geometry {
  video_width : Z;
  video_height : Z;
  mdscr_pitch : Z;
  screen_width : Z;
  screen_height : Z;
  screen_info_height : Z;
  screen_pitch : Z
}.

(** [struct filter_data in_fd] *)
Definition in_fd (g : geometry) : filter_data :=
  mk_fd Mdscr (video_width g) (video_height g) (uint_wrap (mdscr_pitch g))
        false false false.

(** [struct filter_data out_fd] *)
Definition out_fd (g : geometry) : filter_data :=
  mk_fd ScreenBuf (screen_width g)
        (uint_wrap (screen_height g - screen_info_height g))
        (screen_pitch g) false false false.

(** The descriptor of an output into [buf[buffers]]. *)
Definition tmp_fd (g : geometry) (buffers : bool) : filter_data :=
  mk_fd (Tmp buffers) (screen_width g)
        (uint_wrap (screen_height g - screen_info_height g))
        (screen_pitch g) false false false.

(** The loop under "Update I/O buffers": the descriptors
    [filters_stack_data[i + 1]] for the filters from index [i] on, [prev]
    being [*prev_fd] and [buffers] the index of the scratch buffer to use
    next. *)
Fixpoint wire_loop (g : geometry) (stack : list filter) (prev : filter_data)
    (buffers : bool) : list filter_data :=
  match stack with
  | [] => []
  | f :: rest =>
      match rest with
      | [] => [out_fd g]
      | _ :: _ =>
          if safe f then prev :: wire_loop g rest prev buffers
          else tmp_fd g buffers :: wire_loop g rest (tmp_fd g buffers) (negb buffers)
      end
  end.

(** The entries [0 .. filters_stack_size] of [filters_stack_data] after
    the rebuild. *)
Definition wire (g : geometry) (stack : list filter) : list filter_data :=
  in_fd g :: wire_loop g stack (in_fd g) false.

(** Whether a scratch buffer is allocated in a state. *)
Definition allocated (st : state) (b : buffer) : bool :=
  match b with
  | Tmp false => data_buf0 st
  | Tmp true => data_buf1 st
  | _ => true
  end.

(** [tolower] in the C locale. *)
Definition tolower (c : ascii) : ascii :=
  let n := nat_of_ascii c in
  if (Nat.leb 65 n && Nat.leb n 90)%bool then ascii_of_nat (n + 32) else c.

(** [!strcasecmp(a, b)] *)
Fixpoint strcasecmp_eq (a b : String.string) : bool :=
  match a, b with
  | EmptyString, EmptyString => true
  | String x a', String y b' =>
      Ascii.eqb (tolower x) (tolower y) && strcasecmp_eq a' b'
  | _, _ => false
  end.

(** The loop of [filters_find] over the table from some index on. *)
Fixpoint find_from (name : String.string) (table : list filter) : option filter :=
  match table with
  | [] => None
  | f :: rest =>
      if strcasecmp_eq name (filter_name f) then Some f else find_from name rest
  end.

(** [static const struct filter *filters_find(const char *name)] *)
Definition filters_find (name : String.string) : option filter :=
  find_from name filters_available.

(** A string with its letters in lower case. *)
Fixpoint lower (s : String.string) : String.string :=
  match s with
  | EmptyString => EmptyString
  | String c s' => String (tolower c) (lower s')
  end.

(** The scratch buffers that are allocated are the ones the stack
    needs. *)
Definition flags_match (e : env) (st : state) : Prop :=
  data_buf0 st =
    (negb (buf_size e =? 0)%Z && Nat.leb 1 (count_buffers (filters_stack st)))%bool /\
  data_buf1 st =
    (negb (buf_size e =? 0)%Z && Nat.leb 2 (count_buffers (filters_stack st)))%bool.

(** A stack as a rebuild leaves it: not empty, and flagged as default
    only when it holds the default filter alone. *)
Definition settled (st : state) : Prop :=
  filters_stack st <> [] /\
  (filters_stack_default st = true -> filters_stack st = [default_filter]).

(** Every [realloc] of the rebuild returns a buffer. *)
Definition never_fails (e : env) : Prop := forall n, realloc_ok e n = true.

End FilterData.

(** ** The edited line and the Game Genie prompt ([kb_input],
       [manage_game_genie]) *)

Module KbLine.
Import KbInput.

(** The C string held in a block: its characters up to the first NUL. *)
Fixpoint cstring (mem : list Z) : list Z :=
  match mem with
  | [] => []
  | c :: rest => if c =? 0 then [] else c :: cstring rest
  end.

(** An input line as [kb_input] expects it: [size] is the size of the
    block, the block holds a terminated string, and the cursor is on one
    of its characters or on its terminator. *)
Definition line_ok (input : kb_input_t) : Prop :=
  Z.of_nat (length (buf input)) = size input /\
  size input < SIZE_MOD /\
  Z.of_nat (length (cstring (buf input))) < size input /\
  0 <= pos input <= Z.of_nat (length (cstring (buf input))).

(** The history as [kb_input] keeps it: [HISTORY_LEN] rows, a fill count
    within the array, and a recall position that is -1 or inside the
    filled part (0 when nothing is filled yet). *)
Definition hist_ok (h : history_t) : Prop :=
  Z.of_nat (length (history h)) = HISTORY_LEN * HISTORY_ROW /\
  0 <= history_len h <= HISTORY_LEN /\
  -1 <= history_pos h < Z.max 1 (history_len h).

(** The key codes [kb_input] tells apart, in the order it tests them. *)
Definition key_codes (K : keysyms) : list Z :=
  [ SDLK_DELETE K; SDLK_BACKSPACE K; SDLK_LEFT K; SDLK_RIGHT K;
    SDLK_RETURN K; SDLK_KP_ENTER K; SDLK_ESCAPE K; SDLK_UP K; SDLK_DOWN K ].

Fixpoint distinctb (l : list Z) : bool :=
  match l with
  | [] => true
  | x :: rest => forallb (fun y => negb (y =? x)) rest && distinctb rest
  end.

(** The codes are different keys, and none of them has the Ctrl bit. *)
Definition keys_ok (K : keysyms) : Prop :=
  distinctb (key_codes K) = true /\
  forallb (fun k => Z.land k (KEYSYM_MOD_CTRL K) =? 0) (key_codes K) = true.

(** [static int manage_game_genie(md& megad, intptr_t ksym, intptr_t
    ksym_uni)]: its statics [buf] and [input] are the [kb_input_t], and
    [patches] lists the strings handed to [megad.patch] so far.
    [uint32_t] and [uint16_t] are the parameter types of [kb_input]. *)
Definition manage_game_genie (K : keysyms) (input : kb_input_t)
    (h : history_t) (patches : list (list Z)) (ksym ksym_uni : Z)
    : outcome (Z * kb_input_t * history_t * list (list Z)) :=
  r <- kb_input K input h (ksym mod 2 ^ 32) (ksym_uni mod 2 ^ 16) ;;
  match r with
  | (KB_INPUT_ENTERED, input', h') =>
      Ok (1, mk_input (replicate 12 0) 0 12, h', patches ++ [buf input'])
  | (_, input', h') => Ok (0, input', h', patches)
  end.

(** The Game Genie prompt as the program starts: [static char buf[12]]
    and [input = { buf, 0, sizeof(buf) }]. *)
Definition genie_start : kb_input_t := mk_input (replicate 12 0) 0 12.

(** Key presses handed to [manage_game_genie] one after the other, each
    with its [ksym] and [ksym_uni]; the value returned for the last one. *)
Fixpoint type_keys (K : keysyms) (keys : list (Z * Z)) (input : kb_input_t)
    (h : history_t) (patches : list (list Z))
    : outcome (Z * kb_input_t * history_t * list (list Z)) :=
  match keys with
  | [] => Ok (0, input, h, patches)
  | (ksym, ksym_uni) :: rest =>
      r <- manage_game_genie K input h patches ksym ksym_uni ;;
      match rest with
      | [] => Ok r
      | _ :: _ =>
          let '(_, input', h', patches') := r in
          type_keys K rest input' h' patches'
      end
  end.

(** A character key as [pd_handle_events] passes it on: the character is
    both [ksym] and [ksym_uni]. *)
Definition char_key (c : Z) : Z * Z := (c, c).

(** A character other than the terminator. *)
Definition nonzero (c : Z) : Prop := c <> 0.

End KbLine.

(** ** Controls ([control], the [ctl_*] handlers, [stop_events],
       [restart_events], [pd_stopped]) *)

Module Controls.
Import Calibration.

(** The button masks are defined in [md.h], which is not among the
    sources: the handlers take them as a parameter.  A pad word and a
    mask are non-negative, so that [&= ~mask] and [|= mask] are [Z.land]
    with [Z.lnot] and [Z.lor] whatever the width of [pad[]]. *)
Record md_masks := mk_masks {
  MD_UP_MASK : Z;
  MD_DOWN_MASK : Z;
  MD_LEFT_MASK : Z;
  MD_RIGHT_MASK : Z;
  MD_A_MASK : Z;
  MD_B_MASK : Z;
  MD_C_MASK : Z;
  MD_X_MASK : Z;
  MD_Y_MASK : Z;
  MD_Z_MASK : Z;
  MD_MODE_MASK : Z;
  MD_START_MASK : Z
}.

(** The part of [class md] the handlers below write: [pad[0]] and
    [pad[1]]. *)
Record md := mk_md {
  pad0 : Z;
  pad1 : Z
}.

(** The functions [control[]] points to. *)
Inductive press_fn :=
| fn_pad1 | fn_pad2 | fn_dgen_quit | fn_dgen_reset | fn_dgen_slot
| fn_dgen_slot_next | fn_dgen_slot_prev | fn_dgen_save | fn_dgen_load
| fn_dgen_z80_toggle | fn_dgen_cpu_toggle | fn_dgen_stop
| fn_dgen_game_genie | fn_dgen_volume | fn_dgen_fix_checksum
| fn_dgen_screenshot | fn_dgen_debug_enter.

Inductive release_fn := fn_pad1_release | fn_pad2_release.

(** [struct ctl]; [has_rc] tells whether [rc] is not [NULL]. *)
Record ctl := mk_ctl {
  ctl_type : ctl_e;
  has_rc : bool;
  press : option press_fn;
  release : option release_fn;
  pressed : bool;
  coord : bool;
  ctl_x : Z;
  ctl_y : Z
}.

(** An element [{ type, &rc, press, release, DEF }]. *)
Definition entry (t : ctl_e) (p : press_fn) (r : option release_fn) : ctl :=
  mk_ctl t true (Some p) r false false 0 0.

(** [static struct ctl control[]] (without [WITH_PICO]). *)
Definition control_init : list ctl :=
  [ entry CTL_PAD1_UP fn_pad1 (Some fn_pad1_release);
    entry CTL_PAD1_DOWN fn_pad1 (Some fn_pad1_release);
    entry CTL_PAD1_LEFT fn_pad1 (Some fn_pad1_release);
    entry CTL_PAD1_RIGHT fn_pad1 (Some fn_pad1_release);
    entry CTL_PAD1_A fn_pad1 (Some fn_pad1_release);
    entry CTL_PAD1_B fn_pad1 (Some fn_pad1_release);
    entry CTL_PAD1_C fn_pad1 (Some fn_pad1_release);
    entry CTL_PAD1_X fn_pad1 (Some fn_pad1_release);
    entry CTL_PAD1_Y fn_pad1 (Some fn_pad1_release);
    entry CTL_PAD1_Z fn_pad1 (Some fn_pad1_release);
    entry CTL_PAD1_MODE fn_pad1 (Some fn_pad1_release);
    entry CTL_PAD1_START fn_pad1 (Some fn_pad1_release);
    entry CTL_PAD2_UP fn_pad2 (Some fn_pad2_release);
    entry CTL_PAD2_DOWN fn_pad2 (Some fn_pad2_release);
    entry CTL_PAD2_LEFT fn_pad2 (Some fn_pad2_release);
    entry CTL_PAD2_RIGHT fn_pad2 (Some fn_pad2_release);
    entry CTL_PAD2_A fn_pad2 (Some fn_pad2_release);
    entry CTL_PAD2_B fn_pad2 (Some fn_pad2_release);
    entry CTL_PAD2_C fn_pad2 (Some fn_pad2_release);
    entry CTL_PAD2_X fn_pad2 (Some fn_pad2_release);
    entry CTL_PAD2_Y fn_pad2 (Some fn_pad2_release);
    entry CTL_PAD2_Z fn_pad2 (Some fn_pad2_release);
    entry CTL_PAD2_MODE fn_pad2 (Some fn_pad2_release);
    entry CTL_PAD2_START fn_pad2 (Some fn_pad2_release);
    entry CTL_DGEN_QUIT fn_dgen_quit None;
    entry CTL_DGEN_RESET fn_dgen_reset None;
    entry CTL_DGEN_SLOT0 fn_dgen_slot None;
    entry CTL_DGEN_SLOT1 fn_dgen_slot None;
    entry CTL_DGEN_SLOT2 fn_dgen_slot None;
    entry CTL_DGEN_SLOT3 fn_dgen_slot None;
    entry CTL_DGEN_SLOT4 fn_dgen_slot None;
    entry CTL_DGEN_SLOT5 fn_dgen_slot None;
    entry CTL_DGEN_SLOT6 fn_dgen_slot None;
    entry CTL_DGEN_SLOT7 fn_dgen_slot None;
    entry CTL_DGEN_SLOT8 fn_dgen_slot None;
    entry CTL_DGEN_SLOT9 fn_dgen_slot None;
    entry CTL_DGEN_SLOT_NEXT fn_dgen_slot_next None;
    entry CTL_DGEN_SLOT_PREV fn_dgen_slot_prev None;
    entry CTL_DGEN_SAVE fn_dgen_save None;
    entry CTL_DGEN_LOAD fn_dgen_load None;
    entry CTL_DGEN_Z80_TOGGLE fn_dgen_z80_toggle None;
    entry CTL_DGEN_CPU_TOGGLE fn_dgen_cpu_toggle None;
    entry CTL_DGEN_STOP fn_dgen_stop None;
    entry CTL_DGEN_GAME_GENIE fn_dgen_game_genie None;
    entry CTL_DGEN_VOLUME_INC fn_dgen_volume None;
    entry CTL_DGEN_VOLUME_DEC fn_dgen_volume None;
    entry CTL_DGEN_FIX_CHECKSUM fn_dgen_fix_checksum None;
    entry CTL_DGEN_SCREENSHOT fn_dgen_screenshot None;
    entry CTL_DGEN_DEBUG_ENTER fn_dgen_debug_enter None;
    mk_ctl CTL_ false None None false false 0 0 ].

(** The mask a [CTL_PAD1_*] control stands for; 0 for the controls the
    [switch] of [ctl_pad1] leaves to [default:]. *)
Definition pad1_mask (M : md_masks) (t : ctl_e) : Z :=
  match t with
  | CTL_PAD1_UP => MD_UP_MASK M
  | CTL_PAD1_DOWN => MD_DOWN_MASK M
  | CTL_PAD1_LEFT => MD_LEFT_MASK M
  | CTL_PAD1_RIGHT => MD_RIGHT_MASK M
  | CTL_PAD1_A => MD_A_MASK M
  | CTL_PAD1_B => MD_B_MASK M
  | CTL_PAD1_C => MD_C_MASK M
  | CTL_PAD1_X => MD_X_MASK M
  | CTL_PAD1_Y => MD_Y_MASK M
  | CTL_PAD1_Z => MD_Z_MASK M
  | CTL_PAD1_MODE => MD_MODE_MASK M
  | CTL_PAD1_START => MD_START_MASK M
  | _ => 0
  end.

(** The same for [CTL_PAD2_*] and [ctl_pad2]. *)
Definition pad2_mask (M : md_masks) (t : ctl_e) : Z :=
  match t with
  | CTL_PAD2_UP => MD_UP_MASK M
  | CTL_PAD2_DOWN => MD_DOWN_MASK M
  | CTL_PAD2_LEFT => MD_LEFT_MASK M
  | CTL_PAD2_RIGHT => MD_RIGHT_MASK M
  | CTL_PAD2_A => MD_A_MASK M
  | CTL_PAD2_B => MD_B_MASK M
  | CTL_PAD2_C => MD_C_MASK M
  | CTL_PAD2_X => MD_X_MASK M
  | CTL_PAD2_Y => MD_Y_MASK M
  | CTL_PAD2_Z => MD_Z_MASK M
  | CTL_PAD2_MODE => MD_MODE_MASK M
  | CTL_PAD2_START => MD_START_MASK M
  | _ => 0
  end.

(** [static int ctl_pad1(struct ctl& ctl, md& megad)]: the returned value
    and [megad] afterwards. *)
Definition ctl_pad1 (M : md_masks) (c : ctl) (megad : md) : Z * md :=
  match ctl_type c with
  | CTL_PAD1_UP => (1, mk_md (Z.land (pad0 megad) (Z.lnot (MD_UP_MASK M))) (pad1 megad))
  | CTL_PAD1_DOWN => (1, mk_md (Z.land (pad0 megad) (Z.lnot (MD_DOWN_MASK M))) (pad1 megad))
  | CTL_PAD1_LEFT => (1, mk_md (Z.land (pad0 megad) (Z.lnot (MD_LEFT_MASK M))) (pad1 megad))
  | CTL_PAD1_RIGHT => (1, mk_md (Z.land (pad0 megad) (Z.lnot (MD_RIGHT_MASK M))) (pad1 megad))
  | CTL_PAD1_A => (1, mk_md (Z.land (pad0 megad) (Z.lnot (MD_A_MASK M))) (pad1 megad))
  | CTL_PAD1_B => (1, mk_md (Z.land (pad0 megad) (Z.lnot (MD_B_MASK M))) (pad1 megad))
  | CTL_PAD1_C => (1, mk_md (Z.land (pad0 megad) (Z.lnot (MD_C_MASK M))) (pad1 megad))
  | CTL_PAD1_X => (1, mk_md (Z.land (pad0 megad) (Z.lnot (MD_X_MASK M))) (pad1 megad))
  | CTL_PAD1_Y => (1, mk_md (Z.land (pad0 megad) (Z.lnot (MD_Y_MASK M))) (pad1 megad))
  | CTL_PAD1_Z => (1, mk_md (Z.land (pad0 megad) (Z.lnot (MD_Z_MASK M))) (pad1 megad))
  | CTL_PAD1_MODE => (1, mk_md (Z.land (pad0 megad) (Z.lnot (MD_MODE_MASK M))) (pad1 megad))
  | CTL_PAD1_START => (1, mk_md (Z.land (pad0 megad) (Z.lnot (MD_START_MASK M))) (pad1 megad))
  | _ => (1, megad)
  end.

(** [static int ctl_pad1_release(struct ctl& ctl, md& megad)] *)
Definition ctl_pad1_release (M : md_masks) (c : ctl) (megad : md) : Z * md :=
  match ctl_type c with
  | CTL_PAD1_UP => (1, mk_md (Z.lor (pad0 megad) (MD_UP_MASK M)) (pad1 megad))
  | CTL_PAD1_DOWN => (1, mk_md (Z.lor (pad0 megad) (MD_DOWN_MASK M)) (pad1 megad))
  | CTL_PAD1_LEFT => (1, mk_md (Z.lor (pad0 megad) (MD_LEFT_MASK M)) (pad1 megad))
  | CTL_PAD1_RIGHT => (1, mk_md (Z.lor (pad0 megad) (MD_RIGHT_MASK M)) (pad1 megad))
  | CTL_PAD1_A => (1, mk_md (Z.lor (pad0 megad) (MD_A_MASK M)) (pad1 megad))
  | CTL_PAD1_B => (1, mk_md (Z.lor (pad0 megad) (MD_B_MASK M)) (pad1 megad))
  | CTL_PAD1_C => (1, mk_md (Z.lor (pad0 megad) (MD_C_MASK M)) (pad1 megad))
  | CTL_PAD1_X => (1, mk_md (Z.lor (pad0 megad) (MD_X_MASK M)) (pad1 megad))
  | CTL_PAD1_Y => (1, mk_md (Z.lor (pad0 megad) (MD_Y_MASK M)) (pad1 megad))
  | CTL_PAD1_Z => (1, mk_md (Z.lor (pad0 megad) (MD_Z_MASK M)) (pad1 megad))
  | CTL_PAD1_MODE => (1, mk_md (Z.lor (pad0 megad) (MD_MODE_MASK M)) (pad1 megad))
  | CTL_PAD1_START => (1, mk_md (Z.lor (pad0 megad) (MD_START_MASK M)) (pad1 megad))
  | _ => (1, megad)
  end.

(** [static int ctl_pad2(struct ctl& ctl, md& megad)] *)
Definition ctl_pad2 (M : md_masks) (c : ctl) (megad : md) : Z * md :=
  match ctl_type c with
  | CTL_PAD2_UP => (1, mk_md (pad0 megad) (Z.land (pad1 megad) (Z.lnot (MD_UP_MASK M))))
  | CTL_PAD2_DOWN => (1, mk_md (pad0 megad) (Z.land (pad1 megad) (Z.lnot (MD_DOWN_MASK M))))
  | CTL_PAD2_LEFT => (1, mk_md (pad0 megad) (Z.land (pad1 megad) (Z.lnot (MD_LEFT_MASK M))))
  | CTL_PAD2_RIGHT => (1, mk_md (pad0 megad) (Z.land (pad1 megad) (Z.lnot (MD_RIGHT_MASK M))))
  | CTL_PAD2_A => (1, mk_md (pad0 megad) (Z.land (pad1 megad) (Z.lnot (MD_A_MASK M))))
  | CTL_PAD2_B => (1, mk_md (pad0 megad) (Z.land (pad1 megad) (Z.lnot (MD_B_MASK M))))
  | CTL_PAD2_C => (1, mk_md (pad0 megad) (Z.land (pad1 megad) (Z.lnot (MD_C_MASK M))))
  | CTL_PAD2_X => (1, mk_md (pad0 megad) (Z.land (pad1 megad) (Z.lnot (MD_X_MASK M))))
  | CTL_PAD2_Y => (1, mk_md (pad0 megad) (Z.land (pad1 megad) (Z.lnot (MD_Y_MASK M))))
  | CTL_PAD2_Z => (1, mk_md (pad0 megad) (Z.land (pad1 megad) (Z.lnot (MD_Z_MASK M))))
  | CTL_PAD2_MODE => (1, mk_md (pad0 megad) (Z.land (pad1 megad) (Z.lnot (MD_MODE_MASK M))))
  | CTL_PAD2_START => (1, mk_md (pad0 megad) (Z.land (pad1 megad) (Z.lnot (MD_START_MASK M))))
  | _ => (1, megad)
  end.

(** [static int ctl_pad2_release(struct ctl& ctl, md& megad)] *)
Definition ctl_pad2_release (M : md_masks) (c : ctl) (megad : md) : Z * md :=
  match ctl_type c with
  | CTL_PAD2_UP => (1, mk_md (pad0 megad) (Z.lor (pad1 megad) (MD_UP_MASK M)))
  | CTL_PAD2_DOWN => (1, mk_md (pad0 megad) (Z.lor (pad1 megad) (MD_DOWN_MASK M)))
  | CTL_PAD2_LEFT => (1, mk_md (pad0 megad) (Z.lor (pad1 megad) (MD_LEFT_MASK M)))
  | CTL_PAD2_RIGHT => (1, mk_md (pad0 megad) (Z.lor (pad1 megad) (MD_RIGHT_MASK M)))
  | CTL_PAD2_A => (1, mk_md (pad0 megad) (Z.lor (pad1 megad) (MD_A_MASK M)))
  | CTL_PAD2_B => (1, mk_md (pad0 megad) (Z.lor (pad1 megad) (MD_B_MASK M)))
  | CTL_PAD2_C => (1, mk_md (pad0 megad) (Z.lor (pad1 megad) (MD_C_MASK M)))
  | CTL_PAD2_X => (1, mk_md (pad0 megad) (Z.lor (pad1 megad) (MD_X_MASK M)))
  | CTL_PAD2_Y => (1, mk_md (pad0 megad) (Z.lor (pad1 megad) (MD_Y_MASK M)))
  | CTL_PAD2_Z => (1, mk_md (pad0 megad) (Z.lor (pad1 megad) (MD_Z_MASK M)))
  | CTL_PAD2_MODE => (1, mk_md (pad0 megad) (Z.lor (pad1 megad) (MD_MODE_MASK M)))
  | CTL_PAD2_START => (1, mk_md (pad0 megad) (Z.lor (pad1 megad) (MD_START_MASK M)))
  | _ => (1, megad)
  end.

(** The value of an enumerator of [enum ctl_e] (without [WITH_PICO]). *)
Definition ctl_e_value (t : ctl_e) : Z :=
  match t with
  | CTL_PAD1_UP => 0 | CTL_PAD1_DOWN => 1 | CTL_PAD1_LEFT => 2
  | CTL_PAD1_RIGHT => 3 | CTL_PAD1_A => 4 | CTL_PAD1_B => 5
  | CTL_PAD1_C => 6 | CTL_PAD1_X => 7 | CTL_PAD1_Y => 8
  | CTL_PAD1_Z => 9 | CTL_PAD1_MODE => 10 | CTL_PAD1_START => 11
  | CTL_PAD2_UP => 12 | CTL_PAD2_DOWN => 13 | CTL_PAD2_LEFT => 14
  | CTL_PAD2_RIGHT => 15 | CTL_PAD2_A => 16 | CTL_PAD2_B => 17
  | CTL_PAD2_C => 18 | CTL_PAD2_X => 19 | CTL_PAD2_Y => 20
  | CTL_PAD2_Z => 21 | CTL_PAD2_MODE => 22 | CTL_PAD2_START => 23
  | CTL_DGEN_QUIT => 24 | CTL_DGEN_CRAPTV_TOGGLE => 25
  | CTL_DGEN_SCALING_TOGGLE => 26 | CTL_DGEN_RESET => 27
  | CTL_DGEN_SLOT0 => 28 | CTL_DGEN_SLOT1 => 29 | CTL_DGEN_SLOT2 => 30
  | CTL_DGEN_SLOT3 => 31 | CTL_DGEN_SLOT4 => 32 | CTL_DGEN_SLOT5 => 33
  | CTL_DGEN_SLOT6 => 34 | CTL_DGEN_SLOT7 => 35 | CTL_DGEN_SLOT8 => 36
  | CTL_DGEN_SLOT9 => 37 | CTL_DGEN_SLOT_NEXT => 38
  | CTL_DGEN_SLOT_PREV => 39 | CTL_DGEN_SAVE => 40 | CTL_DGEN_LOAD => 41
  | CTL_DGEN_Z80_TOGGLE => 42 | CTL_DGEN_CPU_TOGGLE => 43
  | CTL_DGEN_STOP => 44 | CTL_DGEN_PROMPT => 45
  | CTL_DGEN_GAME_GENIE => 46 | CTL_DGEN_VOLUME_INC => 47
  | CTL_DGEN_VOLUME_DEC => 48 | CTL_DGEN_FULLSCREEN_TOGGLE => 49
  | CTL_DGEN_FIX_CHECKSUM => 50 | CTL_DGEN_SCREENSHOT => 51
  | CTL_DGEN_DEBUG_ENTER => 52 | CTL_ => 53
  end.

(** [static int ctl_dgen_slot(struct ctl& ctl, md&)]: the returned value
    and [slot] afterwards. *)
Definition ctl_dgen_slot (c : ctl) (slot : Z) : Z * Z :=
  (1, ctl_e_value (ctl_type c) - ctl_e_value CTL_DGEN_SLOT0).

(** [static int ctl_dgen_slot_next(struct ctl&, md&)] *)
Definition ctl_dgen_slot_next (slot : Z) : Z * Z :=
  (1, if slot =? 9 then 0 else slot + 1).

(** [static int ctl_dgen_slot_prev(struct ctl&, md&)] *)
Definition ctl_dgen_slot_prev (slot : Z) : Z * Z :=
  (1, if slot =? 0 then 9 else slot - 1).

(** [static int ctl_dgen_volume(struct ctl& ctl, md&)]: the returned
    value and [dgen_volume] afterwards. *)
Definition ctl_dgen_volume (c : ctl) (dgen_volume : Z) : Z * Z :=
  let v := if ctl_e_beq (ctl_type c) CTL_DGEN_VOLUME_INC
           then dgen_volume + 1 else dgen_volume - 1 in
  (1, if v <? 0 then 0 else if v >? 100 then 100 else v).

(** [enum events] *)
Inductive events_e :=
| STARTED | STOPPED | STOPPED_PROMPT | STOPPED_GAME_GENIE | PROMPT | GAME_GENIE.

(** The globals [stop_events] and [restart_events] work on; of SDL's own
    state, the input grab, the cursor and the key repeat. *)
Record state := mk_state {
  stopped : Z;                 (* static int stopped *)
  frz : Freeze.state;          (* pd_freeze, pd_freeze_ref *)
  events : events_e;
  control : list ctl;
  megad : md;
  grab_on : bool;              (* SDL_WM_GrabInput(SDL_GRAB_QUERY) == SDL_GRAB_ON *)
  cursor_shown : bool;
  key_repeat : bool
}.

(** The call through [ctl->release]. *)
Definition call_release (M : md_masks) (f : release_fn) (c : ctl) (m : md)
    : Z * md :=
  match f with
  | fn_pad1_release => ctl_pad1_release M c m
  | fn_pad2_release => ctl_pad2_release M c m
  end.

(** The loop "Release controls." of [stop_events] from some element on:
    the table, [megad], and whether a handler returned 0. *)
Fixpoint release_loop (M : md_masks) (ctls : list ctl) (m : md)
    : list ctl * md * bool :=
  match ctls with
  | [] => ([], m, false)
  | c :: rest =>
      if negb (has_rc c) then (c :: rest, m, false)
      else if negb (pressed c) then
        let '(rest', m', failed) := release_loop M rest m in
        (c :: rest', m', failed)
      else
        let c' := mk_ctl (ctl_type c) (has_rc c) (press c) (release c)
                         false false (ctl_x c) (ctl_y c) in
        match release c with
        | Some f =>
            let '(ret, m1) := call_release M f c' m in
            if ret =? 0 then (c' :: rest, m1, true)
            else
              let '(rest', m', failed) := release_loop M rest m1 in
              (c' :: rest', m', failed)
        | None =>
            let '(rest', m', failed) := release_loop M rest m in
            (c' :: rest', m', failed)
        end
  end.

(** [static void mouse_grab(bool grab)]: the grab and the cursor
    afterwards. *)
Definition mouse_grab (grab pd_freeze grab_now cursor : bool) : bool * bool :=
  if grab && negb pd_freeze && negb grab_now then (true, false)
  else if negb grab && grab_now then (false, true)
  else (grab_now, cursor).

(** [static int stop_events(md& megad, enum events status)] *)
Definition stop_events (M : md_masks) (status : events_e) (st : state)
    : Z * state :=
  let frz1 := Freeze.freeze true (frz st) in
  let '(ctls, m, failed) := release_loop M (control st) (megad st) in
  if failed then
    (-1, mk_state 1 frz1 status ctls m (grab_on st) (cursor_shown st)
                  (key_repeat st))
  else
    let '(g, cur) := mouse_grab false (Freeze.pd_freeze frz1) (grab_on st)
                                (cursor_shown st) in
    (0, mk_state 1 frz1 status ctls m g cur true).

(** [static void restart_events(md& megad)] *)
Definition restart_events (st : state) : state :=
  mk_state 1 (Freeze.freeze false (frz st)) STARTED (control st) (megad st)
           (grab_on st) (cursor_shown st) false.

(** [static int ctl_dgen_stop(struct ctl&, md& megad)] *)
Definition ctl_dgen_stop (M : md_masks) (st : state) : Z * state :=
  let '(r, st') := stop_events M STOPPED st in
  if negb (r =? 0) then (0, st') else (1, st').

(** [static int ctl_dgen_game_genie(struct ctl&, md& megad)] *)
Definition ctl_dgen_game_genie (M : md_masks) (st : state) : Z * state :=
  let '(r, st') := stop_events M GAME_GENIE st in
  if negb (r =? 0) then (0, st') else (1, st').

(** [int pd_stopped()] *)
Definition pd_stopped (st : state) : Z * state :=
  (stopped st,
   mk_state 0 (frz st) (events st) (control st) (megad st) (grab_on st)
            (cursor_shown st) (key_repeat st)).

(** The entries of a table that the loops over [control] visit: those
    before the first one without [rc]. *)
Fixpoint visited (ctls : list ctl) : list ctl :=
  match ctls with
  | [] => []
  | c :: rest => if has_rc c then c :: visited rest else []
  end.

(** The pressed controls of a table that [f] releases. *)
Definition held_by (f : release_fn) (ctls : list ctl) : list ctl :=
  List.filter
    (fun c => pressed c &&
              match release c, f with
              | Some fn_pad1_release, fn_pad1_release => true
              | Some fn_pad2_release, fn_pad2_release => true
              | _, _ => false
              end)
    (visited ctls).

End Controls.

(** ** Delayed release of mouse motion ([mouse_motion_release],
       [mouse_motion_delay_release], [mouse_motion_released]) *)

Module Mouse.

(** [static struct { unsigned long when[0x100]; uint8_t enabled[0x100 / 8];
    unsigned int count; } mouse_motion_release] *)
Record mouse_motion_release_t := mk_release {
  when : list Z;
  enabled : list Z;
  count : Z
}.

(** The zero-initialised static. *)
Definition release_init : mouse_motion_release_t :=
  mk_release (replicate 256 0) (replicate 32 0) 0.

(** [(1 << ((which) % 8))] *)
Definition bit (which : Z) : Z := Z.shiftl 1 (which mod 8).

(** [MOUSE_MOTION_RELEASE_IS_ENABLED(which)] as a truth value. *)
Definition is_enabled (en : list Z) (which : Z) : bool :=
  match en !! Z.to_nat (which / 8) with
  | Some b => negb (Z.land b (bit which) =? 0)
  | None => false
  end.

(** [MOUSE_MOTION_RELEASE_DISABLE(which)] on the [uint8_t] array. *)
Definition disable (en : list Z) (which : Z) : list Z :=
  alter (fun b => Z.land b (Z.lnot (bit which)) mod 256)
        (Z.to_nat (which / 8)) en.

(** [MOUSE_MOTION_RELEASE_ENABLE(which)] *)
Definition enable (en : list Z) (which : Z) : list Z :=
  alter (fun b => Z.lor b (bit which) mod 256) (Z.to_nat (which / 8)) en.

(** [(unsigned long)(dgen_mouse_delay * 1000)], [unsigned long] being 32
    bits wide on the target. *)
Definition delay_usecs (dgen_mouse_delay : Z) : Z :=
  uint_wrap (dgen_mouse_delay * 1000).

(** [static void mouse_motion_delay_release(unsigned int which, bool
    enable)]; [on] is the argument [enable]. *)
Definition mouse_motion_delay_release (dgen_mouse_delay : Z) (which : Z)
    (on : bool) (st : mouse_motion_release_t) : mouse_motion_release_t :=
  if which >=? 256 then st
  else if negb on then
    if negb (is_enabled (enabled st) which) then st
    else mk_release (when st) (disable (enabled st) which)
                    (uint_wrap (count st - 1))
  else
    let st1 :=
      if negb (is_enabled (enabled st) which)
      then mk_release (when st) (enable (enabled st) which)
                      (uint_wrap (count st + 1))
      else st in
    mk_release (<[Z.to_nat which := delay_usecs dgen_mouse_delay]> (when st1))
               (enabled st1) (count st1).

(** The [for] loop of [mouse_motion_released] from index [i], with [n]
    iterations to go before [i] reaches [count]: the device whose motion
    is released, if any, and the static afterwards. *)
Fixpoint released_loop (n : nat) (i : Z) (dgen_mouse_delay : Z)
    (st : mouse_motion_release_t) : option Z * mouse_motion_release_t :=
  match n with
  | O => (None, st)
  | S n' =>
      if negb (is_enabled (enabled st) i) then
        released_loop n' (i + 1) dgen_mouse_delay st
      else
        let now := 0 in
        let diff :=
          uint_wrap (match when st !! Z.to_nat i with
                     | Some w => w
                     | None => 0
                     end - now) in
        if diff <? delay_usecs dgen_mouse_delay then
          released_loop n' (i + 1) dgen_mouse_delay st
        else
          (Some i, mk_release (when st) (disable (enabled st) i)
                              (uint_wrap (count st - 1)))
  end.

(** [static bool mouse_motion_released(SDL_Event *event)]: [Some which]
    stands for [true] with [event->motion.which] set to [which]. *)
Definition mouse_motion_released (dgen_mouse_delay : Z)
    (st : mouse_motion_release_t) : option Z * mouse_motion_release_t :=
  if count st =? 0 then (None, st)
  else released_loop (Z.to_nat (count st)) 0 dgen_mouse_delay st.

(** The number of devices whose bit is set. *)
Definition enabled_count (en : list Z) : Z :=
  Z.of_nat (length (List.filter (is_enabled en) (seqZ 0 256))).

(** The static as the two functions keep it: the arrays have their
    sizes, the flags are bytes, and [count] is the number of bits set. *)
Definition inv (st : mouse_motion_release_t) : Prop :=
  length (when st) = 256%nat /\ length (enabled st) = 32%nat /\
  Forall (fun b => 0 <= b < 256) (enabled st) /\
  count st = enabled_count (enabled st).

End Mouse.

(** ** The pixel loops: [filter_off], [filter_scale], [filter_stretch_X]
       and the pixel conversions of [do_screenshot] *)

Module Pixels.
Import Stretch.

(** A block of memory is the list of its bytes and a pointer into it is
    an offset.  Reads past the end of a block read nothing and writes
    there write nothing: the theorems are stated for blocks that hold
    everything the loops touch. *)

(** [memcpy(dst + d, src + s, n)] *)
Definition memcpy (dst : list Z) (d : nat) (src : list Z) (s n : nat) : list Z :=
  list_inserts d (take n (drop s src)) dst.

(** [src[x]] for pixels of [Bpp] bytes, [src] being at offset [off]. *)
Definition pixel (Bpp : nat) (m : list Z) (off x : nat) : list Z :=
  take Bpp (drop (off + x * Bpp) m).

(** The fields of a [struct filter_data] the pixel loops use; [pb_off]
    is [buf.u8] as an offset into its block. *)
Record pixbuf := mk_pixbuf {
  pb_off : nat;
  pb_width : Z;
  pb_height : Z;
  pb_pitch : Z;
  pb_updated : bool;
  pb_failed : bool
}.

(** The loop [for (line = 0; line != height; ++line)] of [filter_off],
    with [n] lines to go. *)
Fixpoint off_lines (n len : nat) (in_buf in_pitch out_buf out_pitch : nat)
    (src dst : list Z) : list Z :=
  match n with
  | O => dst
  | S n' =>
      off_lines n' len (in_buf + in_pitch) in_pitch (out_buf + out_pitch) out_pitch
                src (memcpy dst out_buf src in_buf len)
  end.

(** [static void filter_off(const struct filter_data *in, struct
    filter_data *out)].  [aliased] tells whether [in->buf.u8 ==
    out->buf.u8]; otherwise the input is in the block [src] and the
    output in the block [dst].  [Bpp] is [screen.Bpp]. *)
Definition filter_off (Bpp : Z) (aliased : bool) (i : pixbuf) (src : list Z)
    (o : pixbuf) (dst : list Z) : pixbuf * list Z :=
  if aliased then (o, dst)
  else
    let height :=
      if pb_height i >? pb_height o then pb_height o else pb_height i in
    let o' :=
      if pb_updated o then o
      else
        let o1 :=
          if pb_width i <=? pb_width o then
            let x_off := uint_wrap (pb_width o - pb_width i) / 2 in
            let y_off := uint_wrap (pb_height o - height) / 2 in
            mk_pixbuf (pb_off o + Z.to_nat (uint_wrap (x_off * Bpp))
                       + Z.to_nat (uint_wrap (pb_pitch o * y_off)))%nat
                      (pb_width i) (pb_height o) (pb_pitch o)
                      (pb_updated o) (pb_failed o)
          else o in
        mk_pixbuf (pb_off o1) (pb_width o1) height (pb_pitch o1) true
                  (pb_failed o1) in
    (o', off_lines (Z.to_nat height) (Z.to_nat (uint_wrap (pb_width o' * Bpp)))
                   (pb_off i) (Z.to_nat (pb_pitch i))
                   (pb_off o') (Z.to_nat (pb_pitch o')) src dst).

(** [struct filter_scale_data]; [sd_Bpp] is the pixel size of the
    function [filter] points to. *)
Record scale_data := mk_scale_data {
  sd_x_scale : Z;
  sd_y_scale : Z;
  sd_Bpp : Z
}.

(** [for (i = 0; i != x_scale; ++i) *(out++) = tmp;] with [n] iterations
    to go. *)
Fixpoint put_run (n Bpp : nat) (tmp : list Z) (out : nat) (dst : list Z)
    : nat * list Z :=
  match n with
  | O => (out, dst)
  | S n' => put_run n' Bpp tmp (out + Bpp) (list_inserts out tmp dst)
  end.

(** [for (x = 0; x != width; ++x)] of [filter_scale_X], with [n] columns
    to go. *)
Fixpoint scale_row (n Bpp x_scale : nat) (src : list Z) (src_off x : nat)
    (out : nat) (dst : list Z) : list Z :=
  match n with
  | O => dst
  | S n' =>
      let tmp := pixel Bpp src src_off x in
      let '(out', dst') := put_run x_scale Bpp tmp out dst in
      scale_row n' Bpp x_scale src src_off (S x) out' dst'
  end.

(** [for (i = 1; i < y_scale; ++i)] of [filter_scale_X], with [k]
    iterations to go; [out] is the line copied from and [dst_off] the
    line copied to. *)
Fixpoint scale_copies (k len : nat) (out dst_off dst_pitch : nat)
    (dst : list Z) : nat * list Z :=
  match k with
  | O => (dst_off, dst)
  | S k' =>
      scale_copies k' len dst_off (dst_off + dst_pitch) dst_pitch
                   (memcpy dst dst_off dst out len)
  end.

(** [for (y = 0; y != height; ++y)] of [filter_scale_X], with [n] lines
    to go. *)
Fixpoint scale_rows (n Bpp width x_scale y_scale len : nat) (src : list Z)
    (src_off src_pitch dst_off dst_pitch : nat) (dst : list Z) : list Z :=
  match n with
  | O => dst
  | S n' =>
      let dst1 := scale_row width Bpp x_scale src src_off 0 dst_off dst in
      let '(dst_off', dst2) :=
        scale_copies (y_scale - 1) len dst_off (dst_off + dst_pitch) dst_pitch
                     dst1 in
      scale_rows n' Bpp width x_scale y_scale len src
                 (src_off + src_pitch) src_pitch dst_off' dst_pitch dst2
  end.

(** [filter_scale_X<uintX_t>] and [filter_scale_3], for pixels of
    [sd_Bpp d] bytes. *)
Definition filter_scale_X (d : scale_data) (i : pixbuf) (src : list Z)
    (o : pixbuf) (dst : list Z) : list Z :=
  scale_rows (Z.to_nat (pb_height i)) (Z.to_nat (sd_Bpp d))
             (Z.to_nat (pb_width i)) (Z.to_nat (sd_x_scale d))
             (Z.to_nat (sd_y_scale d))
             (Z.to_nat (size_wrap (pb_width i * sd_Bpp d * sd_x_scale d)))
             src (pb_off i) (Z.to_nat (pb_pitch i))
             (pb_off o) (Z.to_nat (pb_pitch o)) dst.

(** [while ((dim = (in_dim * scale)) > out_dim) --scale;] giving the
    final [(scale, dim)].  The test fails at the latest when the scale is
    zero, after [scale] decrements: [fuel] is the number of decrements
    left. *)
Fixpoint fit (fuel : nat) (in_dim out_dim scale : Z) : Z * Z :=
  let dim := uint_wrap (in_dim * scale) in
  match fuel with
  | O => (scale, dim)
  | S fuel' =>
      if dim >? out_dim then fit fuel' in_dim out_dim (uint_wrap (scale - 1))
      else (scale, dim)
  end.

(** [static void filter_scale(const struct filter_data *in, struct
    filter_data *out)].  [Bpp], [sx] and [sy] are [screen.Bpp],
    [screen.x_scale] and [screen.y_scale]; [data] is [out->data];
    [malloc_ok] tells whether [malloc] returns a block.  The filter is
    not safe, so that its input and output are in two blocks [src] and
    [dst].  [None] is the dereference of a null [out->data]. *)
Definition filter_scale (Bpp sx sy : Z) (malloc_ok : bool) (i : pixbuf)
    (src : list Z) (o : pixbuf) (data : option scale_data) (dst : list Z)
    : option (pixbuf * option scale_data * list Z) :=
  let failed :=
    let o1 := mk_pixbuf (pb_off o) (pb_width o) (pb_height o) (pb_pitch o)
                        (pb_updated o) true in
    let '(o', dst') := filter_off Bpp false i src o1 dst in
    Some (o', data, dst') in
  if pb_failed o then failed
  else if pb_updated o then
    match data with
    | None => None
    | Some d => Some (o, data, filter_scale_X d i src o dst)
    end
  else
    let '(x_scale, width) := fit (Z.to_nat sx) (pb_width i) (pb_width o) sx in
    let '(y_scale, height) := fit (Z.to_nat sy) (pb_height i) (pb_height o) sy in
    if (x_scale =? 0) || (y_scale =? 0) then failed
    else if (x_scale =? 1) && (y_scale =? 1) then failed
    else if negb ((Bpp =? 1) || (Bpp =? 2) || (Bpp =? 3) || (Bpp =? 4))
    then failed
    else if negb malloc_ok then failed
    else
      let d := mk_scale_data x_scale y_scale Bpp in
      let x_off := uint_wrap (pb_width o - width) / 2 in
      let y_off := uint_wrap (pb_height o - height) / 2 in
      let o' :=
        mk_pixbuf (pb_off o + Z.to_nat (uint_wrap (x_off * Bpp))
                   + Z.to_nat (uint_wrap (pb_pitch o * y_off)))%nat
                  width height (pb_pitch o) true (pb_failed o) in
      Some (o', Some d, filter_scale_X d i src o' dst).

(** [while (h_repeat--) dst[dst_x++] = src[src_x];] with [n] iterations
    to go. *)
Fixpoint stretch_run (n Bpp : nat) (src : list Z) (src_off src_x : nat)
    (dst_off dst_x : nat) (dst : list Z) : nat * list Z :=
  match n with
  | O => (dst_x, dst)
  | S n' =>
      stretch_run n' Bpp src src_off src_x dst_off (S dst_x)
                  (list_inserts (dst_off + dst_x * Bpp)
                                (pixel Bpp src src_off src_x) dst)
  end.

(** [for (src_x = 0, dst_x = 0; src_x != src_w; ++src_x)] of
    [filter_stretch_X], with [n] columns to go. *)
Fixpoint stretch_row (n Bpp : nat) (h_table : list Z) (src : list Z)
    (src_off src_x dst_off dst_x : nat) (dst : list Z) : list Z :=
  match n with
  | O => dst
  | S n' =>
      let h_repeat := default 0 (h_table !! src_x) in
      if h_repeat =? 0 then
        stretch_row n' Bpp h_table src src_off (S src_x) dst_off dst_x dst
      else
        let '(dst_x', dst') :=
          stretch_run (Z.to_nat h_repeat) Bpp src src_off src_x dst_off dst_x
                      dst in
        stretch_row n' Bpp h_table src src_off (S src_x) dst_off dst_x' dst'
  end.

(** [while (--v_repeat)] of [filter_stretch_X], with [k] iterations to
    go. *)
Fixpoint stretch_copies (k len : nat) (dst_off dst_pitch : nat)
    (dst : list Z) : nat * list Z :=
  match k with
  | O => (dst_off, dst)
  | S k' =>
      stretch_copies k' len (dst_off + dst_pitch) dst_pitch
                     (memcpy dst dst_off dst (dst_off - dst_pitch) len)
  end.

(** [for (src_y = 0; src_y != src_h; ++src_y)] of [filter_stretch_X],
    with [n] lines to go; the pitches are in bytes. *)
Fixpoint stretch_rows (n Bpp : nat) (h_table v_table : list Z)
    (src_w len : nat) (src : list Z) (src_off src_pitch src_y : nat)
    (dst_off dst_pitch : nat) (dst : list Z) : list Z :=
  match n with
  | O => dst
  | S n' =>
      let v_repeat := default 0 (v_table !! src_y) in
      if v_repeat =? 0 then
        stretch_rows n' Bpp h_table v_table src_w len src
                     (src_off + src_pitch) src_pitch (S src_y)
                     dst_off dst_pitch dst
      else
        let dst1 := stretch_row src_w Bpp h_table src src_off 0 dst_off 0 dst in
        let '(dst_off', dst2) :=
          stretch_copies (Z.to_nat v_repeat - 1) len (dst_off + dst_pitch)
                         dst_pitch dst1 in
        stretch_rows n' Bpp h_table v_table src_w len src
                     (src_off + src_pitch) src_pitch (S src_y)
                     dst_off' dst_pitch dst2
  end.

(** [filter_stretch_X<uintX_t>] and [filter_stretch_3] for pixels of
    [Bpp] bytes: [dst_pitch /= sizeof( *dst)] and [src_pitch /=
    sizeof( *src)] turn the pitches into pixels, which the pointer
    arithmetic turns back into bytes. *)
Definition filter_stretch_X (Bpp : Z) (h_table v_table : list Z)
    (i : pixbuf) (src : list Z) (o : pixbuf) (dst : list Z) : list Z :=
  stretch_rows (Z.to_nat (pb_height i)) (Z.to_nat Bpp) h_table v_table
               (Z.to_nat (pb_width i))
               (Z.to_nat (size_wrap (pb_width o * Bpp)))
               src (pb_off i) (Z.to_nat (pb_pitch i / Bpp * Bpp)) 0
               (pb_off o) (Z.to_nat (pb_pitch o / Bpp * Bpp)) dst.

(** The 24-bit pixel [out[x]] that [do_screenshot] writes for the 15-bit
    pixel [v] ([case 15]). *)
Definition tga_pixel_15 (v : Z) : Z * Z * Z :=
  (Z.land (Z.shiftl v 3) 248, Z.land (Z.shiftr v 2) 248,
   Z.land (Z.shiftr v 7) 248).

(** The same for a 16-bit pixel ([case 16]). *)
Definition tga_pixel_16 (v : Z) : Z * Z * Z :=
  (Z.land (Z.shiftl v 3) 248, Z.land (Z.shiftr v 3) 252,
   Z.land (Z.shiftr v 8) 248).

(** Writing the rows of [rows] one under the other from offset [off] on,
    [pitch] bytes apart. *)
Fixpoint blit (rows : list (list Z)) (off pitch : nat) (dst : list Z)
    : list Z :=
  match rows with
  | [] => dst
  | r :: rows' => blit rows' (off + pitch) pitch (list_inserts off r dst)
  end.

(** The items [f a], [f (a + 1)], ... [f (a + n - 1)], the item [f x]
    repeated [reps x] times. *)
Definition expand {A} (reps : nat -> nat) (f : nat -> A) (a n : nat) : list A :=
  flat_map (fun x => replicate (reps x) (f x)) (seq a n).

(** The number of items of [expand reps f 0 n]. *)
Fixpoint psum (reps : nat -> nat) (n : nat) : nat :=
  match n with
  | O => O
  | S n' => (psum reps n' + reps n')%nat
  end.

(** The line that [filter_scale_X] and [filter_stretch_X] make of the
    source line [y]. *)
Definition wide_line (Bpp : nat) (hreps : nat -> nat) (width : nat)
    (src : list Z) (src_off src_pitch y : nat) : list Z :=
  mjoin (expand hreps (pixel Bpp src (src_off + y * src_pitch)%nat) 0 width).

(** The repeat count of column or line [x] in a table of
    [filter_stretch]. *)
Definition treps (table : list Z) (x : nat) : nat :=
  Z.to_nat (default 0 (table !! x)).

End Pixels.

(** * Theorems *)

(** ** Machine integers *)

Lemma UINT_MOD_pos : 0 < UINT_MOD.
Proof. reflexivity. Qed.

Lemma SIZE_MOD_pos : 0 < SIZE_MOD.
Proof. reflexivity. Qed.

Lemma uint_wrap_small x : 0 <= x < UINT_MOD -> uint_wrap x = x.
Proof. intros H. unfold uint_wrap. apply Z.mod_small. exact H. Qed.

Lemma size_wrap_small x : 0 <= x < SIZE_MOD -> size_wrap x = x.
Proof. intros H. unfold size_wrap. apply Z.mod_small. exact H. Qed.

Lemma uint_wrap_range x : 0 <= uint_wrap x < UINT_MOD.
Proof. unfold uint_wrap. apply Z.mod_pos_bound. exact UINT_MOD_pos. Qed.

Lemma size_wrap_range x : 0 <= size_wrap x < SIZE_MOD.
Proof. unfold size_wrap. apply Z.mod_pos_bound. exact SIZE_MOD_pos. Qed.


(** Turn the boolean comparisons met while unfolding the code into
    propositions [lia] can use. *)
Ltac zb :=
  repeat match goal with
  | H : (_ >? _) = _ |- _ => rewrite Z.gtb_ltb in H
  | H : (_ >=? _) = _ |- _ => rewrite Z.geb_leb in H
  | H : (_ <? _) = true |- _ => apply Z.ltb_lt in H
  | H : (_ <? _) = false |- _ => apply Z.ltb_ge in H
  | H : (_ <=? _) = true |- _ => apply Z.leb_le in H
  | H : (_ <=? _) = false |- _ => apply Z.leb_gt in H
  | H : (_ =? _) = true |- _ => apply Z.eqb_eq in H
  | H : (_ =? _) = false |- _ => apply Z.eqb_neq in H
  end.

Ltac zcase :=
  match goal with
  | |- context [if ?b then _ else _] => destruct b eqn:?; zb
  end.

Module FreezeFacts.
Import Freeze.

Lemma init_inv : inv init.
Proof. unfold inv, init; simpl. split; [unfold UINT_MOD; lia | split; [discriminate | lia]]. Qed.

Lemma freeze_true_ref st :
  0 <= pd_freeze_ref st < UINT_MAX ->
  pd_freeze_ref (freeze true st) = pd_freeze_ref st + 1.
Proof.
  intros H. simpl. apply uint_wrap_small. unfold UINT_MAX in H. lia.
Qed.

Lemma freeze_false_ref st :
  0 <= pd_freeze_ref st < UINT_MOD ->
  pd_freeze_ref (freeze false st) = Z.max 0 (pd_freeze_ref st - 1).
Proof.
  intros H. unfold freeze.
  destruct (pd_freeze_ref st =? 0) eqn:E; simpl.
  - apply Z.eqb_eq in E. lia.
  - apply Z.eqb_neq in E. rewrite uint_wrap_small by lia. lia.
Qed.

Lemma freeze_inv_step b st :
  inv st -> pd_freeze_ref st < UINT_MAX -> inv (freeze b st).
Proof.
  intros [Hr Hf] Hlt. unfold inv. destruct b.
  - rewrite freeze_true_ref by lia. split; [unfold UINT_MAX in Hlt; lia |].
    simpl. destruct (pd_freeze_ref st =? 0) eqn:E.
    + split; [lia | reflexivity].
    + apply Z.eqb_neq in E. split; [lia | intros _; apply Hf; lia].
  - rewrite freeze_false_ref by lia. split; [lia |].
    unfold freeze. destruct (pd_freeze_ref st =? 0) eqn:E; simpl.
    + apply Z.eqb_eq in E. rewrite Hf. lia.
    + apply Z.eqb_neq in E. rewrite uint_wrap_small by lia.
      destruct (pd_freeze_ref st - 1 =? 0) eqn:E1.
      * apply Z.eqb_eq in E1. split; [discriminate | lia].
      * apply Z.eqb_neq in E1. rewrite Hf. lia.
Qed.

Lemma inv_unfrozen_iff st :
  inv st -> (pd_freeze st = false <-> pd_freeze_ref st = 0).
Proof.
  intros [Hr Hf]. destruct (pd_freeze st) eqn:E.
  - assert (0 < pd_freeze_ref st) by (apply Hf; reflexivity).
    split; [discriminate | lia].
  - split; [| reflexivity]. intros _.
    destruct (Z.eq_dec (pd_freeze_ref st) 0) as [|Hne]; [assumption |].
    assert (false = true) by (apply Hf; lia). discriminate.
Qed.

(** C7 (as amended): while the count is below [UINT_MAX], [pd_freeze] is
    true exactly when [pd_freeze_ref > 0]; [freeze(true)] adds one,
    [freeze(false)] takes one off a positive count and leaves zero alone,
    and the flag is clear only once the count is back at zero. *)
Theorem freeze_keeps_invariant (toggle : bool) (st : state) :
  inv st ->
  pd_freeze_ref st < UINT_MAX ->
  inv (freeze toggle st) /\
  pd_freeze_ref (freeze true st) = pd_freeze_ref st + 1 /\
  pd_freeze_ref (freeze false st) = Z.max 0 (pd_freeze_ref st - 1) /\
  (pd_freeze (freeze toggle st) = false <-> pd_freeze_ref (freeze toggle st) = 0).
Proof.
  intros Hinv Hlt.
  assert (Hr : 0 <= pd_freeze_ref st < UINT_MOD) by (destruct Hinv; assumption).
  split; [apply freeze_inv_step; assumption |].
  split; [apply freeze_true_ref; lia |].
  split; [apply freeze_false_ref; lia |].
  apply inv_unfrozen_iff, freeze_inv_step; assumption.
Qed.

Lemma freeze_ref_step b st :
  0 <= pd_freeze_ref st < UINT_MAX ->
  0 <= pd_freeze_ref (freeze b st) <= pd_freeze_ref st + 1.
Proof.
  intros H. destruct b.
  - rewrite freeze_true_ref by exact H. lia.
  - rewrite freeze_false_ref by (unfold UINT_MAX in H; lia). lia.
Qed.

(** Every state reached from the initial one by fewer than [UINT_MAX]
    calls satisfies the invariant. *)
Lemma run_inv ops st :
  inv st ->
  pd_freeze_ref st + Z.of_nat (length ops) <= UINT_MAX ->
  inv (run ops st).
Proof.
  revert st. induction ops as [|b ops IH]; intros st Hinv Hlen; [exact Hinv |].
  cbn [run fold_left]. change (inv (run ops (freeze b st))).
  cbn [length] in Hlen.
  assert (Hr : 0 <= pd_freeze_ref st < UINT_MAX) by (destruct Hinv; lia).
  apply IH.
  - apply freeze_inv_step; [exact Hinv | lia].
  - pose proof (freeze_ref_step b st Hr). lia.
Qed.

Lemma freeze_keeps_invariant_witness :
  inv (mk_state true 1) /\ 1 < UINT_MAX /\
  inv (freeze false (mk_state true 1)) /\
  pd_freeze_ref (freeze true (mk_state true 1)) = 1 + 1 /\
  pd_freeze_ref (freeze false (mk_state true 1)) = Z.max 0 (1 - 1) /\
  (pd_freeze (freeze false (mk_state true 1)) = false <->
   pd_freeze_ref (freeze false (mk_state true 1)) = 0).
Proof.
  assert (Hi : inv (mk_state true 1)).
  { unfold inv; simpl. split; [unfold UINT_MOD; lia | split; [lia | reflexivity]]. }
  assert (Hb : 1 < UINT_MAX) by reflexivity.
  split; [exact Hi |]. split; [exact Hb |].
  exact (freeze_keeps_invariant false (mk_state true 1) Hi Hb).
Defined.

(** C7 as stated fails at the top of the counter's range: one more
    [freeze(true)] wraps the count to zero while the flag stays set. *)
Lemma freeze_invariant_breaks_at_wrap :
  inv (mk_state true 4294967295) /\
  freeze true (mk_state true 4294967295) = mk_state true 0 /\
  ~ inv (freeze true (mk_state true 4294967295)).
Proof.
  split; [| split].
  - unfold inv; simpl. split; [unfold UINT_MOD; lia | split; [lia | reflexivity]].
  - reflexivity.
  - intros [_ [H _]]. simpl in H. specialize (H eq_refl). vm_compute in H. discriminate.
Qed.

End FreezeFacts.

(** ** Graphics initialisation gate *)

Module GraphicsFacts.
Import Graphics.

(** C6: an out-of-range frame rate is refused with [video] untouched; an
    accepted one selects the PAL or NTSC height. *)
Theorem pd_graphics_init_gate (env : sdl_env) (want_sound want_pal hz : Z)
    (video : video_t) :
  ((hz <= 0 \/ hz > 1000) ->
     pd_graphics_init env want_sound want_pal hz video = (0, video)) /\
  (0 < hz <= 1000 ->
     (want_pal <> 0 ->
        video_height (snd (pd_graphics_init env want_sound want_pal hz video)) = 240) /\
     (want_pal = 0 ->
        video_height (snd (pd_graphics_init env want_sound want_pal hz video)) = 224)).
Proof.
  unfold pd_graphics_init. split.
  - intros H.
    destruct (hz <=? 0) eqn:E1; [reflexivity |].
    destruct (hz >? 1000) eqn:E2; [reflexivity |].
    apply Z.leb_gt in E1. rewrite Z.gtb_ltb in E2. apply Z.ltb_ge in E2. lia.
  - intros H.
    assert (E1 : (hz <=? 0) = false) by (apply Z.leb_gt; lia).
    assert (E2 : (hz >? 1000) = false) by (rewrite Z.gtb_ltb; apply Z.ltb_ge; lia).
    rewrite E1, E2. cbn [orb]. split; intros Hp.
    + apply Z.eqb_neq in Hp. rewrite Hp. cbn [negb].
      destruct (sdl_init_fails env); [reflexivity |].
      destruct (negb (screen_init_result env =? 0)); reflexivity.
    + subst want_pal. cbn [Z.eqb negb].
      destruct (sdl_init_fails env); [reflexivity |].
      destruct (negb (screen_init_result env =? 0)); reflexivity.
Qed.

Lemma pd_graphics_init_gate_witness :
  (1001 <= 0 \/ 1001 > 1000) /\ 0 < 60 <= 1000 /\ (1 : Z) <> 0 /\
  pd_graphics_init (mk_env false 0) 1 0 1001 (mk_video 320 224 60 0)
    = (0, mk_video 320 224 60 0) /\
  video_height (snd (pd_graphics_init (mk_env false 0) 1 1 60 (mk_video 320 224 60 0))) = 240 /\
  video_height (snd (pd_graphics_init (mk_env false 0) 1 0 60 (mk_video 320 240 50 1))) = 224.
Proof.
  assert (H1 : 1001 <= 0 \/ 1001 > 1000) by (right; reflexivity).
  assert (H2 : 0 < 60 <= 1000) by (split; [reflexivity | discriminate]).
  assert (H3 : (1 : Z) <> 0) by discriminate.
  split; [exact H1 |]. split; [exact H2 |]. split; [exact H3 |].
  split; [| split].
  - exact (proj1 (pd_graphics_init_gate (mk_env false 0) 1 0 1001 (mk_video 320 224 60 0)) H1).
  - exact (proj1 (proj2 (pd_graphics_init_gate (mk_env false 0) 1 1 60 (mk_video 320 224 60 0)) H2) H3).
  - exact (proj2 (proj2 (pd_graphics_init_gate (mk_env false 0) 1 0 60 (mk_video 320 240 50 1)) H2) eq_refl).
Defined.

End GraphicsFacts.

(** ** Circular buffer *)

Module CbufFacts.
Import Cbuf.

Lemma mod_once x c :
  0 < c -> 0 <= x < 2 * c -> x mod c = if x <? c then x else x - c.
Proof.
  intros Hc Hx. destruct (x <? c) eqn:E.
  - apply Z.ltb_lt in E. apply Z.mod_small. lia.
  - apply Z.ltb_ge in E. symmetry. apply (Z.mod_unique x c 1); lia.
Qed.

(** Length bookkeeping shared by the lookup proofs. *)
Ltac len0 :=
  repeat first
    [ rewrite length_inserts | rewrite length_take | rewrite length_drop
    | rewrite length_app | rewrite length_replicate ].

Lemma length_memcpy dst off src n : length (memcpy dst off src n) = length dst.
Proof. unfold memcpy. apply length_inserts. Qed.

Lemma length_memset dst off c n : length (memset dst off c n) = length dst.
Proof. unfold memset. apply length_inserts. Qed.

Lemma length_contents c : wf c -> length (contents c) = Z.to_nat (cbuf_s c).
Proof.
  intros (Hc & Hm & Hi & Hs & Hl). unfold contents. len0. lia.
Qed.

Lemma list_lookup_inserts_out {A} (l k : list A) (i j : nat) :
  ~ (i <= j < i + length k)%nat -> list_inserts i k l !! j = l !! j.
Proof.
  intros H. destruct (decide (j < i)%nat).
  - apply list_lookup_inserts_lt. assumption.
  - apply list_lookup_inserts_ge. lia.
Qed.

Ltac len :=
  repeat first
    [ rewrite length_inserts | rewrite length_take | rewrite length_drop
    | rewrite length_app | rewrite length_replicate
    | rewrite length_contents by assumption ].
Ltac slia := len; lia.

(** Push a lookup through [take], [drop], [++], [list_inserts] and
    [replicate], deciding the side conditions by arithmetic. *)
Ltac lk :=
  repeat first
    [ rewrite lookup_drop
    | rewrite lookup_take_lt by slia
    | rewrite lookup_take_ge by slia
    | rewrite lookup_app_l by slia
    | rewrite lookup_app_r by slia
    | rewrite list_lookup_inserts by slia
    | rewrite list_lookup_inserts_out by slia
    | rewrite lookup_replicate_2 by slia ].

Ltac same_index := f_equal; slia.

(** The buffered byte number [q] sits at storage index [(i + q) mod size]. *)
Lemma contents_lookup c (q : nat) :
  wf c -> (q < Z.to_nat (cbuf_s c))%nat ->
  contents c !! q =
  cbuf_data c !! Z.to_nat ((cbuf_i c + Z.of_nat q) mod cbuf_size c).
Proof.
  intros Hwf Hq. pose proof Hwf as (Hc & Hm & Hi & Hs & Hl). unfold contents.
  rewrite mod_once by lia.
  destruct (cbuf_i c + Z.of_nat q <? cbuf_size c) eqn:E;
    [apply Z.ltb_lt in E | apply Z.ltb_ge in E]; lk; same_index.
Qed.

(** [cbuf_write] on a well-formed buffer, with the wrap-arounds that
    cannot happen removed. *)
Lemma cbuf_write_eq c src n :
  wf c -> 0 <= n < SIZE_MOD ->
  cbuf_write c src n =
  let cap := cbuf_size c in
  let m := Z.min n cap in
  let src' := drop (Z.to_nat (n - m)) src in
  let j := (cbuf_i c + cbuf_s c) mod cap in
  Some
    (m, mk_cbuf (if m >? cap - cbuf_s c
                 then (cbuf_i c + (m - (cap - cbuf_s c))) mod cap
                 else cbuf_i c)
                (Z.min cap (cbuf_s c + m)) cap
                (if cap - j >=? m then memcpy (cbuf_data c) j src' m
                 else memcpy (memcpy (cbuf_data c) j src' (cap - j))
                             0 (ptr_add src' (cap - j)) (m - (cap - j)))).
Proof.
  intros (Hc & Hm & Hi & Hs & Hl) Hn. cbv zeta. unfold cbuf_write.
  replace (cbuf_size c =? 0) with false by (symmetry; apply Z.eqb_neq; lia).
  assert (Hj : 0 <= (cbuf_i c + cbuf_s c) mod cbuf_size c < cbuf_size c)
    by (apply Z.mod_pos_bound; lia).
  rewrite (size_wrap_small (cbuf_size c - cbuf_s c)) by lia.
  rewrite (size_wrap_small (cbuf_i c + cbuf_s c)) by lia.
  rewrite (size_wrap_small (cbuf_size c - _)) by lia.
  destruct (n >? cbuf_size c) eqn:E; rewrite Z.gtb_ltb in E;
    [apply Z.ltb_lt in E | apply Z.ltb_ge in E].
  - rewrite (Z.min_r n) by lia.
    rewrite (size_wrap_small (n - cbuf_size c)) by lia. unfold ptr_add at 1 2.
    destruct (cbuf_size c >? cbuf_size c - cbuf_s c) eqn:E1; rewrite Z.gtb_ltb in E1;
      [apply Z.ltb_lt in E1 | apply Z.ltb_ge in E1].
    + rewrite (size_wrap_small (cbuf_size c - _)) by lia.
      rewrite (size_wrap_small (cbuf_i c + _)) by lia.
      rewrite (Z.min_l (cbuf_size c)) by lia.
      destruct (_ >=? _) eqn:E2; [reflexivity |].
      rewrite (size_wrap_small (cbuf_size c - _)) by lia. reflexivity.
    + assert (cbuf_s c = 0) by lia.
      rewrite (size_wrap_small (cbuf_s c + _)) by lia.
      rewrite (Z.min_r (cbuf_size c)) by lia.
      replace (cbuf_s c + cbuf_size c) with (cbuf_size c) by lia.
      destruct (_ >=? _) eqn:E2; [reflexivity |].
      rewrite (size_wrap_small (cbuf_size c - _)) by lia. reflexivity.
  - rewrite (Z.min_l n) by lia. rewrite Z.sub_diag. cbn [Z.to_nat drop].
    destruct (n >? cbuf_size c - cbuf_s c) eqn:E1; rewrite Z.gtb_ltb in E1;
      [apply Z.ltb_lt in E1 | apply Z.ltb_ge in E1].
    + rewrite (size_wrap_small (n - _)) by lia.
      rewrite (size_wrap_small (cbuf_i c + _)) by lia.
      rewrite (Z.min_l (cbuf_size c)) by lia.
      destruct (_ >=? _) eqn:E2; [reflexivity |].
      rewrite Z.geb_leb in E2. apply Z.leb_gt in E2.
      rewrite (size_wrap_small (n - _)) by lia. reflexivity.
    + rewrite (size_wrap_small (cbuf_s c + _)) by lia.
      rewrite (Z.min_r (cbuf_size c)) by lia.
      destruct (_ >=? _) eqn:E2; [reflexivity |].
      rewrite Z.geb_leb in E2. apply Z.leb_gt in E2.
      rewrite (size_wrap_small (n - _)) by lia. reflexivity.
Qed.

Lemma cbuf_write_wf c src n r :
  wf c -> 0 <= n < SIZE_MOD -> cbuf_write c src n = Some r -> wf (snd r).
Proof.
  intros Hwf Hn E. rewrite cbuf_write_eq in E by assumption.
  cbv zeta in E. injection E as <-.
  destruct Hwf as (Hc & Hm & Hi & Hs & Hl). unfold wf. cbn [snd cbuf_size cbuf_i cbuf_s cbuf_data].
  split; [lia |]. split; [lia |]. split; [| split; [lia |]].
  - zcase; [apply Z.mod_pos_bound; lia | lia].
  - zcase; rewrite ?length_memcpy; exact Hl.
Qed.

Lemma mod_once_cases x c :
  0 < c -> 0 <= x < 2 * c ->
  (x mod c = x /\ x < c) \/ (x mod c = x - c /\ c <= x).
Proof.
  intros Hc Hx. rewrite mod_once by assumption.
  destruct (x <? c) eqn:E; zb; [left | right]; lia.
Qed.

(** Name a [_ mod c] term and keep only what [lia] needs to know of it. *)
Ltac name_mod x c r :=
  let H := fresh "Hmod" in
  pose proof (mod_once_cases x c ltac:(lia) ltac:(lia)) as H;
  set (r := x mod c) in *; clearbody r.

(** Storage after the (possibly split) copy of [m] bytes of [src] to ring
    position [j]. *)
Lemma ring_write_lookup data (cap j m : Z) src (p : nat) :
  Z.of_nat (length data) = cap ->
  0 <= j < cap -> 0 <= m <= cap -> m <= Z.of_nat (length src) ->
  Z.of_nat p < cap ->
  (if cap - j >=? m then memcpy data j src m
   else memcpy (memcpy data j src (cap - j)) 0 (ptr_add src (cap - j))
               (m - (cap - j))) !! p =
  if decide (j <= Z.of_nat p < j + m) then src !! Z.to_nat (Z.of_nat p - j)
  else if decide (Z.of_nat p + cap < j + m)
       then src !! Z.to_nat (Z.of_nat p + cap - j)
       else data !! p.
Proof.
  intros Hl Hj Hm Hs Hp. unfold memcpy, ptr_add.
  destruct (cap - j >=? m) eqn:E; zb; repeat case_decide; try lia; lk; same_index.
Qed.

Lemma cbuf_write_contents c src r :
  wf c -> Z.of_nat (length src) < SIZE_MOD ->
  cbuf_write c src (Z.of_nat (length src)) = Some r ->
  contents (snd r) =
  lastn (Z.to_nat (Z.min (cbuf_size c) (cbuf_s c + Z.of_nat (length src))))
        (contents c ++ src).
Proof.
  intros Hwf Hn E.
  assert (Hwf' := cbuf_write_wf c src (Z.of_nat (length src)) r Hwf ltac:(lia) E).
  assert (Hlen := length_contents c Hwf).
  rewrite cbuf_write_eq in E by (auto; lia). cbv zeta in E. injection E as <-.
  revert Hwf'. cbn [snd]. intros Hwf'.
  pose proof Hwf as (Hc & Hm & Hi & Hs & Hl).
  apply list_eq. intros q.
  destruct (decide (q < Z.to_nat (Z.min (cbuf_size c) (cbuf_s c + Z.of_nat (length src))))%nat) as [Hq|Hq];
    [| rewrite (lookup_ge_None_2 (contents _))
         by (rewrite length_contents by assumption; cbn [cbuf_s]; lia);
       rewrite lookup_ge_None_2 by (unfold lastn; slia); reflexivity].
  rewrite contents_lookup by (try assumption; cbn [cbuf_s]; lia).
  cbn [cbuf_size cbuf_i cbuf_s cbuf_data]. clear Hwf'. unfold lastn.
  rewrite lookup_drop, length_app, Hlen.
  set (n := Z.of_nat (length src)) in *.
  assert (Hn0 : 0 <= n) by lia.
  assert (Hsrc : length src = Z.to_nat n) by lia.
  rewrite Hsrc. clearbody n.
  name_mod (cbuf_i c + cbuf_s c) (cbuf_size c) j.
  destruct (Z.le_gt_cases (cbuf_s c + n) (cbuf_size c)) as [Hfit|Hover].
  - (* the write fits *)
    rewrite (Z.min_l n) in * by lia.
    rewrite (Z.min_r (cbuf_size c)) in * by lia.
    replace (Z.to_nat (cbuf_s c) + Z.to_nat n - Z.to_nat (cbuf_s c + n) + q)%nat
      with q by lia.
    destruct (n >? cbuf_size c - cbuf_s c) eqn:Eo; zb; [lia |].
    name_mod (cbuf_i c + Z.of_nat q) (cbuf_size c) p.
    rewrite ring_write_lookup by slia.
    rewrite Z.sub_diag. cbn [Z.to_nat drop].
    destruct (decide (q < Z.to_nat (cbuf_s c))%nat).
    + rewrite lookup_app_l by slia.
      rewrite contents_lookup by (assumption || lia).
      name_mod (cbuf_i c + Z.of_nat q) (cbuf_size c) p0.
      repeat case_decide; try (exfalso; lia); same_index.
    + rewrite lookup_app_r by slia. rewrite Hlen.
      repeat case_decide; try (exfalso; lia); same_index.
  - (* old data is dropped *)
    rewrite (Z.min_l (cbuf_size c)) in * by lia.
    set (m := Z.min n (cbuf_size c)) in *.
    assert (Hm' : m <= n /\ m <= cbuf_size c /\ cbuf_size c <= cbuf_s c + m) by lia.
    assert (Hm'' : m = n \/ m = cbuf_size c) by lia.
    clearbody m.
    set (k := (Z.to_nat (cbuf_s c) + Z.to_nat n - Z.to_nat (cbuf_size c) + q)%nat).
    assert (Hk : Z.of_nat k = cbuf_s c + n - cbuf_size c + Z.of_nat q) by lia.
    clearbody k.
    destruct (m >? cbuf_size c - cbuf_s c) eqn:Eo; zb.
    + name_mod (cbuf_i c + (m - (cbuf_size c - cbuf_s c))) (cbuf_size c) i'.
      name_mod (i' + Z.of_nat q) (cbuf_size c) p.
      rewrite ring_write_lookup by slia.
      destruct (decide (k < Z.to_nat (cbuf_s c))%nat).
      * rewrite lookup_app_l by slia.
        rewrite contents_lookup by (assumption || lia).
        name_mod (cbuf_i c + Z.of_nat k) (cbuf_size c) p0.
        repeat case_decide; try (exfalso; lia); lk; same_index.
      * rewrite lookup_app_r by slia. rewrite Hlen.
        repeat case_decide; try (exfalso; lia); lk; same_index.
    + name_mod (cbuf_i c + Z.of_nat q) (cbuf_size c) p.
      rewrite ring_write_lookup by slia.
      destruct (decide (k < Z.to_nat (cbuf_s c))%nat).
      * exfalso; lia.
      * rewrite lookup_app_r by slia. rewrite Hlen.
        repeat case_decide; try (exfalso; lia); lk; same_index.
Qed.

(** [cbuf_read] on a well-formed buffer, with the wrap-arounds that cannot
    happen removed. *)
Lemma cbuf_read_eq dst c n :
  wf c -> 0 <= n ->
  cbuf_read dst c n =
  let k := Z.min n (cbuf_s c) in
  Some
    (k,
     (if cbuf_i c + k >? cbuf_size c
      then memcpy (memcpy dst 0 (ptr_add (cbuf_data c) (cbuf_i c))
                          (cbuf_size c - cbuf_i c))
                  (cbuf_size c - cbuf_i c) (cbuf_data c)
                  (k - (cbuf_size c - cbuf_i c))
      else memcpy dst 0 (ptr_add (cbuf_data c) (cbuf_i c)) k),
     mk_cbuf ((cbuf_i c + k) mod cbuf_size c) (cbuf_s c - k)
             (cbuf_size c) (cbuf_data c)).
Proof.
  intros (Hc & Hm & Hi & Hs & Hl) Hn. cbv zeta. unfold cbuf_read.
  replace (cbuf_size c =? 0) with false by (symmetry; apply Z.eqb_neq; lia).
  assert (Hk : (if n >? cbuf_s c then cbuf_s c else n) = Z.min n (cbuf_s c))
    by (zcase; lia).
  rewrite Hk. set (k := Z.min n (cbuf_s c)) in *.
  assert (0 <= k <= cbuf_s c) by lia. clearbody k.
  rewrite (size_wrap_small (cbuf_i c + k)) by lia.
  rewrite (size_wrap_small (cbuf_s c - k)) by lia.
  rewrite (size_wrap_small (cbuf_size c - cbuf_i c)) by lia.
  zcase; [| reflexivity].
  rewrite (size_wrap_small (k - _)) by lia. reflexivity.
Qed.

Lemma cbuf_read_wf dst c n r :
  wf c -> 0 <= n -> cbuf_read dst c n = Some r -> wf (snd r).
Proof.
  intros Hwf Hn E. rewrite cbuf_read_eq in E by assumption.
  cbv zeta in E. injection E as <-.
  destruct Hwf as (Hc & Hm & Hi & Hs & Hl). unfold wf.
  cbn [snd cbuf_size cbuf_i cbuf_s cbuf_data].
  split; [lia |]. split; [lia |]. split; [apply Z.mod_pos_bound; lia |].
  split; [lia | exact Hl].
Qed.

(** What a read leaves in the destination: the [k] oldest bytes, then the
    destination's own bytes. *)
Lemma cbuf_read_dst dst c n r :
  wf c -> 0 <= n <= Z.of_nat (length dst) ->
  cbuf_read dst c n = Some r ->
  snd (fst r) =
  take (Z.to_nat (Z.min n (cbuf_s c))) (contents c) ++
  drop (Z.to_nat (Z.min n (cbuf_s c))) dst.
Proof.
  intros Hwf Hn E. rewrite cbuf_read_eq in E by (auto; lia).
  cbv zeta in E. injection E as <-. cbn [fst snd].
  pose proof Hwf as (Hc & Hm & Hi & Hs & Hl).
  set (k := Z.min n (cbuf_s c)).
  assert (Hk : 0 <= k <= cbuf_s c /\ k <= n) by lia. clearbody k.
  apply list_eq. intros q. unfold memcpy, ptr_add.
  destruct (decide (q < Z.to_nat k)%nat) as [Hq|Hq].
  - rewrite (lookup_app_l (take _ _)) by slia.
    rewrite lookup_take_lt by lia.
    rewrite contents_lookup by (assumption || lia).
    name_mod (cbuf_i c + Z.of_nat q) (cbuf_size c) p.
    zcase.
    + destruct (decide (Z.of_nat q < cbuf_size c - cbuf_i c)); lk; same_index.
    + lk; same_index.
  - rewrite (lookup_app_r (take _ _)) by slia.
    zcase; lk; same_index.
Qed.

Lemma cbuf_read_contents dst c n r :
  wf c -> 0 <= n ->
  cbuf_read dst c n = Some r ->
  contents (snd r) =
  drop (Z.to_nat (Z.min n (cbuf_s c))) (contents c).
Proof.
  intros Hwf Hn E.
  assert (Hwf' := cbuf_read_wf dst c n r Hwf Hn E).
  rewrite cbuf_read_eq in E by assumption. cbv zeta in E. injection E as <-.
  revert Hwf'. cbn [snd]. intros Hwf'.
  pose proof Hwf as (Hc & Hm & Hi & Hs & Hl).
  set (k := Z.min n (cbuf_s c)) in *.
  assert (Hk : 0 <= k <= cbuf_s c) by lia. clearbody k.
  apply list_eq. intros q. rewrite lookup_drop.
  destruct (decide (q < Z.to_nat (cbuf_s c - k))%nat) as [Hq|Hq].
  - rewrite !contents_lookup by (try assumption; cbn [cbuf_s]; lia).
    cbn [cbuf_size cbuf_i cbuf_s cbuf_data].
    name_mod (cbuf_i c + k) (cbuf_size c) i'.
    name_mod (i' + Z.of_nat q) (cbuf_size c) p.
    name_mod (cbuf_i c + Z.of_nat (Z.to_nat k + q)) (cbuf_size c) p0.
    same_index.
  - rewrite (lookup_ge_None_2 (contents (mk_cbuf _ _ _ _)))
      by (rewrite length_contents by assumption; cbn [cbuf_s]; lia).
    rewrite lookup_ge_None_2 by slia. reflexivity.
Qed.

Lemma lastn_all {A} (k : nat) (l : list A) : (length l <= k)%nat -> lastn k l = l.
Proof. intros H. unfold lastn. replace (length l - k)%nat with 0%nat by lia. reflexivity. Qed.

Lemma lastn_app_r {A} (k : nat) (l1 l2 : list A) :
  (k <= length l2)%nat -> lastn k (l1 ++ l2) = lastn k l2.
Proof.
  intros H. unfold lastn. rewrite length_app, drop_app_ge by lia. f_equal. lia.
Qed.

(** C2: a write returns [min(n, cap)], leaves [min(cap, occupied + n)]
    bytes buffered, and these are the most recent bytes of what was
    buffered followed by [src]; of a [src] longer than the capacity only
    the trailing [cap] bytes are kept. *)
Theorem cbuf_write_keeps_most_recent (c : cbuf_t) (src : list byte) :
  wf c -> Z.of_nat (length src) < SIZE_MOD ->
  let n := Z.of_nat (length src) in
  let cap := cbuf_size c in
  exists r,
    cbuf_write c src n = Some r /\
    fst r = Z.min n cap /\
    wf (snd r) /\ cbuf_size (snd r) = cap /\
    cbuf_s (snd r) = Z.min cap (cbuf_s c + n) /\
    contents (snd r) =
      lastn (Z.to_nat (Z.min cap (cbuf_s c + n))) (contents c ++ src) /\
    (n > cap -> contents (snd r) = lastn (Z.to_nat cap) src).
Proof.
  intros Hwf Hn n cap.
  destruct (cbuf_write c src n) as [r|] eqn:E;
    [| rewrite cbuf_write_eq in E by (auto; lia); discriminate E].
  exists r. split; [reflexivity |].
  assert (Hc : contents (snd r) =
               lastn (Z.to_nat (Z.min cap (cbuf_s c + n))) (contents c ++ src))
    by (apply cbuf_write_contents; assumption).
  assert (Hw : wf (snd r)) by (apply (cbuf_write_wf c src n); [assumption | lia | exact E]).
  rewrite cbuf_write_eq in E by (auto; lia). cbv zeta in E. injection E as <-.
  revert Hc Hw.
  cbn [fst snd cbuf_size cbuf_s]. fold n cap. intros Hc Hw.
  destruct Hwf as (H1 & H2 & H3 & H4 & H5). fold cap in H1, H2, H3, H4, H5.
  split; [reflexivity |]. split; [exact Hw |]. split; [reflexivity |].
  split; [lia |]. split; [exact Hc |].
  intros Hgt. rewrite Hc. rewrite Z.min_l by lia. apply lastn_app_r. lia.
Qed.

Lemma demo_cbuf_wf : wf demo_cbuf.
Proof.
  unfold wf, demo_cbuf, SIZE_MOD; cbn [cbuf_size cbuf_i cbuf_s cbuf_data length].
  lia.
Defined.

Lemma cbuf_write_keeps_most_recent_witness :
  wf demo_cbuf /\ 3 < SIZE_MOD /\
  exists r,
    cbuf_write demo_cbuf [Byte.x05; Byte.x06; Byte.x07] 3 = Some r /\
    fst r = 3 /\
    contents (snd r) = [Byte.x04; Byte.x05; Byte.x06; Byte.x07].
Proof.
  assert (Hn : Z.of_nat (length [Byte.x05; Byte.x06; Byte.x07]) < SIZE_MOD)
    by reflexivity.
  pose proof (cbuf_write_keeps_most_recent demo_cbuf
                [Byte.x05; Byte.x06; Byte.x07] demo_cbuf_wf Hn) as H.
  cbv zeta in H. destruct H as (r & Hrun & Hr & _ & _ & _ & Hc & _).
  split; [exact demo_cbuf_wf |]. split; [reflexivity |].
  exists r. split; [exact Hrun |]. split; [exact Hr | exact Hc].
Defined.

Lemma step_written st o st' :
  step st o = Some st' ->
  run_written st' =
  run_written st ++ match o with Write src => src | Read _ => [] end.
Proof.
  destruct o as [src|n]; unfold step.
  - destruct (cbuf_write _ _ _) as [[ret c']|]; [| discriminate].
    intros [= <-]. reflexivity.
  - destruct (cbuf_read _ _ _) as [[[k dst'] c']|]; [| discriminate].
    intros [= <-]. cbn. rewrite app_nil_r. reflexivity.
Qed.

(** The operations divide by [size] only, and never change it. *)
Lemma cbuf_write_size c src n r :
  cbuf_write c src n = Some r -> cbuf_size (snd r) = cbuf_size c.
Proof.
  unfold cbuf_write. cbv zeta. destruct (cbuf_size c =? 0); [discriminate |].
  intros [= <-]. reflexivity.
Qed.

Lemma cbuf_read_size dst c n r :
  cbuf_read dst c n = Some r -> cbuf_size (snd r) = cbuf_size c.
Proof.
  unfold cbuf_read. cbv zeta. destruct (cbuf_size c =? 0); [discriminate |].
  intros [= <-]. reflexivity.
Qed.

Lemma cbuf_write_returns c src n :
  cbuf_size c <> 0 -> exists r, cbuf_write c src n = Some r.
Proof.
  intros H. unfold cbuf_write. cbv zeta.
  destruct (cbuf_size c =? 0) eqn:E; zb; [contradiction |].
  eexists. reflexivity.
Qed.

Lemma cbuf_read_returns dst c n :
  cbuf_size c <> 0 -> exists r, cbuf_read dst c n = Some r.
Proof.
  intros H. unfold cbuf_read. cbv zeta.
  destruct (cbuf_size c =? 0) eqn:E; zb; [contradiction |].
  eexists. reflexivity.
Qed.

(** With a size of zero both divide by zero, whatever the arguments. *)
Lemma cbuf_size_zero_traps c src dst n :
  cbuf_size c = 0 -> cbuf_write c src n = None /\ cbuf_read dst c n = None.
Proof.
  intros H. unfold cbuf_write, cbuf_read. cbv zeta. rewrite H.
  split; reflexivity.
Qed.

Lemma step_size st o st' :
  step st o = Some st' -> cbuf_size (run_cbuf st') = cbuf_size (run_cbuf st).
Proof.
  destruct o as [src|n]; unfold step.
  - destruct (cbuf_write _ _ _) as [[ret c']|] eqn:E; [| discriminate].
    intros [= <-]. apply cbuf_write_size in E. exact E.
  - destruct (cbuf_read _ _ _) as [[[k dst'] c']|] eqn:E; [| discriminate].
    intros [= <-]. apply cbuf_read_size in E. exact E.
Qed.

Lemma step_returns st o :
  cbuf_size (run_cbuf st) <> 0 -> exists st', step st o = Some st'.
Proof.
  intros H. destruct o as [src|n]; unfold step.
  - destruct (cbuf_write_returns (run_cbuf st) src (Z.of_nat (length src)) H)
      as [[ret c'] ->].
    eexists. reflexivity.
  - destruct (cbuf_read_returns (replicate n Byte.x00) (run_cbuf st)
                                (Z.of_nat n) H) as [[[k dst'] c'] ->].
    eexists. reflexivity.
Qed.

(** A program on a buffer of non-zero size runs to its end. *)
Lemma run_returns ops st :
  cbuf_size (run_cbuf st) <> 0 -> exists st', run ops st = Some st'.
Proof.
  revert st. induction ops as [|o ops IH]; intros st H.
  - exists st. reflexivity.
  - cbn [run]. destruct (step_returns st o H) as [st1 E]. rewrite E.
    apply IH. rewrite (step_size st o st1 E). exact H.
Qed.

(** One step of a run keeps the books balanced as long as no write lacked
    room. *)
Lemma step_fifo (h : list byte) st o st' :
  (run_overflowed st = false ->
   wf (run_cbuf st) /\
   h ++ run_written st = run_delivered st ++ contents (run_cbuf st)) ->
  step st o = Some st' ->
  run_overflowed st' = false ->
  run_overflowed st = false /\
  wf (run_cbuf st') /\
  h ++ run_written st' = run_delivered st' ++ contents (run_cbuf st').
Proof.
  intros IH Hstep Hno. destruct o as [src|n]; unfold step in Hstep.
  - destruct (cbuf_write (run_cbuf st) src (Z.of_nat (length src)))
      as [[ret c']|] eqn:E; [| discriminate].
    injection Hstep as <-.
    cbn [run_overflowed run_cbuf run_written run_delivered] in *.
    apply orb_false_iff in Hno. destruct Hno as [Hno Hroom]. zb.
    destruct (IH Hno) as [Hwf Heq]. split; [exact Hno |].
    pose proof Hwf as (H1 & H2 & H3 & H4 & H5).
    assert (Hn : Z.of_nat (length src) < SIZE_MOD) by lia.
    pose proof (cbuf_write_wf (run_cbuf st) src (Z.of_nat (length src)) _ Hwf
                  ltac:(lia) E) as Hwf'.
    pose proof (cbuf_write_contents _ _ _ Hwf Hn E) as Hc.
    cbn [snd] in Hwf', Hc.
    split; [exact Hwf' |].
    rewrite Hc.
    rewrite lastn_all by slia.
    rewrite !app_assoc. f_equal. exact Heq.
  - destruct (cbuf_read (replicate n Byte.x00) (run_cbuf st) (Z.of_nat n))
      as [[[k dst'] c']|] eqn:E; [| discriminate].
    injection Hstep as <-.
    cbn [run_overflowed run_cbuf run_written run_delivered] in *.
    destruct (IH Hno) as [Hwf Heq]. split; [exact Hno |].
    pose proof Hwf as (H1 & H2 & H3 & H4 & H5).
    pose proof (cbuf_read_wf (replicate n Byte.x00) (run_cbuf st) (Z.of_nat n) _
                  Hwf ltac:(lia) E) as Hwf'.
    pose proof (cbuf_read_contents (replicate n Byte.x00) (run_cbuf st)
                  (Z.of_nat n) _ Hwf ltac:(lia) E) as Hc.
    pose proof (cbuf_read_dst (replicate n Byte.x00) (run_cbuf st)
                  (Z.of_nat n) _ Hwf ltac:(slia) E) as Hd.
    cbn [fst snd] in Hwf', Hc, Hd.
    assert (Hk : k = Z.min (Z.of_nat n) (cbuf_s (run_cbuf st)))
      by (rewrite cbuf_read_eq in E by (auto; lia); cbv zeta in E; congruence).
    split; [exact Hwf' |].
    rewrite Hc, Hd, Hk.
    rewrite take_app_le by slia. rewrite take_take.
    rewrite Nat.min_id. rewrite <- app_assoc, take_drop. exact Heq.
Qed.

Lemma run_fifo (h : list byte) ops st st' :
  (run_overflowed st = false ->
   wf (run_cbuf st) /\
   h ++ run_written st = run_delivered st ++ contents (run_cbuf st)) ->
  run ops st = Some st' ->
  run_overflowed st' = false ->
  wf (run_cbuf st') /\
  h ++ run_written st' = run_delivered st' ++ contents (run_cbuf st').
Proof.
  revert st. induction ops as [|o ops IH]; intros st Hst Hrun Hno.
  - injection Hrun as <-. apply Hst. exact Hno.
  - cbn [run] in Hrun. destruct (step st o) as [st1|] eqn:E; [| discriminate].
    apply (IH st1); [| exact Hrun | exact Hno].
    intros Hno'. apply (step_fifo h st o st1 Hst E Hno').
Qed.

Lemma run_written_eq ops st st' :
  run ops st = Some st' ->
  run_written st' = run_written st ++ writes_of ops.
Proof.
  revert st. induction ops as [|o ops IH]; intros st Hrun.
  - injection Hrun as <-. cbn. rewrite app_nil_r. reflexivity.
  - cbn [run] in Hrun. destruct (step st o) as [st1|] eqn:E; [| discriminate].
    cbn [writes_of flat_map]. fold (writes_of ops).
    rewrite (IH st1 Hrun), (step_written st o st1 E).
    rewrite <- app_assoc. reflexivity.
Qed.

(** C3: a program on a well-formed buffer runs to its end and, while no
    write lacks room, what was buffered at the start followed by
    everything written equals everything delivered followed by what is
    still buffered (FIFO, nothing lost, nothing invented); and a read of
    [n] bytes returns [min(n, occupied)], copies exactly that many of the
    oldest bytes to the front of [dst] and removes them from the buffer. *)
Theorem cbuf_fifo_order (c0 : cbuf_t) (ops : list op)
    (dst : list byte) (c : cbuf_t) (n : Z) :
  wf c0 -> wf c -> 0 <= n <= Z.of_nat (length dst) ->
  (exists st,
     run ops (start c0) = Some st /\
     (run_overflowed st = false ->
      contents c0 ++ writes_of ops =
      run_delivered st ++ contents (run_cbuf st))) /\
  (let k := Z.min n (cbuf_s c) in
   exists r,
     cbuf_read dst c n = Some r /\
     fst (fst r) = k /\ k <= cbuf_s c /\
     snd (fst r) = take (Z.to_nat k) (contents c) ++ drop (Z.to_nat k) dst /\
     contents (snd r) = drop (Z.to_nat k) (contents c) /\
     cbuf_s (snd r) = cbuf_s c - k).
Proof.
  intros Hwf0 Hwf Hn. split.
  - destruct (run_returns ops (start c0)) as [st Hrun].
    { cbn [start run_cbuf]. destruct Hwf0 as (H1 & _). lia. }
    exists st. split; [exact Hrun |]. intros Hno.
    pose proof (run_written_eq ops (start c0) st Hrun) as Hw.
    cbn [start run_written app] in Hw.
    destruct (run_fifo (contents c0) ops (start c0) st) as [_ Heq];
      [| exact Hrun | exact Hno | rewrite Hw in Heq; exact Heq].
    intros _. cbn [start run_cbuf run_delivered run_written app].
    split; [exact Hwf0 | rewrite app_nil_r; reflexivity].
  - cbv zeta.
    destruct (cbuf_read dst c n) as [r|] eqn:E;
      [| rewrite cbuf_read_eq in E by (auto; lia); discriminate E].
    exists r. split; [reflexivity |].
    pose proof E as E'. rewrite cbuf_read_eq in E' by (auto; lia).
    cbv zeta in E'.
    split; [injection E' as <-; reflexivity |].
    split; [lia |].
    split; [apply (cbuf_read_dst dst c n r); assumption |].
    split; [apply (cbuf_read_contents dst c n r); [assumption | lia | exact E] |].
    injection E' as <-. reflexivity.
Qed.

Lemma cbuf_fifo_order_witness :
  wf demo_cbuf /\ 0 <= 3 <= Z.of_nat (length [Byte.xff; Byte.xff; Byte.xff]) /\
  (exists st,
     run [Write [Byte.x05]; Read 2; Write [Byte.x06; Byte.x07]]
         (start demo_cbuf) = Some st /\
     run_overflowed st = false /\
     [Byte.x03; Byte.x04] ++ [Byte.x05; Byte.x06; Byte.x07] =
     run_delivered st ++ contents (run_cbuf st)) /\
  (exists r,
     cbuf_read [Byte.xff; Byte.xff; Byte.xff] demo_cbuf 3 = Some r /\
     fst (fst r) = 2 /\
     snd (fst r) = [Byte.x03; Byte.x04; Byte.xff]).
Proof.
  assert (Hn : 0 <= 3 <= Z.of_nat (length [Byte.xff; Byte.xff; Byte.xff]))
    by (split; discriminate).
  destruct (cbuf_fifo_order demo_cbuf
              [Write [Byte.x05]; Read 2; Write [Byte.x06; Byte.x07]]
              [Byte.xff; Byte.xff; Byte.xff] demo_cbuf 3
              demo_cbuf_wf demo_cbuf_wf Hn) as [(st & Hrun & Hfifo) Hread].
  cbv zeta in Hread. destruct Hread as (r & Hr & Hret & _ & Hdst & _ & _).
  split; [exact demo_cbuf_wf |]. split; [exact Hn |]. split.
  - exists st. split; [exact Hrun |].
    assert (Hno : run_overflowed st = false).
    { vm_compute in Hrun. injection Hrun as <-. reflexivity. }
    split; [exact Hno | exact (Hfifo Hno)].
  - exists r. split; [exact Hr |]. split; [exact Hret | exact Hdst].
Defined.

(** On a well-formed buffer (its size is not zero) the callback hands the
    [min(len, occupied)] oldest bytes to the front of [stream], removes
    them from the buffer, and zeroes the rest of [stream]; it is a plain
    function of its inputs and waits for nothing. *)
Lemma snd_callback_fills_stream (stream : list byte) (len : Z) (c : cbuf_t) :
  wf c -> 0 <= len <= INT_MAX -> Z.of_nat (length stream) = len ->
  let k := Z.min len (cbuf_s c) in
  exists r,
    snd_callback stream len c = Some r /\
    fst r =
      take (Z.to_nat k) (contents c) ++ replicate (Z.to_nat (len - k)) Byte.x00 /\
    contents (snd r) = drop (Z.to_nat k) (contents c) /\
    cbuf_s (snd r) = cbuf_s c - k.
Proof.
  intros Hwf Hlen Hstream k.
  assert (Hsm : size_wrap len = len).
  { apply size_wrap_small. unfold INT_MAX, SIZE_MOD in *. lia. }
  unfold snd_callback. rewrite Hsm.
  destruct (cbuf_read stream c len) as [[[wrote stream1] cbuf1]|] eqn:E;
    [| rewrite cbuf_read_eq in E by (auto; lia); discriminate E].
  pose proof (cbuf_read_dst stream c len _ Hwf ltac:(lia) E) as Hdst.
  pose proof (cbuf_read_contents stream c len _ Hwf ltac:(lia) E) as Hcont.
  rewrite cbuf_read_eq in E by (auto; lia). cbv zeta in E.
  injection E as Ew Es Ec.
  assert (Hret : wrote = k) by (subst k; symmetry; exact Ew).
  assert (Hs : cbuf_s cbuf1 = cbuf_s c - k) by (rewrite <- Ec; reflexivity).
  clear Ew Es Ec.
  cbn [fst snd] in *. subst wrote. fold k in Hdst, Hcont.
  pose proof (length_contents c Hwf) as Hlc.
  pose proof Hwf as (H1 & H2 & H3 & H4 & H5).
  assert (Hk : 0 <= k <= len /\ k <= cbuf_s c) by lia. clearbody k.
  destruct (k =? len) eqn:E; zb; eexists; (split; [reflexivity |]); cbn [fst snd].
  - split; [| split; assumption]. subst stream1 k.
    rewrite drop_ge by lia. rewrite Z.sub_diag. reflexivity.
  - rewrite size_wrap_small by (unfold INT_MAX, SIZE_MOD in *; lia).
    split; [| split; assumption]. subst stream1. unfold memset.
    apply list_eq. intros q.
    destruct (decide (q < Z.to_nat k)%nat).
    + lk. reflexivity.
    + destruct (decide (q < Z.to_nat len)%nat).
      * lk. reflexivity.
      * rewrite !lookup_ge_None_2 by slia. reflexivity.
Qed.

End CbufFacts.

(** ** Combo tracker *)

Module CombosFacts.
Import Combos.

Lemma rc_binding_type_eqb_eq a b : rc_binding_type_eqb a b = true <-> a = b.
Proof. destruct a, b; cbn; split; intros H; congruence. Qed.

Lemma mismatch_false c t k :
  mismatch c t k = false <-> type c = t /\ code c = k.
Proof.
  unfold mismatch. rewrite orb_false_iff, !negb_false_iff.
  rewrite rc_binding_type_eqb_eq, Z.eqb_eq. reflexivity.
Qed.

Lemma mismatch_refl t k a : mismatch (mk_item a t k) t k = false.
Proof. apply mismatch_false. split; reflexivity. Qed.

Lemma mismatch_true c t k :
  mismatch c t k = true <-> (type c, code c) <> (t, k).
Proof.
  destruct (mismatch c t k) eqn:E.
  - split; [| reflexivity]. intros _ Heq. inversion Heq as [[H1 H2]].
    assert (mismatch c t k = false) by (apply mismatch_false; auto). congruence.
  - apply mismatch_false in E. destruct E as [-> ->].
    split; [discriminate | intros H; exfalso; apply H; reflexivity].
Qed.

Lemma item_of_assigned p : assigned (item_of p) = true.
Proof. reflexivity. Qed.

Lemma mismatch_item_of p t k :
  mismatch (item_of p) t k = negb (bool_decide (p = (t, k))).
Proof.
  destruct p as [t' k']. case_bool_decide as H; cbn [negb].
  - inversion H; subst. apply mismatch_refl.
  - apply mismatch_true. exact H.
Qed.

Lemma held_app_items H U :
  held (map item_of H ++ U) = H ++ held U.
Proof.
  induction H as [|[t k] H IH]; [reflexivity |].
  cbn [map app held item_of assigned type code fst snd]. rewrite IH. reflexivity.
Qed.

Lemma held_unassigned U :
  Forall (fun c => assigned c = false) U -> held U = [].
Proof.
  intros HU. destruct U as [|u U]; [reflexivity |].
  inversion HU as [|? ? Hu _]; subst. cbn [held]. rewrite Hu. reflexivity.
Qed.

Lemma held_tidy H U :
  Forall (fun c => assigned c = false) U -> held (map item_of H ++ U) = H.
Proof.
  intros HU. rewrite held_app_items, held_unassigned by exact HU.
  apply app_nil_r.
Qed.

(** The loop entered at index [length P] after the entries [P], none of
    which matches, on a press. *)
Lemma loop_press (P H : list (rc_binding_type * Z)) U n t k :
  (n + length P)%nat = COMBOS_NUM ->
  length (map item_of P ++ map item_of H ++ U) = COMBOS_NUM ->
  Forall (fun c => assigned c = false) U ->
  manage_combos_loop n (length P) (map item_of P ++ map item_of H ++ U) true t k =
  if decide ((t, k) ∈ H) then map item_of P ++ map item_of H ++ U
  else match U with
       | [] => map item_of P ++ map item_of H ++ U
       | _ :: U' => map item_of P ++ map item_of H ++ mk_item true t k :: U'
       end.
Proof.
  revert P n. induction H as [|p H IH]; intros P n Hn Hlen HU.
  - rewrite decide_False by (apply not_elem_of_nil). cbn [map app] in *.
    destruct U as [|u U'].
    + rewrite app_nil_r in *. rewrite length_map in Hlen.
      assert (n = 0%nat) by lia. subst n. reflexivity.
    + destruct n as [|n]; [rewrite length_app, length_map in Hlen; cbn in Hlen; lia |].
      cbn [manage_combos_loop].
      rewrite lookup_app_r by (rewrite length_map; lia).
      rewrite length_map, Nat.sub_diag. cbn [lookup list_lookup].
      inversion HU as [|? ? Hu _]; subst. rewrite Hu. cbn [negb].
      rewrite insert_app_r_alt by (rewrite length_map; lia).
      rewrite length_map, Nat.sub_diag. reflexivity.
  - destruct n as [|n].
    { rewrite !length_app, !length_map in Hlen. cbn [length] in Hlen. lia. }
    cbn [manage_combos_loop map].
    rewrite lookup_app_r by (rewrite length_map; lia).
    rewrite length_map, Nat.sub_diag. cbn [app lookup list_lookup].
    rewrite item_of_assigned. cbn [negb]. rewrite mismatch_item_of.
    case_bool_decide as Hp; cbn [negb].
    + subst p. rewrite decide_True by (apply elem_of_cons; left; reflexivity).
      reflexivity.
    + specialize (IH (P ++ [p]) n).
      rewrite length_app in IH. cbn [length] in IH.
      rewrite Nat.add_1_r in IH.
      rewrite map_app in IH. cbn [map] in IH. rewrite <- !app_assoc in IH.
      cbn [app] in IH. rewrite IH; [| lia | exact Hlen | exact HU].
      destruct (decide ((t, k) ∈ H)) as [Hin|Hin].
      * rewrite decide_True by (apply elem_of_cons; right; exact Hin). reflexivity.
      * rewrite decide_False
          by (intros Hc; apply elem_of_cons in Hc; destruct Hc; congruence).
        destruct U; rewrite <- ?app_assoc; reflexivity.
Qed.

(** The same loop on a release, with [last] the entry in the last slot. *)
Lemma loop_release (P H : list (rc_binding_type * Z)) U n t k :
  (n + length P)%nat = COMBOS_NUM ->
  length (map item_of P ++ map item_of H ++ U) = COMBOS_NUM ->
  Forall (fun c => assigned c = false) U -> U <> [] ->
  exists U',
    manage_combos_loop n (length P) (map item_of P ++ map item_of H ++ U) false t k =
    map item_of P ++ map item_of (remove_first (t, k) H) ++ U' /\
    Forall (fun c => assigned c = false) U' /\
    length (map item_of P ++ map item_of (remove_first (t, k) H) ++ U') = COMBOS_NUM /\
    ((t, k) ∉ H -> U' = U).
Proof.
  revert P n. induction H as [|p H IH]; intros P n Hn Hlen HU HUne.
  - cbn [map app remove_first] in *. exists U.
    split; [| split; [exact HU | split; [exact Hlen | reflexivity]]].
    destruct U as [|u U']; [congruence |].
    destruct n as [|n]; [rewrite length_app, length_map in Hlen; cbn in Hlen; lia |].
    cbn [manage_combos_loop].
    rewrite lookup_app_r by (rewrite length_map; lia).
    rewrite length_map, Nat.sub_diag. cbn [lookup list_lookup].
    inversion HU as [|? ? Hu _]; subst. rewrite Hu. reflexivity.
  - destruct n as [|n].
    { rewrite !length_app, !length_map in Hlen. cbn [length] in Hlen. lia. }
    cbn [manage_combos_loop map remove_first].
    rewrite lookup_app_r by (rewrite length_map; lia).
    rewrite length_map, Nat.sub_diag. cbn [app lookup list_lookup].
    rewrite item_of_assigned. cbn [negb]. rewrite mismatch_item_of.
    case_bool_decide as Hp; cbn [negb].
    + subst p. rewrite decide_True by reflexivity.
      exists (U ++ drop (length U - 1) U).
      assert (HUpos : (1 <= length U)%nat)
        by (destruct U; [congruence | cbn [length]; lia]).
      assert (HUlast : length (drop (length U - 1) U) = 1%nat).
      { rewrite length_drop. destruct U; [congruence | cbn [length]; lia]. }
      split; [| split; [| split]].
      * unfold memmove, COMBOS_NUM in *.
        rewrite !length_app, !length_map in Hlen. cbn [length] in Hlen.
        apply list_eq. intros q.
        destruct (decide (q < length P)%nat) as [Hq|Hq].
        { rewrite list_lookup_inserts_lt by lia.
          rewrite !lookup_app_l by (rewrite length_map; lia). reflexivity. }
        destruct (decide (q < 63)%nat) as [Hq2|Hq2].
        { rewrite list_lookup_inserts
            by (rewrite ?length_take, ?length_drop, ?length_app, ?length_map;
                cbn [length]; rewrite ?length_app, ?length_map; lia).
          rewrite lookup_take_lt by lia. rewrite lookup_drop.
          rewrite !lookup_app_r by (rewrite length_map; lia).
          rewrite !length_map.
          replace (length P + 1 + (q - length P) - length P)%nat
            with (S (q - length P))%nat by lia.
          cbn [lookup list_lookup].
          rewrite app_assoc. rewrite lookup_app_l
            by (rewrite length_app, length_map; lia). reflexivity. }
        { rewrite list_lookup_inserts_ge
            by (rewrite ?length_take, ?length_drop, ?length_app, ?length_map;
                cbn [length]; rewrite ?length_app, ?length_map; lia).
          destruct (decide (q = 63%nat)) as [->|Hq3].
          - rewrite !lookup_app_r by (rewrite ?length_map; lia).
            rewrite !length_map.
            replace (63 - length P)%nat with (S (length H + (length U - 1)))%nat by lia.
            rewrite lookup_cons.
            rewrite lookup_app_r by (rewrite ?length_map; lia).
            rewrite length_map, lookup_drop. f_equal. lia.
          - rewrite !lookup_ge_None_2; [reflexivity | |];
              rewrite ?length_app, ?length_map; cbn [length];
              rewrite ?length_app, ?length_map; lia. }
      * apply Forall_app. split; [exact HU |].
        apply Forall_drop. exact HU.
      * rewrite !length_app, !length_map in *. cbn [length] in Hlen. unfold COMBOS_NUM in *. lia.
      * intros Hnot. exfalso. apply Hnot. apply elem_of_cons. left. reflexivity.
    + rewrite decide_False by congruence.
      specialize (IH (P ++ [p]) n).
      rewrite length_app in IH. cbn [length] in IH.
      rewrite Nat.add_1_r in IH.
      rewrite map_app in IH. cbn [map] in IH. rewrite <- !app_assoc in IH.
      cbn [app] in IH.
      destruct IH as (U' & Hrun & HU' & Hlen' & Hsame); [lia | exact Hlen | exact HU | exact HUne |].
      exists U'. split; [| split; [exact HU' | split]].
      * rewrite Hrun. cbn [map]. rewrite <- !app_assoc. reflexivity.
      * cbn [map]. rewrite <- Hlen'. rewrite !length_app. cbn [length].
        rewrite ?length_app. cbn [length]. lia.
      * intros Hnot. apply Hsame. intros Hin. apply Hnot. apply elem_of_cons. right. exact Hin.
Qed.

(** A press of a tracked pair changes nothing; a press of a new pair
    appends it while a slot is free. *)
Lemma manage_combos_press combos t k :
  tidy combos ->
  tidy (manage_combos combos true t k) /\
  held (manage_combos combos true t k) =
    (if decide ((t, k) ∈ held combos) then held combos
     else if decide (length (held combos) < COMBOS_NUM)%nat
          then held combos ++ [(t, k)] else held combos) /\
  ((t, k) ∈ held combos -> manage_combos combos true t k = combos).
Proof.
  intros (H & U & -> & HU & Hlen). rewrite held_tidy by exact HU.
  unfold manage_combos.
  pose proof (loop_press [] H U COMBOS_NUM t k) as Hloop.
  cbn [map app length] in Hloop. rewrite Hloop by (assumption || apply Nat.add_0_r).
  clear Hloop.
  destruct (decide ((t, k) ∈ H)) as [Hin|Hin].
  - split; [exists H, U; auto |]. split; [apply held_tidy; exact HU | reflexivity].
  - rewrite length_app, length_map in Hlen. destruct U as [|u U'].
    + cbn [length] in Hlen. rewrite decide_False by lia.
      split; [exists H, []; rewrite length_app, length_map; auto |].
      split; [apply held_tidy; constructor | intros Hc; contradiction].
    + cbn [length] in Hlen. rewrite decide_True by lia.
      inversion HU as [|? ? Hu HU']; subst.
      assert (Heq : map item_of H ++ mk_item true t k :: U' =
                    map item_of (H ++ [(t, k)]) ++ U').
      { rewrite map_app, <- app_assoc. reflexivity. }
      rewrite Heq. split.
      * exists (H ++ [(t, k)]), U'. split; [reflexivity |]. split; [exact HU' |].
        rewrite length_app, length_map, length_app. cbn [length]. lia.
      * split; [apply held_tidy; exact HU' | intros Hc; contradiction].
Qed.

(** While a slot is free, a release removes the pair's entry and closes
    the gap; a release of an untracked pair changes nothing. *)
Lemma manage_combos_release combos t k :
  tidy combos -> (length (held combos) < COMBOS_NUM)%nat ->
  tidy (manage_combos combos false t k) /\
  held (manage_combos combos false t k) = remove_first (t, k) (held combos) /\
  ((t, k) ∉ held combos -> manage_combos combos false t k = combos).
Proof.
  intros (H & U & -> & HU & Hlen). rewrite held_tidy by exact HU. intros Hfree.
  unfold manage_combos.
  assert (HUne : U <> []).
  { intros ->. rewrite app_nil_r, length_map in Hlen. lia. }
  destruct (loop_release [] H U COMBOS_NUM t k) as (U' & Hrun & HU' & Hlen' & Hsame);
    try assumption; [apply Nat.add_0_r |].
  cbn [map app length] in Hrun, Hlen'. rewrite Hrun.
  split; [exists (remove_first (t, k) H), U'; auto |].
  split; [apply held_tidy; exact HU' |].
  intros Hnot. rewrite (Hsame Hnot). f_equal. f_equal.
  clear -Hnot. induction H as [|p H IH]; [reflexivity |].
  cbn [remove_first]. rewrite decide_False
    by (intros Heq; subst p; apply Hnot; apply elem_of_cons; left; reflexivity).
  f_equal. apply IH. intros Hin. apply Hnot. apply elem_of_cons. right. exact Hin.
Qed.

Lemma combos_init_tidy : tidy combos_init.
Proof.
  exists [], combos_init. split; [reflexivity |]. split; [| reflexivity].
  unfold combos_init. apply Forall_replicate. reflexivity.
Qed.

Lemma mismatch_pair c it :
  mismatch c (type it) (code it) =
  negb (bool_decide ((type c, code c) = (type it, code it))).
Proof.
  case_bool_decide as H; cbn [negb].
  - injection H as H1 H2. apply mismatch_false. split; assumption.
  - apply mismatch_true. exact H.
Qed.

(** The inner search finds [it] exactly when its pair is tracked. *)
Lemma find_loop_held combos it n j :
  (length combos <= n + j)%nat ->
  find_loop n j combos it =
  bool_decide ((type it, code it) ∈ held (drop j combos)).
Proof.
  revert j. induction n as [|n IH]; intros j Hn.
  - rewrite drop_ge by lia. cbn [find_loop held].
    rewrite bool_decide_eq_false_2 by apply not_elem_of_nil. reflexivity.
  - cbn [find_loop]. destruct (combos !! j) as [c|] eqn:Ec.
    + rewrite (drop_S _ _ _ Ec). cbn [held].
      destruct (assigned c); cbn [negb].
      * rewrite mismatch_pair. case_bool_decide as Hc; cbn [negb].
        -- rewrite Hc. rewrite bool_decide_eq_true_2
             by (apply elem_of_cons; left; reflexivity). reflexivity.
        -- rewrite IH by lia. apply bool_decide_ext.
           rewrite elem_of_cons. split; [auto |].
           intros [Heq|Hin]; [congruence | exact Hin].
      * rewrite bool_decide_eq_false_2 by apply not_elem_of_nil. reflexivity.
    + apply lookup_ge_None_1 in Ec. rewrite drop_ge by lia. cbn [held].
      rewrite bool_decide_eq_false_2 by apply not_elem_of_nil. reflexivity.
Qed.

(** The outer loop ends with [num] cut down to the members and [found]
    counting the tracked ones among them. *)
Lemma check_loop_spec combos item n i found :
  length combos = COMBOS_NUM ->
  (i + n <= length item)%nat -> 0 <= found -> found + Z.of_nat n < UINT_MOD ->
  check_loop n i combos item found =
  Some (Z.of_nat i + Z.of_nat (length (held (take n (drop i item)))),
        found + Z.of_nat (length (filter (fun m => m ∈ held combos)
                                         (held (take n (drop i item)))))).
Proof.
  intros Hc. revert i found. induction n as [|n IH]; intros i found Hi Hf Hu.
  - rewrite take_0. cbn [check_loop held]. rewrite filter_nil. cbn [length].
    f_equal. f_equal; lia.
  - cbn [check_loop].
    destruct (lookup_lt_is_Some_2 item i ltac:(lia)) as [it Hit].
    rewrite Hit, (drop_S _ _ _ Hit). cbn [take held].
    destruct (assigned it); cbn [negb].
    + rewrite find_loop_held by (rewrite Hc; lia). rewrite drop_0.
      rewrite filter_cons. cbn [length].
      case_bool_decide as Hin.
      * rewrite decide_True by exact Hin.
        rewrite uint_wrap_small by lia. rewrite IH by lia.
        cbn [length]. f_equal. f_equal; lia.
      * rewrite decide_False by exact Hin. rewrite IH by lia.
        f_equal. f_equal; lia.
    + rewrite filter_nil. cbn [length]. f_equal. f_equal; lia.
Qed.

Lemma filter_all {A} (P : A -> Prop) `{!forall x, Decision (P x)} (l : list A) :
  length (filter P l) = length l <-> Forall P l.
Proof.
  induction l as [|x l IH].
  - split; [constructor | reflexivity].
  - rewrite filter_cons. destruct (decide (P x)) as [Hx|Hx].
    + cbn [length]. split.
      * intros Hl. constructor; [exact Hx | apply IH; lia].
      * intros Hl. inversion Hl; subst. f_equal. apply IH. assumption.
    + split.
      * intros Hl. pose proof (length_filter P l). cbn [length] in Hl. lia.
      * intros Hl. inversion Hl; subst. contradiction.
Qed.

(** [check_combos] answers whether the combo has a member and all its
    members are tracked. *)
Lemma check_combos_spec combos item num :
  length combos = COMBOS_NUM ->
  0 <= num <= Z.of_nat (length item) -> num < UINT_MOD ->
  check_combos combos item num =
  Some (bool_decide (members item num <> [] /\
                     Forall (fun m => m ∈ held combos) (members item num))).
Proof.
  intros Hc Hnum Hu. unfold check_combos, members.
  rewrite check_loop_spec by (assumption || lia). rewrite drop_0.
  set (M := held (take (Z.to_nat num) item)).
  change (Z.of_nat 0) with 0. rewrite !Z.add_0_l. f_equal.
  destruct M as [|m M'] eqn:EM.
  - cbn [length]. change (Z.of_nat 0 =? 0) with true. cbv iota.
    rewrite bool_decide_eq_false_2 by (intros [H _]; congruence). reflexivity.
  - replace (Z.of_nat (length (m :: M')) =? 0) with false
      by (symmetry; apply Z.eqb_neq; cbn [length]; lia).
    pose proof (filter_all (fun m => m ∈ held combos) (m :: M')) as Hall.
    destruct (Z.eqb_spec (Z.of_nat (length (filter (fun m0 => m0 ∈ held combos) (m :: M'))))
                         (Z.of_nat (length (m :: M')))) as [Heq|Hne].
    + rewrite bool_decide_eq_true_2; [reflexivity |].
      split; [discriminate | apply Hall; lia].
    + rewrite bool_decide_eq_false_2; [reflexivity |].
      intros [_ HF]. apply Hall in HF. lia.
Qed.

(** The scenario of the specification on an empty table: A down, B down,
    A up leaves exactly B; the chord A+B is seen while both are down and
    no longer once A is up. *)
Lemma press_press_release (ta tb : rc_binding_type) (ka kb : Z) :
  (ta, ka) <> (tb, kb) ->
  let both := manage_combos (manage_combos combos_init true ta ka) true tb kb in
  let chord := [mk_item true ta ka; mk_item true tb kb] in
  held both = [(ta, ka); (tb, kb)] /\
  held (manage_combos both false ta ka) = [(tb, kb)] /\
  check_combos both chord 2 = Some true /\
  check_combos (manage_combos both false ta ka) chord 2 = Some false.
Proof.
  intros Hne both chord.
  assert (Hab : mismatch (mk_item true ta ka) tb kb = true)
    by (apply mismatch_true; exact Hne).
  assert (Hba : mismatch (mk_item true tb kb) ta ka = true)
    by (apply mismatch_true; cbn; congruence).
  assert (Hboth : both = mk_item true ta ka :: mk_item true tb kb ::
                         replicate 62 (mk_item false RCBK 0)).
  { subst both. unfold manage_combos, combos_init, COMBOS_NUM.
    cbn -[mismatch]. rewrite Hab. reflexivity. }
  assert (Hrel : manage_combos both false ta ka =
                 mk_item true tb kb :: replicate 63 (mk_item false RCBK 0)).
  { rewrite Hboth. unfold manage_combos, COMBOS_NUM.
    cbn -[mismatch]. rewrite mismatch_refl. reflexivity. }
  rewrite Hrel. rewrite Hboth. subst chord. split; [reflexivity |].
  split; [reflexivity |]. unfold check_combos.
  change (Z.to_nat 2) with 2%nat.
  split; cbn -[mismatch uint_wrap]; rewrite ?mismatch_refl, ?Hab, ?Hba;
    cbn -[mismatch uint_wrap]; rewrite ?mismatch_refl; reflexivity.
Qed.

(** C8, where the code falls short of it: with all 64 slots taken, the
    release of the pair in the last slot moves nothing and leaves the
    pair tracked, so a combo made of it still checks as held. *)
Theorem release_on_full_table_keeps_entry :
  length (held combos_full) = 64%nat /\
  In (RCBK, 63) (held combos_full) /\
  manage_combos combos_full false RCBK 63 = combos_full /\
  check_combos (manage_combos combos_full false RCBK 63)
               [mk_item true RCBK 63] 1 = Some true.
Proof.
  split; [reflexivity |]. split; [| split; vm_compute; reflexivity].
  vm_compute. do 63 right. left. reflexivity.
Qed.

End CombosFacts.

(** ** Calibration *)

Module CalibrationFacts.
Import Combos Calibration.

(** No statement of [manage_calibration] sets [twice]: an event met while
    no step is confirmed twice changes at most the first step's [once],
    [type] and [code]. *)
Lemma manage_calibration_unconfirmed t k st :
  unconfirmed st ->
  unconfirmed (manage_calibration t k st) /\
  frz (manage_calibration t k st) = frz st /\
  control (manage_calibration t k st) = control st /\
  calibrating_controller (manage_calibration t k st) = calibrating_controller st.
Proof.
  intros (Hcal & Hlen & Htw). unfold manage_calibration. rewrite Hcal. cbn [negb].
  destruct (calibration_steps st) as [|s rest] eqn:Es; [discriminate Hlen |].
  assert (Hs : twice s = false) by (inversion Htw; assumption).
  unfold STEPS_NUM in *. cbn [first_open].
  change ((s :: rest) !! 0%nat) with (Some s). cbv beta iota.
  rewrite Hs, andb_false_r. cbn [Nat.eqb].
  change ((s :: rest) !! 0%nat) with (Some s). cbv beta iota zeta.
  rewrite orb_comm.
  replace (twice (if negb (once s) then _ else s)) with false
    by (destruct (once s); cbn; congruence).
  cbn [negb orb frz control calibrating_controller].
  split; [| repeat split; reflexivity].
  unfold unconfirmed. cbn [calibrating calibration_steps].
  split; [reflexivity |]. split.
  - rewrite length_insert. exact Hlen.
  - apply Forall_insert; [exact Htw |]. destruct (once s); cbn; assumption.
Qed.

Lemma deliver_unconfirmed events st :
  unconfirmed st ->
  unconfirmed (deliver events st) /\
  frz (deliver events st) = frz st /\
  control (deliver events st) = control st.
Proof.
  revert st. induction events as [|e events IH]; intros st Hst.
  - repeat split; try reflexivity; apply Hst.
  - change (deliver (e :: events) st)
      with (deliver events (manage_calibration (fst e) (snd e) st)).
    destruct (manage_calibration_unconfirmed (fst e) (snd e) st Hst)
      as (Hst' & Hf & Hc & _).
    destruct (IH _ Hst') as (H1 & H2 & H3).
    split; [exact H1 |].
    split; [rewrite H2; exact Hf | rewrite H3; exact Hc].
Qed.

Lemma prompt_cmd_calibrate_enters controller fr ctl :
  prompt_cmd_calibrate controller (idle fr ctl) =
  mk_state true controller calibration_steps_init (Freeze.freeze true fr) ctl.
Proof. reflexivity. Qed.

(** What the [calibrate] command would lead to ([prompt_cmd_calibrate]
    has no caller in this program): whatever events follow it,
    calibration stays on, no step is ever confirmed twice, no binding is
    committed and the freeze reference taken on entry is not released. *)
Lemma calibrate_command_never_completes (controller : Z) (fr : Freeze.state)
    (ctl : control_table) (events : list (rc_binding_type * Z)) :
  calibrating (deliver events (prompt_cmd_calibrate controller (idle fr ctl))) = true /\
  Forall (fun s => twice s = false)
         (calibration_steps (deliver events (prompt_cmd_calibrate controller (idle fr ctl)))) /\
  control (deliver events (prompt_cmd_calibrate controller (idle fr ctl))) = ctl /\
  frz (deliver events (prompt_cmd_calibrate controller (idle fr ctl))) =
    Freeze.freeze true fr.
Proof.
  rewrite prompt_cmd_calibrate_enters.
  assert (H0 : unconfirmed (mk_state true controller calibration_steps_init
                                     (Freeze.freeze true fr) ctl)).
  { split; [reflexivity |]. split; [reflexivity |].
    cbn [calibration_steps]. unfold calibration_steps_init, fresh_step.
    repeat constructor. }
  destruct (deliver_unconfirmed events _ H0) as ((Hc & _ & Ht) & Hf & Hctl).
  split; [exact Hc |]. split; [exact Ht |]. split; [exact Hctl | exact Hf].
Qed.




(** The run of the specification's scenario: after two events for each of
    the twelve buttons only the first step holds anything, and it holds
    the first event. *)
Lemma two_per_step_run (fr : Freeze.state) (ctl : control_table) :
  map (fun s => (once s, twice s, step_type s, step_code s))
      (calibration_steps (deliver two_per_step (prompt_cmd_calibrate 0 (idle fr ctl)))) =
  (true, false, RCBK, 1) :: replicate 12 (false, false, RCB_NUM, -1).
Proof. reflexivity. Qed.

(** One event per button leaves the same picture. *)
Lemma one_per_step_run (fr : Freeze.state) (ctl : control_table) :
  map (fun s => (once s, twice s, step_type s, step_code s))
      (calibration_steps
         (deliver one_per_step (prompt_cmd_calibrate 0 (idle fr ctl)))) =
  (true, false, RCBK, 1) :: replicate 12 (false, false, RCB_NUM, -1).
Proof. reflexivity. Qed.

End CalibrationFacts.

(** ** Filter stack *)

Module FiltersFacts.
Import Filters.
Local Open Scope nat_scope.

Lemma default_filter_available : filters_available !! 0 = Some default_filter.
Proof. reflexivity. Qed.

Lemma count_buffers_length l : count_buffers l <> 0 -> 2 <= length l.
Proof.
  destruct l as [|f [|g rest]]; cbn [count_buffers length]; intros H;
    try congruence; lia.
Qed.

Lemma count_buffers_unsafe l :
  count_buffers l <> 0 ->
  S (length (remove_first_unsafe l)) = length l.
Proof.
  induction l as [|f rest IH]; [cbn; congruence |].
  intros H. cbn [remove_first_unsafe]. destruct (safe f) eqn:Es; [| reflexivity].
  cbn [length]. f_equal. apply IH.
  destruct rest as [|g rest']; [cbn in H; congruence |].
  cbn [count_buffers] in H. rewrite Es in H. exact H.
Qed.

(** The reallocation loop leaves the stack alone unless it asks for a
    retry, and then exactly the first unsafe filter is gone. *)
Lemma realloc_loop_stack n i e calls st :
  match realloc_loop n i e calls st with
  | Wired st' =>
      filters_stack st' = filters_stack st /\
      filters_stack_default st' = filters_stack_default st
  | Retry st' _ =>
      filters_stack st' = remove_first_unsafe (filters_stack st) /\
      filters_stack_default st' = filters_stack_default st
  end.
Proof.
  revert i calls st. induction n as [|n IH]; intros i calls st; cbn [realloc_loop].
  - split; reflexivity.
  - destruct (buf_size e =? 0)%Z.
    + specialize (IH (S i) (S calls)
        (if Nat.eqb i 0
         then mk_state (filters_stack st) (filters_stack_default st) false (data_buf1 st)
         else mk_state (filters_stack st) (filters_stack_default st) (data_buf0 st) false)).
      destruct (realloc_loop _ _ _ _ _); destruct (Nat.eqb i 0); exact IH.
    + destruct (negb (realloc_ok e calls)).
      * destruct (Nat.eqb i 0); split; reflexivity.
      * specialize (IH (S i) (S calls)
          (if Nat.eqb i 0
           then mk_state (filters_stack st) (filters_stack_default st) true (data_buf1 st)
           else mk_state (filters_stack st) (filters_stack_default st) (data_buf0 st) true)).
        destruct (realloc_loop _ _ _ _ _); destruct (Nat.eqb i 0); exact IH.
Qed.

(** What one pass does to the stack. *)
Lemma update_pass_spec e calls st :
  match update_pass e calls st with
  | Wired st' =>
      filters_stack st' = filters_stack st /\ filters_stack st <> [] /\
      filters_stack_default st' = filters_stack_default st /\
      (filters_stack_default st = true -> length (filters_stack st) = 1)
  | Retry st' _ =>
      passes_left st' < passes_left st /\
      (filters_stack st = [] ->
         filters_stack st' = [default_filter] /\
         filters_stack_default st' = true) /\
      (filters_stack st <> [] ->
         length (filters_stack st') < length (filters_stack st) /\
         filters_stack st' <> [] /\
         filters_stack_default st' = false /\
         (filters_stack_default st = true ->
            filters_stack st' = tail (filters_stack st)))
  end.
Proof.
  unfold update_pass.
  destruct (filters_stack st) as [|f rest] eqn:Es.
  - unfold passes_left. rewrite Es. cbn. repeat split; try lia; congruence.
  - destruct (Nat.ltb 1 (length (f :: rest))) eqn:E1;
      [apply Nat.ltb_lt in E1 | apply Nat.ltb_ge in E1].
    + destruct (filters_stack_default st) eqn:Ed; cbn [andb].
      * unfold passes_left. rewrite Es, Ed. cbn [filters_stack filters_stack_default].
        destruct rest as [|g rest']; [cbn in E1; lia |].
        cbn [length tail] in *. repeat split; try lia; try congruence.
      * destruct (Nat.eqb (count_buffers (f :: rest)) 0) eqn:E2; cbn [negb].
        { cbn [filters_stack filters_stack_default]. repeat split; congruence. }
        apply Nat.eqb_neq in E2.
        pose proof (count_buffers_unsafe _ E2) as Hlen.
        assert (Hspec : forall n st0,
                  filters_stack st0 = f :: rest ->
                  filters_stack_default st0 = false ->
                  match realloc_loop n 0 e calls st0 with
                  | Wired st' =>
                      filters_stack st' = f :: rest /\ f :: rest <> [] /\
                      filters_stack_default st' = false /\
                      (false = true -> length (f :: rest) = 1)
                  | Retry st' _ =>
                      passes_left st' < passes_left st /\
                      (f :: rest = [] -> filters_stack st' = [default_filter] /\
                                         filters_stack_default st' = true) /\
                      (f :: rest <> [] ->
                         length (filters_stack st') < length (f :: rest) /\
                         filters_stack st' <> [] /\
                         filters_stack_default st' = false /\
                         (false = true -> filters_stack st' = tail (f :: rest)))
                  end).
        { intros n st0 Hst0 Hd0.
          pose proof (realloc_loop_stack n 0 e calls st0) as H.
          destruct (realloc_loop n 0 e calls st0) as [st' c'|st'];
            destruct H as [Hs Hd]; rewrite Hst0 in Hs; rewrite Hd0 in Hd.
          - assert (Hne : filters_stack st' <> []).
            { intros Hnil. rewrite Hs in Hnil. rewrite Hnil in Hlen.
              cbn [length] in *. lia. }
            split; [| split; [congruence |]].
            + unfold passes_left. rewrite Es, Ed, Hd.
              destruct (filters_stack st') eqn:Es'; [congruence |].
              rewrite <- Hs in Hlen. cbn [length] in *. lia.
            + intros _. rewrite Hs. repeat split; try congruence; lia.
          - repeat split; congruence. }
        destruct (Nat.ltb 2 (count_buffers (f :: rest))); apply Hspec;
          try reflexivity; try assumption.
    + cbn [andb]. assert (Hrest : rest = []) by (destruct rest; cbn in E1; [reflexivity | lia]).
      subst rest. cbn [count_buffers Nat.eqb negb filters_stack filters_stack_default].
      repeat split; congruence.
Qed.

Lemma update_loop_spec fuel e calls st :
  passes_left st < fuel ->
  exists st',
    update_loop fuel e calls st = Some st' /\
    filters_stack st' <> [] /\
    length (filters_stack st') <= Nat.max 1 (length (filters_stack st)) /\
    (filters_stack st = [] ->
       filters_stack st' = [default_filter] /\ filters_stack_default st' = true) /\
    (forall d f, filters_stack st = [d; f] -> filters_stack_default st = true ->
       filters_stack st' = [f] /\ filters_stack_default st' = false).
Proof.
  revert calls st. induction fuel as [|fuel IH]; intros calls st Hfuel; [lia |].
  cbn [update_loop]. pose proof (update_pass_spec e calls st) as Hpass.
  destruct (update_pass e calls st) as [st1 calls1|st1].
  - destruct Hpass as (Hlt & Hempty & Hnon).
    destruct (IH calls1 st1 ltac:(lia)) as (st' & Hrun & Hne & Hlen & Hdef & Hpush).
    exists st'. split; [exact Hrun |]. split; [exact Hne |].
    destruct (filters_stack st) as [|f0 rest0] eqn:Es.
    + destruct (Hempty eq_refl) as [Hs1 Hd1].
      pose proof (update_pass_spec e calls1 st1) as Hpass1.
      destruct fuel as [|fuel']; [discriminate Hrun |].
      cbn [update_loop] in Hrun.
      destruct (update_pass e calls1 st1) as [st2 calls2|st2].
      * destruct Hpass1 as (_ & _ & Hnon1).
        rewrite Hs1 in Hnon1.
        destruct (Hnon1 ltac:(discriminate)) as (Hl2 & Hne2 & _).
        cbn [length] in Hl2. destruct (filters_stack st2); [congruence | cbn in Hl2; lia].
      * destruct Hpass1 as (Hs2 & _ & Hd2 & _).
        inversion Hrun; subst st'. rewrite Hs1 in Hlen.
        split; [cbn [length] in *; lia |].
        split; [intros _; split; congruence | intros d f Hdf; discriminate Hdf].
    + destruct (Hnon ltac:(discriminate)) as (Hl1 & Hne1 & Hd1 & Htail).
      split; [cbn [length] in *; lia |].
      split; [intros Hnil; discriminate Hnil |].
      intros d f Hdf Hflag. inversion Hdf; subst f0 rest0.
      specialize (Htail Hflag). cbn [tail] in Htail.
      pose proof (update_pass_spec e calls1 st1) as Hpass1.
      destruct fuel as [|fuel']; [discriminate Hrun |].
      cbn [update_loop] in Hrun.
      destruct (update_pass e calls1 st1) as [st2 calls2|st2].
      * destruct Hpass1 as (_ & _ & Hnon1). rewrite Htail in Hnon1.
        destruct (Hnon1 ltac:(discriminate)) as (Hl2 & Hne2 & _).
        cbn [length] in Hl2. destruct (filters_stack st2); [congruence | cbn in Hl2; lia].
      * destruct Hpass1 as (Hs2 & _ & Hd2 & _).
        inversion Hrun; subst st'. split; congruence.
  - destruct Hpass as (Hs & Hne & Hd & Hone).
    exists st1. split; [reflexivity |]. split; [congruence |].
    split; [rewrite Hs; lia |].
    split; [intros Hnil; congruence |].
    intros d f Hdf Hflag. specialize (Hone Hflag). rewrite Hdf in Hone.
    discriminate Hone.
Qed.

Lemma passes_left_bound st : passes_left st < 2 * length (filters_stack st) + 5.
Proof.
  unfold passes_left. destruct (filters_stack st); [cbn; lia |].
  destruct (filters_stack_default st); lia.
Qed.

(** C5 (as amended): a rebuild always ends and leaves a stack that is not
    empty; an empty stack becomes the one-element stack holding
    [filters_available[0]], the stretch filter, with
    [filters_stack_default] set; and once a filter has been pushed on top
    of that default, the rebuild removes the default and clears the
    flag. *)
Theorem filters_stack_update_nonempty (e : env) (st : state) :
  exists st',
    filters_stack_update e st = Some st' /\
    1 <= length (filters_stack st') /\
    (filters_stack st = [] ->
       filters_stack st' = [default_filter] /\
       filters_stack_default st' = true /\
       filters_available !! 0 = Some default_filter /\
       func default_filter = filter_stretch) /\
    (forall f, filters_stack st = [default_filter] ->
       filters_stack_default st = true ->
       exists st'', filters_push e f st = Some st'' /\
                    filters_stack st'' = [f] /\
                    filters_stack_default st'' = false).
Proof.
  unfold filters_stack_update.
  destruct (update_loop_spec _ e 0 st (passes_left_bound st))
    as (st' & Hrun & Hne & _ & Hempty & _).
  exists st'. split; [exact Hrun |].
  split; [destruct (filters_stack st'); [congruence | cbn; lia] |].
  split.
  - intros Hnil. destruct (Hempty Hnil) as [H1 H2].
    repeat split; assumption || reflexivity.
  - intros f Hs Hd. unfold filters_push, filters_stack_update. rewrite Hs.
    cbn [length Nat.eqb STACK_MAX app filters_stack].
    destruct (update_loop_spec (2 * 2 + 5) e 0
                (mk_state [default_filter; f] (filters_stack_default st)
                          (data_buf0 st) (data_buf1 st)))
      as (st'' & Hrun' & _ & _ & _ & Hpush).
    { unfold passes_left. cbn [filters_stack filters_stack_default length].
      destruct (filters_stack_default st); lia. }
    exists st''. split; [exact Hrun' |].
    apply (Hpush default_filter f); [reflexivity | exact Hd].
Qed.

Lemma filters_stack_update_nonempty_witness :
  filters_stack initial = [] /\
  exists st',
    filters_stack_update (mk_env 0 (fun _ => true)) initial = Some st' /\
    filters_stack st' = [default_filter] /\
    filters_stack_default st' = true.
Proof.
  split; [reflexivity |].
  destruct (filters_stack_update_nonempty (mk_env 0 (fun _ => true)) initial)
    as (st' & Hrun & _ & Hempty & _).
  exists st'. split; [exact Hrun |].
  destruct (Hempty eq_refl) as (H1 & H2 & _). split; assumption.
Defined.

(** C5 as stated fails on the stage that is inserted: it is the stretch
    filter, which is neither the pass-through function nor [safe]. *)
Lemma default_stage_is_not_identity :
  option_map (fun st => map func (filters_stack st))
             (filters_stack_update (mk_env 0 (fun _ => true)) initial)
    = Some [filter_stretch] /\
  filter_stretch <> filter_off /\
  safe default_filter = false.
Proof. split; [reflexivity |]. split; [discriminate | reflexivity]. Qed.

(** For the record: a filter inserted below the default is the one the
    rebuild removes. *)
Lemma insert_below_default_is_dropped :
  option_map (fun st => map func (filters_stack st))
             (filters_insert (mk_env 0 (fun _ => true))
                (mk_filter "scale" filter_scale false false true)
                (mk_state [default_filter] true false false))
    = Some [filter_stretch].
Proof. reflexivity. Qed.

End FiltersFacts.

(** ** Stretch filter *)

Module StretchFacts.
Import Stretch.

Lemma shiftl_10 d : Z.shiftl d 10 = d * 1024.
Proof. rewrite Z.shiftl_mul_pow2 by lia. reflexivity. Qed.

(** [first_dst r s] is where source coordinate [s] starts. *)
Lemma first_dst_spec r s d :
  first_dst r s <= d <-> s * r <= d * 1024.
Proof.
  unfold first_dst. split; intros H.
  - Z.div_mod_to_equations. lia.
  - Z.div_mod_to_equations. lia.
Qed.

Lemma first_dst_mono r s : 0 <= r -> first_dst r s <= first_dst r (s + 1).
Proof.
  intros Hr. unfold first_dst. apply Z.div_le_mono; lia.
Qed.

Lemma first_dst_0 r : first_dst r 0 = 0.
Proof. reflexivity. Qed.

(** A destination coordinate maps to [s] exactly inside the interval
    that starts at [first_dst r s]. *)
Lemma maps_to_iff r d s :
  0 < r -> 0 <= d ->
  d * 1024 / r = s <-> first_dst r s <= d < first_dst r (s + 1).
Proof.
  intros Hr Hd.
  assert (Hlt : d < first_dst r (s + 1) <-> d * 1024 < (s + 1) * r).
  { pose proof (first_dst_spec r (s + 1) d). lia. }
  rewrite Hlt, first_dst_spec. split.
  - intros <-. pose proof (Z.div_mod (d * 1024) r ltac:(lia)).
    pose proof (Z.mod_pos_bound (d * 1024) r ltac:(lia)). nia.
  - intros [H1 H2]. symmetry. apply Z.div_unique with (r := d * 1024 - s * r); lia.
Qed.

(** At most [ceil(r / 1024)] destination coordinates share a source
    coordinate. *)
Lemma first_dst_gap r s :
  0 <= r <= 255 * 1024 -> first_dst r (s + 1) - first_dst r s <= 255.
Proof.
  intros Hr. unfold first_dst.
  pose proof (Z.div_mod (s * r + 1023) 1024 ltac:(lia)).
  pose proof (Z.mod_pos_bound (s * r + 1023) 1024 ltac:(lia)).
  pose proof (Z.div_mod ((s + 1) * r + 1023) 1024 ltac:(lia)).
  pose proof (Z.mod_pos_bound ((s + 1) * r + 1023) 1024 ltac:(lia)).
  lia.
Qed.

(** With a source of at most 1024 pixels every destination coordinate
    maps inside the source. *)
Lemma maps_inside src dst d :
  1 <= src <= 1024 -> 0 <= d < dst ->
  d * 1024 / (dst * 1024 / src) < src.
Proof.
  intros Hs Hd.
  pose proof (Z.div_mod (dst * 1024) src ltac:(lia)).
  pose proof (Z.mod_pos_bound (dst * 1024) src ltac:(lia)).
  assert (0 < dst * 1024 / src).
  { apply Z.div_str_pos. lia. }
  apply Z.div_lt_upper_bound; [lia |]. nia.
Qed.

Lemma covers src dst :
  1 <= src <= 1024 -> 0 <= dst ->
  dst <= first_dst (dst * 1024 / src) src.
Proof.
  intros Hs Hd. unfold first_dst.
  pose proof (Z.div_mod (dst * 1024) src ltac:(lia)).
  pose proof (Z.mod_pos_bound (dst * 1024) src ltac:(lia)).
  apply Z.div_le_lower_bound; [lia |]. nia.
Qed.

Lemma hits_at r d s :
  0 < r <= 255 * 1024 -> 0 <= d -> d * 1024 / r = s ->
  hits r (d + 1) s = hits r d s + 1 /\ 0 <= hits r d s < 255.
Proof.
  intros Hr Hd Hs. apply maps_to_iff in Hs; [| lia | lia].
  pose proof (first_dst_gap r s ltac:(lia)). unfold hits. lia.
Qed.

Lemma hits_off r d s :
  0 < r -> 0 <= d -> d * 1024 / r <> s ->
  hits r (d + 1) s = hits r d s.
Proof.
  intros Hr Hd Hs.
  assert (H : ~ (first_dst r s <= d < first_dst r (s + 1)))
    by (intros H; apply Hs, maps_to_iff; assumption).
  pose proof (first_dst_mono r s ltac:(lia)). unfold hits. lia.
Qed.

Lemma length_incr i table : length (incr i table) = length table.
Proof. unfold incr. apply length_alter. Qed.

(** The table after [n] more iterations counts, for each source
    coordinate, the destination coordinates met so far that map to it. *)
Lemma fill_loop_hits (n : nat) (d r src : Z) (table : list Z) :
  0 < r <= 255 * 1024 -> 0 <= d -> d + Z.of_nat n <= 255 * 1024 ->
  length table = Z.to_nat src ->
  (forall s : nat, Z.of_nat s < src -> table !! s = Some (hits r d (Z.of_nat s))) ->
  (forall d', d <= d' < d + Z.of_nat n -> d' * 1024 / r < src) ->
  exists table',
    fill_loop n d r src table = Some table' /\
    length table' = Z.to_nat src /\
    forall s : nat, Z.of_nat s < src ->
      table' !! s = Some (hits r (d + Z.of_nat n) (Z.of_nat s)).
Proof.
  revert d table. induction n as [|n IH]; intros d table Hr Hd Hn Hlen Htab Hin.
  - exists table. split; [reflexivity |]. split; [exact Hlen |].
    intros s Hs. rewrite Z.add_0_r. apply Htab. exact Hs.
  - cbn [fill_loop].
    assert (Er : (r =? 0) = false) by (apply Z.eqb_neq; lia). rewrite Er.
    rewrite shiftl_10, uint_wrap_small by (unfold UINT_MOD; lia).
    assert (Hs0 : 0 <= d * 1024 / r) by (apply Z.div_pos; lia).
    assert (Hs1 : d * 1024 / r < src) by (apply Hin; lia).
    assert (Es : (d * 1024 / r <? src) = true) by (apply Z.ltb_lt; exact Hs1).
    rewrite Es.
    destruct (IH (d + 1) (incr (d * 1024 / r) table)) as (table' & Hrun & Hlen' & Htab').
    + exact Hr.
    + lia.
    + lia.
    + rewrite length_incr. exact Hlen.
    + intros s Hs. unfold incr.
      destruct (decide (Z.to_nat (d * 1024 / r) = s)) as [Heq|Hne].
      * subst s. rewrite list_lookup_alter_eq, Htab by exact Hs. cbn [fmap option_fmap option_map].
        rewrite Z2Nat.id by exact Hs0.
        destruct (hits_at r d (d * 1024 / r) Hr Hd eq_refl) as [Hstep Hrange].
        rewrite Hstep, Z.mod_small by lia. reflexivity.
      * rewrite list_lookup_alter_ne by exact Hne. rewrite Htab by exact Hs.
        rewrite hits_off; [reflexivity | lia | lia | lia].
    + intros d' Hd'. apply Hin. lia.
    + exists table'. split; [exact Hrun |]. split; [exact Hlen' |].
      intros s Hs. rewrite (Htab' s Hs). f_equal. f_equal. lia.
Qed.

Lemma table_sum_app l1 l2 : table_sum (l1 ++ l2) = table_sum l1 + table_sum l2.
Proof.
  unfold table_sum. induction l1 as [|x l1 IH]; cbn [app fold_right]; lia.
Qed.

(** The counts of consecutive source coordinates telescope. *)
Lemma sum_hits r k (n : nat) :
  table_sum (map (fun s : nat => hits r k (Z.of_nat s)) (seq 0 n)) =
  Z.min k (first_dst r (Z.of_nat n)) - Z.min k (first_dst r 0).
Proof.
  induction n as [|n IH].
  - change (Z.of_nat 0) with 0. unfold table_sum. cbn [seq map fold_right]. lia.
  - rewrite seq_S, map_app, table_sum_app, IH. rewrite Nat.add_0_l.
    cbn [map]. unfold table_sum at 1. cbn [fold_right].
    unfold hits. replace (Z.of_nat n + 1) with (Z.of_nat (S n)) by lia. lia.
Qed.

Lemma table_of_hits r k (src : Z) (table : list Z) :
  length table = Z.to_nat src ->
  (forall s : nat, Z.of_nat s < src -> table !! s = Some (hits r k (Z.of_nat s))) ->
  table = map (fun s : nat => hits r k (Z.of_nat s)) (seq 0 (Z.to_nat src)).
Proof.
  intros Hlen Htab. apply list_eq. intros s.
  destruct (decide (s < Z.to_nat src)%nat) as [Hs|Hs].
  - rewrite Htab by lia. rewrite list_lookup_fmap, lookup_seq_lt by exact Hs.
    reflexivity.
  - rewrite !lookup_ge_None_2; [reflexivity | rewrite length_map, length_seq; lia | lia].
Qed.

Lemma table_sum_zeros n : table_sum (replicate n 0) = 0.
Proof. induction n as [|n IH]; [reflexivity |]. cbn. exact IH. Qed.

(** One dimension: the filled table has one entry per source coordinate
    and sums to the destination size. *)
Lemma fill_table_sum src dst :
  1 <= src <= 1024 -> 0 <= dst <= 255 * src ->
  exists table,
    fill_table dst (uint_wrap (Z.shiftl dst 10) / src) src = Some table /\
    length table = Z.to_nat src /\ table_sum table = dst.
Proof.
  intros Hs Hd. unfold fill_table.
  rewrite shiftl_10, uint_wrap_small by (unfold UINT_MOD; lia).
  destruct (Z.eq_dec dst 0) as [->|Hne].
  - exists (replicate (Z.to_nat src) 0). split; [reflexivity |].
    split; [apply length_replicate | apply table_sum_zeros].
  - set (r := dst * 1024 / src).
    assert (Hr : 0 < r <= 255 * 1024).
    { subst r. split; [apply Z.div_str_pos; lia |].
      apply Z.div_le_upper_bound; lia. }
    destruct (fill_loop_hits (Z.to_nat dst) 0 r src (replicate (Z.to_nat src) 0))
      as (table & Hrun & Hlen & Htab).
    + exact Hr.
    + lia.
    + lia.
    + apply length_replicate.
    + intros s Hs'. rewrite lookup_replicate_2 by lia. f_equal. unfold hits.
      pose proof (first_dst_mono r (Z.of_nat s) ltac:(lia)).
      assert (0 <= first_dst r (Z.of_nat s)).
      { unfold first_dst. apply Z.div_pos; nia. }
      lia.
    + intros d' Hd'. subst r. apply maps_inside; lia.
    + exists table. split; [exact Hrun |]. split; [exact Hlen |].
      rewrite (table_of_hits r (0 + Z.of_nat (Z.to_nat dst)) src table Hlen Htab).
      rewrite sum_hits, first_dst_0. rewrite !Z2Nat.id by lia.
      pose proof (covers src dst Hs ltac:(lia)). fold r in H. lia.
Qed.

Lemma aspect_fix_bounds src_w src_h out_w out_h :
  1 <= src_w <= 1024 -> 1 <= src_h <= 1024 ->
  0 <= out_w <= 255 * src_w -> 0 <= out_h <= 255 * src_h ->
  0 <= fst (aspect_fix src_w src_h out_w out_h) <= 255 * src_w /\
  0 <= snd (aspect_fix src_w src_h out_w out_h) <= 255 * src_h.
Proof.
  intros Hw Hh How Hoh. unfold aspect_fix.
  rewrite !uint_wrap_small by (unfold UINT_MOD; nia).
  assert (Hw1 : 0 <= out_h * src_w / src_h <= 255 * src_w).
  { split; [apply Z.div_pos; nia | apply Z.div_le_upper_bound; nia]. }
  assert (Hh1 : 0 <= out_w * src_h / src_w <= 255 * src_h).
  { split; [apply Z.div_pos; nia | apply Z.div_le_upper_bound; nia]. }
  destruct (_ >=? _); cbn [fst snd].
  - destruct (_ =? 0) eqn:E; zb;
      rewrite ?uint_wrap_small by (unfold UINT_MOD; lia); lia.
  - destruct (_ =? 0) eqn:E; zb;
      rewrite ?uint_wrap_small by (unfold UINT_MOD; lia); lia.
Qed.

(** C4 (as amended): for a source of at most 1024 by 1024 pixels and an
    output of at most 255 times the source in each direction, the
    initialisation succeeds and each table sums to the (aspect-corrected)
    destination size, one entry per source column or row. *)
Theorem stretch_tables_cover (Bpp : Z) (aspect : bool)
    (src_w src_h in_pitch out_w out_h out_pitch : Z) :
  1 <= Bpp <= 4 -> in_pitch mod Bpp = 0 -> out_pitch mod Bpp = 0 ->
  1 <= src_w <= 1024 -> 1 <= src_h <= 1024 ->
  0 <= out_w <= 255 * src_w -> 0 <= out_h <= 255 * src_h ->
  exists h_table v_table dst_w dst_h,
    filter_stretch_init Bpp aspect true src_w src_h in_pitch out_w out_h out_pitch =
      Ready h_table v_table dst_w dst_h /\
    (dst_w, dst_h) =
      (if aspect then aspect_fix src_w src_h out_w out_h else (out_w, out_h)) /\
    length h_table = Z.to_nat src_w /\ length v_table = Z.to_nat src_h /\
    table_sum h_table = dst_w /\ table_sum v_table = dst_h.
Proof.
  intros HB Hip Hop Hw Hh How Hoh. unfold filter_stretch_init.
  replace (src_h =? 0) with false by (symmetry; apply Z.eqb_neq; lia).
  replace (src_w =? 0) with false by (symmetry; apply Z.eqb_neq; lia).
  replace (Bpp =? 0) with false by (symmetry; apply Z.eqb_neq; lia).
  rewrite Hip, Hop. cbn [orb negb Z.eqb].
  replace ((Bpp =? 1) || (Bpp =? 2) || (Bpp =? 3) || (Bpp =? 4)) with true
    by (symmetry; rewrite !orb_true_iff, !Z.eqb_eq; lia).
  cbn [negb].
  set (dst := if aspect then aspect_fix src_w src_h out_w out_h else (out_w, out_h)).
  assert (Hdst : 0 <= fst dst <= 255 * src_w /\ 0 <= snd dst <= 255 * src_h).
  { subst dst. destruct aspect; [apply aspect_fix_bounds; assumption |].
    cbn [fst snd]. lia. }
  destruct dst as [dst_w dst_h]. cbn [fst snd] in Hdst.
  destruct (fill_table_sum src_w dst_w Hw ltac:(lia)) as (h_table & Hh1 & Hh2 & Hh3).
  destruct (fill_table_sum src_h dst_h Hh ltac:(lia)) as (v_table & Hv1 & Hv2 & Hv3).
  rewrite Hh1, Hv1. exists h_table, v_table, dst_w, dst_h.
  repeat split; assumption || reflexivity.
Qed.

Lemma stretch_tables_cover_witness :
  1 <= 2 <= 4 /\ 704 mod 2 = 0 /\ 1280 mod 2 = 0 /\
  1 <= 320 <= 1024 /\ 1 <= 224 <= 1024 /\
  0 <= 640 <= 255 * 320 /\ 0 <= 480 <= 255 * 224 /\
  exists h_table v_table,
    filter_stretch_init 2 false true 320 224 704 640 480 1280 =
      Ready h_table v_table 640 480 /\
    table_sum h_table = 640 /\ table_sum v_table = 480.
Proof.
  assert (H1 : 1 <= 2 <= 4) by lia.
  assert (H2 : 704 mod 2 = 0) by reflexivity.
  assert (H3 : 1280 mod 2 = 0) by reflexivity.
  assert (H4 : 1 <= 320 <= 1024) by lia.
  assert (H5 : 1 <= 224 <= 1024) by lia.
  assert (H6 : 0 <= 640 <= 255 * 320) by lia.
  assert (H7 : 0 <= 480 <= 255 * 224) by lia.
  repeat (split; [assumption |]).
  destruct (stretch_tables_cover 2 false 320 224 704 640 480 1280
              H1 H2 H3 H4 H5 H6 H7)
    as (h_table & v_table & dst_w & dst_h & Hrun & Hdst & _ & _ & Hs1 & Hs2).
  injection Hdst as -> ->.
  exists h_table, v_table. split; [exact Hrun |]. split; assumption.
Defined.

(** C4 as stated fails outside these bounds: a one-pixel source stretched
    to 256 pixels wraps its 8-bit count to zero; a 2000-pixel source
    squeezed into 3 pixels maps the last destination pixel outside the
    source, and the guard drops it; a 2049-pixel source squeezed into one
    pixel divides by a zero ratio.  All three geometries pass the checks
    of the initialisation. *)
Lemma stretch_tables_miss_pixels :
  filter_stretch_init 1 false true 1 1 1 256 1 256 = Ready [0] [1] 256 1 /\
  table_sum [0] <> 256 /\
  (exists h_table,
     filter_stretch_init 1 false true 2000 1 2000 3 1 3 = Ready h_table [1] 3 1 /\
     table_sum h_table = 2) /\
  filter_stretch_init 1 false true 2049 1 2049 1 1 1 = Undefined.
Proof.
  split; [vm_compute; reflexivity |]. split; [discriminate |].
  split; [| vm_compute; reflexivity].
  eexists. split; [vm_compute; reflexivity | vm_compute; reflexivity].
Qed.

End StretchFacts.

(** ** Text input *)

Module KbInputFacts.
Import KbInput.

Lemma load_in_bounds r mem i :
  0 <= i < Z.of_nat (length mem) -> exists c, load r mem i = Ok c.
Proof.
  intros Hi. unfold load.
  replace ((0 <=? i) && (i <? Z.of_nat (length mem))) with true
    by (symmetry; apply andb_true_iff; split; [apply Z.leb_le | apply Z.ltb_lt]; lia).
  destruct (lookup_lt_is_Some_2 mem (Z.to_nat i) ltac:(lia)) as [c Hc].
  rewrite Hc. exists c. reflexivity.
Qed.

(** A move of [size - p + 1] bytes from index [p + 1] ends two bytes past
    a block of [size] bytes. *)
Lemma memmove_tail_overruns mem p :
  0 <= p < Z.of_nat (length mem) ->
  Z.of_nat (length mem) + 1 < SIZE_MOD ->
  memmove InputBuf mem p (size_wrap (p + 1))
          (size_wrap (size_wrap (Z.of_nat (length mem) - p) + 1)) =
  OutOfBounds InputBuf (Z.of_nat (length mem)).
Proof.
  intros Hp Hsize. rewrite !size_wrap_small by (rewrite ?size_wrap_small; lia).
  unfold memmove.
  replace (Z.of_nat (length mem) - p + 1 =? 0) with false
    by (symmetry; apply Z.eqb_neq; lia).
  replace (p + 1 <? 0) with false by (symmetry; apply Z.ltb_ge; lia).
  replace (p + 1 + (Z.of_nat (length mem) - p + 1) >? Z.of_nat (length mem))
    with true by (symmetry; rewrite Z.gtb_ltb; apply Z.ltb_lt; lia).
  cbn [orb]. f_equal. lia.
Qed.

(** C10, where the code falls short of it: in every state with
    [pos < size] and a character under the cursor, Delete moves
    [size - pos + 1] bytes from index [pos + 1] and so reaches index
    [size], the first one outside the buffer. *)
Theorem kb_input_delete_overruns (K : keysyms) (input : kb_input_t)
    (h : history_t) (ksym_uni c0 : Z) :
  Z.land (SDLK_DELETE K) (KEYSYM_MOD_CTRL K) = 0 ->
  isprint (ksym_uni mod 256) = false ->
  Z.of_nat (length (buf input)) = size input ->
  0 <= pos input < size input -> size input + 1 < SIZE_MOD ->
  buf input !! Z.to_nat (pos input) = Some c0 -> c0 <> 0 ->
  kb_input K input h (SDLK_DELETE K) ksym_uni =
  OutOfBounds InputBuf (size input).
Proof.
  intros Hctrl Hprint Hlen Hpos Hsize Hc0 Hnz. unfold kb_input.
  rewrite Hctrl, Hprint, !Z.eqb_refl. cbn [negb].
  unfold load at 1.
  replace ((0 <=? pos input) && (pos input <? Z.of_nat (length (buf input))))
    with true
    by (symmetry; apply andb_true_iff; split; [apply Z.leb_le | apply Z.ltb_lt]; lia).
  rewrite Hc0. cbn [bind].
  replace (c0 =? 0) with false by (symmetry; apply Z.eqb_neq; exact Hnz).
  rewrite <- Hlen. rewrite memmove_tail_overruns by lia. reflexivity.
Qed.

(** The Game Genie prompt after "AB", cursor on the "A": Delete reaches
    index 12 of the 12-byte buffer. *)
Lemma kb_input_delete_overruns_witness :
  Z.land (SDLK_DELETE sdl_keysyms) (KEYSYM_MOD_CTRL sdl_keysyms) = 0 /\
  isprint (127 mod 256) = false /\
  Z.of_nat (length (buf genie_input)) = size genie_input /\
  0 <= pos genie_input < size genie_input /\
  size genie_input + 1 < SIZE_MOD /\
  buf genie_input !! Z.to_nat (pos genie_input) = Some 65 /\
  65 <> 0 /\
  kb_input sdl_keysyms genie_input history_init 127 127 =
    OutOfBounds InputBuf 12.
Proof.
  assert (H1 : Z.land (SDLK_DELETE sdl_keysyms) (KEYSYM_MOD_CTRL sdl_keysyms) = 0)
    by reflexivity.
  assert (H2 : isprint (127 mod 256) = false) by reflexivity.
  assert (H3 : Z.of_nat (length (buf genie_input)) = size genie_input)
    by reflexivity.
  assert (H4 : 0 <= pos genie_input < size genie_input)
    by (split; [discriminate | reflexivity]).
  assert (H5 : size genie_input + 1 < SIZE_MOD) by reflexivity.
  assert (H6 : buf genie_input !! Z.to_nat (pos genie_input) = Some 65)
    by reflexivity.
  assert (H7 : 65 <> 0) by discriminate.
  repeat (split; [assumption |]).
  exact (kb_input_delete_overruns sdl_keysyms genie_input history_init 127 65
           H1 H2 H3 H4 H5 H6 H7).
Defined.

(** Every Backspace with the cursor off the start overruns the buffer in
    the same way. *)
Lemma backspace_overruns K input h ksym_uni :
  Z.land (SDLK_BACKSPACE K) (KEYSYM_MOD_CTRL K) = 0 ->
  isprint (ksym_uni mod 256) = false ->
  SDLK_BACKSPACE K <> SDLK_DELETE K ->
  Z.of_nat (length (buf input)) = size input ->
  0 < pos input < size input -> size input + 1 < SIZE_MOD ->
  kb_input K input h (SDLK_BACKSPACE K) ksym_uni =
  OutOfBounds InputBuf (size input).
Proof.
  intros Hctrl Hprint Hne Hlen Hpos Hsize. unfold kb_input.
  rewrite Hctrl, Hprint, !Z.eqb_refl. cbn [negb].
  replace (SDLK_BACKSPACE K =? SDLK_DELETE K) with false
    by (symmetry; apply Z.eqb_neq; exact Hne).
  replace (pos input =? 0) with false by (symmetry; apply Z.eqb_neq; lia).
  rewrite (size_wrap_small (pos input - 1)) by lia.
  rewrite <- Hlen. rewrite memmove_tail_overruns by lia. reflexivity.
Qed.

(** Typing one character into the empty Game Genie prompt and pressing
    Backspace. *)
Lemma backspace_after_one_key :
  kb_input sdl_keysyms (mk_input (replicate 12 0) 0 12) history_init 65 65 =
    Ok (KB_INPUT_CONSUMED,
        mk_input (65 :: replicate 11 0) 1 12, history_init) /\
  kb_input sdl_keysyms (mk_input (65 :: replicate 11 0) 1 12) history_init 8 0 =
    OutOfBounds InputBuf 12.
Proof. split; vm_compute; reflexivity. Qed.

(** The branches that only move the cursor stay inside the buffer. *)
Lemma left_in_bounds K input h ksym_uni :
  Z.land (SDLK_LEFT K) (KEYSYM_MOD_CTRL K) = 0 ->
  isprint (ksym_uni mod 256) = false ->
  SDLK_LEFT K <> SDLK_DELETE K -> SDLK_LEFT K <> SDLK_BACKSPACE K ->
  exists input',
    kb_input K input h (SDLK_LEFT K) ksym_uni = Ok (KB_INPUT_CONSUMED, input', h) /\
    buf input' = buf input /\ size input' = size input.
Proof.
  intros Hctrl Hprint Hd Hb. unfold kb_input.
  rewrite Hctrl, Hprint. cbn [negb Z.eqb].
  replace (SDLK_LEFT K =? SDLK_DELETE K) with false
    by (symmetry; apply Z.eqb_neq; exact Hd).
  replace (SDLK_LEFT K =? SDLK_BACKSPACE K) with false
    by (symmetry; apply Z.eqb_neq; exact Hb).
  rewrite Z.eqb_refl. eexists. split; [reflexivity |]. split; reflexivity.
Qed.

End KbInputFacts.

(** ** Sound set-up and the sample pointers ([sound], [sndi],
       [pd_sound_init], [pd_sound_deinit], [pd_sound_rp], [pd_sound_wp],
       [pd_sound_write]) *)

Module SoundFacts.
Import Cbuf Sound CbufFacts.

Lemma calloc_length ok n m l :
  0 <= n * m -> calloc ok n m = Some l ->
  Z.of_nat (length l) = n * m /\ l = replicate (Z.to_nat (n * m)) Byte.x00.
Proof.
  unfold calloc. intros Hpos H.
  destruct (ok && (n * m <? SIZE_MOD)); [| discriminate].
  injection H as <-. rewrite length_replicate. split; [lia | reflexivity].
Qed.

(** X1: A successful [pd_sound_init] leaves an empty, zero-filled circular
    buffer of [(4 * samples) mod 2^32] bytes, [samples] being the
    requested count plus the device's, mod 2^32, which is also what
    [samples] is set to: four bytes per sample as long as [4 * samples]
    is below 2^32, and a wrapped size otherwise.  The buffer is well
    formed as soon as its size is neither zero nor above half the address
    range. *)
Theorem pd_sound_init_success (env : audio_env) (video_hz freq samples_in : Z)
    (sound : sound_t) (sndi : sndinfo) (r : init_result) :
  pd_sound_init env video_hz freq samples_in sound sndi = Some r ->
  ret r = 1 ->
  let size := uint_wrap (uint_wrap (samples_in + spec_samples env) * 4) in
  cbuf (sound_out r) =
    mk_cbuf 0 0 size (replicate (Z.to_nat size) Byte.x00) /\
  contents (cbuf (sound_out r)) = [] /\
  samples_out r = uint_wrap (samples_in + spec_samples env) /\
  freq_out r = spec_freq env /\
  len (sndi_out r) = uint_wrap (spec_freq env) / video_hz /\
  video_hz <> 0 /\
  (1 <= size -> 2 * size <= SIZE_MOD -> wf (cbuf (sound_out r))) /\
  (samples_out r * 4 < UINT_MOD ->
   cbuf_size (cbuf (sound_out r)) = 4 * samples_out r).
Proof.
  unfold pd_sound_init. cbn [pd_sound_deinit].
  destruct (init_subsystem_fails env); [intros H; injection H as <-; discriminate |].
  destruct (open_audio_fails env); [intros H; injection H as <-; discriminate |].
  destruct (negb (spec_channels env =? 2)); [intros H; injection H as <-; discriminate |].
  destruct (negb (spec_format_ok env)); [intros H; injection H as <-; discriminate |].
  destruct (video_hz =? 0) eqn:Ehz; [discriminate |]. zb.
  set (size := uint_wrap (uint_wrap (samples_in + spec_samples env) * 4)).
  assert (Hsz : size_wrap size = size).
  { apply size_wrap_small. pose proof (uint_wrap_range (uint_wrap (samples_in + spec_samples env) * 4)).
    unfold SIZE_MOD, UINT_MOD in *. subst size. lia. }
  assert (Hrange : 0 <= size < UINT_MOD) by apply uint_wrap_range.
  rewrite Hsz.
  destruct (calloc (calloc_lr_ok env) 2 _) as [l|] eqn:El;
    [| intros H; injection H as <-; discriminate].
  destruct (calloc (calloc_data_ok env) 1 size) as [d|] eqn:Ed;
    [| intros H; injection H as <-; discriminate].
  intros H _. injection H as <-. cbn [sound_out cbuf samples_out freq_out sndi_out len].
  apply calloc_length in Ed; [| lia]. destruct Ed as [Hlen Hd].
  rewrite Z.mul_1_l in Hlen, Hd. subst d.
  split; [reflexivity |].
  split; [unfold contents; cbn [cbuf_s cbuf_i]; reflexivity |].
  split; [reflexivity |]. split; [reflexivity |]. split; [reflexivity |].
  split; [exact Ehz |]. split.
  - intros H1 H2. unfold wf. cbn [cbuf_size cbuf_i cbuf_s cbuf_data].
    rewrite length_replicate. lia.
  - intros Hfit. cbn [cbuf_size]. subst size.
    pose proof (uint_wrap_range (samples_in + spec_samples env)).
    rewrite (uint_wrap_small (_ * 4)) by lia. lia.
Qed.

(** 2205 requested samples and 1024 of the device give 3229 samples in
    12916 bytes; 1073740801 requested samples give 1073741825 samples in
    a wrapped size of 4 bytes. *)
Lemma pd_sound_init_success_witness :
  (exists r,
     pd_sound_init (mk_audio_env false false 2 true 44100 1024 true true)
                   60 44100 2205 sound_zero (mk_sndinfo None 0) = Some r /\
     ret r = 1 /\ samples_out r = 3229 /\
     cbuf_size (cbuf (sound_out r)) = 12916 /\
     wf (cbuf (sound_out r))) /\
  (exists r,
     pd_sound_init (mk_audio_env false false 2 true 44100 1024 true true)
                   60 44100 1073740801 sound_zero (mk_sndinfo None 0) = Some r /\
     ret r = 1 /\ samples_out r = 1073741825 /\
     cbuf_size (cbuf (sound_out r)) = 4).
Proof.
  split.
  - eexists. split; [reflexivity |]. split; [reflexivity |].
    destruct (pd_sound_init_success
                (mk_audio_env false false 2 true 44100 1024 true true)
                60 44100 2205 sound_zero (mk_sndinfo None 0) _ eq_refl eq_refl)
      as (Hc & _ & Hs & _ & _ & _ & Hwf & Hfit).
    split; [exact Hs |].
    split; [rewrite Hc; reflexivity |].
    apply Hwf; vm_compute; discriminate.
  - eexists. split; [reflexivity |]. split; [reflexivity |].
    destruct (pd_sound_init_success
                (mk_audio_env false false 2 true 44100 1024 true true)
                60 44100 1073740801 sound_zero (mk_sndinfo None 0) _
                eq_refl eq_refl)
      as (Hc & _ & Hs & _).
    split; [exact Hs |]. rewrite Hc. reflexivity.
Defined.

(** X2: Whenever [pd_sound_init] returns, it returns 0 or 1; when it returns
    0 the [sound] struct is all zero and [sndi.lr] is [NULL], so that
    [pd_sound_write] does nothing and both sample pointers read 0. *)
Theorem pd_sound_init_failure (env : audio_env) (video_hz freq samples_in : Z)
    (sound : sound_t) (sndi : sndinfo) (r : init_result) :
  pd_sound_init env video_hz freq samples_in sound sndi = Some r ->
  (ret r = 0 \/ ret r = 1) /\
  (ret r = 0 ->
     sound_out r = sound_zero /\ lr (sndi_out r) = None /\
     pd_sound_write (sound_out r) (sndi_out r) = sound_out r /\
     pd_sound_rp (sound_out r) = 0 /\ pd_sound_wp (sound_out r) = 0).
Proof.
  unfold pd_sound_init. cbn [pd_sound_deinit].
  assert (Hzero : forall f s l n,
            let r0 := mk_result 0 f s sound_zero (mk_sndinfo None n) in
            Some r0 = Some l ->
            (ret l = 0 \/ ret l = 1) /\
            (ret l = 0 ->
             sound_out l = sound_zero /\ lr (sndi_out l) = None /\
             pd_sound_write (sound_out l) (sndi_out l) = sound_out l /\
             pd_sound_rp (sound_out l) = 0 /\ pd_sound_wp (sound_out l) = 0)).
  { intros f s l n r0 H. injection H as <-. subst r0. cbn.
    split; [left; reflexivity |]. intros _. repeat split. }
  destruct (init_subsystem_fails env); [apply Hzero |].
  destruct (open_audio_fails env); [apply Hzero |].
  destruct (negb (spec_channels env =? 2)); [apply Hzero |].
  destruct (negb (spec_format_ok env)); [apply Hzero |].
  destruct (video_hz =? 0); [discriminate |].
  destruct (calloc (calloc_lr_ok env) 2 _) as [l|]; [| apply Hzero].
  destruct (calloc (calloc_data_ok env) 1 _) as [d|]; [| apply Hzero].
  intros H. injection H as <-. cbn [ret].
  split; [right; reflexivity | discriminate].
Qed.

Lemma pd_sound_init_failure_witness :
  exists r,
    pd_sound_init (mk_audio_env false false 1 true 44100 1024 true true)
                  60 44100 2205
                  (mk_sound 22050 512 demo_cbuf true) (mk_sndinfo None 367)
      = Some r /\
    ret r = 0 /\ sound_out r = sound_zero.
Proof.
  eexists. split; [reflexivity |].
  destruct (pd_sound_init_failure
              (mk_audio_env false false 1 true 44100 1024 true true)
              60 44100 2205
              (mk_sound 22050 512 demo_cbuf true) (mk_sndinfo None 367)
              _ eq_refl) as (_ & H).
  split; [reflexivity |]. apply (H eq_refl).
Defined.

Lemma callback_cbuf stream n sound r0 :
  cbuf_read stream (cbuf sound) (size_wrap n) = Some r0 ->
  exists r, callback stream n sound = Some r /\ cbuf (snd r) = snd r0.
Proof.
  unfold callback, snd_callback. intros ->.
  destruct r0 as [[w s1] c1].
  destruct (w =? size_wrap n); eexists; split; reflexivity.
Qed.

(** X3: The consumer moves the read pointer only: on a well-formed buffer
    [snd_callback] returns, having taken the [k = min(len, occupied)]
    oldest bytes, which advances [pd_sound_rp] to
    [((i + k) mod size) >> 2] and leaves [pd_sound_wp] where it was. *)
Theorem callback_keeps_write_pointer (stream : list byte) (n : Z)
    (sound : sound_t) :
  wf (cbuf sound) -> 0 <= n <= INT_MAX ->
  let k := Z.min n (cbuf_s (cbuf sound)) in
  exists r,
    callback stream n sound = Some r /\
    pd_sound_wp (snd r) = pd_sound_wp sound /\
    pd_sound_rp (snd r) =
      Z.shiftr ((cbuf_i (cbuf sound) + k) mod cbuf_size (cbuf sound)) 2 /\
    cbuf_s (cbuf (snd r)) = cbuf_s (cbuf sound) - k.
Proof.
  intros Hwf Hn. cbv zeta.
  assert (Hsm : size_wrap n = n).
  { apply size_wrap_small. unfold INT_MAX, SIZE_MOD in *. lia. }
  pose proof (cbuf_read_eq stream (cbuf sound) n Hwf ltac:(lia)) as E.
  cbv zeta in E. rewrite <- Hsm in E at 1.
  destruct (callback_cbuf stream n sound _ E) as (r & Hr & Hc).
  exists r. split; [exact Hr |].
  unfold pd_sound_wp, pd_sound_rp. rewrite Hc.
  cbn [snd cbuf_size cbuf_i cbuf_s].
  pose proof Hwf as (Hc0 & Hm & Hi & Hs & Hl).
  set (k := Z.min n (cbuf_s (cbuf sound))).
  assert (Hk : 0 <= k <= cbuf_s (cbuf sound)) by lia. clearbody k.
  set (c := cbuf sound) in *.
  assert (Hne : (cbuf_size c =? 0) = false) by (apply Z.eqb_neq; lia).
  rewrite Hne.
  assert (Hi' : 0 <= (cbuf_i c + k) mod cbuf_size c < cbuf_size c)
    by (apply Z.mod_pos_bound; lia).
  split; [| split; [| reflexivity]].
  - f_equal. f_equal.
    rewrite !size_wrap_small by (unfold SIZE_MOD in *; lia).
    rewrite Z.add_mod_idemp_l by lia. f_equal. lia.
  - f_equal. apply uint_wrap_small. unfold UINT_MOD, SIZE_MOD in *. lia.
Qed.

Lemma callback_keeps_write_pointer_witness :
  exists r,
    callback [Byte.xff] 1 (mk_sound 0 0 demo_cbuf true) = Some r /\
    pd_sound_wp (snd r) = pd_sound_wp (mk_sound 0 0 demo_cbuf true).
Proof.
  assert (Hlen : 0 <= 1 <= INT_MAX) by (split; discriminate).
  destruct (callback_keeps_write_pointer [Byte.xff] 1
              (mk_sound 0 0 demo_cbuf true) demo_cbuf_wf Hlen)
    as (r & Hr & Hwp & _).
  exists r. split; [exact Hr | exact Hwp].
Defined.

(** C9, where the code falls short of it: [pd_sound_init] accepts a
    sample count whose buffer size [samples * 4] wraps to zero (here the
    1048575 * (61440 / 60) samples that [main.cpp] computes for 1048575
    segments at 61440 Hz, plus the 1024 of the device), returns 1 and
    starts the audio; on that buffer every call of the callback divides
    by zero in [cbuf_read] instead of zeroing [stream].  The other users
    of [sound.cbuf], [pd_sound_rp], [pd_sound_wp] and [pd_sound_write],
    test the size first. *)
Theorem snd_callback_divides_by_zero :
  exists r,
    pd_sound_init (mk_audio_env false false 2 true 61440 1024 true true)
                  60 61440 1073740800 sound_zero (mk_sndinfo None 0) = Some r /\
    ret r = 1 /\ samples_out r = 2 ^ 30 /\
    cbuf_size (cbuf (sound_out r)) = 0 /\
    (forall stream len, callback stream len (sound_out r) = None) /\
    pd_sound_write (sound_out r) (sndi_out r) = sound_out r /\
    pd_sound_rp (sound_out r) = 0 /\ pd_sound_wp (sound_out r) = 0.
Proof.
  eexists. split; [vm_compute; reflexivity |].
  cbn [ret samples_out sound_out sndi_out cbuf cbuf_size].
  split; [reflexivity |]. split; [reflexivity |]. split; [reflexivity |].
  split; [| repeat split].
  intros stream len. unfold callback, snd_callback.
  match goal with
  | |- context [cbuf_read ?s ?c ?n] =>
      rewrite (proj2 (cbuf_size_zero_traps c [] s n eq_refl))
  end.
  reflexivity.
Qed.

(** X4: The producer moves the write pointer only, as long as the frame fits:
    [pd_sound_write] of [n = 4 * sndi.len] bytes into a buffer with room
    for them leaves [pd_sound_rp] where it was and advances [pd_sound_wp]
    to [((i + s + n) mod size) >> 2].  When the frame does not fit, the
    buffer ends full and the read pointer is moved onto the write
    pointer. *)
Theorem pd_sound_write_pointers (sound : sound_t) (sndi : sndinfo) :
  wf (cbuf sound) -> 0 <= len sndi ->  4 * len sndi < UINT_MOD ->
  let c := cbuf sound in
  let n := 4 * len sndi in
  let sound' := pd_sound_write sound sndi in
  (cbuf_s c + n <= cbuf_size c ->
     pd_sound_rp sound' = pd_sound_rp sound /\
     pd_sound_wp sound' =
       Z.shiftr ((cbuf_i c + cbuf_s c + n) mod cbuf_size c) 2 /\
     cbuf_s (cbuf sound') = cbuf_s c + n) /\
  (cbuf_size c < cbuf_s c + n ->
     cbuf_s (cbuf sound') = cbuf_size c /\
     pd_sound_rp sound' = pd_sound_wp sound').
Proof.
  intros Hwf Hlen Hfit. cbv zeta. unfold pd_sound_write.
  pose proof Hwf as (Hc & Hm & Hi & Hs & Hl).
  assert (Hne : (cbuf_size (cbuf sound) =? 0) = false) by (apply Z.eqb_neq; lia).
  rewrite Hne.
  assert (Hn : size_wrap (uint_wrap (len sndi * 4)) = 4 * len sndi).
  { rewrite (uint_wrap_small (len sndi * 4)) by (unfold UINT_MOD in *; lia).
    rewrite size_wrap_small by (unfold SIZE_MOD, UINT_MOD in *; lia). lia. }
  rewrite Hn. set (n := 4 * len sndi) in *.
  assert (Hn0 : 0 <= n < SIZE_MOD) by (unfold SIZE_MOD, UINT_MOD in *; lia).
  clearbody n.
  rewrite cbuf_write_eq by assumption. cbv zeta.
  unfold pd_sound_rp, pd_sound_wp. cbn [cbuf cbuf_size cbuf_i cbuf_s].
  rewrite Hne. set (c := cbuf sound) in *.
  split.
  - intros Hroom.
    assert (Hmin : Z.min n (cbuf_size c) = n) by lia. rewrite Hmin.
    assert (Hgt : (n >? cbuf_size c - cbuf_s c) = false)
      by (rewrite Z.gtb_ltb; apply Z.ltb_ge; lia).
    rewrite Hgt.
    split; [reflexivity |]. split; [| lia].
    f_equal. rewrite Z.min_r by lia.
    rewrite (size_wrap_small (cbuf_i c + (cbuf_s c + n)))
      by (unfold SIZE_MOD in *; lia).
    rewrite uint_wrap_small.
    + f_equal. lia.
    + pose proof (Z.mod_pos_bound (cbuf_i c + (cbuf_s c + n)) (cbuf_size c) ltac:(lia)).
      unfold UINT_MOD, SIZE_MOD in *. lia.
  - intros Hover.
    set (m := Z.min n (cbuf_size c)).
    assert (Hm0 : 0 <= m <= cbuf_size c /\ cbuf_size c - cbuf_s c <= m) by lia.
    clearbody m.
    set (i' := if m >? cbuf_size c - cbuf_s c
               then (cbuf_i c + (m - (cbuf_size c - cbuf_s c))) mod cbuf_size c
               else cbuf_i c).
    assert (Hi' : 0 <= i' < cbuf_size c).
    { subst i'. destruct (m >? _); [apply Z.mod_pos_bound |]; lia. }
    clearbody i'.
    split; [lia |].
    f_equal. f_equal.
    rewrite Z.min_l by lia.
    rewrite size_wrap_small by (unfold SIZE_MOD in *; lia).
    replace (i' + cbuf_size c) with (i' + 1 * cbuf_size c) by lia.
    rewrite Z.mod_add by lia. rewrite Z.mod_small by lia. reflexivity.
Qed.

Lemma pd_sound_write_pointers_witness :
  pd_sound_rp (pd_sound_write (mk_sound 0 0 (mk_cbuf 4 0 8 (replicate 8 Byte.x00)) true)
                              (mk_sndinfo (Some (replicate 4 Byte.x01)) 1)) = 1 /\
  pd_sound_wp (pd_sound_write (mk_sound 0 0 (mk_cbuf 4 0 8 (replicate 8 Byte.x00)) true)
                              (mk_sndinfo (Some (replicate 4 Byte.x01)) 1)) = 0.
Proof.
  assert (Hwf : wf (mk_cbuf 4 0 8 (replicate 8 Byte.x00))).
  { unfold wf; cbn. unfold SIZE_MOD. lia. }
  destruct (pd_sound_write_pointers
              (mk_sound 0 0 (mk_cbuf 4 0 8 (replicate 8 Byte.x00)) true)
              (mk_sndinfo (Some (replicate 4 Byte.x01)) 1)
              Hwf ltac:(cbn; lia) ltac:(cbn; unfold UINT_MOD; lia)) as (Hfit & _).
  destruct (Hfit ltac:(cbn; lia)) as (Hrp & Hwp & _).
  split; [rewrite Hrp; reflexivity | rewrite Hwp; reflexivity].
Defined.

End SoundFacts.

(** ** Filter descriptors: the I/O wiring of [filters_stack_update] and
       [filters_find] *)

Module FilterDataFacts.
Import Filters FilterData FiltersFacts.
Local Open Scope nat_scope.

Lemma length_wire_loop g stack prev b :
  length (wire_loop g stack prev b) = length stack.
Proof.
  revert prev b. induction stack as [|f rest IH]; intros prev b; [reflexivity |].
  cbn [wire_loop]. destruct rest as [|f' rest']; [reflexivity |].
  destruct (safe f); cbn [length]; f_equal; apply IH.
Qed.

(** The loop invariant: the previous descriptor points neither to the
    screen nor to the scratch buffer that is used next. *)
Lemma wire_loop_separates g stack prev b i f fin fout :
  fd_buf prev <> ScreenBuf -> fd_buf prev <> Tmp b ->
  stack !! i = Some f ->
  (prev :: wire_loop g stack prev b) !! i = Some fin ->
  wire_loop g stack prev b !! i = Some fout ->
  (safe f = false \/ S i = length stack -> fd_buf fin <> fd_buf fout) /\
  (safe f = true -> S i <> length stack -> fout = fin).
Proof.
  revert prev b i.
  induction stack as [|f0 rest IH]; intros prev b i Hs Hb Hf Hin Hout;
    [rewrite lookup_nil in Hf; discriminate |].
  cbn [wire_loop] in *.
  destruct rest as [|f1 rest'].
  - destruct i as [|i]; [| rewrite lookup_cons_Some in Hf; destruct Hf as [[H _]|[_ H]];
                           [discriminate | cbn in H; rewrite lookup_nil in H; discriminate]].
    cbn in Hf, Hin, Hout. injection Hf as <-. injection Hin as <-. injection Hout as <-.
    split; [intros _; cbn; exact Hs | intros _ H; cbn in H; congruence].
  - destruct i as [|i].
    + cbn in Hf, Hin. injection Hf as <-. injection Hin as <-.
      destruct (safe f0) eqn:Es; cbn in Hout; injection Hout as <-.
      * split; [intros [H|H]; [discriminate | cbn in H; lia] | reflexivity].
      * split; [intros _; cbn; exact Hb | discriminate].
    + cbn [length]. change ((f0 :: f1 :: rest') !! S i) with ((f1 :: rest') !! i) in Hf.
      destruct (safe f0) eqn:Es.
      * change ((prev :: prev :: ?l) !! S i) with ((prev :: l) !! i) in Hin.
        change ((prev :: ?l) !! S i) with (l !! i) in Hout.
        destruct (IH prev b i Hs Hb Hf Hin Hout) as [H1 H2].
        split; [intros [H|H]; apply H1; [left; exact H | right; cbn [length] in *; lia]
               | intros Hsafe Hne; apply H2; [exact Hsafe | cbn [length] in *; lia]].
      * change ((prev :: ?x :: ?l) !! S i) with ((x :: l) !! i) in Hin.
        change ((?x :: ?l) !! S i) with (l !! i) in Hout.
        assert (Hs' : fd_buf (tmp_fd g b) <> ScreenBuf) by (cbn; discriminate).
        assert (Hb' : fd_buf (tmp_fd g b) <> Tmp (negb b))
          by (cbn; destruct b; discriminate).
        destruct (IH (tmp_fd g b) (negb b) i Hs' Hb' Hf Hin Hout) as [H1 H2].
        split; [intros [H|H]; apply H1; [left; exact H | right; cbn [length] in *; lia]
               | intros Hsafe Hne; apply H2; [exact Hsafe | cbn [length] in *; lia]].
Qed.

Lemma last_wire_loop g stack prev b n :
  length stack = S n -> wire_loop g stack prev b !! n = Some (out_fd g).
Proof.
  revert prev b n. induction stack as [|f rest IH]; intros prev b n Hn;
    [discriminate |].
  cbn [wire_loop]. destruct rest as [|f' rest'].
  - cbn in Hn. injection Hn as <-. reflexivity.
  - cbn [length] in Hn. destruct n as [|n]; [lia |].
    destruct (safe f);
      match goal with
      | |- (?x :: ?l) !! S n = _ => change ((x :: l) !! S n) with (l !! n)
      end; apply IH; cbn [length]; lia.
Qed.

(** X5: The wiring never hands a filter that cannot work in place the same
    buffer for input and output: filter [i] reads descriptor [i] and
    writes descriptor [i + 1]; these point to different buffers whenever
    the filter is not [safe] or is the last one, while a [safe] filter
    below the top works in place.  The first descriptor is the Mega Drive
    screen and the last one the SDL surface. *)
Theorem wiring_separates_buffers (g : geometry) (stack : list filter)
    (i : nat) (f : filter) :
  stack !! i = Some f ->
  length (wire g stack) = S (length stack) /\
  wire g stack !! 0 = Some (in_fd g) /\
  wire g stack !! length stack = Some (out_fd g) /\
  exists fin fout,
    wire g stack !! i = Some fin /\ wire g stack !! S i = Some fout /\
    (safe f = false \/ S i = length stack -> fd_buf fin <> fd_buf fout) /\
    (safe f = true -> S i <> length stack -> fout = fin).
Proof.
  intros Hf. unfold wire.
  assert (Hne : stack <> []) by (intros ->; rewrite lookup_nil in Hf; discriminate).
  split; [cbn [length]; rewrite length_wire_loop; reflexivity |].
  split; [reflexivity |].
  pose proof (lookup_lt_Some _ _ _ Hf) as Hi.
  split.
  { destruct (length stack) as [|n] eqn:En; [lia |].
    change ((in_fd g :: ?l) !! S n) with (l !! n).
    apply last_wire_loop. exact En. }
  destruct (lookup_lt_is_Some_2 (in_fd g :: wire_loop g stack (in_fd g) false) i)
    as [fin Hin]; [cbn [length]; rewrite length_wire_loop; lia |].
  destruct (lookup_lt_is_Some_2 (wire_loop g stack (in_fd g) false) i)
    as [fout Hout]; [rewrite length_wire_loop; lia |].
  exists fin, fout. split; [exact Hin |]. split; [exact Hout |].
  apply (wire_loop_separates g stack (in_fd g) false i f fin fout);
    try assumption; cbn; discriminate.
Qed.

Lemma wiring_separates_buffers_witness :
  wire (mk_geometry 320 224 672 640 480 0 1280)
       [default_filter; default_filter; default_filter] =
  [ in_fd (mk_geometry 320 224 672 640 480 0 1280);
    tmp_fd (mk_geometry 320 224 672 640 480 0 1280) false;
    tmp_fd (mk_geometry 320 224 672 640 480 0 1280) true;
    out_fd (mk_geometry 320 224 672 640 480 0 1280) ] /\
  length (wire (mk_geometry 320 224 672 640 480 0 1280)
               [default_filter; default_filter; default_filter]) = 4.
Proof.
  split; [reflexivity |].
  exact (proj1 (wiring_separates_buffers
                  (mk_geometry 320 224 672 640 480 0 1280)
                  [default_filter; default_filter; default_filter]
                  1 default_filter eq_refl)).
Defined.

(** *** Scratch buffers *)

Lemma realloc_loop_1 e calls st st' :
  realloc_loop 1 0 e calls st = Wired st' ->
  filters_stack st' = filters_stack st /\
  filters_stack_default st' = filters_stack_default st /\
  data_buf0 st' = negb (buf_size e =? 0)%Z /\ data_buf1 st' = data_buf1 st.
Proof.
  cbn [realloc_loop Nat.eqb].
  destruct (buf_size e =? 0)%Z; [intros H; injection H as <-; repeat split |].
  destruct (realloc_ok e calls); cbn [negb]; [| discriminate].
  intros H; injection H as <-; repeat split.
Qed.

Lemma realloc_loop_2 e calls st st' :
  realloc_loop 2 0 e calls st = Wired st' ->
  filters_stack st' = filters_stack st /\
  filters_stack_default st' = filters_stack_default st /\
  data_buf0 st' = negb (buf_size e =? 0)%Z /\
  data_buf1 st' = negb (buf_size e =? 0)%Z.
Proof.
  cbn [realloc_loop Nat.eqb].
  destruct (buf_size e =? 0)%Z; [intros H; injection H as <-; repeat split |].
  destruct (realloc_ok e calls); cbn [negb]; [| discriminate].
  destruct (realloc_ok e (S calls)); cbn [negb]; [| discriminate].
  intros H; injection H as <-; repeat split.
Qed.

Lemma update_pass_flags e calls st st' :
  update_pass e calls st = Wired st' -> flags_match e st'.
Proof.
  unfold update_pass, flags_match.
  destruct (filters_stack st) as [|f rest] eqn:Es; [discriminate |].
  destruct (Nat.ltb 1 (length (f :: rest)) && filters_stack_default st)%bool;
    [discriminate |].
  destruct (Nat.eqb (count_buffers (f :: rest)) 0) eqn:E0; cbn [negb].
  - apply Nat.eqb_eq in E0. intros H; injection H as <-.
    cbn [filters_stack data_buf0 data_buf1]. rewrite E0. cbn.
    rewrite !andb_false_r. split; reflexivity.
  - apply Nat.eqb_neq in E0.
    destruct (Nat.ltb 2 (count_buffers (f :: rest))) eqn:E2;
      [apply Nat.ltb_lt in E2 | apply Nat.ltb_ge in E2].
    + intros H. apply realloc_loop_2 in H. destruct H as (Hs & _ & H0 & H1).
      rewrite Hs, Es, H0, H1.
      rewrite (proj2 (Nat.leb_le 1 _)) by lia.
      rewrite (proj2 (Nat.leb_le 2 _)) by lia.
      rewrite !andb_true_r. split; reflexivity.
    + destruct (count_buffers (f :: rest)) as [|[|[|n]]] eqn:Ec; try lia.
      * intros H. apply realloc_loop_1 in H. destruct H as (Hs & _ & H0 & H1).
        cbn [filters_stack data_buf1] in Hs, H1.
        rewrite Hs, Ec, H0, H1. cbn. rewrite andb_true_r, andb_false_r.
        split; reflexivity.
      * intros H. apply realloc_loop_2 in H. destruct H as (Hs & _ & H0 & H1).
        cbn [filters_stack] in Hs.
        rewrite Hs, Ec, H0, H1. cbn. rewrite !andb_true_r.
        split; reflexivity.
Qed.

Lemma update_loop_wired fuel e calls st st' :
  update_loop fuel e calls st = Some st' ->
  exists calls1 st1, update_pass e calls1 st1 = Wired st'.
Proof.
  revert calls st. induction fuel as [|fuel IH]; intros calls st; [discriminate |].
  cbn [update_loop]. destruct (update_pass e calls st) as [st1 calls1|st1] eqn:E.
  - apply IH.
  - intros H; injection H as <-. exists calls, st. exact E.
Qed.

Lemma count_buffers_cons f g rest :
  count_buffers (f :: g :: rest) =
  (if safe f then 0 else 1) + count_buffers (g :: rest).
Proof. reflexivity. Qed.

Lemma wire_loop_bufs g stack prev b fd :
  In fd (wire_loop g stack prev b) ->
  fd_buf fd = fd_buf prev \/ fd_buf fd = ScreenBuf \/
  (fd_buf fd = Tmp b /\ 1 <= count_buffers stack) \/
  (fd_buf fd = Tmp (negb b) /\ 2 <= count_buffers stack).
Proof.
  revert prev b. induction stack as [|f rest IH]; intros prev b; [intros [] |].
  cbn [wire_loop]. destruct rest as [|f' rest'].
  - intros [<-|[]]. right; left; reflexivity.
  - rewrite count_buffers_cons. destruct (safe f).
    + intros [<-|Hin]; [left; reflexivity |].
      destruct (IH prev b Hin) as [H|[H|[[H1 H2]|[H1 H2]]]]; [auto | auto | |].
      * right; right; left. split; [exact H1 | lia].
      * right; right; right. split; [exact H1 | lia].
    + intros [<-|Hin]; [right; right; left; split; [reflexivity | lia] |].
      destruct (IH (tmp_fd g b) (negb b) Hin) as [H|[H|[[H1 H2]|[H1 H2]]]]; [| auto | |].
      * right; right; left. split; [exact H | lia].
      * right; right; right. split; [exact H1 | lia].
      * right; right; left. rewrite negb_involutive in H1. split; [exact H1 | lia].
Qed.

(** X6: After a rebuild the scratch buffers are what the stack needs: none
    when no filter below the top is unsafe (or the screen has no bytes),
    [buf[0]] alone for one such filter, both for two or more; hence
    every buffer the wiring hands to a filter is allocated. *)
Theorem rebuild_allocates_what_is_wired (e : env) (st st' : state)
    (g : geometry) :
  filters_stack_update e st = Some st' ->
  flags_match e st' /\
  (buf_size e <> 0%Z ->
   forall fd, In fd (wire g (filters_stack st')) ->
              allocated st' (fd_buf fd) = true).
Proof.
  unfold filters_stack_update. intros H.
  destruct (update_loop_wired _ _ _ _ _ H) as (calls1 & st1 & Hpass).
  pose proof (update_pass_flags _ _ _ _ Hpass) as Hflags.
  split; [exact Hflags |].
  intros Hsize fd [<-|Hin]; [reflexivity |].
  destruct Hflags as [H0 H1].
  assert (Hnz : negb (buf_size e =? 0)%Z = true)
    by (apply negb_true_iff, Z.eqb_neq; exact Hsize).
  rewrite Hnz in H0, H1. cbn [andb] in H0, H1.
  destruct (wire_loop_bufs _ _ _ _ _ Hin) as [Hb|[Hb|[[Hb Hc]|[Hb Hc]]]];
    rewrite Hb; cbn [allocated in_fd fd_buf negb]; try reflexivity.
  - rewrite H0. apply Nat.leb_le. exact Hc.
  - rewrite H1. apply Nat.leb_le. exact Hc.
Qed.

Lemma rebuild_allocates_what_is_wired_witness :
  exists st',
    filters_stack_update (mk_env 1024 (fun _ => true))
      (mk_state [default_filter; default_filter; default_filter] false false false)
      = Some st' /\
    data_buf0 st' = true /\ data_buf1 st' = true.
Proof.
  eexists. split; [reflexivity |].
  destruct (rebuild_allocates_what_is_wired (mk_env 1024 (fun _ => true))
              (mk_state [default_filter; default_filter; default_filter]
                        false false false) _
              (mk_geometry 320 224 672 640 480 0 1280) eq_refl) as [[H0 H1] _].
  split; [exact H0 | exact H1].
Defined.

(** *** The rebuild only removes *)

Lemma remove_first_unsafe_sublist l : sublist (remove_first_unsafe l) l.
Proof.
  induction l as [|f rest IH]; [constructor |].
  cbn [remove_first_unsafe]. destruct (safe f).
  - apply sublist_skip. exact IH.
  - apply sublist_cons. reflexivity.
Qed.

Lemma update_pass_sublist e calls st :
  match update_pass e calls st with
  | Wired st' => filters_stack st' = filters_stack st
  | Retry st' _ =>
      (filters_stack st = [] /\ filters_stack st' = [default_filter]) \/
      (filters_stack st <> [] /\ filters_stack st' <> [] /\
       sublist (filters_stack st') (filters_stack st))
  end.
Proof.
  pose proof (update_pass_spec e calls st) as Hspec.
  destruct (update_pass e calls st) as [st1 calls1|st1] eqn:E.
  - destruct Hspec as (_ & Hempty & Hnon).
    destruct (filters_stack st) as [|f rest] eqn:Es.
    + left. split; [reflexivity |]. apply (Hempty eq_refl).
    + right. split; [discriminate |].
      destruct (Hnon ltac:(discriminate)) as (_ & Hne & _ & _).
      split; [exact Hne |].
      unfold update_pass in E. rewrite Es in E.
      destruct (Nat.ltb 1 (length (f :: rest)) && filters_stack_default st)%bool.
      { injection E as <- _. cbn [filters_stack]. apply sublist_cons. reflexivity. }
      destruct (negb (Nat.eqb (count_buffers (f :: rest)) 0)); [| discriminate].
      rewrite <- Es.
      destruct (Nat.ltb 2 (count_buffers (f :: rest))).
      * pose proof (realloc_loop_stack 2 0 e calls st) as Hl. rewrite E in Hl.
        destruct Hl as [-> _]. apply remove_first_unsafe_sublist.
      * match type of E with
        | realloc_loop ?n 0 e calls ?s = _ =>
            pose proof (realloc_loop_stack n 0 e calls s) as Hl
        end.
        rewrite E in Hl. destruct Hl as [-> _]. cbn [filters_stack].
        rewrite Es. apply remove_first_unsafe_sublist.
  - destruct Hspec as (Hs & _). exact Hs.
Qed.

Lemma update_loop_sublist fuel e calls st st' :
  update_loop fuel e calls st = Some st' ->
  (filters_stack st = [] -> filters_stack st' = [default_filter]) /\
  (filters_stack st <> [] -> sublist (filters_stack st') (filters_stack st)).
Proof.
  revert calls st. induction fuel as [|fuel IH]; intros calls st; [discriminate |].
  cbn [update_loop]. pose proof (update_pass_sublist e calls st) as Hp.
  pose proof (update_pass_spec e calls st) as Hspec0.
  destruct (update_pass e calls st) as [st1 calls1|st1].
  - clear Hspec0. intros H. destruct (IH _ _ H) as [IH1 IH2].
    destruct Hp as [[Hnil Hd]|(Hne & Hne1 & Hsub)].
    + split; [| congruence]. intros _.
      specialize (IH2 ltac:(rewrite Hd; discriminate)). rewrite Hd in IH2.
      pose proof (update_loop_spec fuel e calls1 st1) as Hspec.
      destruct fuel as [|fuel']; [discriminate H |].
      cbn [update_loop] in H.
      pose proof (update_pass_spec e calls1 st1) as Hp1.
      destruct (update_pass e calls1 st1) as [st2 calls2|st2].
      * destruct Hp1 as (_ & _ & Hnon). rewrite Hd in Hnon.
        destruct (Hnon ltac:(discriminate)) as (Hl & Hne2 & _).
        cbn [length] in Hl. destruct (filters_stack st2); [congruence | cbn in Hl; lia].
      * injection H as <-. destruct Hp1 as (-> & _). exact Hd.
    + split; [congruence |]. intros _.
      etransitivity; [apply (IH2 Hne1) | exact Hsub].
  - intros H; injection H as <-. rewrite Hp.
    split; [| reflexivity].
    intros Hnil. destruct Hspec0 as (_ & Hne & _). congruence.
Qed.

(** X7: Where [realloc] fails the rebuild gives up filters, and it never
    does anything else to the stack: the filters left are filters that
    were there, in their order; only an empty stack gets a filter, the
    default one. *)
Theorem rebuild_only_removes (e : env) (st st' : state) :
  filters_stack_update e st = Some st' ->
  (filters_stack st = [] -> filters_stack st' = [default_filter]) /\
  (filters_stack st <> [] -> sublist (filters_stack st') (filters_stack st)) /\
  (forall f, In f (filters_stack st') ->
             In f (filters_stack st) \/ f = default_filter).
Proof.
  unfold filters_stack_update. intros H.
  destruct (update_loop_sublist _ _ _ _ _ H) as [H1 H2].
  split; [exact H1 |]. split; [exact H2 |].
  intros f Hin. destruct (filters_stack st) as [|f0 rest] eqn:Es.
  - rewrite (H1 eq_refl) in Hin. destruct Hin as [<-|[]]. right; reflexivity.
  - left. specialize (H2 ltac:(discriminate)).
    apply list_elem_of_In. eapply elem_of_sublist; [| exact H2].
    apply list_elem_of_In. exact Hin.
Qed.

Lemma rebuild_only_removes_witness :
  option_map filters_stack
    (filters_stack_update (mk_env 1024 (fun _ => false))
       (mk_state [mk_filter "scale" filter_scale false false true;
                  default_filter;
                  mk_filter "scale" filter_scale false false true]
                 false false false))
    = Some [mk_filter "scale" filter_scale false false true] /\
  sublist [mk_filter "scale" filter_scale false false true]
          [mk_filter "scale" filter_scale false false true;
           default_filter;
           mk_filter "scale" filter_scale false false true].
Proof.
  split; [reflexivity |].
  apply (proj1 (proj2 (rebuild_only_removes (mk_env 1024 (fun _ => false))
           (mk_state [mk_filter "scale" filter_scale false false true;
                      default_filter;
                      mk_filter "scale" filter_scale false false true]
                     false false false) _ eq_refl))).
  discriminate.
Defined.

(** *** When every allocation succeeds *)

Lemma realloc_loop_never_fails n i e calls st :
  never_fails e -> exists st', realloc_loop n i e calls st = Wired st'.
Proof.
  intros Hok. revert i calls st. induction n as [|n IH]; intros i calls st.
  - eexists; reflexivity.
  - cbn [realloc_loop]. rewrite Hok. cbn [negb].
    destruct (buf_size e =? 0)%Z; apply IH.
Qed.

Lemma state_eq st1 st2 :
  filters_stack st1 = filters_stack st2 ->
  filters_stack_default st1 = filters_stack_default st2 ->
  data_buf0 st1 = data_buf0 st2 -> data_buf1 st1 = data_buf1 st2 ->
  st1 = st2.
Proof. destruct st1, st2; cbn; intros; subst; reflexivity. Qed.

Lemma pass_settled e calls st :
  never_fails e -> filters_stack st <> [] ->
  (filters_stack_default st = true -> length (filters_stack st) = 1) ->
  exists st',
    update_pass e calls st = Wired st' /\
    filters_stack st' = filters_stack st /\
    filters_stack_default st' = filters_stack_default st /\
    flags_match e st'.
Proof.
  intros Hok Hne Hflag.
  assert (Hw : exists st', update_pass e calls st = Wired st').
  { unfold update_pass. destruct (filters_stack st) as [|f rest] eqn:Es; [congruence |].
    destruct (Nat.ltb 1 (length (f :: rest))) eqn:E1.
    - apply Nat.ltb_lt in E1.
      destruct (filters_stack_default st); [specialize (Hflag eq_refl); lia |].
      cbn [andb]. destruct (negb _); [| eexists; reflexivity].
      destruct (Nat.ltb 2 _); apply realloc_loop_never_fails; exact Hok.
    - cbn [andb]. destruct (negb _); [| eexists; reflexivity].
      destruct (Nat.ltb 2 _); apply realloc_loop_never_fails; exact Hok. }
  destruct Hw as [st' Hw]. exists st'. split; [exact Hw |].
  pose proof (update_pass_spec e calls st) as Hspec. rewrite Hw in Hspec.
  destruct Hspec as (Hs & _ & Hd & _).
  split; [exact Hs |]. split; [exact Hd |].
  apply (update_pass_flags _ _ _ _ Hw).
Qed.

Lemma update_settled e st :
  never_fails e -> filters_stack st <> [] ->
  (filters_stack_default st = true -> length (filters_stack st) = 1) ->
  exists st',
    filters_stack_update e st = Some st' /\
    filters_stack st' = filters_stack st /\
    filters_stack_default st' = filters_stack_default st /\
    flags_match e st'.
Proof.
  intros Hok Hne Hflag.
  destruct (pass_settled e 0 st Hok Hne Hflag) as (st' & Hw & H).
  exists st'. split; [| exact H].
  unfold filters_stack_update.
  replace (2 * length (filters_stack st) + 5) with (S (2 * length (filters_stack st) + 4)) by lia.
  cbn [update_loop]. rewrite Hw. reflexivity.
Qed.

Lemma update_result_settled e st st' :
  filters_stack_update e st = Some st' ->
  filters_stack st' <> [] /\
  (filters_stack_default st' = true -> length (filters_stack st') = 1) /\
  flags_match e st'.
Proof.
  unfold filters_stack_update. intros H.
  destruct (update_loop_wired _ _ _ _ _ H) as (calls1 & st1 & Hw).
  pose proof (update_pass_spec e calls1 st1) as Hspec. rewrite Hw in Hspec.
  destruct Hspec as (Hs & Hne & Hd & Hone).
  split; [congruence |]. split; [rewrite Hs, Hd; exact Hone |].
  apply (update_pass_flags _ _ _ _ Hw).
Qed.

(** X8: A rebuild of a stack that was just rebuilt changes nothing, as long
    as the screen has the same size in bytes and no allocation fails:
    the stack, the default flag and the scratch buffers stay as they
    are. *)
Theorem rebuild_is_idempotent (e e' : env) (st st' : state) :
  filters_stack_update e st = Some st' ->
  never_fails e' -> buf_size e' = buf_size e ->
  filters_stack_update e' st' = Some st'.
Proof.
  intros H Hok Hsize.
  destruct (update_result_settled _ _ _ H) as (Hne & Hone & [F0 F1]).
  destruct (update_settled e' st' Hok Hne Hone) as (st2 & H2 & Hs & Hd & [G0 G1]).
  rewrite H2. f_equal. apply state_eq; try assumption.
  - rewrite G0, F0, Hs, Hsize. reflexivity.
  - rewrite G1, F1, Hs, Hsize. reflexivity.
Qed.

Lemma rebuild_is_idempotent_witness :
  filters_stack_update (mk_env 1024 (fun _ => true))
    (mk_state [default_filter] true false false)
  = Some (mk_state [default_filter] true false false).
Proof.
  apply (rebuild_is_idempotent (mk_env 1024 (fun _ => false))
           (mk_env 1024 (fun _ => true)) initial);
    [reflexivity | intros n; reflexivity | reflexivity].
Defined.

(** *** The mutators *)

(** X9: A filter inserted at the bottom of a stack that holds only the
    auto-inserted default is lost: the rebuild takes entry 0 for the
    default and removes it, which leaves the default filter in place,
    now without its flag. *)
Theorem filters_insert_under_default (e : env) (f : filter) (st : state) :
  filters_stack st = [default_filter] -> filters_stack_default st = true ->
  exists st',
    filters_insert e f st = Some st' /\
    filters_stack st' = [default_filter] /\
    filters_stack_default st' = false.
Proof.
  intros Hs Hd. unfold filters_insert, filters_stack_update. rewrite Hs.
  cbn [length Nat.eqb STACK_MAX filters_stack].
  destruct (update_loop_spec (2 * 2 + 5) e 0
              (mk_state [f; default_filter] (filters_stack_default st)
                        (data_buf0 st) (data_buf1 st)))
    as (st' & Hrun & _ & _ & _ & Hpush).
  { unfold passes_left. cbn [filters_stack filters_stack_default length].
    destruct (filters_stack_default st); lia. }
  exists st'. split; [exact Hrun |].
  apply (Hpush f default_filter); [reflexivity | exact Hd].
Qed.

Lemma filters_insert_under_default_witness :
  exists st',
    filters_insert (mk_env 1024 (fun _ => true))
      (mk_filter "scale" filter_scale false false true)
      (mk_state [default_filter] true false false) = Some st' /\
    filters_stack st' = [default_filter] /\
    filters_stack_default st' = false.
Proof.
  apply filters_insert_under_default; reflexivity.
Defined.

(** X10: [filters_pluck] always returns, and afterwards no filter of the given
    name is on the stack, with one exception: when nothing else was on
    the stack, the rebuild puts the default filter there, whatever its
    name. *)
Theorem filters_pluck_removes_all (e : env) (f : filter) (st : state) :
  exists st',
    filters_pluck e f st = Some st' /\
    ((forall g, In g (filters_stack st') ->
                filter_eqb g f = false /\ In g (filters_stack st)) \/
     (filters_stack st' = [default_filter] /\
      filters_stack_default st' = true /\
      forall g, In g (filters_stack st) -> filter_eqb g f = true)).
Proof.
  unfold filters_pluck.
  set (st0 := mk_state _ _ _ _).
  destruct (update_loop_spec _ e 0 st0 (passes_left_bound st0))
    as (st' & Hrun & _ & _ & Hempty & _).
  exists st'. split; [exact Hrun |].
  destruct (update_loop_sublist _ _ _ _ _ Hrun) as [_ Hsub].
  destruct (filters_stack st0) as [|g0 rest] eqn:Es.
  - right. destruct (Hempty eq_refl) as [H1 H2].
    split; [exact H1 |]. split; [exact H2 |].
    intros g Hin. subst st0. cbn [filters_stack] in Es.
    destruct (filter_eqb g f) eqn:Eg; [reflexivity |].
    assert (Hg : In g (List.filter (fun g => negb (filter_eqb g f)) (filters_stack st)))
      by (apply filter_In; split; [exact Hin | rewrite Eg; reflexivity]).
    rewrite Es in Hg. destruct Hg.
  - left. intros g Hin. specialize (Hsub ltac:(discriminate)).
    assert (Hg : In g (filters_stack st0)).
    { rewrite Es. apply list_elem_of_In. eapply elem_of_sublist; [| exact Hsub].
      apply list_elem_of_In. exact Hin. }
    subst st0. cbn [filters_stack] in Hg. apply filter_In in Hg.
    destruct Hg as [Hg1 Hg2]. split; [| exact Hg1].
    apply negb_true_iff. exact Hg2.
Qed.

(** X11: Pushing a filter and then removing the top entry gives back the
    stack and the default flag one started from, when no allocation
    fails; this holds also across the default filter going away and
    coming back. *)
Theorem filters_push_then_remove (e : env) (f : filter) (st : state) :
  never_fails e -> settled st -> length (filters_stack st) < STACK_MAX ->
  exists st1 st2,
    filters_push e f st = Some st1 /\
    In f (filters_stack st1) /\
    filters_remove e (length (filters_stack st1) - 1) st1 = Some st2 /\
    filters_stack st2 = filters_stack st /\
    filters_stack_default st2 = filters_stack_default st.
Proof.
  intros Hok [Hne Hdef] Hlen.
  unfold filters_push.
  assert (Hfull : Nat.eqb (length (filters_stack st)) STACK_MAX = false)
    by (apply Nat.eqb_neq; lia).
  rewrite Hfull.
  destruct (filters_stack_default st) eqn:Ed.
  - specialize (Hdef eq_refl). rewrite Hdef. cbn [app].
    unfold filters_stack_update at 1. cbn [filters_stack length].
    destruct (update_loop_spec (2 * 2 + 5) e 0
                (mk_state [default_filter; f] true (data_buf0 st) (data_buf1 st)))
      as (st1 & Hrun & _ & _ & _ & Hpush).
    { unfold passes_left. cbn [filters_stack filters_stack_default length]. lia. }
    destruct (Hpush default_filter f eq_refl eq_refl) as [Hs1 Hd1].
    exists st1. unfold filters_remove. rewrite Hs1. cbn [length Nat.sub Nat.leb delete].
    match goal with
    | |- context [filters_stack_update e ?s] => set (st1' := s)
    end.
    unfold filters_stack_update at 1. cbn [filters_stack length].
    destruct (update_loop_spec _ e 0 st1' (passes_left_bound st1'))
      as (st2 & Hrun2 & _ & _ & Hempty & _).
    destruct (Hempty eq_refl) as [Hs2 Hd2].
    exists st2. split; [exact Hrun |]. split; [left; reflexivity |].
    split; [exact Hrun2 |]. split; assumption.
  - set (st0 := mk_state (filters_stack st ++ [f]) false (data_buf0 st) (data_buf1 st)).
    destruct (update_settled e st0 Hok) as (st1 & Hrun & Hs1 & Hd1 & _).
    { subst st0. cbn [filters_stack]. destruct (filters_stack st); discriminate. }
    { subst st0. cbn [filters_stack_default]. discriminate. }
    subst st0. cbn [filters_stack filters_stack_default] in Hs1, Hd1.
    exists st1. unfold filters_remove. rewrite Hs1, length_app. cbn [length].
    replace (length (filters_stack st) + 1 - 1) with (length (filters_stack st)) by lia.
    rewrite (proj2 (Nat.leb_gt _ _)) by lia.
    match goal with
    | |- context [filters_stack_update e (mk_state (delete ?i ?l) ?a ?b ?c)] =>
        set (st1' := mk_state (delete i l) a b c)
    end.
    assert (Hdel : filters_stack st1' = filters_stack st).
    { subst st1'. cbn [filters_stack].
      rewrite delete_middle. apply app_nil_r. }
    destruct (update_settled e st1' Hok) as (st2 & Hrun2 & Hs2 & Hd2 & _).
    { rewrite Hdel. exact Hne. }
    { subst st1'. cbn [filters_stack_default]. rewrite Hd1. discriminate. }
    exists st2. split; [exact Hrun |].
    split; [apply in_or_app; right; left; reflexivity |].
    split; [exact Hrun2 |].
    split; [rewrite Hs2; exact Hdel |].
    rewrite Hd2. subst st1'. cbn [filters_stack_default]. exact Hd1.
Qed.

Lemma filters_push_then_remove_witness :
  exists st1 st2,
    filters_push (mk_env 1024 (fun _ => true))
      (mk_filter "scale" filter_scale false false true)
      (mk_state [default_filter] true false false) = Some st1 /\
    filters_stack st1 = [mk_filter "scale" filter_scale false false true] /\
    filters_remove (mk_env 1024 (fun _ => true)) 0 st1 = Some st2 /\
    filters_stack st2 = [default_filter] /\
    filters_stack_default st2 = true.
Proof.
  destruct (filters_push_then_remove (mk_env 1024 (fun _ => true))
              (mk_filter "scale" filter_scale false false true)
              (mk_state [default_filter] true false false))
    as (st1 & st2 & H1 & _ & H2 & H3 & H4).
  - intros n; reflexivity.
  - split; [discriminate | reflexivity].
  - cbn; unfold STACK_MAX; lia.
  - exists st1, st2. injection H1 as <-.
    split; [reflexivity |]. split; [reflexivity |].
    split; [exact H2 |]. split; [exact H3 | exact H4].
Defined.

(** *** Lookup by name *)

Lemma strcasecmp_eq_lower a b :
  strcasecmp_eq a b = true <-> lower a = lower b.
Proof.
  revert b. induction a as [|x a IH]; intros [|y b]; cbn [strcasecmp_eq lower];
    try (split; [discriminate | discriminate]); [split; reflexivity |].
  rewrite andb_true_iff, Ascii.eqb_eq, IH.
  split; [intros [-> ->]; reflexivity | intros H; injection H; auto].
Qed.

Lemma find_from_spec name table :
  match find_from name table with
  | Some f => In f table /\ lower name = lower (filter_name f)
  | None => forall f, In f table -> lower name <> lower (filter_name f)
  end.
Proof.
  induction table as [|g rest IH]; cbn [find_from]; [intros f [] |].
  destruct (strcasecmp_eq name (filter_name g)) eqn:E.
  - apply strcasecmp_eq_lower in E. split; [left; reflexivity | exact E].
  - destruct (find_from name rest) as [f|].
    + destruct IH as [H1 H2]. split; [right; exact H1 | exact H2].
    + intros f [<-|Hin]; [| apply IH; exact Hin].
      intros H. apply strcasecmp_eq_lower in H. congruence.
Qed.

(** X12: [filters_find] compares names without regard to letter case: what it
    returns is an entry of [filters_available] of that name, it returns
    [NULL] only when there is none, and every entry of the table is found
    under its own name however it is capitalised. *)
Theorem filters_find_ignores_case (name : String.string) :
  (forall f, filters_find name = Some f ->
             In f filters_available /\ lower name = lower (filter_name f)) /\
  (filters_find name = None ->
   forall f, In f filters_available -> lower name <> lower (filter_name f)) /\
  (forall f, In f filters_available -> lower name = lower (filter_name f) ->
             filters_find name = Some f).
Proof.
  unfold filters_find. pose proof (find_from_spec name filters_available) as H.
  split; [| split].
  - intros f Hf. rewrite Hf in H. exact H.
  - intros Hn. rewrite Hn in H. exact H.
  - intros f Hin Hname. clear H. cbn [filters_available find_from filter_name].
    destruct Hin as [<-|[<-|[]]]; cbn [filter_name] in Hname.
    + rewrite (proj2 (strcasecmp_eq_lower _ _) Hname). reflexivity.
    + destruct (strcasecmp_eq name "stretch") eqn:E1.
      * apply strcasecmp_eq_lower in E1. rewrite Hname in E1. discriminate E1.
      * rewrite (proj2 (strcasecmp_eq_lower _ _) Hname). reflexivity.
Qed.

End FilterDataFacts.

(** ** The edited line and the Game Genie prompt ([kb_input],
       [manage_game_genie]) *)

Module KbLineFacts.
Import KbInput KbLine KbInputFacts.

(** *** Strings in blocks *)

Lemma cstring_app s rest :
  Forall nonzero s -> cstring (s ++ 0 :: rest) = s.
Proof.
  induction 1 as [|c s Hc Hs IH]; [reflexivity |].
  cbn [app cstring]. destruct (c =? 0) eqn:E; zb; [contradiction |].
  rewrite IH. reflexivity.
Qed.

Lemma cstring_nonzero mem : Forall nonzero (cstring mem).
Proof.
  induction mem as [|c rest IH]; cbn [cstring]; [constructor |].
  destruct (c =? 0) eqn:E; zb; constructor; assumption.
Qed.

Lemma cstring_split mem :
  (length (cstring mem) < length mem)%nat ->
  exists rest, mem = cstring mem ++ 0 :: rest.
Proof.
  induction mem as [|c rest IH]; cbn [cstring length]; [lia |].
  destruct (c =? 0) eqn:E; zb.
  - subst c. intros _. exists rest. reflexivity.
  - cbn [length]. intros H. destruct IH as [r Hr]; [lia |].
    exists r. cbn [app]. f_equal. exact Hr.
Qed.

Lemma line_ok_split input :
  line_ok input ->
  exists s rest,
    buf input = s ++ 0 :: rest /\ Forall nonzero s /\ cstring (buf input) = s /\
    size input = Z.of_nat (length s) + 1 + Z.of_nat (length rest) /\
    0 <= pos input <= Z.of_nat (length s) /\ size input < SIZE_MOD.
Proof.
  intros (Hlen & Hmax & Hstr & Hpos).
  destruct (cstring_split (buf input)) as [rest Hrest]; [lia |].
  exists (cstring (buf input)), rest.
  split; [exact Hrest |]. split; [apply cstring_nonzero |].
  split; [reflexivity |].
  split; [| split; assumption].
  rewrite <- Hlen. rewrite Hrest at 1. rewrite length_app. cbn [length]. lia.
Qed.

Lemma line_ok_intro s rest p :
  Forall nonzero s -> 0 <= p <= Z.of_nat (length s) ->
  Z.of_nat (length s) + 1 + Z.of_nat (length rest) < SIZE_MOD ->
  line_ok (mk_input (s ++ 0 :: rest) p
                    (Z.of_nat (length s) + 1 + Z.of_nat (length rest))).
Proof.
  intros Hs Hp Hmax. unfold line_ok. cbn [buf pos size].
  rewrite cstring_app by exact Hs. rewrite length_app. cbn [length].
  repeat split; lia.
Qed.

Lemma load_lookup r mem i c :
  0 <= i -> mem !! Z.to_nat i = Some c -> load r mem i = Ok c.
Proof.
  intros Hi Hc. unfold load. pose proof (lookup_lt_Some _ _ _ Hc) as Hlt.
  replace ((0 <=? i) && (i <? Z.of_nat (length mem))) with true
    by (symmetry; apply andb_true_iff; split; [apply Z.leb_le | apply Z.ltb_lt]; lia).
  rewrite Hc. reflexivity.
Qed.

Lemma store_in r mem i c :
  0 <= i < Z.of_nat (length mem) ->
  store r mem i c = Ok (<[Z.to_nat i := c]> mem).
Proof.
  intros Hi. unfold store.
  replace ((0 <=? i) && (i <? Z.of_nat (length mem))) with true
    by (symmetry; apply andb_true_iff; split; [apply Z.leb_le | apply Z.ltb_lt]; lia).
  reflexivity.
Qed.

Lemma isprint_nonzero c : isprint c = true -> nonzero c.
Proof.
  unfold isprint, nonzero. rewrite andb_true_iff, Z.leb_le, Z.leb_le. lia.
Qed.

(** *** Typing *)

Lemma kb_input_typed (K : keysyms) (input : kb_input_t)
    (h : history_t) (ksym ksym_uni : Z) :
  line_ok input ->
  Z.land ksym (KEYSYM_MOD_CTRL K) = 0 ->
  isprint (ksym_uni mod 256) = true ->
  let c := ksym_uni mod 256 in
  let s := cstring (buf input) in
  let p := Z.to_nat (pos input) in
  exists input',
    kb_input K input h ksym ksym_uni = Ok (KB_INPUT_CONSUMED, input', h) /\
    line_ok input' /\ size input' = size input /\
    (pos input < size input - 1 ->
       cstring (buf input') = take p s ++ c :: drop (S p) s /\
       pos input' = pos input + 1) /\
    (size input - 1 <= pos input -> input' = input).
Proof.
  intros Hok Hctrl Hprint. cbv zeta.
  destruct (line_ok_split _ Hok) as (s & rest & Hbuf & Hs & Hcs & Hsize & Hpos & Hmax).
  rewrite Hcs. unfold kb_input. rewrite Hctrl, Hprint. cbn [negb Z.eqb].
  assert (Hsz : size_wrap (size input - 1) = size input - 1)
    by (apply size_wrap_small; lia).
  rewrite Hsz.
  destruct (pos input >=? size input - 1) eqn:Eend; zb.
  { exists input. split; [reflexivity |]. split; [exact Hok |].
    split; [reflexivity |]. split; [intros; lia | reflexivity]. }
  set (c := ksym_uni mod 256) in *.
  set (n := length s) in *.
  assert (Hp1 : size_wrap (pos input + 1) = pos input + 1)
    by (apply size_wrap_small; lia).
  rewrite Hp1.
  destruct (decide (pos input = Z.of_nat n)) as [Hat|Hin].
  - (* on the terminator *)
    destruct rest as [|r0 rest']; [cbn [length] in Hsize; lia |].
    assert (Hl0 : buf input !! Z.to_nat (pos input) = Some 0).
    { rewrite Hbuf, Hat, Nat2Z.id. rewrite lookup_app_r by (subst n; lia).
      replace (n - length s)%nat with 0%nat by (subst n; lia). reflexivity. }
    rewrite (load_lookup InputBuf _ (pos input) _ ltac:(lia) Hl0). cbn [bind Z.eqb].
    rewrite store_in by (rewrite Hbuf, length_app; cbn [length]; lia).
    cbn [bind]. rewrite store_in
      by (rewrite length_insert, Hbuf, length_app; cbn [length]; lia).
    cbn [bind].
    assert (Hnew : <[Z.to_nat (pos input) := c]>
                     (<[Z.to_nat (pos input + 1) := 0]> (buf input)) =
                   (s ++ [c]) ++ 0 :: rest').
    { rewrite Hbuf, Hat. replace (Z.to_nat (Z.of_nat n + 1)) with (length s + 1)%nat
        by (subst n; lia).
      rewrite Nat2Z.id.
      rewrite insert_app_r. cbn [insert list_insert].
      replace n with (length s + 0)%nat by (subst n; lia).
      rewrite insert_app_r. cbn. rewrite <- app_assoc. reflexivity. }
    rewrite Hnew. eexists. split; [reflexivity |].
    assert (Hs' : Forall nonzero (s ++ [c])).
    { apply Forall_app. split; [exact Hs |]. constructor; [| constructor].
      apply isprint_nonzero. exact Hprint. }
    split.
    { unfold line_ok. cbn [buf pos size]. rewrite cstring_app by exact Hs'.
      rewrite !length_app. cbn [length] in *. repeat split; lia. }
    split; [reflexivity |].
    split; [| intros; lia]. intros _. cbn [buf pos]. rewrite cstring_app by exact Hs'.
    split; [| reflexivity].
    rewrite Hat, Nat2Z.id. subst n. rewrite take_ge by lia.
    rewrite drop_ge by lia. reflexivity.
  - (* on a character *)
    assert (Hlt : (Z.to_nat (pos input) < n)%nat) by lia.
    destruct (lookup_lt_is_Some_2 s (Z.to_nat (pos input)) Hlt) as [c0 Hc0].
    assert (Hnz : c0 <> 0).
    { rewrite Forall_forall in Hs. apply (Hs c0).
      apply list_elem_of_In, list_elem_of_lookup. eauto. }
    assert (Hl0 : buf input !! Z.to_nat (pos input) = Some c0).
    { rewrite Hbuf. rewrite lookup_app_l by exact Hlt. exact Hc0. }
    rewrite (load_lookup InputBuf _ (pos input) _ ltac:(lia) Hl0). cbn [bind].
    replace (c0 =? 0) with false by (symmetry; apply Z.eqb_neq; exact Hnz).
    cbn [bind]. rewrite store_in by (rewrite Hbuf, length_app; cbn [length]; lia).
    cbn [bind].
    assert (Hnew : <[Z.to_nat (pos input) := c]> (buf input) =
                   <[Z.to_nat (pos input) := c]> s ++ 0 :: rest).
    { rewrite Hbuf. rewrite insert_app_l by exact Hlt. reflexivity. }
    rewrite Hnew. eexists. split; [reflexivity |].
    assert (Hs' : Forall nonzero (<[Z.to_nat (pos input) := c]> s)).
    { apply Forall_insert; [exact Hs |]. apply isprint_nonzero. exact Hprint. }
    split.
    { unfold line_ok. cbn [buf pos size]. rewrite cstring_app by exact Hs'.
      rewrite !length_app, length_insert. cbn [length] in *.
      fold n. repeat split; lia. }
    split; [reflexivity |].
    split; [| intros; lia]. intros _. cbn [buf pos]. rewrite cstring_app by exact Hs'.
    split; [| reflexivity].
    rewrite insert_take_drop by exact Hlt. reflexivity.
Qed.

(** X13: A printable key overwrites the character under the cursor and moves
    the cursor right; typed on the terminator it lengthens the string by
    one and writes a new terminator.  With the cursor on the last byte of
    the block the key is swallowed.  All of it stays inside the block and
    the line stays well formed. *)
Theorem kb_input_types_in_overwrite_mode (K : keysyms) (input : kb_input_t)
    (h : history_t) (ksym ksym_uni : Z) :
  line_ok input ->
  Z.land ksym (KEYSYM_MOD_CTRL K) = 0 ->
  isprint (ksym_uni mod 256) = true ->
  let c := ksym_uni mod 256 in
  let s := cstring (buf input) in
  let p := Z.to_nat (pos input) in
  exists input',
    kb_input K input h ksym ksym_uni = Ok (KB_INPUT_CONSUMED, input', h) /\
    line_ok input' /\ size input' = size input /\
    (pos input < size input - 1 ->
       cstring (buf input') = take p s ++ c :: drop (S p) s /\
       pos input' = pos input + 1) /\
    (size input - 1 <= pos input -> input' = input).
Proof. exact (kb_input_typed K input h ksym ksym_uni). Qed.

Lemma genie_ab_ok : line_ok (mk_input [65; 66; 0; 0] 1 4).
Proof. unfold line_ok; cbn. unfold SIZE_MOD. lia. Qed.

Lemma kb_input_types_in_overwrite_mode_witness :
  exists input',
    kb_input sdl_keysyms (mk_input [65; 66; 0; 0] 1 4) history_init 67 67 =
      Ok (KB_INPUT_CONSUMED, input', history_init) /\
    cstring (buf input') = [65; 67] /\ pos input' = 2.
Proof.
  destruct (kb_input_types_in_overwrite_mode sdl_keysyms
              (mk_input [65; 66; 0; 0] 1 4) history_init 67 67
              genie_ab_ok eq_refl eq_refl) as (input' & H1 & _ & _ & H2 & _).
  exists input'. split; [exact H1 |]. apply H2. reflexivity.
Defined.

(** *** The special keys *)

(** What [keys_ok] says, one fact per test of [kb_input]. *)
Ltac use_keys H :=
  let H1 := fresh "Hd" in
  let H2 := fresh "Hc" in
  destruct H as [H1 H2];
  unfold key_codes in H1, H2; cbn [distinctb forallb] in H1, H2;
  repeat rewrite andb_true_iff in H1; repeat rewrite andb_true_iff in H2;
  repeat rewrite negb_true_iff in H1;
  repeat match goal with
         | H : _ /\ _ |- _ => destruct H
         end.

Ltac key_tests :=
  repeat match goal with
         | H : (_ =? _) = _ |- _ => rewrite ?H; clear H
         end.

(** X14: The cursor keys move the cursor inside the string and touch nothing
    else: Left stops at the first character, Right at the terminator. *)
Theorem kb_input_cursor_stays_in_string (K : keysyms) (input : kb_input_t)
    (h : history_t) (ksym_uni : Z) :
  keys_ok K -> line_ok input -> isprint (ksym_uni mod 256) = false ->
  let n := Z.of_nat (length (cstring (buf input))) in
  let left := mk_input (buf input) (Z.max 0 (pos input - 1)) (size input) in
  let right := mk_input (buf input) (Z.min n (pos input + 1)) (size input) in
  kb_input K input h (SDLK_LEFT K) ksym_uni = Ok (KB_INPUT_CONSUMED, left, h) /\
  kb_input K input h (SDLK_RIGHT K) ksym_uni = Ok (KB_INPUT_CONSUMED, right, h) /\
  line_ok left /\ line_ok right.
Proof.
  intros HK Hok Hprint. cbv zeta.
  destruct (line_ok_split _ Hok) as (s & rest & Hbuf & Hs & Hcs & Hsize & Hpos & Hmax).
  rewrite Hcs. use_keys HK. unfold kb_input. rewrite Hprint. key_tests.
  cbn [negb]. rewrite !Z.eqb_refl.
  split; [| split; [| split]].
  - do 3 f_equal. destruct (pos input =? 0) eqn:E; zb.
    + f_equal. lia.
    + rewrite size_wrap_small by lia. f_equal. lia.
  - destruct (decide (pos input = Z.of_nat (length s))) as [Hat|Hin].
    + assert (Hl0 : buf input !! Z.to_nat (pos input) = Some 0).
      { rewrite Hbuf, Hat, Nat2Z.id. rewrite lookup_app_r by lia.
        replace (length s - length s)%nat with 0%nat by lia. reflexivity. }
      rewrite (load_lookup InputBuf _ (pos input) _ ltac:(lia) Hl0).
      cbn [bind Z.eqb]. do 3 f_equal. f_equal. lia.
    + assert (Hlt : (Z.to_nat (pos input) < length s)%nat) by lia.
      destruct (lookup_lt_is_Some_2 s (Z.to_nat (pos input)) Hlt) as [c0 Hc0].
      assert (Hnz : c0 <> 0).
      { rewrite Forall_forall in Hs. apply (Hs c0).
        apply list_elem_of_In, list_elem_of_lookup. eauto. }
      assert (Hl0 : buf input !! Z.to_nat (pos input) = Some c0).
      { rewrite Hbuf. rewrite lookup_app_l by exact Hlt. exact Hc0. }
      rewrite (load_lookup InputBuf _ (pos input) _ ltac:(lia) Hl0).
      cbn [bind].
      replace (c0 =? 0) with false by (symmetry; apply Z.eqb_neq; exact Hnz).
      rewrite size_wrap_small by lia. do 3 f_equal. f_equal. lia.
  - unfold line_ok. cbn [buf pos size]. destruct Hok as (H1 & H2 & H3 & H4).
    rewrite Hcs in *. repeat split; lia.
  - unfold line_ok. cbn [buf pos size]. destruct Hok as (H1 & H2 & H3 & H4).
    rewrite Hcs in *. repeat split; lia.
Qed.

Lemma sdl_keys_ok : keys_ok sdl_keysyms.
Proof. split; reflexivity. Qed.

Lemma kb_input_cursor_stays_in_string_witness :
  kb_input sdl_keysyms (mk_input [65; 66; 0; 0] 1 4) history_init 276 0 =
    Ok (KB_INPUT_CONSUMED, mk_input [65; 66; 0; 0] 0 4, history_init) /\
  kb_input sdl_keysyms (mk_input [65; 66; 0; 0] 1 4) history_init 275 0 =
    Ok (KB_INPUT_CONSUMED, mk_input [65; 66; 0; 0] 2 4, history_init).
Proof.
  destruct (kb_input_cursor_stays_in_string sdl_keysyms
              (mk_input [65; 66; 0; 0] 1 4) history_init 0
              sdl_keys_ok genie_ab_ok eq_refl) as (H1 & H2 & _).
  split; [exact H1 | exact H2].
Defined.

(** X15: Up with nothing in the history reads 64 bytes before the array:
    [history_pos] is still -1 and is not raised when [history_len] is 0,
    so that [strncpy] is given [history[-1]]. *)
Theorem kb_input_up_on_empty_history (K : keysyms) (input : kb_input_t)
    (h : history_t) (ksym_uni : Z) :
  keys_ok K -> isprint (ksym_uni mod 256) = false ->
  0 < size input -> history_pos h = -1 -> history_len h <= 0 ->
  kb_input K input h (SDLK_UP K) ksym_uni = OutOfBounds History (-64).
Proof.
  intros HK Hprint Hsize Hpos Hlen. use_keys HK.
  unfold kb_input. rewrite Hprint. key_tests. cbn [negb orb]. rewrite !Z.eqb_refl.
  replace (size input =? 0) with false by (symmetry; apply Z.eqb_neq; lia).
  replace (history_pos h <? history_len h - 1) with false
    by (symmetry; apply Z.ltb_ge; lia).
  unfold recall. cbn [history history_pos]. rewrite Hpos.
  destruct (Z.to_nat (size input)) as [|k] eqn:Ek; [lia |].
  reflexivity.
Qed.

Lemma kb_input_up_on_empty_history_witness :
  kb_input sdl_keysyms genie_start history_init 273 0 = OutOfBounds History (-64).
Proof.
  apply (kb_input_up_on_empty_history sdl_keysyms genie_start history_init 0
           sdl_keys_ok eq_refl); [reflexivity | reflexivity | discriminate].
Defined.

(** *** The history *)

Lemma bind_Ok {A B} (c : outcome A) (k : A -> outcome B) (b : B) :
  bind c k = Ok b -> exists a, c = Ok a /\ k a = Ok b.
Proof. destruct c as [a|r i]; cbn [bind]; [eauto | discriminate]. Qed.

Lemma strncpy_chars_length r mem i n l :
  strncpy_chars r mem i n = Ok l -> length l = n.
Proof.
  revert i l. induction n as [|n IH]; intros i l; cbn [strncpy_chars].
  - intros H; injection H as <-. reflexivity.
  - intros H. apply bind_Ok in H. destruct H as (c & _ & H).
    destruct (c =? 0).
    + injection H as <-. cbn [length]. rewrite length_replicate. reflexivity.
    + apply bind_Ok in H. destruct H as (l' & Hl' & H). injection H as <-.
      cbn [length]. f_equal. apply (IH _ _ Hl').
Qed.

Lemma memmove_length r mem d s n mem' :
  memmove r mem d s n = Ok mem' -> length mem' = length mem.
Proof.
  unfold memmove. destruct (n =? 0); [intros H; injection H as <-; reflexivity |].
  destruct (_ || _); [discriminate |]. destruct (_ || _); [discriminate |].
  intros H; injection H as <-. apply length_inserts.
Qed.

(** [strncpy] from a terminated string: its characters, then zeroes. *)
Lemma strncpy_chars_spec r mem i s rest k :
  0 <= i -> drop (Z.to_nat i) mem = s ++ 0 :: rest -> Forall nonzero s ->
  strncpy_chars r mem i k = Ok (take k s ++ replicate (k - length s) 0).
Proof.
  revert i s. induction k as [|k IH]; intros i s Hi Hdrop Hs; [reflexivity |].
  cbn [strncpy_chars].
  assert (Hhead : mem !! Z.to_nat i = (s ++ 0 :: rest) !! 0%nat).
  { rewrite <- Hdrop, lookup_drop. f_equal. lia. }
  destruct s as [|c s'].
  - cbn in Hhead. rewrite (load_lookup r mem i 0 Hi Hhead). cbn [bind Z.eqb].
    reflexivity.
  - cbn in Hhead. rewrite (load_lookup r mem i c Hi Hhead). cbn [bind].
    inversion Hs as [|? ? Hc Hs']; subst.
    replace (c =? 0) with false by (symmetry; apply Z.eqb_neq; exact Hc).
    rewrite (IH (i + 1) s'); [reflexivity | lia | | exact Hs'].
    replace (Z.to_nat (i + 1)) with (Z.to_nat i + 1)%nat by lia.
    rewrite <- drop_drop, Hdrop. reflexivity.
Qed.

Lemma strlen_spec r mem i s rest fuel :
  0 <= i -> drop (Z.to_nat i) mem = s ++ 0 :: rest -> Forall nonzero s ->
  (length s < fuel)%nat ->
  strlen r mem i fuel = Ok (Z.of_nat (length s)).
Proof.
  revert i s. induction fuel as [|fuel IH]; intros i s Hi Hdrop Hs Hfuel; [lia |].
  cbn [strlen].
  assert (Hhead : mem !! Z.to_nat i = (s ++ 0 :: rest) !! 0%nat).
  { rewrite <- Hdrop, lookup_drop. f_equal. lia. }
  destruct s as [|c s'].
  - cbn in Hhead. rewrite (load_lookup r mem i 0 Hi Hhead). reflexivity.
  - cbn in Hhead. rewrite (load_lookup r mem i c Hi Hhead). cbn [bind].
    inversion Hs as [|? ? Hc Hs']; subst.
    replace (c =? 0) with false by (symmetry; apply Z.eqb_neq; exact Hc).
    rewrite (IH (i + 1) s'); [cbn [bind length]; f_equal; lia | lia | | exact Hs' |
                             cbn [length] in Hfuel; lia].
    replace (Z.to_nat (i + 1)) with (Z.to_nat i + 1)%nat by lia.
    rewrite <- drop_drop, Hdrop. reflexivity.
Qed.

(** What Enter does with the cursor off the start of the line: the filled
    rows move down by one and the line goes into row 0, zero-padded. *)
Lemma kb_input_enter (K : keysyms) (input : kb_input_t) (h : history_t)
    (ksym_uni : Z) :
  keys_ok K -> isprint (ksym_uni mod 256) = false ->
  line_ok input -> hist_ok h -> pos input <> 0 ->
  exists hist1,
    length hist1 = length (history h) /\
    kb_input K input h (SDLK_RETURN K) ksym_uni =
    Ok (KB_INPUT_ENTERED, input,
        mk_history
          (list_inserts 0
             (take 64 (cstring (buf input)) ++
              replicate (64 - length (cstring (buf input))) 0) hist1)
          (-1) (Z.min (history_len h + 1) HISTORY_LEN)).
Proof.
  intros HK Hprint Hok (Hhl & Hhn & Hhp) Hpos.
  destruct (line_ok_split _ Hok) as (s & rest & Hbuf & Hs & Hcs & Hsize & Hp & Hmax).
  rewrite Hcs. use_keys HK. unfold kb_input. rewrite Hprint. key_tests.
  cbn [negb orb]. rewrite !Z.eqb_refl. cbn [orb].
  replace (pos input =? 0) with false by (symmetry; apply Z.eqb_neq; exact Hpos).
  unfold HISTORY_LEN, HISTORY_ROW in *.
  set (len1 := if history_len h <? 32 then history_len h + 1 else history_len h).
  assert (Hlen1 : len1 = Z.min (history_len h + 1) 32)
    by (subst len1; destruct (history_len h <? 32) eqn:E; zb; lia).
  rewrite Hlen1.
  assert (Hn : size_wrap ((Z.min (history_len h + 1) 32 - 1) * 64) =
               (Z.min (history_len h + 1) 32 - 1) * 64)
    by (apply size_wrap_small; unfold SIZE_MOD; lia).
  rewrite Hn.
  assert (Hmv : exists hist1,
            memmove History (history h) 64 0
                    ((Z.min (history_len h + 1) 32 - 1) * 64) = Ok hist1).
  { unfold memmove. destruct (_ =? 0); [eexists; reflexivity |].
    replace ((0 <? 0) || (0 + (Z.min (history_len h + 1) 32 - 1) * 64 >?
                            Z.of_nat (length (history h)))) with false
      by (symmetry; apply orb_false_iff; split;
          [reflexivity | rewrite Z.gtb_ltb; apply Z.ltb_ge; lia]).
    replace ((64 <? 0) || (64 + (Z.min (history_len h + 1) 32 - 1) * 64 >?
                             Z.of_nat (length (history h)))) with false
      by (symmetry; apply orb_false_iff; split;
          [reflexivity | rewrite Z.gtb_ltb; apply Z.ltb_ge; lia]).
    eexists; reflexivity. }
  destruct Hmv as [hist1 Hmv]. rewrite Hmv. cbn [bind].
  exists hist1. split; [apply (memmove_length _ _ _ _ _ _ Hmv) |].
  rewrite (strncpy_chars_spec InputBuf (buf input) 0 s rest (Z.to_nat 64));
    [| lia | exact Hbuf | exact Hs].
  cbn [bind]. reflexivity.
Qed.

(** What [recall] does when the row it is pointed at holds a terminated
    string: the string comes back, cut to what the block can hold, with
    the cursor behind it. *)
Lemma recall_spec (input : kb_input_t) (h : history_t) s rest :
  0 <= history_pos h ->
  drop (Z.to_nat (history_pos h * HISTORY_ROW)) (history h) = s ++ 0 :: rest ->
  Forall nonzero s ->
  Z.of_nat (length (buf input)) = size input -> 0 < size input < SIZE_MOD ->
  exists input',
    recall input h = Ok (KB_INPUT_CONSUMED, input', h) /\
    cstring (buf input') = take (Z.to_nat (size input - 1)) s /\
    pos input' = Z.of_nat (length (cstring (buf input'))) /\
    line_ok input'.
Proof.
  intros Hpos Hdrop Hs Hlen Hsize. unfold recall.
  assert (Hrow : 0 <= history_pos h * HISTORY_ROW) by (unfold HISTORY_ROW; lia).
  rewrite (strncpy_chars_spec History (history h) _ s rest _ Hrow Hdrop Hs).
  cbn [bind].
  replace (size input >? Z.of_nat (length (buf input))) with false
    by (symmetry; rewrite Z.gtb_ltb; apply Z.ltb_ge; lia).
  rewrite size_wrap_small by lia.
  set (k := Z.to_nat (size input)).
  assert (Hk : (1 <= k)%nat /\ length (buf input) = k) by (subst k; lia).
  replace (Z.to_nat (size input - 1)) with (k - 1)%nat by (subst k; lia).
  assert (Hfill : list_inserts 0 (take k s ++ replicate (k - length s) 0) (buf input)
                  = take k s ++ replicate (k - length s) 0).
  { rewrite <- (app_nil_r (buf input)).
    rewrite list_inserts_0_r; [apply app_nil_r |].
    rewrite length_app, length_take, length_replicate. lia. }
  rewrite Hfill.
  assert (Hst : exists rest',
            <[(k - 1)%nat := 0]> (take k s ++ replicate (k - length s) 0) =
            take (k - 1) s ++ 0 :: rest').
  { destruct (decide (length s <= k - 1)%nat) as [Hle|Hgt].
    - exists (replicate (k - length s - 1) 0).
      rewrite !take_ge by lia.
      replace (k - 1)%nat with (length s + (k - 1 - length s))%nat by lia.
      rewrite insert_app_r.
      replace (k - length s)%nat with (S (k - 1 - length s)) by lia.
      replace (S (k - 1 - length s) - 1)%nat with (k - 1 - length s)%nat by lia.
      f_equal. apply list_eq. intros j.
      destruct (decide (j = k - 1 - length s)%nat) as [->|Hj].
      + rewrite list_lookup_insert_eq by (rewrite length_replicate; lia).
        symmetry. change (0 :: replicate ?n 0) with (replicate (S n) 0).
        apply lookup_replicate_2. lia.
      + rewrite list_lookup_insert_ne by lia.
        change (0 :: replicate ?n 0) with (replicate (S n) 0). reflexivity.
    - exists []. replace (k - length s)%nat with 0%nat by lia.
      cbn [replicate]. rewrite app_nil_r.
      assert (Hks : (k - 1 < length s)%nat) by lia.
      destruct (lookup_lt_is_Some_2 s (k - 1)%nat Hks) as [c Hc].
      replace (take k s) with (take (S (k - 1)) s) by (f_equal; lia).
      rewrite (take_S_r s (k - 1)%nat c Hc).
      replace (k - 1)%nat with (length (take (k - 1) s) + 0)%nat at 1
        by (rewrite length_take; lia).
      rewrite insert_app_r. reflexivity. }
  destruct Hst as [rest' Hst].
  assert (Hl : length (take k s ++ replicate (k - length s) 0) = k)
    by (rewrite length_app, length_take, length_replicate; lia).
  rewrite store_in by (rewrite Hl; lia).
  cbn [bind]. replace (Z.to_nat (size input - 1)) with (k - 1)%nat by (subst k; lia).
  rewrite Hst.
  assert (Hs' : Forall nonzero (take (k - 1) s)) by (apply Forall_take; exact Hs).
  rewrite (strlen_spec InputBuf _ 0 (take (k - 1) s) rest');
    [| lia | reflexivity | exact Hs' |].
  2:{ rewrite length_app. cbn [length]. lia. }
  cbn [bind]. eexists. split; [reflexivity |]. cbn [buf pos size].
  rewrite cstring_app by exact Hs'.
  split; [reflexivity |]. split; [reflexivity |].
  unfold line_ok. cbn [buf pos size]. rewrite cstring_app by exact Hs'.
  assert (Hl2 : length (take (k - 1) s ++ 0 :: rest') = k)
    by (rewrite <- Hst, length_insert; exact Hl).
  rewrite Hl2. rewrite length_take. repeat split; lia.
Qed.

(** X16: A line entered with Enter comes back with Up: the recalled string is
    the entered one (as much of it as the receiving block can hold), the
    cursor is put behind it, and nothing outside the two blocks is
    touched on the way.  The entered line must be shorter than a history
    row. *)
Theorem kb_input_enter_then_up (K : keysyms) (input input2 : kb_input_t)
    (h : history_t) (ksym_uni : Z) :
  keys_ok K -> isprint (ksym_uni mod 256) = false ->
  line_ok input -> hist_ok h -> pos input <> 0 ->
  Z.of_nat (length (cstring (buf input))) < HISTORY_ROW ->
  Z.of_nat (length (buf input2)) = size input2 -> 0 < size input2 < SIZE_MOD ->
  exists h1 input3 h2,
    kb_input K input h (SDLK_RETURN K) ksym_uni =
      Ok (KB_INPUT_ENTERED, input, h1) /\
    history_len h1 = Z.min (history_len h + 1) HISTORY_LEN /\
    kb_input K input2 h1 (SDLK_UP K) ksym_uni =
      Ok (KB_INPUT_CONSUMED, input3, h2) /\
    cstring (buf input3) =
      take (Z.to_nat (size input2 - 1)) (cstring (buf input)) /\
    pos input3 = Z.of_nat (length (cstring (buf input3))) /\
    line_ok input3.
Proof.
  intros HK Hprint Hok Hh Hpos Hshort Hlen2 Hsize2.
  destruct (kb_input_enter K input h ksym_uni HK Hprint Hok Hh Hpos)
    as (hist1 & Hl1 & Henter).
  destruct Hh as (Hhl & Hhn & Hhp). unfold HISTORY_LEN, HISTORY_ROW in *.
  set (s := cstring (buf input)) in *.
  set (h1 := mk_history _ (-1) _) in Henter.
  set (h1' := mk_history (history h1) 0 (history_len h1)).
  assert (Hs : Forall nonzero s) by apply cstring_nonzero.
  assert (Hrow : drop (Z.to_nat (history_pos h1' * HISTORY_ROW)) (history h1') =
                 s ++ 0 :: (replicate (63 - length s) 0 ++ drop 64 hist1)).
  { subst h1' h1. cbn [history history_pos]. cbn [Z.mul Z.to_nat drop].
    rewrite take_ge by lia.
    rewrite <- (take_drop 64 hist1) at 1.
    rewrite list_inserts_0_r
      by (rewrite length_app, length_replicate, length_take; lia).
    rewrite <- app_assoc. f_equal.
    replace (64 - length s)%nat with (S (63 - length s)) by lia.
    reflexivity. }
  destruct (recall_spec input2 h1' s _ ltac:(cbn; lia) Hrow Hs Hlen2 Hsize2)
    as (input3 & Hrec & Hc3 & Hp3 & Hok3).
  exists h1, input3, h1'. split; [exact Henter |].
  split; [reflexivity |].
  split; [| split; [exact Hc3 | split; [exact Hp3 | exact Hok3]]].
  use_keys HK. unfold kb_input. rewrite Hprint. key_tests.
  cbn [negb orb]. rewrite !Z.eqb_refl.
  replace (size input2 =? 0) with false by (symmetry; apply Z.eqb_neq; lia).
  replace (history_pos h1 <? history_len h1 - 1) with true
    by (symmetry; apply Z.ltb_lt; subst h1; cbn [history_pos history_len]; lia).
  exact Hrec.
Qed.

Lemma kb_input_enter_then_up_witness :
  exists h1 input3 h2,
    kb_input sdl_keysyms (mk_input [65; 66; 0; 0] 1 4) history_init 13 0 =
      Ok (KB_INPUT_ENTERED, mk_input [65; 66; 0; 0] 1 4, h1) /\
    kb_input sdl_keysyms genie_start h1 273 0 =
      Ok (KB_INPUT_CONSUMED, input3, h2) /\
    cstring (buf input3) = [65; 66] /\ pos input3 = 2.
Proof.
  assert (Hh : hist_ok history_init).
  { unfold hist_ok, history_init, HISTORY_LEN, HISTORY_ROW.
    cbn [history history_len history_pos]. rewrite length_replicate. lia. }
  destruct (kb_input_enter_then_up sdl_keysyms (mk_input [65; 66; 0; 0] 1 4)
              genie_start history_init 0 sdl_keys_ok eq_refl genie_ab_ok Hh
              ltac:(discriminate) eq_refl eq_refl ltac:(split; reflexivity))
    as (h1 & input3 & h2 & H1 & _ & H2 & H3 & H4 & _).
  exists h1, input3, h2. split; [exact H1 |]. split; [exact H2 |].
  split; [exact H3 |]. rewrite H4, H3. reflexivity.
Defined.

Lemma recall_history input h r input' h' :
  recall input h = Ok (r, input', h') -> h' = h.
Proof.
  unfold recall. intros H.
  apply bind_Ok in H. destruct H as (chars & _ & H).
  destruct (size input >? _); [discriminate |].
  apply bind_Ok in H. destruct H as (buf2 & _ & H).
  apply bind_Ok in H. destruct H as (l & _ & H).
  injection H as _ _ <-. reflexivity.
Qed.

Ltac kb_step H :=
  match type of H with
  | bind _ _ = Ok _ =>
      let a := fresh "a" in
      let Ha := fresh "Ha" in
      apply bind_Ok in H; destruct H as (a & Ha & H); cbv beta in H
  | (if ?b then _ else _) = Ok _ => destruct b eqn:?
  | OutOfBounds _ _ = Ok _ => discriminate H
  | recall _ _ = Ok _ => apply recall_history in H; subst
  | Ok _ = Ok _ => injection H as <- <- <-
  end.

(** X17: Whatever the key, [kb_input] keeps its history in order: the array
    keeps its size, at most [HISTORY_LEN] rows count as filled, and the
    recall position stays at -1 or inside the array, below
    [max(1, history_len)]: on a filled row, or on row 0 while no row is
    filled (Escape puts it there, filled rows or not). *)
Theorem kb_input_keeps_history_ok (K : keysyms) (input input' : kb_input_t)
    (h h' : history_t) (ksym ksym_uni : Z) (r : kb_input_e) :
  hist_ok h ->
  kb_input K input h ksym ksym_uni = Ok (r, input', h') ->
  hist_ok h' /\
  Z.of_nat (length (history h')) = HISTORY_LEN * HISTORY_ROW /\
  0 <= history_len h' <= HISTORY_LEN /\
  -1 <= history_pos h' < Z.max 1 (history_len h') /\
  history_pos h' < HISTORY_LEN.
Proof.
  intros Hh H.
  assert (Hok : hist_ok h');
    [| split; [exact Hok |]; destruct Hok as (Hl & Hn & Hp);
       unfold HISTORY_LEN in *; repeat split; lia].
  destruct Hh as (Hl & Hn & Hp). unfold kb_input in H.
  unfold hist_ok, HISTORY_LEN, HISTORY_ROW in *.
  repeat kb_step H; zb; cbn [history history_len history_pos];
    repeat match goal with
           | |- context [if ?b then _ else _] => destruct b eqn:?; zb
           end;
    rewrite ?length_inserts;
    try match goal with
        | Hm : memmove _ _ _ _ _ = Ok _ |- _ =>
            rewrite (memmove_length _ _ _ _ _ _ Hm)
        end;
    repeat split; lia.
Qed.

(** Escape as the first key: the recall position is 0 and no row is
    filled. *)
Lemma kb_input_keeps_history_ok_witness :
  kb_input sdl_keysyms genie_start history_init 27 0 =
    Ok (KB_INPUT_ABORTED, genie_start,
        mk_history (history history_init) 0 (history_len history_init)) /\
  history_len history_init = 0 /\
  hist_ok (mk_history (history history_init) 0 (history_len history_init)).
Proof.
  assert (Hh : hist_ok history_init).
  { unfold hist_ok, history_init, HISTORY_LEN, HISTORY_ROW.
    cbn [history history_len history_pos]. rewrite length_replicate. lia. }
  split; [reflexivity |]. split; [reflexivity |].
  apply (kb_input_keeps_history_ok sdl_keysyms genie_start genie_start
           history_init _ 27 0 KB_INPUT_ABORTED Hh).
  reflexivity.
Defined.

(** *** The Game Genie prompt *)

Lemma manage_game_genie_char (K : keysyms) (input : kb_input_t)
    (h : history_t) (patches : list (list Z)) (c : Z) :
  line_ok input -> 32 <= c <= 126 -> Z.land c (KEYSYM_MOD_CTRL K) = 0 ->
  pos input = Z.of_nat (length (cstring (buf input))) ->
  exists input',
    manage_game_genie K input h patches c c = Ok (0, input', h, patches) /\
    line_ok input' /\ size input' = size input /\
    pos input' = Z.of_nat (length (cstring (buf input'))) /\
    cstring (buf input') =
      if pos input <? size input - 1
      then cstring (buf input) ++ [c] else cstring (buf input).
Proof.
  intros Hok Hc Hctrl Hend. unfold manage_game_genie.
  rewrite !Z.mod_small by lia.
  assert (Hprint : isprint (c mod 256) = true).
  { rewrite Z.mod_small by lia. unfold isprint.
    apply andb_true_iff; split; apply Z.leb_le; lia. }
  destruct (kb_input_typed K input h c c Hok Hctrl Hprint)
    as (input' & Hrun & Hok' & Hsize & Hfit & Hfull).
  rewrite Hrun. cbn [bind]. exists input'. split; [reflexivity |].
  split; [exact Hok' |]. split; [exact Hsize |].
  rewrite Z.mod_small in Hfit by lia.
  destruct (pos input <? size input - 1) eqn:E; zb.
  - destruct (Hfit E) as [Hs Hp]. rewrite Hs, Hp, Hend, Nat2Z.id.
    rewrite take_ge by lia. rewrite drop_ge by lia.
    split; [| reflexivity]. rewrite !length_app. cbn [length]. lia.
  - rewrite (Hfull E). split; [exact Hend | reflexivity].
Qed.

Lemma type_chars (K : keysyms) (cs : list Z) :
  Forall (fun c => 32 <= c <= 126 /\ Z.land c (KEYSYM_MOD_CTRL K) = 0) cs ->
  forall (next : list (Z * Z)) (input : kb_input_t) (h : history_t)
         (patches : list (list Z)),
  next <> [] -> line_ok input ->
  pos input = Z.of_nat (length (cstring (buf input))) ->
  exists input',
    type_keys K (map char_key cs ++ next) input h patches =
      type_keys K next input' h patches /\
    line_ok input' /\ size input' = size input /\
    pos input' = Z.of_nat (length (cstring (buf input'))) /\
    cstring (buf input') =
      take (Z.to_nat (size input - 1)) (cstring (buf input) ++ cs).
Proof.
  induction 1 as [|c cs [Hc Hctrl] Hcs IH]; intros next input h patches Hnext Hok Hend.
  - exists input. cbn [map app]. split; [reflexivity |].
    split; [exact Hok |]. split; [reflexivity |]. split; [exact Hend |].
    rewrite app_nil_r. rewrite take_ge; [reflexivity |].
    destruct Hok as (_ & _ & H & _). lia.
  - destruct (manage_game_genie_char K input h patches c Hok Hc Hctrl Hend)
      as (input1 & Hrun & Hok1 & Hsize1 & Hend1 & Hs1).
    destruct (IH next input1 h patches Hnext Hok1 Hend1)
      as (input' & Hrest & Hok' & Hsize' & Hend' & Hs').
    exists input'. cbn [map app type_keys char_key]. rewrite Hrun. cbn [bind].
    destruct (map char_key cs ++ next) as [|k rest] eqn:Ek.
    { destruct cs; [destruct next; [congruence | discriminate] | discriminate]. }
    rewrite Hrest. split; [reflexivity |]. split; [exact Hok' |].
    split; [congruence |]. split; [exact Hend' |].
    rewrite Hs', Hs1, Hsize1.
    destruct Hok as (_ & _ & Hlt & _).
    destruct (pos input <? size input - 1) eqn:E; zb.
    + rewrite <- app_assoc. reflexivity.
    + rewrite !take_app_le by lia. reflexivity.
Qed.

(** X18: Typing a code and pressing Enter at the Game Genie prompt: the string
    handed to [megad.patch] is what was typed, up to the eleven
    characters the twelve-byte line can hold; the call returns 1 and the
    line is cleared for the next code. *)
Theorem game_genie_code_reaches_patch (K : keysyms) (cs : list Z)
    (h : history_t) (patches : list (list Z)) :
  keys_ok K -> hist_ok h -> cs <> [] ->
  Forall (fun c => 32 <= c <= 126 /\ Z.land c (KEYSYM_MOD_CTRL K) = 0) cs ->
  0 <= SDLK_RETURN K < 2 ^ 32 ->
  exists h' b,
    type_keys K (map char_key cs ++ [(SDLK_RETURN K, 0)])
              genie_start h patches =
      Ok (1, genie_start, h', patches ++ [b]) /\
    cstring b = take 11 cs /\ length b = 12%nat.
Proof.
  intros HK Hh Hne Hcs Hret.
  assert (Hstart : line_ok genie_start)
    by (unfold line_ok, genie_start; cbn; unfold SIZE_MOD; lia).
  destruct (type_chars K cs Hcs [(SDLK_RETURN K, 0)] genie_start h patches
              ltac:(discriminate) Hstart eq_refl)
    as (input' & Hrun & Hok' & Hsize' & Hend' & Hs').
  rewrite Hrun. cbn [type_keys]. unfold manage_game_genie.
  rewrite (Z.mod_small (SDLK_RETURN K)) by exact Hret.
  change (0 mod 2 ^ 16) with 0.
  cbn [genie_start size buf cstring app] in Hs', Hsize'.
  change (replicate 12 0) with (0 :: replicate 11 0) in Hs'.
  cbn [cstring Z.eqb app] in Hs'.
  change (Z.to_nat (12 - 1)) with 11%nat in Hs'.
  assert (Hpos : pos input' <> 0).
  { rewrite Hend', Hs'. destruct cs; [congruence | cbn; lia]. }
  destruct (kb_input_enter K input' h 0 HK eq_refl Hok' Hh Hpos)
    as (hist1 & _ & Henter).
  rewrite Henter. cbn [bind]. eexists _, (buf input').
  split; [reflexivity |]. split; [exact Hs' |].
  destruct Hok' as (Hl & _). lia.
Qed.

Lemma game_genie_code_reaches_patch_witness :
  exists h' b,
    type_keys sdl_keysyms [(65, 65); (66, 66); (13, 0)]
              genie_start history_init [] =
      Ok (1, genie_start, h', [b]) /\
    cstring b = [65; 66].
Proof.
  assert (Hh : hist_ok history_init).
  { unfold hist_ok, history_init, HISTORY_LEN, HISTORY_ROW.
    cbn [history history_len history_pos]. rewrite length_replicate. lia. }
  destruct (game_genie_code_reaches_patch sdl_keysyms [65; 66] history_init []
              sdl_keys_ok Hh ltac:(discriminate)) as (h' & b & H1 & H2 & _).
  - repeat constructor; lia.
  - split; [discriminate | reflexivity].
  - exists h', b. split; [exact H1 | exact H2].
Defined.

End KbLineFacts.

(** ** Controls ([control], the [ctl_*] handlers, [stop_events],
       [restart_events], [pd_stopped]) *)

Module ControlsFacts.
Import Calibration Controls.

(** *** Bits *)

Lemma lor_land_lnot p m : Z.lor (Z.land p (Z.lnot m)) m = Z.lor p m.
Proof.
  apply Z.bits_inj'. intros n Hn.
  rewrite !Z.lor_spec, Z.land_spec, Z.lnot_spec by exact Hn.
  destruct (Z.testbit p n), (Z.testbit m n); reflexivity.
Qed.

Lemma lor_absorb p m : Z.land p m = m -> Z.lor p m = p.
Proof.
  intros H. apply Z.bits_inj'. intros n Hn.
  pose proof (f_equal (fun z => Z.testbit z n) H) as Hb. cbv beta in Hb.
  rewrite Z.land_spec in Hb. rewrite Z.lor_spec.
  destruct (Z.testbit p n), (Z.testbit m n); try reflexivity; discriminate Hb.
Qed.

Lemma land_lnot_clear p m : Z.land (Z.land p (Z.lnot m)) m = 0.
Proof.
  apply Z.bits_inj'. intros n Hn.
  rewrite !Z.land_spec, Z.lnot_spec, Z.bits_0 by exact Hn.
  destruct (Z.testbit p n), (Z.testbit m n); reflexivity.
Qed.

Lemma land_lor_set p m : Z.land (Z.lor p m) m = m.
Proof.
  apply Z.bits_inj'. intros n Hn.
  rewrite Z.land_spec, Z.lor_spec.
  destruct (Z.testbit p n), (Z.testbit m n); reflexivity.
Qed.

Lemma ctl_pad1_eq M c m :
  ctl_pad1 M c m =
  (1, mk_md (Z.land (pad0 m) (Z.lnot (pad1_mask M (ctl_type c)))) (pad1 m)).
Proof.
  unfold ctl_pad1, pad1_mask. destruct m as [p0 p1]. cbn [pad0 pad1].
  destruct (ctl_type c); try reflexivity;
    change (Z.lnot 0) with (-1); rewrite Z.land_m1_r; reflexivity.
Qed.

Lemma ctl_pad1_release_eq M c m :
  ctl_pad1_release M c m =
  (1, mk_md (Z.lor (pad0 m) (pad1_mask M (ctl_type c))) (pad1 m)).
Proof.
  unfold ctl_pad1_release, pad1_mask. destruct m as [p0 p1]. cbn [pad0 pad1].
  destruct (ctl_type c); try reflexivity; rewrite Z.lor_0_r; reflexivity.
Qed.

Lemma ctl_pad2_eq M c m :
  ctl_pad2 M c m =
  (1, mk_md (pad0 m) (Z.land (pad1 m) (Z.lnot (pad2_mask M (ctl_type c))))).
Proof.
  unfold ctl_pad2, pad2_mask. destruct m as [p0 p1]. cbn [pad0 pad1].
  destruct (ctl_type c); try reflexivity;
    change (Z.lnot 0) with (-1); rewrite Z.land_m1_r; reflexivity.
Qed.

Lemma ctl_pad2_release_eq M c m :
  ctl_pad2_release M c m =
  (1, mk_md (pad0 m) (Z.lor (pad1 m) (pad2_mask M (ctl_type c)))).
Proof.
  unfold ctl_pad2_release, pad2_mask. destruct m as [p0 p1]. cbn [pad0 pad1].
  destruct (ctl_type c); try reflexivity; rewrite Z.lor_0_r; reflexivity.
Qed.

(** X19: Pressing a pad button clears exactly the bits of its mask and
    releasing it sets them again, in the word of its own pad only: a
    press followed by the release gives back the pad word one started
    from whenever the button was up (its bits set) before. *)
Theorem pad_press_then_release (M : md_masks) (c : ctl) (m : md) :
  let pressed1 := snd (ctl_pad1 M c m) in
  let pressed2 := snd (ctl_pad2 M c m) in
  Z.land (pad0 pressed1) (pad1_mask M (ctl_type c)) = 0 /\
  pad1 pressed1 = pad1 m /\
  Z.land (pad1 pressed2) (pad2_mask M (ctl_type c)) = 0 /\
  pad0 pressed2 = pad0 m /\
  (Z.land (pad0 m) (pad1_mask M (ctl_type c)) = pad1_mask M (ctl_type c) ->
   snd (ctl_pad1_release M c pressed1) = m) /\
  (Z.land (pad1 m) (pad2_mask M (ctl_type c)) = pad2_mask M (ctl_type c) ->
   snd (ctl_pad2_release M c pressed2) = m).
Proof.
  cbv zeta. rewrite ctl_pad1_release_eq, ctl_pad2_release_eq.
  rewrite ctl_pad1_eq, ctl_pad2_eq. cbn [snd pad0 pad1].
  split; [apply land_lnot_clear |]. split; [reflexivity |].
  split; [apply land_lnot_clear |]. split; [reflexivity |].
  split; intros H; rewrite lor_land_lnot, (lor_absorb _ _ H);
    destruct m; reflexivity.
Qed.

(** *** Stopping and restarting *)

Lemma land_lor_keep p m k : Z.land p k = k -> Z.land (Z.lor p m) k = k.
Proof.
  intros H. apply Z.bits_inj'. intros n Hn.
  pose proof (f_equal (fun z => Z.testbit z n) H) as Hb. cbv beta in Hb.
  rewrite Z.land_spec in Hb. rewrite Z.land_spec, Z.lor_spec.
  destruct (Z.testbit p n), (Z.testbit m n), (Z.testbit k n);
    try reflexivity; discriminate Hb.
Qed.

Lemma call_release_spec M f c m :
  fst (call_release M f c m) = 1 /\
  (forall k, Z.land (pad0 m) k = k -> Z.land (pad0 (snd (call_release M f c m))) k = k) /\
  (forall k, Z.land (pad1 m) k = k -> Z.land (pad1 (snd (call_release M f c m))) k = k) /\
  (f = fn_pad1_release ->
   Z.land (pad0 (snd (call_release M f c m))) (pad1_mask M (ctl_type c)) =
   pad1_mask M (ctl_type c)) /\
  (f = fn_pad2_release ->
   Z.land (pad1 (snd (call_release M f c m))) (pad2_mask M (ctl_type c)) =
   pad2_mask M (ctl_type c)).
Proof.
  destruct f; cbn [call_release];
    rewrite ?ctl_pad1_release_eq, ?ctl_pad2_release_eq; cbn [fst snd pad0 pad1];
    (split; [reflexivity |]);
    (split; [intros k Hk; try exact Hk; apply land_lor_keep; exact Hk |]);
    (split; [intros k Hk; try exact Hk; apply land_lor_keep; exact Hk |]);
    split; intros Hf; try discriminate Hf; apply land_lor_set.
Qed.

Lemma release_loop_spec M ctls m :
  let r := release_loop M ctls m in
  snd r = false /\
  map ctl_type (fst (fst r)) = map ctl_type ctls /\
  Forall (fun c => pressed c = false) (visited (fst (fst r))) /\
  (forall k, Z.land (pad0 m) k = k -> Z.land (pad0 (snd (fst r))) k = k) /\
  (forall k, Z.land (pad1 m) k = k -> Z.land (pad1 (snd (fst r))) k = k) /\
  Forall (fun c => Z.land (pad0 (snd (fst r))) (pad1_mask M (ctl_type c)) =
                   pad1_mask M (ctl_type c))
         (held_by fn_pad1_release ctls) /\
  Forall (fun c => Z.land (pad1 (snd (fst r))) (pad2_mask M (ctl_type c)) =
                   pad2_mask M (ctl_type c))
         (held_by fn_pad2_release ctls).
Proof.
  revert m. induction ctls as [|c rest IH]; intros m; cbv zeta.
  - cbn. repeat split; auto.
  - cbn [release_loop]. unfold held_by. cbn [visited].
    destruct (has_rc c) eqn:Erc; cbn [negb].
    2:{ cbn [fst snd visited List.filter]. rewrite Erc.
        repeat split; auto. }
    destruct (pressed c) eqn:Ep; cbn [negb].
    + destruct (release c) as [f|] eqn:Er.
      * pose proof (call_release_spec M f
          (mk_ctl (ctl_type c) (has_rc c) (press c) (Some f) false false
                  (ctl_x c) (ctl_y c)) m) as (Hret & Hk0 & Hk1 & Hp1 & Hp2).
        rewrite Erc in *.
        destruct (call_release M f _ m) as [ret m1] eqn:Ecall.
        cbn [fst snd ctl_type] in *. subst ret. cbn [Z.eqb].
        specialize (IH m1). cbv zeta in IH.
        destruct (release_loop M rest m1) as [[rest' m'] failed].
        cbn [fst snd] in *.
        destruct IH as (Hf & Hty & Hvis & Hm0 & Hm1 & Hh1 & Hh2).
        split; [exact Hf |].
        split; [cbn [map ctl_type]; f_equal; exact Hty |].
        split; [cbn [visited has_rc]; constructor; [reflexivity | exact Hvis] |].
        split; [intros k Hk; apply Hm0, Hk0, Hk |].
        split; [intros k Hk; apply Hm1, Hk1, Hk |].
        cbn [List.filter]. rewrite Ep, Er. cbn [andb].
        destruct f; split; try (constructor; [| assumption]); try assumption.
        -- apply Hm0, Hp1. reflexivity.
        -- apply Hm1, Hp2. reflexivity.
      * specialize (IH m). cbv zeta in IH.
        destruct (release_loop M rest m) as [[rest' m'] failed].
        cbn [fst snd] in *.
        destruct IH as (Hf & Hty & Hvis & Hm0 & Hm1 & Hh1 & Hh2).
        split; [exact Hf |].
        split; [cbn [map ctl_type]; f_equal; exact Hty |].
        split; [cbn [visited has_rc]; rewrite ?Erc; constructor;
                [reflexivity | exact Hvis] |].
        split; [exact Hm0 |]. split; [exact Hm1 |].
        cbn [List.filter]. rewrite Ep, Er. cbn [andb]. split; assumption.
    + specialize (IH m). cbv zeta in IH.
      destruct (release_loop M rest m) as [[rest' m'] failed].
      cbn [fst snd] in *.
      destruct IH as (Hf & Hty & Hvis & Hm0 & Hm1 & Hh1 & Hh2).
      split; [exact Hf |].
      split; [cbn [map]; f_equal; exact Hty |].
      split; [cbn [visited]; rewrite Erc; constructor; [exact Ep | exact Hvis] |].
      split; [exact Hm0 |]. split; [exact Hm1 |].
      cbn [List.filter]. rewrite Ep. cbn [andb]. split; assumption.
Qed.

(** X20: [stop_events] never fails, since no release handler of the table
    returns 0: it returns 0, takes one freeze reference, records the new
    status and that the stop was intended, leaves no control of the
    table pressed, puts the bits of every pad button that was held back
    to "up", and lets go of the mouse.  So [ctl_dgen_stop] and
    [ctl_dgen_game_genie] always return 1 (they never end the
    emulator), and the next [pd_stopped] returns 1, the one after that
    0. *)
Theorem stop_events_releases_everything (M : md_masks) (status : events_e)
    (st : state) :
  let st' := snd (stop_events M status st) in
  fst (stop_events M status st) = 0 /\
  stopped st' = 1 /\ events st' = status /\
  frz st' = Freeze.freeze true (frz st) /\
  map ctl_type (control st') = map ctl_type (control st) /\
  Forall (fun c => pressed c = false) (visited (control st')) /\
  Forall (fun c => Z.land (pad0 (megad st')) (pad1_mask M (ctl_type c)) =
                   pad1_mask M (ctl_type c))
         (held_by fn_pad1_release (control st)) /\
  Forall (fun c => Z.land (pad1 (megad st')) (pad2_mask M (ctl_type c)) =
                   pad2_mask M (ctl_type c))
         (held_by fn_pad2_release (control st)) /\
  grab_on st' = false /\
  fst (ctl_dgen_stop M st) = 1 /\ fst (ctl_dgen_game_genie M st) = 1 /\
  fst (pd_stopped st') = 1 /\ fst (pd_stopped (snd (pd_stopped st'))) = 0.
Proof.
  assert (Hstop : forall s,
            fst (stop_events M s st) = 0 /\
            let st' := snd (stop_events M s st) in
            stopped st' = 1 /\ events st' = s /\
            frz st' = Freeze.freeze true (frz st) /\
            map ctl_type (control st') = map ctl_type (control st) /\
            Forall (fun c => pressed c = false) (visited (control st')) /\
            Forall (fun c => Z.land (pad0 (megad st')) (pad1_mask M (ctl_type c)) =
                             pad1_mask M (ctl_type c))
                   (held_by fn_pad1_release (control st)) /\
            Forall (fun c => Z.land (pad1 (megad st')) (pad2_mask M (ctl_type c)) =
                             pad2_mask M (ctl_type c))
                   (held_by fn_pad2_release (control st)) /\
            grab_on st' = false).
  { intros s. unfold stop_events.
    pose proof (release_loop_spec M (control st) (megad st)) as Hloop.
    cbv zeta in Hloop.
    destruct (release_loop M (control st) (megad st)) as [[ctls m] failed].
    cbn [fst snd] in Hloop.
    destruct Hloop as (Hf & Hty & Hvis & _ & _ & Hh1 & Hh2). subst failed.
    unfold mouse_grab. cbn [andb negb].
    destruct (grab_on st) eqn:Eg; cbn [fst snd stopped events frz control megad grab_on];
      repeat split; assumption. }
  cbv zeta. destruct (Hstop status) as (Hr & Hs & He & Hfz & Hty & Hv & Hh1 & Hh2 & Hg).
  cbv zeta in *.
  repeat (split; [assumption |]).
  split.
  { unfold ctl_dgen_stop. destruct (Hstop STOPPED) as (Hr' & _).
    destruct (stop_events M STOPPED st) as [r st1]. cbn [fst] in Hr'. subst r.
    reflexivity. }
  split.
  { unfold ctl_dgen_game_genie. destruct (Hstop GAME_GENIE) as (Hr' & _).
    destruct (stop_events M GAME_GENIE st) as [r st1]. cbn [fst] in Hr'. subst r.
    reflexivity. }
  unfold pd_stopped. cbn [fst snd stopped]. split; [exact Hs | reflexivity].
Qed.

Lemma freeze_undo (s : Freeze.state) :
  Freeze.inv s -> Freeze.pd_freeze_ref s < UINT_MAX ->
  Freeze.freeze false (Freeze.freeze true s) = s.
Proof.
  intros [Hr Hiff] Hmax. destruct s as [f r]. unfold Freeze.freeze.
  cbn [Freeze.pd_freeze Freeze.pd_freeze_ref] in *.
  unfold UINT_MAX in Hmax.
  rewrite (uint_wrap_small (r + 1)) by lia.
  replace (r + 1 =? 0) with false by (symmetry; apply Z.eqb_neq; lia).
  cbn [negb]. replace (r + 1 - 1) with r by lia.
  rewrite (uint_wrap_small r) by lia.
  destruct (r =? 0) eqn:E; zb.
  - subst r. destruct f; [| reflexivity].
    destruct Hiff as [H _]. specialize (H eq_refl). lia.
  - reflexivity.
Qed.

(** X21: A stop followed by a restart hands back the freeze reference it
    took: [pd_freeze] and [pd_freeze_ref] are as before the stop, event
    handling is back to [STARTED] and key repeat is off. *)
Theorem stop_then_restart (M : md_masks) (status : events_e) (st : state) :
  Freeze.inv (frz st) -> Freeze.pd_freeze_ref (frz st) < UINT_MAX ->
  let st' := restart_events (snd (stop_events M status st)) in
  frz st' = frz st /\ events st' = STARTED /\ key_repeat st' = false /\
  Freeze.pd_freeze (frz (snd (stop_events M status st))) = true.
Proof.
  intros Hinv Hmax. cbv zeta. unfold restart_events. cbn [frz events key_repeat].
  assert (Hfz : frz (snd (stop_events M status st)) = Freeze.freeze true (frz st)).
  { unfold stop_events.
    destruct (release_loop M (control st) (megad st)) as [[ctls m] failed].
    destruct failed; [reflexivity |].
    destruct (mouse_grab _ _ _ _); reflexivity. }
  rewrite Hfz. split; [apply freeze_undo; assumption |].
  split; [reflexivity |]. split; [reflexivity |].
  destruct Hinv as [Hr Hiff]. unfold Freeze.freeze. cbn [Freeze.pd_freeze].
  destruct (Freeze.pd_freeze_ref (frz st) =? 0) eqn:E; zb; [reflexivity |].
  apply Hiff. lia.
Qed.

Lemma stop_then_restart_witness :
  frz (restart_events
         (snd (stop_events (mk_masks 1 2 4 8 16 32 64 128 256 512 1024 2048)
                           STOPPED
                           (mk_state 0 Freeze.init STARTED control_init
                                     (mk_md 4095 4095) true false false))))
  = Freeze.init.
Proof.
  assert (Hinv : Freeze.inv Freeze.init).
  { unfold Freeze.inv, Freeze.init; cbn. unfold UINT_MOD.
    split; [lia | split; [discriminate | lia]]. }
  exact (proj1 (stop_then_restart (mk_masks 1 2 4 8 16 32 64 128 256 512 1024 2048)
                  STOPPED
                  (mk_state 0 Freeze.init STARTED control_init
                            (mk_md 4095 4095) true false false)
                  Hinv ltac:(reflexivity))).
Defined.

(** *** Slots and volume *)

(** X22: The save slot stays one of 0..9: the ten slot keys of the table
    select the slots 0 to 9, "next" and "previous" walk round the ten
    slots and undo each other. *)
Theorem slot_keys_cycle (slot : Z) :
  0 <= slot <= 9 ->
  0 <= snd (ctl_dgen_slot_next slot) <= 9 /\
  0 <= snd (ctl_dgen_slot_prev slot) <= 9 /\
  snd (ctl_dgen_slot_prev (snd (ctl_dgen_slot_next slot))) = slot /\
  snd (ctl_dgen_slot_next (snd (ctl_dgen_slot_prev slot))) = slot /\
  map (fun c => snd (ctl_dgen_slot c slot))
      (List.filter (fun c => match press c with
                             | Some fn_dgen_slot => true
                             | _ => false
                             end) control_init)
    = [0; 1; 2; 3; 4; 5; 6; 7; 8; 9].
Proof.
  intros H. unfold ctl_dgen_slot_next, ctl_dgen_slot_prev. cbn [snd].
  split; [| split; [| split; [| split; [| reflexivity]]]];
    destruct (slot =? 9) eqn:E9; destruct (slot =? 0) eqn:E0; zb;
    repeat match goal with
           | |- context [if ?b then _ else _] => destruct b eqn:?; zb
           end; lia.
Qed.

Lemma slot_keys_cycle_witness :
  snd (ctl_dgen_slot_next 9) = 0 /\ snd (ctl_dgen_slot_prev 0) = 9.
Proof.
  destruct (slot_keys_cycle 9 ltac:(lia)) as (_ & _ & _ & _ & _).
  split; reflexivity.
Defined.

(** X23: The volume keys keep [dgen_volume] within 0..100, whatever it was:
    inside that range a key moves it by one and stops at the ends. *)
Theorem volume_keys_clamp (c : ctl) (dgen_volume : Z) :
  let v := snd (ctl_dgen_volume c dgen_volume) in
  fst (ctl_dgen_volume c dgen_volume) = 1 /\
  0 <= v <= 100 /\
  (0 <= dgen_volume <= 100 ->
   v = if ctl_e_beq (ctl_type c) CTL_DGEN_VOLUME_INC
       then Z.min 100 (dgen_volume + 1) else Z.max 0 (dgen_volume - 1)).
Proof.
  cbv zeta. unfold ctl_dgen_volume. cbn [fst snd].
  split; [reflexivity |].
  destruct (ctl_e_beq (ctl_type c) CTL_DGEN_VOLUME_INC);
    repeat match goal with
           | |- context [if ?b then _ else _] => destruct b eqn:?; zb
           end; split; intros; lia.
Qed.

End ControlsFacts.

(** ** Delayed release of mouse motion ([mouse_motion_release],
       [mouse_motion_delay_release], [mouse_motion_released]) *)

Module MouseFacts.
Import Mouse.

(** *** Bits *)

Lemma land_bit x j :
  0 <= j -> (Z.land x (Z.shiftl 1 j) =? 0) = negb (Z.testbit x j).
Proof.
  intros Hj. rewrite Z.shiftl_1_l.
  destruct (Z.testbit x j) eqn:E; cbn [negb].
  - apply Z.eqb_neq. intros H.
    pose proof (f_equal (fun z => Z.testbit z j) H) as Hb. cbv beta in Hb.
    rewrite Z.land_spec, E, Z.pow2_bits_true, Z.bits_0 in Hb by exact Hj.
    discriminate Hb.
  - apply Z.eqb_eq. apply Z.bits_inj'. intros n Hn.
    rewrite Z.land_spec, Z.bits_0, Z.pow2_bits_eqb by exact Hj.
    destruct (Z.eqb_spec j n) as [->|Hne]; [rewrite E; reflexivity |].
    apply andb_false_r.
Qed.

Lemma is_enabled_eq en w :
  is_enabled en w =
  match en !! Z.to_nat (w / 8) with
  | Some b => Z.testbit b (w mod 8)
  | None => false
  end.
Proof.
  unfold is_enabled, bit. destruct (en !! _); [| reflexivity].
  rewrite land_bit by (apply Z.mod_pos_bound; lia). apply negb_involutive.
Qed.

Lemma testbit_enable b k j :
  0 <= k < 8 -> 0 <= j < 8 ->
  Z.testbit (Z.lor b (Z.shiftl 1 k) mod 256) j = Z.testbit b j || (j =? k).
Proof.
  intros Hk Hj. change 256 with (2 ^ 8).
  rewrite Z.mod_pow2_bits_low by lia.
  rewrite Z.lor_spec, Z.shiftl_1_l, Z.pow2_bits_eqb by lia.
  rewrite (Z.eqb_sym k j). reflexivity.
Qed.

Lemma testbit_disable b k j :
  0 <= k < 8 -> 0 <= j < 8 ->
  Z.testbit (Z.land b (Z.lnot (Z.shiftl 1 k)) mod 256) j =
  Z.testbit b j && negb (j =? k).
Proof.
  intros Hk Hj. change 256 with (2 ^ 8).
  rewrite Z.mod_pow2_bits_low by lia.
  rewrite Z.land_spec, Z.lnot_spec, Z.shiftl_1_l, Z.pow2_bits_eqb by lia.
  rewrite (Z.eqb_sym k j). reflexivity.
Qed.

Lemma index_split w x :
  0 <= w -> 0 <= x -> x <> w ->
  Z.to_nat (x / 8) <> Z.to_nat (w / 8) \/
  (Z.to_nat (x / 8) = Z.to_nat (w / 8) /\ x mod 8 <> w mod 8).
Proof.
  intros Hw Hx Hne.
  destruct (decide (x / 8 = w / 8)) as [Hq|Hq].
  - right. split; [congruence |]. intros Hm.
    apply Hne. rewrite (Z.div_mod x 8), (Z.div_mod w 8) by lia. congruence.
  - left. pose proof (Z.div_pos x 8). pose proof (Z.div_pos w 8). lia.
Qed.

(** Setting or clearing the bit of [w] changes the flag of [w] and of no
    other device. *)
Lemma is_enabled_enable en w x :
  0 <= w < 256 -> 0 <= x -> length en = 32%nat ->
  is_enabled (enable en w) x = if decide (x = w) then true else is_enabled en x.
Proof.
  intros Hw Hx Hlen. rewrite !is_enabled_eq. unfold enable, bit.
  assert (Hi : (Z.to_nat (w / 8) < length en)%nat).
  { rewrite Hlen. pose proof (Z.div_lt_upper_bound w 8 32). lia. }
  destruct (decide (x = w)) as [->|Hne].
  - rewrite list_lookup_alter_eq.
    destruct (lookup_lt_is_Some_2 en _ Hi) as [b Hb]. rewrite Hb. cbn [fmap option_fmap option_map].
    rewrite testbit_enable by (apply Z.mod_pos_bound; lia).
    rewrite Z.eqb_refl. apply orb_true_r.
  - destruct (index_split w x ltac:(lia) Hx Hne) as [Hq|[Hq Hm]].
    + rewrite list_lookup_alter_ne by congruence. reflexivity.
    + rewrite Hq, list_lookup_alter_eq.
      destruct (en !! Z.to_nat (w / 8)) as [b|]; [| reflexivity].
      cbn [fmap option_fmap option_map].
      rewrite testbit_enable by (apply Z.mod_pos_bound; lia).
      replace (x mod 8 =? w mod 8) with false by (symmetry; apply Z.eqb_neq; exact Hm).
      apply orb_false_r.
Qed.

Lemma is_enabled_disable en w x :
  0 <= w < 256 -> 0 <= x -> length en = 32%nat ->
  is_enabled (disable en w) x = if decide (x = w) then false else is_enabled en x.
Proof.
  intros Hw Hx Hlen. rewrite !is_enabled_eq. unfold disable, bit.
  assert (Hi : (Z.to_nat (w / 8) < length en)%nat).
  { rewrite Hlen. pose proof (Z.div_lt_upper_bound w 8 32). lia. }
  destruct (decide (x = w)) as [->|Hne].
  - rewrite list_lookup_alter_eq.
    destruct (lookup_lt_is_Some_2 en _ Hi) as [b Hb]. rewrite Hb. cbn [fmap option_fmap option_map].
    rewrite testbit_disable by (apply Z.mod_pos_bound; lia).
    rewrite Z.eqb_refl. apply andb_false_r.
  - destruct (index_split w x ltac:(lia) Hx Hne) as [Hq|[Hq Hm]].
    + rewrite list_lookup_alter_ne by congruence. reflexivity.
    + rewrite Hq, list_lookup_alter_eq.
      destruct (en !! Z.to_nat (w / 8)) as [b|]; [| reflexivity].
      cbn [fmap option_fmap option_map].
      rewrite testbit_disable by (apply Z.mod_pos_bound; lia).
      replace (x mod 8 =? w mod 8) with false by (symmetry; apply Z.eqb_neq; exact Hm).
      apply andb_true_r.
Qed.

(** *** Counting *)

Lemma filter_same (f g : Z -> bool) l :
  (forall x, In x l -> f x = g x) -> List.filter f l = List.filter g l.
Proof.
  induction l as [|y l IH]; intros H; [reflexivity |].
  cbn [List.filter]. rewrite (H y) by (left; reflexivity).
  rewrite IH by (intros x Hx; apply H; right; exact Hx). reflexivity.
Qed.

Lemma filter_flip (f g : Z -> bool) l w :
  List.NoDup l -> In w l ->
  (forall x, In x l -> x <> w -> f x = g x) ->
  f w = false -> g w = true ->
  length (List.filter g l) = S (length (List.filter f l)).
Proof.
  induction 1 as [|y l Hy Hnd IH]; intros Hin Hsame Hf Hg; [destruct Hin |].
  cbn [List.filter]. destruct Hin as [->|Hin].
  - rewrite Hf, Hg. cbn [length]. f_equal.
    rewrite (filter_same f g l); [reflexivity |].
    intros x Hx. apply Hsame; [right; exact Hx | congruence].
  - assert (Hyw : y <> w) by congruence.
    rewrite (Hsame y) by (try left; auto).
    assert (IH' : length (List.filter g l) = S (length (List.filter f l))).
    { apply IH; [exact Hin | | exact Hf | exact Hg].
      intros x Hx. apply Hsame. right; exact Hx. }
    destruct (g y); cbn [length]; rewrite IH'; reflexivity.
Qed.

Lemma seqZ_facts :
  List.NoDup (seqZ 0 256) /\ forall x, In x (seqZ 0 256) <-> 0 <= x < 256.
Proof.
  split.
  - apply NoDup_ListNoDup, NoDup_seqZ.
  - intros x. rewrite <- list_elem_of_In, elem_of_seqZ. lia.
Qed.

Lemma enabled_count_range en : 0 <= enabled_count en <= 256.
Proof.
  unfold enabled_count. pose proof (filter_length_le (is_enabled en) (seqZ 0 256)) as H.
  rewrite length_seqZ in H. lia.
Qed.

Lemma enabled_count_enable en w :
  0 <= w < 256 -> length en = 32%nat -> is_enabled en w = false ->
  enabled_count (enable en w) = enabled_count en + 1.
Proof.
  intros Hw Hlen Hoff. unfold enabled_count.
  destruct seqZ_facts as [Hnd Hin].
  rewrite (filter_flip (is_enabled en) (is_enabled (enable en w)) _ w Hnd);
    [lia | apply Hin; exact Hw | | exact Hoff |].
  - intros x Hx Hne. apply Hin in Hx.
    rewrite is_enabled_enable by (assumption || lia).
    destruct (decide (x = w)); [contradiction | reflexivity].
  - rewrite is_enabled_enable by (assumption || lia).
    destruct (decide (w = w)); [reflexivity | contradiction].
Qed.

Lemma enabled_count_disable en w :
  0 <= w < 256 -> length en = 32%nat -> is_enabled en w = true ->
  enabled_count (disable en w) = enabled_count en - 1.
Proof.
  intros Hw Hlen Hon. unfold enabled_count.
  destruct seqZ_facts as [Hnd Hin].
  rewrite (filter_flip (is_enabled (disable en w)) (is_enabled en) _ w Hnd);
    [lia | apply Hin; exact Hw | | | exact Hon].
  - intros x Hx Hne. apply Hin in Hx.
    rewrite is_enabled_disable by (assumption || lia).
    destruct (decide (x = w)); [contradiction | reflexivity].
  - rewrite is_enabled_disable by (assumption || lia).
    destruct (decide (w = w)); [reflexivity | contradiction].
Qed.

Lemma bytes_alter (f : Z -> Z) i en :
  (forall b, 0 <= f b < 256) ->
  Forall (fun b => 0 <= b < 256) en ->
  Forall (fun b => 0 <= b < 256) (alter f i en).
Proof.
  intros Hf H. apply Forall_alter; [exact H |]. intros b _ _. apply Hf.
Qed.

Lemma inv_disable st w :
  inv st -> 0 <= w < 256 -> is_enabled (enabled st) w = true ->
  inv (mk_release (when st) (disable (enabled st) w) (uint_wrap (count st - 1))).
Proof.
  intros (Hw & He & Hb & Hc) Hr Hon. unfold inv. cbn [when enabled count].
  split; [exact Hw |].
  split; [unfold disable; rewrite length_alter; exact He |].
  split; [apply bytes_alter; [intros b; apply Z.mod_pos_bound; lia | exact Hb] |].
  rewrite enabled_count_disable by assumption.
  pose proof (enabled_count_range (disable (enabled st) w)) as Hrange.
  rewrite enabled_count_disable in Hrange by assumption.
  rewrite Hc. apply uint_wrap_small. unfold UINT_MOD. lia.
Qed.

Lemma inv_enable st w :
  inv st -> 0 <= w < 256 -> is_enabled (enabled st) w = false ->
  inv (mk_release (when st) (enable (enabled st) w) (uint_wrap (count st + 1))).
Proof.
  intros (Hw & He & Hb & Hc) Hr Hoff. unfold inv. cbn [when enabled count].
  split; [exact Hw |].
  split; [unfold enable; rewrite length_alter; exact He |].
  split; [apply bytes_alter; [intros b; apply Z.mod_pos_bound; lia | exact Hb] |].
  rewrite enabled_count_enable by assumption.
  pose proof (enabled_count_range (enable (enabled st) w)) as Hrange.
  rewrite enabled_count_enable in Hrange by assumption.
  rewrite Hc. apply uint_wrap_small. unfold UINT_MOD. lia.
Qed.

Lemma delay_release_spec (dgen_mouse_delay which : Z) (on : bool)
    (st : mouse_motion_release_t) :
  inv st -> 0 <= which ->
  inv (mouse_motion_delay_release dgen_mouse_delay which on st) /\
  (256 <= which -> mouse_motion_delay_release dgen_mouse_delay which on st = st) /\
  (which < 256 ->
   forall x, 0 <= x ->
     is_enabled (enabled (mouse_motion_delay_release dgen_mouse_delay which on st)) x =
     if decide (x = which) then on else is_enabled (enabled st) x).
Proof.
  intros Hinv Hw. unfold mouse_motion_delay_release.
  destruct (which >=? 256) eqn:Ebig; zb.
  { split; [exact Hinv |]. split; [reflexivity | intros; lia]. }
  pose proof Hinv as (Hlw & Hle & Hb & Hc).
  destruct on; cbn [negb].
  - destruct (is_enabled (enabled st) which) eqn:Eon; cbn [negb].
    + split; [| split; [intros; lia |]].
      * unfold inv. cbn [when enabled count]. rewrite length_insert.
        repeat split; assumption.
      * intros _ x Hx. cbn [enabled].
        destruct (decide (x = which)) as [->|]; [exact Eon | reflexivity].
    + pose proof (inv_enable st which Hinv ltac:(lia) Eon) as (H1 & H2 & H3 & H4).
      cbn [when enabled count] in *.
      split; [| split; [intros; lia |]].
      * unfold inv. cbn [when enabled count]. rewrite length_insert.
        repeat split; assumption.
      * intros _ x Hx. apply is_enabled_enable; [lia | exact Hx | exact Hle].
  - destruct (is_enabled (enabled st) which) eqn:Eon; cbn [negb].
    + split; [apply inv_disable; [exact Hinv | lia | exact Eon] |].
      split; [intros; lia |].
      intros _ x Hx. cbn [enabled].
      apply is_enabled_disable; [lia | exact Hx | exact Hle].
    + split; [exact Hinv |]. split; [intros; lia |].
      intros _ x Hx. destruct (decide (x = which)) as [->|]; [exact Eon | reflexivity].
Qed.

(** X24: [mouse_motion_delay_release] keeps [count] equal to the number of
    devices that are enabled (which is what its two [assert]s rely on):
    afterwards device [which] is enabled exactly when asked to, every
    other device is as before, and an index of 256 or more changes
    nothing. *)
Theorem delay_release_keeps_count (dgen_mouse_delay which : Z) (on : bool)
    (st : mouse_motion_release_t) :
  inv st -> 0 <= which ->
  let st' := mouse_motion_delay_release dgen_mouse_delay which on st in
  inv st' /\
  (256 <= which -> st' = st) /\
  (which < 256 ->
   forall x, 0 <= x ->
     is_enabled (enabled st') x =
     if decide (x = which) then on else is_enabled (enabled st) x).
Proof.
  intros Hinv Hw. cbv zeta. apply delay_release_spec; assumption.
Qed.

Lemma release_init_inv : inv release_init.
Proof.
  unfold inv, release_init. cbn [when enabled count].
  split; [reflexivity |]. split; [reflexivity |].
  split; [| reflexivity].
  apply Forall_forall. intros b Hb. apply list_elem_of_In in Hb.
  apply elem_of_replicate in Hb. lia.
Qed.

Lemma delay_release_keeps_count_witness :
  count (mouse_motion_delay_release 200 5 true release_init) = 1 /\
  inv (mouse_motion_delay_release 200 5 true release_init).
Proof.
  split; [reflexivity |].
  exact (proj1 (delay_release_keeps_count 200 5 true release_init
                  release_init_inv ltac:(lia))).
Defined.

Lemma released_loop_spec n i d st :
  inv st -> 0 <= i -> i + Z.of_nat n <= 256 ->
  match released_loop n i d st with
  | (Some w, st') =>
      i <= w < i + Z.of_nat n /\ is_enabled (enabled st) w = true /\
      inv st' /\ is_enabled (enabled st') w = false /\
      count st' = count st - 1 /\ when st' = when st
  | (None, st') => st' = st
  end.
Proof.
  intros Hinv. revert i. induction n as [|n IH]; intros i Hi Hn;
    cbn [released_loop]; [reflexivity |].
  destruct (is_enabled (enabled st) i) eqn:Eon; cbn [negb].
  - destruct (_ <? _).
    + specialize (IH (i + 1) ltac:(lia) ltac:(lia)).
      destruct (released_loop n (i + 1) d st) as [[w|] st']; [| exact IH].
      destruct IH as (H1 & H2). split; [lia | exact H2].
    + pose proof Hinv as (Hlw & Hle & Hb & Hc).
      pose proof (inv_disable st i Hinv ltac:(lia) Eon) as Hinv'.
      split; [lia |]. split; [exact Eon |]. split; [exact Hinv' |].
      cbn [enabled count when].
      split; [rewrite is_enabled_disable by (assumption || lia);
              destruct (decide (i = i)); [reflexivity | contradiction] |].
      split; [| reflexivity].
      destruct Hinv' as (_ & _ & _ & Hc'). cbn [enabled count] in Hc'.
      rewrite Hc', Hc. apply enabled_count_disable; [lia | exact Hle | exact Eon].
  - specialize (IH (i + 1) ltac:(lia) ltac:(lia)).
    destruct (released_loop n (i + 1) d st) as [[w|] st']; [| exact IH].
    destruct IH as (H1 & H2). split; [lia | exact H2].
Qed.

(** X25: [mouse_motion_released] looks at the devices 0 .. [count - 1] only.
    When it reports a device, that device was enabled, its index is
    below the old [count], and it is disabled with [count] lowered by
    one, so that [count] is still the number of enabled devices; when it
    reports none, nothing has changed. *)
Theorem motion_released_below_count (dgen_mouse_delay : Z)
    (st : mouse_motion_release_t) :
  inv st ->
  match mouse_motion_released dgen_mouse_delay st with
  | (Some w, st') =>
      0 <= w < count st /\ is_enabled (enabled st) w = true /\
      inv st' /\ is_enabled (enabled st') w = false /\
      count st' = count st - 1 /\ when st' = when st
  | (None, st') => st' = st
  end.
Proof.
  intros Hinv. unfold mouse_motion_released.
  destruct (count st =? 0) eqn:E0; [reflexivity |].
  pose proof Hinv as (_ & _ & _ & Hc).
  pose proof (enabled_count_range (enabled st)) as Hr.
  pose proof (released_loop_spec (Z.to_nat (count st)) 0 dgen_mouse_delay st
                Hinv ltac:(lia) ltac:(lia)) as H.
  destruct (released_loop _ 0 _ st) as [[w|] st']; [| exact H].
  destruct H as (H1 & H2). split; [lia | exact H2].
Qed.

(** With device 5 as the only one enabled, [count] is 1 and the search
    stops after device 0: the release of device 5 is never reported. *)
Lemma motion_released_below_count_witness :
  mouse_motion_released 200 (mouse_motion_delay_release 200 5 true release_init)
  = (None, mouse_motion_delay_release 200 5 true release_init) /\
  mouse_motion_released 200 (mouse_motion_delay_release 200 0 true release_init)
  = (Some 0, mk_release (<[0%nat := 200000]> (replicate 256 0)) (replicate 32 0) 0).
Proof.
  split; [| reflexivity].
  pose proof (motion_released_below_count 200
                (mouse_motion_delay_release 200 5 true release_init)
                (proj1 (delay_release_spec 200 5 true release_init
                          release_init_inv ltac:(lia)))) as H.
  destruct (mouse_motion_released 200 _) as [[w|] st'] eqn:E.
  - vm_compute in E. discriminate E.
  - rewrite H. reflexivity.
Defined.

End MouseFacts.

(** ** The pixel loops: [filter_off], [filter_scale], [filter_stretch_X]
       and the pixel conversions of [do_screenshot] *)

Module PixelsFacts.
Import Stretch Pixels StretchFacts.

Local Open Scope nat_scope.

(** *** Lists *)

Lemma take_drop_inserts (i : nat) (k l : list Z) :
  i + length k <= length l ->
  take (length k) (drop i (list_inserts i k l)) = k.
Proof.
  intros H. apply list_eq. intros j.
  destruct (decide (j < length k)) as [Hj|Hj].
  - rewrite lookup_take_lt, lookup_drop by exact Hj.
    rewrite list_lookup_inserts by lia. f_equal. lia.
  - rewrite lookup_take_ge by lia. symmetry. apply lookup_ge_None_2. lia.
Qed.

Lemma length_pixel Bpp m off x :
  off + x * Bpp + Bpp <= length m -> length (pixel Bpp m off x) = Bpp.
Proof.
  intros H. unfold pixel. rewrite length_take, length_drop. lia.
Qed.

Lemma lookup_pixel Bpp m off x b :
  b < Bpp -> pixel Bpp m off x !! b = m !! (off + x * Bpp + b).
Proof.
  intros H. unfold pixel. rewrite lookup_take_lt, lookup_drop by exact H.
  reflexivity.
Qed.

(** *** [blit] *)

Lemma length_blit rows off pitch dst :
  length (blit rows off pitch dst) = length dst.
Proof.
  revert off dst. induction rows as [|r rows IH]; intros off dst; cbn [blit].
  - reflexivity.
  - rewrite IH. apply length_inserts.
Qed.

Lemma blit_app rows1 rows2 off pitch dst :
  blit (rows1 ++ rows2) off pitch dst =
  blit rows2 (off + length rows1 * pitch) pitch (blit rows1 off pitch dst).
Proof.
  revert off dst. induction rows1 as [|r rows1 IH]; intros off dst.
  - cbn [app blit length]. f_equal. lia.
  - cbn [app blit length]. rewrite IH. f_equal. lia.
Qed.

Lemma blit_lookup_lt rows off pitch dst j :
  j < off -> blit rows off pitch dst !! j = dst !! j.
Proof.
  revert off dst. induction rows as [|r rows IH]; intros off dst Hj; cbn [blit].
  - reflexivity.
  - rewrite IH by lia. apply list_lookup_inserts_lt. exact Hj.
Qed.

(** Row [R] of a [blit] holds the row [R] of the list. *)
Lemma blit_lookup rows off pitch dst len R r c :
  Forall (fun r => length r = len) rows -> len <= pitch ->
  rows !! R = Some r -> c < len ->
  off + R * pitch + len <= length dst ->
  blit rows off pitch dst !! (off + R * pitch + c) = r !! c.
Proof.
  revert off dst R. induction rows as [|r0 rows IH]; intros off dst R Hl Hp HR Hc Hb.
  - discriminate.
  - apply Forall_cons_1 in Hl. destruct Hl as [Hl0 Hl]. cbn [blit].
    destruct R as [|R].
    + injection HR as ->. rewrite blit_lookup_lt by lia.
      rewrite list_lookup_inserts by lia. f_equal. lia.
    + cbn [lookup list_lookup] in HR.
      replace (off + S R * pitch + c) with (off + pitch + R * pitch + c) by lia.
      apply IH; try assumption. rewrite length_inserts. lia.
Qed.

(** A byte outside every row keeps its value. *)
Lemma blit_lookup_other rows off pitch dst len j :
  Forall (fun r => length r = len) rows ->
  (forall R, R < length rows -> ~ (off + R * pitch <= j < off + R * pitch + len)) ->
  blit rows off pitch dst !! j = dst !! j.
Proof.
  revert off dst. induction rows as [|r0 rows IH]; intros off dst Hl Hout.
  - reflexivity.
  - apply Forall_cons_1 in Hl. destruct Hl as [Hl0 Hl]. cbn [blit].
    rewrite IH.
    + pose proof (Hout 0 ltac:(cbn [length]; lia)) as H0.
      destruct (decide (j < off)) as [Hj|Hj].
      * apply list_lookup_inserts_lt. exact Hj.
      * apply list_lookup_inserts_ge. lia.
    + exact Hl.
    + intros R HR. pose proof (Hout (S R) ltac:(cbn [length]; lia)) as H1. lia.
Qed.

(** *** [expand] *)

Lemma expand_S {A} reps (f : nat -> A) a n :
  expand reps f a (S n) = replicate (reps a) (f a) ++ expand reps f (S a) n.
Proof. reflexivity. Qed.

Lemma expand_snoc {A} reps (f : nat -> A) a n :
  expand reps f a (S n) = expand reps f a n ++ replicate (reps (a + n)) (f (a + n)).
Proof.
  unfold expand. rewrite seq_S, flat_map_app. cbn [flat_map].
  rewrite app_nil_r. reflexivity.
Qed.

Lemma length_expand {A} reps (f : nat -> A) n :
  length (expand reps f 0 n) = psum reps n.
Proof.
  induction n as [|n IH]; [reflexivity |].
  rewrite expand_snoc, length_app, IH, length_replicate. reflexivity.
Qed.

Lemma psum_mono reps a b : a <= b -> psum reps a <= psum reps b.
Proof.
  induction 1 as [|b Hab IH]; [lia |]. cbn [psum]. lia.
Qed.

(** The item at position [C] is [f x] for the [x] whose run holds [C]. *)
Lemma expand_lookup {A} reps (f : nat -> A) n x C :
  x < n -> psum reps x <= C < psum reps (S x) ->
  expand reps f 0 n !! C = Some (f x).
Proof.
  induction n as [|n IH]; intros Hx HC; [lia |].
  rewrite expand_snoc. cbn [Nat.add].
  destruct (decide (x = n)) as [->|Hne].
  - rewrite lookup_app_r by (rewrite length_expand; lia).
    rewrite length_expand. apply lookup_replicate_2. cbn [psum] in HC. lia.
  - pose proof (psum_mono reps (S x) n ltac:(lia)).
    rewrite lookup_app_l by (rewrite length_expand; lia).
    apply IH; [lia | exact HC].
Qed.

Lemma Forall_expand {A} (P : A -> Prop) reps (f : nat -> A) a n :
  (forall x, a <= x < a + n -> P (f x)) -> Forall P (expand reps f a n).
Proof.
  revert a. induction n as [|n IH]; intros a H.
  - constructor.
  - rewrite expand_S. apply Forall_app. split.
    + apply Forall_replicate. apply H. lia.
    + apply IH. intros x Hx. apply H. lia.
Qed.

Lemma psum_const k n : psum (fun _ => k) n = n * k.
Proof. induction n as [|n IH]; cbn [psum]; lia. Qed.

Lemma length_join_expand Bpp reps (f : nat -> list Z) n :
  (forall x, x < n -> length (f x) = Bpp) ->
  length (mjoin (expand reps f 0 n)) = psum reps n * Bpp.
Proof.
  intros H. rewrite length_join.
  rewrite (sum_list_fmap_same Bpp).
  - rewrite length_expand. reflexivity.
  - apply Forall_expand. intros x Hx. apply H. lia.
Qed.

(** Byte [b] of pixel [C] of an expanded line. *)
Lemma join_expand_lookup Bpp reps (f : nat -> list Z) n x C b :
  (forall x, x < n -> length (f x) = Bpp) ->
  x < n -> psum reps x <= C < psum reps (S x) -> b < Bpp ->
  mjoin (expand reps f 0 n) !! (C * Bpp + b) = f x !! b.
Proof.
  intros Hlen Hx HC Hb.
  pose proof (expand_lookup reps f n x C Hx HC) as Hl.
  assert (HF : Forall (fun l => length l = Bpp) (expand reps f 0 n)).
  { apply Forall_expand. intros y Hy. apply Hlen. lia. }
  destruct (f x !! b) as [v|] eqn:E.
  - apply (join_lookup_Some_same_length' Bpp); [exact HF | exact Hb |].
    exists (f x). split; [exact Hl | exact E].
  - apply lookup_ge_None in E. rewrite Hlen in E by exact Hx. lia.
Qed.

Lemma length_join_replicate n (l : list Z) :
  length (mjoin (replicate n l)) = n * length l.
Proof.
  induction n as [|n IH]; [reflexivity |].
  cbn [replicate].
  change (mjoin (l :: replicate n l)) with (l ++ mjoin (replicate n l)).
  rewrite length_app, IH. lia.
Qed.

Lemma join_expand_S reps (f : nat -> list Z) a n :
  mjoin (expand reps f a (S n)) =
  mjoin (replicate (reps a) (f a)) ++ mjoin (expand reps f (S a) n).
Proof. rewrite expand_S. apply join_app. Qed.

(** *** [filter_off] *)

Lemma off_lines_spec n len in_buf in_pitch out_buf out_pitch src dst a :
  off_lines n len (in_buf + a * in_pitch) in_pitch out_buf out_pitch src dst =
  blit (expand (fun _ => 1)
               (fun k => take len (drop (in_buf + k * in_pitch) src)) a n)
       out_buf out_pitch dst.
Proof.
  revert a out_buf dst. induction n as [|n IH]; intros a out_buf dst.
  - reflexivity.
  - cbn [off_lines]. rewrite expand_S. cbn [replicate app blit].
    replace (in_buf + a * in_pitch + in_pitch) with (in_buf + S a * in_pitch) by lia.
    rewrite IH. reflexivity.
Qed.

(** *** [filter_scale_X] *)

Lemma put_run_spec n Bpp tmp out dst :
  length tmp = Bpp ->
  put_run n Bpp tmp out dst =
  (out + n * Bpp, list_inserts out (mjoin (replicate n tmp)) dst).
Proof.
  intros Hl. revert out dst. induction n as [|n IH]; intros out dst.
  - cbn [put_run replicate]. f_equal. lia.
  - cbn [put_run replicate].
    change (mjoin (tmp :: replicate n tmp)) with (tmp ++ mjoin (replicate n tmp)).
    rewrite IH, list_inserts_app_l, Hl.
    f_equal; [lia | f_equal; lia].
Qed.

Lemma scale_row_spec n Bpp x_scale src src_off x out dst :
  (forall x', x <= x' < x + n -> length (pixel Bpp src src_off x') = Bpp) ->
  scale_row n Bpp x_scale src src_off x out dst =
  list_inserts out (mjoin (expand (fun _ => x_scale) (pixel Bpp src src_off) x n))
               dst.
Proof.
  revert x out dst. induction n as [|n IH]; intros x out dst Hl.
  - reflexivity.
  - cbn [scale_row]. rewrite put_run_spec by (apply Hl; lia).
    rewrite IH by (intros x' Hx'; apply Hl; lia).
    rewrite join_expand_S, list_inserts_app_l, length_join_replicate.
    rewrite Hl by lia. f_equal. lia.
Qed.

Lemma scale_copies_spec k len out dst_pitch dst row :
  length row = len -> take len (drop out dst) = row ->
  (forall j, j < k -> out + dst_pitch + j * dst_pitch + len <= length dst) ->
  scale_copies k len out (out + dst_pitch) dst_pitch dst =
  (out + dst_pitch + k * dst_pitch,
   blit (replicate k row) (out + dst_pitch) dst_pitch dst).
Proof.
  intros Hl. revert out dst. induction k as [|k IH]; intros out dst Hrow Hb.
  - cbn [scale_copies replicate blit]. f_equal. lia.
  - cbn [scale_copies replicate blit]. unfold memcpy. rewrite Hrow.
    rewrite IH.
    + f_equal. lia.
    + subst len. apply take_drop_inserts.
      pose proof (Hb 0 ltac:(lia)). lia.
    + intros j Hj. rewrite length_inserts.
      pose proof (Hb (S j) ltac:(lia)). lia.
Qed.

Lemma length_wide_line Bpp hreps width src src_off src_pitch y :
  (forall x, x < width ->
     src_off + y * src_pitch + x * Bpp + Bpp <= length src) ->
  length (wide_line Bpp hreps width src src_off src_pitch y) =
  psum hreps width * Bpp.
Proof.
  intros H. unfold wide_line. apply length_join_expand.
  intros x Hx. apply length_pixel. apply H. exact Hx.
Qed.

Lemma length_expand_from {A} reps (f : nat -> A) a n :
  length (expand reps f a (S n)) = reps a + length (expand reps f (S a) n).
Proof. rewrite expand_S, length_app, length_replicate. reflexivity. Qed.

Lemma scale_rows_spec n Bpp width x_scale y_scale len src src_off src_pitch
    dst_off dst_pitch dst y :
  1 <= y_scale -> len = width * x_scale * Bpp ->
  (forall y' x, y <= y' < y + n -> x < width ->
     src_off + y' * src_pitch + x * Bpp + Bpp <= length src) ->
  (forall R, R < n * y_scale -> dst_off + R * dst_pitch + len <= length dst) ->
  scale_rows n Bpp width x_scale y_scale len src
             (src_off + y * src_pitch) src_pitch dst_off dst_pitch dst =
  blit (expand (fun _ => y_scale)
               (wide_line Bpp (fun _ => x_scale) width src src_off src_pitch) y n)
       dst_off dst_pitch dst.
Proof.
  intros Hy Hlen. destruct y_scale as [|k]; [lia |]. clear Hy.
  revert y dst_off dst.
  induction n as [|n IH]; intros y dst_off dst Hs Hd.
  - reflexivity.
  - cbn [scale_rows]. replace (S k - 1) with k by lia.
    set (row := wide_line Bpp (fun _ => x_scale) width src src_off src_pitch y).
    assert (Hrow : length row = len).
    { subst row. rewrite length_wide_line, psum_const; [lia |].
      intros x Hx. apply Hs; [lia | exact Hx]. }
    rewrite scale_row_spec
      by (intros x' Hx'; apply length_pixel, Hs; lia).
    fold (wide_line Bpp (fun _ => x_scale) width src src_off src_pitch y).
    fold row.
    rewrite (scale_copies_spec k len dst_off dst_pitch _ row Hrow).
    + replace (src_off + y * src_pitch + src_pitch)
        with (src_off + S y * src_pitch) by lia.
      rewrite IH.
      * rewrite expand_S, blit_app, length_replicate.
        cbn [replicate blit]. fold row.
        f_equal. lia.
      * intros y' x Hy' Hx. apply Hs; [lia | exact Hx].
      * intros R HR. rewrite length_blit, length_inserts.
        pose proof (Hd (S k + R) ltac:(lia)). lia.
    + rewrite <- Hrow. apply take_drop_inserts.
      pose proof (Hd 0 ltac:(lia)). lia.
    + intros j Hj. rewrite length_inserts.
      pose proof (Hd (S j) ltac:(lia)). lia.
Qed.

Lemma fit_spec (fuel : nat) (in_dim out_dim scale : Z) :
  (1 <= in_dim)%Z -> (0 <= out_dim)%Z -> scale = Z.of_nat fuel ->
  (in_dim * scale < UINT_MOD)%Z ->
  fit fuel in_dim out_dim scale =
  (Z.min scale (out_dim / in_dim), (in_dim * Z.min scale (out_dim / in_dim))%Z).
Proof.
  intros Hi Ho. revert scale. induction fuel as [|fuel IH]; intros scale Hs Hm.
  - subst scale. cbn [fit]. change (Z.of_nat 0) with 0%Z.
    assert (0 <= out_dim / in_dim)%Z by (apply Z.div_pos; lia).
    rewrite Z.min_l by lia. rewrite Z.mul_0_r. reflexivity.
  - cbn [fit]. rewrite uint_wrap_small by nia.
    pose proof (Z.div_mod out_dim in_dim ltac:(lia)).
    pose proof (Z.mod_pos_bound out_dim in_dim ltac:(lia)).
    destruct (_ >? _)%Z eqn:E.
    + apply Z.gtb_lt in E. rewrite uint_wrap_small by (unfold UINT_MOD in *; lia).
      rewrite IH by nia.
      assert (out_dim / in_dim < scale)%Z by nia.
      rewrite !Z.min_r by lia. reflexivity.
    + assert (in_dim * scale <= out_dim)%Z
        by (destruct (Z.gtb_spec (in_dim * scale) out_dim); [discriminate | lia]).
      assert (scale <= out_dim / in_dim)%Z by (apply Z.div_le_lower_bound; lia).
      rewrite Z.min_l by lia. reflexivity.
Qed.

(** [filter_scale_X] as a [blit]. *)
Lemma filter_scale_X_blit d i src o dst (Bpp xs ys w h ip op : nat) :
  sd_Bpp d = Z.of_nat Bpp -> sd_x_scale d = Z.of_nat xs ->
  sd_y_scale d = Z.of_nat ys ->
  pb_width i = Z.of_nat w -> pb_height i = Z.of_nat h ->
  pb_pitch i = Z.of_nat ip -> pb_pitch o = Z.of_nat op ->
  1 <= ys -> (Z.of_nat (w * xs * Bpp) < UINT_MOD)%Z ->
  (forall y x, y < h -> x < w ->
     pb_off i + y * ip + x * Bpp + Bpp <= length src) ->
  (forall R, R < h * ys ->
     pb_off o + R * op + w * xs * Bpp <= length dst) ->
  filter_scale_X d i src o dst =
  blit (expand (fun _ => ys)
               (wide_line Bpp (fun _ => xs) w src (pb_off i) ip) 0 h)
       (pb_off o) op dst.
Proof.
  intros EB Ex Ey Ew Eh Eip Eop Hys Hsz Hs Hd. unfold filter_scale_X.
  rewrite EB, Ex, Ey, Ew, Eh, Eip, Eop, !Nat2Z.id.
  replace (Z.to_nat (size_wrap (Z.of_nat w * Z.of_nat Bpp * Z.of_nat xs)))
    with (w * xs * Bpp).
  2:{ unfold size_wrap, SIZE_MOD. unfold UINT_MOD in Hsz.
      rewrite Z.mod_small by lia.
      rewrite <- !Nat2Z.inj_mul, Nat2Z.id. lia. }
  replace (pb_off i) with (pb_off i + 0 * ip) at 1 by lia.
  apply scale_rows_spec.
  - exact Hys.
  - reflexivity.
  - intros y' x Hy' Hx. apply Hs; [lia | exact Hx].
  - exact Hd.
Qed.

(** X27: [filter_scale_X] writes, at column [C] and line [R] of its
    output, the input pixel at column [C / x_scale] and line
    [R / y_scale], byte for byte, and leaves every byte outside the
    scaled picture as it was.  The input and the scaled picture must lie
    inside their blocks and a scaled line must fit in the output pitch. *)
Theorem filter_scale_X_replicates d i src o dst (Bpp xs ys w h ip op : nat) :
  sd_Bpp d = Z.of_nat Bpp -> sd_x_scale d = Z.of_nat xs ->
  sd_y_scale d = Z.of_nat ys ->
  pb_width i = Z.of_nat w -> pb_height i = Z.of_nat h ->
  pb_pitch i = Z.of_nat ip -> pb_pitch o = Z.of_nat op ->
  1 <= xs -> 1 <= ys -> (Z.of_nat (w * xs * Bpp) < UINT_MOD)%Z ->
  w * xs * Bpp <= op ->
  (forall y, y < h -> pb_off i + y * ip + w * Bpp <= length src) ->
  (forall R, R < h * ys ->
     pb_off o + R * op + w * xs * Bpp <= length dst) ->
  (forall R C b, R < h * ys -> C < w * xs -> b < Bpp ->
     filter_scale_X d i src o dst !! (pb_off o + R * op + C * Bpp + b) =
     src !! (pb_off i + R / ys * ip + C / xs * Bpp + b)) /\
  (forall j,
     (forall R, R < h * ys ->
        ~ (pb_off o + R * op <= j < pb_off o + R * op + w * xs * Bpp)) ->
     filter_scale_X d i src o dst !! j = dst !! j).
Proof.
  intros EB Ex Ey Ew Eh Eip Eop Hxs Hys Hsz Hop Hs Hd.
  assert (Hs' : forall y x, y < h -> x < w ->
                  pb_off i + y * ip + x * Bpp + Bpp <= length src).
  { intros y x Hy Hx. pose proof (Hs y Hy). nia. }
  rewrite (filter_scale_X_blit d i src o dst Bpp xs ys w h ip op) by assumption.
  set (line := wide_line Bpp (fun _ => xs) w src (pb_off i) ip).
  assert (Hlen : forall y, y < h -> length (line y) = w * xs * Bpp).
  { intros y Hy. subst line. cbv beta.
    rewrite length_wide_line, psum_const; [reflexivity |].
    intros x Hx. apply Hs'; assumption. }
  assert (HF : Forall (fun r => length r = w * xs * Bpp)
                      (expand (fun _ => ys) line 0 h)).
  { apply Forall_expand. intros y Hy. apply Hlen. lia. }
  split.
  - intros R C b HR HC Hb.
    assert (Hy : R / ys < h) by (apply Nat.Div0.div_lt_upper_bound; lia).
    assert (Hx : C / xs < w) by (apply Nat.Div0.div_lt_upper_bound; lia).
    pose proof (Nat.div_mod_eq R ys) as HRd.
    pose proof (Nat.mod_upper_bound R ys ltac:(lia)) as HRm.
    pose proof (Nat.div_mod_eq C xs) as HCd.
    pose proof (Nat.mod_upper_bound C xs ltac:(lia)) as HCm.
    replace (pb_off o + R * op + C * Bpp + b)
      with (pb_off o + R * op + (C * Bpp + b)) by lia.
    rewrite (blit_lookup _ _ _ _ (w * xs * Bpp) R (line (R / ys))).
    + subst line. cbv beta. unfold wide_line.
      rewrite (join_expand_lookup Bpp _ _ w (C / xs)).
      * rewrite lookup_pixel by exact Hb. reflexivity.
      * intros x Hx'. apply length_pixel. apply Hs'; assumption.
      * exact Hx.
      * rewrite !psum_const. lia.
      * exact Hb.
    + exact HF.
    + exact Hop.
    + apply expand_lookup; [exact Hy |]. rewrite !psum_const. lia.
    + nia.
    + apply Hd. exact HR.
  - intros j Hj. apply (blit_lookup_other _ _ _ _ (w * xs * Bpp)).
    + exact HF.
    + rewrite length_expand, psum_const. exact Hj.
Qed.

(** X26: on its first call for an output, [filter_scale] uses the
    largest factors, not above the configured ones, with which the scaled
    picture fits the output.  It falls back to [filter_off], marking the
    output as failed, when a factor is zero, when both are one, when the
    depth is not 1 to 4 bytes or when [malloc] fails; otherwise it
    centres the scaled picture in the output and scales into it. *)
Theorem filter_scale_fits_output (Bpp sx sy : Z) (malloc_ok : bool)
    (i : pixbuf) (src : list Z) (o : pixbuf) (data : option scale_data)
    (dst : list Z) :
  pb_failed o = false -> pb_updated o = false ->
  (1 <= pb_width i)%Z -> (1 <= pb_height i)%Z ->
  (0 <= sx)%Z -> (0 <= sy)%Z ->
  (pb_width i * sx < UINT_MOD)%Z -> (pb_height i * sy < UINT_MOD)%Z ->
  (0 <= Bpp)%Z -> (0 <= pb_pitch o)%Z ->
  (0 <= pb_width o)%Z -> (0 <= pb_height o)%Z ->
  (pb_width o * Bpp < UINT_MOD)%Z ->
  (pb_pitch o * pb_height o < UINT_MOD)%Z ->
  (pb_width o < UINT_MOD)%Z -> (pb_height o < UINT_MOD)%Z ->
  exists xs ys : Z,
    xs = Z.min sx (pb_width o / pb_width i) /\
    ys = Z.min sy (pb_height o / pb_height i) /\
    (pb_width i * xs <= pb_width o)%Z /\ (pb_height i * ys <= pb_height o)%Z /\
    filter_scale Bpp sx sy malloc_ok i src o data dst =
    if ((xs =? 0) || (ys =? 0) || ((xs =? 1) && (ys =? 1))
        || negb ((Bpp =? 1) || (Bpp =? 2) || (Bpp =? 3) || (Bpp =? 4))
        || negb malloc_ok)%Z
    then
      Some (fst (filter_off Bpp false i src
                   (mk_pixbuf (pb_off o) (pb_width o) (pb_height o)
                              (pb_pitch o) false true) dst),
            data,
            snd (filter_off Bpp false i src
                   (mk_pixbuf (pb_off o) (pb_width o) (pb_height o)
                              (pb_pitch o) false true) dst))
    else
      let d := mk_scale_data xs ys Bpp in
      let o' :=
        mk_pixbuf
          (pb_off o
           + Z.to_nat ((pb_width o - pb_width i * xs) / 2 * Bpp)
           + Z.to_nat (pb_pitch o * ((pb_height o - pb_height i * ys) / 2)))
          (pb_width i * xs) (pb_height i * ys) (pb_pitch o) true false in
      Some (o', Some d, filter_scale_X d i src o' dst).
Proof.
  intros Hf Hu Hw Hh Hsx Hsy Hmx Hmy HB Hp HW HH HWB HPH HWm HHm.
  exists (Z.min sx (pb_width o / pb_width i)),
         (Z.min sy (pb_height o / pb_height i)).
  split; [reflexivity |]. split; [reflexivity |].
  assert (Hqx : (0 <= pb_width o / pb_width i)%Z) by (apply Z.div_pos; lia).
  assert (Hqy : (0 <= pb_height o / pb_height i)%Z) by (apply Z.div_pos; lia).
  assert (Hfx : (pb_width i * Z.min sx (pb_width o / pb_width i) <= pb_width o)%Z).
  { pose proof (Z.mul_div_le (pb_width o) (pb_width i) ltac:(lia)). nia. }
  assert (Hfy : (pb_height i * Z.min sy (pb_height o / pb_height i) <= pb_height o)%Z).
  { pose proof (Z.mul_div_le (pb_height o) (pb_height i) ltac:(lia)). nia. }
  split; [exact Hfx |]. split; [exact Hfy |].
  unfold filter_scale. rewrite Hf, Hu.
  rewrite (fit_spec (Z.to_nat sx)) by lia.
  rewrite (fit_spec (Z.to_nat sy)) by lia.
  set (xs := Z.min sx (pb_width o / pb_width i)) in *.
  set (ys := Z.min sy (pb_height o / pb_height i)) in *.
  destruct (filter_off _ _ _ _ _ _) as [o1 dst1] eqn:Eoff. cbn [fst snd].
  destruct ((xs =? 0) || (ys =? 0))%Z; [reflexivity |].
  destruct ((xs =? 1) && (ys =? 1))%Z; [reflexivity |].
  destruct (negb _); [reflexivity |].
  destruct (negb malloc_ok); [reflexivity |].
  cbn [orb]. cbv zeta.
  assert (Hxo : (0 <= (pb_width o - pb_width i * xs) / 2 <= pb_width o)%Z).
  { split; [apply Z.div_pos; lia |]. apply Z.div_le_upper_bound; lia. }
  assert (Hyo : (0 <= (pb_height o - pb_height i * ys) / 2 <= pb_height o)%Z).
  { split; [apply Z.div_pos; lia |]. apply Z.div_le_upper_bound; lia. }
  rewrite (uint_wrap_small (pb_width o - _)) by (unfold UINT_MOD in *; lia).
  rewrite (uint_wrap_small (pb_height o - _)) by (unfold UINT_MOD in *; lia).
  rewrite (uint_wrap_small (_ * Bpp)) by (unfold UINT_MOD in *; nia).
  rewrite (uint_wrap_small (pb_pitch o * _)) by (unfold UINT_MOD in *; nia).
  reflexivity.
Qed.

Lemma centre_offset (W w k : nat) :
  w <= W -> (Z.of_nat W < UINT_MOD)%Z -> (Z.of_nat (W * k) < UINT_MOD)%Z ->
  Z.to_nat (uint_wrap (uint_wrap (Z.of_nat W - Z.of_nat w) / 2 * Z.of_nat k)) =
  (W - w) / 2 * k.
Proof.
  intros Hw HW Hk.
  pose proof (Nat.div_mod_eq (W - w) 2) as Hd.
  pose proof (Nat.mod_upper_bound (W - w) 2 ltac:(lia)) as Hm.
  rewrite (uint_wrap_small (_ - _)) by lia.
  rewrite <- Nat2Z.inj_sub by exact Hw.
  change 2%Z with (Z.of_nat 2). rewrite <- Nat2Z.inj_div, <- Nat2Z.inj_mul.
  rewrite uint_wrap_small by nia.
  apply Nat2Z.id.
Qed.

Lemma centre_offset_r (W w k : nat) :
  w <= W -> (Z.of_nat W < UINT_MOD)%Z -> (Z.of_nat (k * W) < UINT_MOD)%Z ->
  Z.to_nat (uint_wrap (Z.of_nat k * (uint_wrap (Z.of_nat W - Z.of_nat w) / 2))) =
  (W - w) / 2 * k.
Proof.
  intros Hw HW Hk. rewrite Z.mul_comm. apply centre_offset; [assumption .. |].
  rewrite Nat.mul_comm. exact Hk.
Qed.

(** X29: [filter_off], on its first call for an output at least as large
    as the input, centres the input in the output: it copies every input
    line to its place, leaves every other byte of the output block as it
    was, and records the new geometry, which a second call keeps. *)
Theorem filter_off_centres (Bpp w h ip W H op : nat) (i : pixbuf)
    (src : list Z) (o : pixbuf) (dst : list Z) :
  pb_updated o = false ->
  pb_width i = Z.of_nat w -> pb_height i = Z.of_nat h ->
  pb_pitch i = Z.of_nat ip ->
  pb_width o = Z.of_nat W -> pb_height o = Z.of_nat H ->
  pb_pitch o = Z.of_nat op ->
  w <= W -> h <= H -> W * Bpp <= op ->
  (Z.of_nat W < UINT_MOD)%Z -> (Z.of_nat H < UINT_MOD)%Z ->
  (Z.of_nat (W * Bpp) < UINT_MOD)%Z -> (Z.of_nat (op * H) < UINT_MOD)%Z ->
  (forall y, y < h -> pb_off i + y * ip + w * Bpp <= length src) ->
  (forall R, R < H -> pb_off o + R * op + W * Bpp <= length dst) ->
  exists off' dst',
    off' = pb_off o + (W - w) / 2 * Bpp + (H - h) / 2 * op /\
    filter_off (Z.of_nat Bpp) false i src o dst =
      (mk_pixbuf off' (Z.of_nat w) (Z.of_nat h) (Z.of_nat op) true (pb_failed o),
       dst') /\
    (forall R c, R < h -> c < w * Bpp ->
       dst' !! (off' + R * op + c) = src !! (pb_off i + R * ip + c)) /\
    (forall j,
       (forall R, R < h -> ~ (off' + R * op <= j < off' + R * op + w * Bpp)) ->
       dst' !! j = dst !! j) /\
    fst (filter_off (Z.of_nat Bpp) false i src
           (mk_pixbuf off' (Z.of_nat w) (Z.of_nat h) (Z.of_nat op) true
                      (pb_failed o)) dst') =
    mk_pixbuf off' (Z.of_nat w) (Z.of_nat h) (Z.of_nat op) true (pb_failed o).
Proof.
  intros Hu Ew Eh Eip EW EH Eop Hw Hh Hop HWm HHm HWB HPH Hs Hd.
  pose proof (Nat.div_mod_eq (W - w) 2) as Hdx.
  pose proof (Nat.mod_upper_bound (W - w) 2 ltac:(lia)) as Hmx.
  pose proof (Nat.div_mod_eq (H - h) 2) as Hdy.
  pose proof (Nat.mod_upper_bound (H - h) 2 ltac:(lia)) as Hmy.
  set (off' := pb_off o + (W - w) / 2 * Bpp + (H - h) / 2 * op).
  set (line := fun k => take (w * Bpp) (drop (pb_off i + k * ip) src)).
  exists off', (blit (expand (fun _ => 1) line 0 h) off' op dst).
  assert (Hlen : forall y, y < h -> length (line y) = w * Bpp).
  { intros y Hy. subst line. cbv beta. rewrite length_take, length_drop.
    pose proof (Hs y Hy). lia. }
  assert (HF : Forall (fun r => length r = w * Bpp) (expand (fun _ => 1) line 0 h)).
  { apply Forall_expand. intros y Hy. apply Hlen. lia. }
  assert (Hwrap : Z.to_nat (uint_wrap (Z.of_nat w * Z.of_nat Bpp)) = w * Bpp).
  { rewrite <- Nat2Z.inj_mul. rewrite uint_wrap_small by nia. apply Nat2Z.id. }
  split; [reflexivity |]. split; [| split; [| split]].
  - unfold filter_off. rewrite Hu, Ew, Eh, Eip, EW, EH, Eop.
    replace (Z.of_nat h >? Z.of_nat H)%Z with false
      by (symmetry; rewrite Z.gtb_ltb; apply Z.ltb_ge; lia).
    replace (Z.of_nat w <=? Z.of_nat W)%Z with true
      by (symmetry; apply Z.leb_le; lia).
    cbn [pb_off pb_width pb_height pb_pitch pb_failed].
    rewrite centre_offset by assumption.
    rewrite centre_offset_r by assumption.
    fold off'. rewrite Hwrap, !Nat2Z.id. f_equal.
    replace (pb_off i) with (pb_off i + 0 * ip) by lia.
    rewrite off_lines_spec. reflexivity.
  - intros R c HR Hc.
    rewrite (blit_lookup _ _ _ _ (w * Bpp) R (line R)).
    + subst line. cbv beta. rewrite lookup_take_lt, lookup_drop by exact Hc.
      reflexivity.
    + exact HF.
    + nia.
    + apply expand_lookup; [exact HR |]. rewrite !psum_const. lia.
    + exact Hc.
    + pose proof (Hd ((H - h) / 2 + R) ltac:(lia)). subst off'. nia.
  - intros j Hj. apply (blit_lookup_other _ _ _ _ (w * Bpp)).
    + exact HF.
    + rewrite length_expand, psum_const. intros R HR. apply Hj. lia.
  - unfold filter_off. cbn [pb_updated pb_height]. rewrite Eh.
    destruct (_ >? _)%Z; reflexivity.
Qed.

Lemma filter_off_centres_witness :
  exists dst',
    filter_off 2 false (mk_pixbuf 0 2 1 4 false false) [1; 2; 3; 4]%Z
               (mk_pixbuf 0 4 3 8 false false) (replicate 24 0%Z) =
      (mk_pixbuf 10 2 1 8 true false, dst') /\
    dst' !! 10 = Some 1%Z /\ dst' !! 13 = Some 4%Z /\ dst' !! 14 = Some 0%Z.
Proof.
  destruct (filter_off_centres 2 2 1 4 4 3 8 (mk_pixbuf 0 2 1 4 false false)
              [1; 2; 3; 4]%Z (mk_pixbuf 0 4 3 8 false false) (replicate 24 0%Z))
    as (off' & dst' & Hoff & Hrun & Hin & Hout & _).
  - reflexivity.
  - reflexivity.
  - reflexivity.
  - reflexivity.
  - reflexivity.
  - reflexivity.
  - reflexivity.
  - lia.
  - lia.
  - lia.
  - reflexivity.
  - reflexivity.
  - reflexivity.
  - reflexivity.
  - intros y Hy. cbn. lia.
  - intros R HR. cbn. lia.
  - cbn in Hoff. subst off'. exists dst'. split; [exact Hrun |].
    split; [exact (Hin 0 0 ltac:(lia) ltac:(lia)) |].
    split; [exact (Hin 0 3 ltac:(lia) ltac:(lia)) |].
    rewrite Hout; [reflexivity |]. intros R HR. lia.
Defined.

(** *** [filter_stretch_X] *)

Lemma stretch_run_spec n Bpp src src_off src_x dst_off dst_x dst :
  length (pixel Bpp src src_off src_x) = Bpp ->
  stretch_run n Bpp src src_off src_x dst_off dst_x dst =
  (dst_x + n,
   list_inserts (dst_off + dst_x * Bpp)
                (mjoin (replicate n (pixel Bpp src src_off src_x))) dst).
Proof.
  intros Hl. revert dst_x dst. induction n as [|n IH]; intros dst_x dst.
  - cbn [stretch_run replicate]. f_equal. lia.
  - cbn [stretch_run replicate].
    change (mjoin (?p :: replicate n ?p)) with (p ++ mjoin (replicate n p)).
    rewrite IH, list_inserts_app_l, Hl.
    f_equal; [lia | f_equal; lia].
Qed.

Lemma stretch_row_spec n Bpp h_table src src_off x dst_off dst_x dst :
  (forall x', x <= x' < x + n -> length (pixel Bpp src src_off x') = Bpp) ->
  stretch_row n Bpp h_table src src_off x dst_off dst_x dst =
  list_inserts (dst_off + dst_x * Bpp)
               (mjoin (expand (treps h_table) (pixel Bpp src src_off) x n)) dst.
Proof.
  revert x dst_x dst. induction n as [|n IH]; intros x dst_x dst Hl.
  - reflexivity.
  - cbn [stretch_row]. rewrite join_expand_S. unfold treps at 1.
    destruct (default 0%Z (h_table !! x) =? 0)%Z eqn:E.
    + apply Z.eqb_eq in E. rewrite E. cbn [Z.to_nat replicate].
      rewrite IH by (intros x' Hx'; apply Hl; lia). reflexivity.
    + rewrite stretch_run_spec by (apply Hl; lia).
      rewrite IH by (intros x' Hx'; apply Hl; lia).
      rewrite list_inserts_app_l, length_join_replicate.
      rewrite Hl by lia. f_equal. lia.
Qed.

Lemma stretch_copies_spec k len dst_off dst_pitch dst row :
  length row = len -> dst_pitch <= dst_off ->
  take len (drop (dst_off - dst_pitch) dst) = row ->
  (forall j, j < k -> dst_off + j * dst_pitch + len <= length dst) ->
  stretch_copies k len dst_off dst_pitch dst =
  (dst_off + k * dst_pitch, blit (replicate k row) dst_off dst_pitch dst).
Proof.
  intros Hl. revert dst_off dst.
  induction k as [|k IH]; intros dst_off dst Hp Hrow Hb.
  - cbn [stretch_copies replicate blit]. f_equal. lia.
  - cbn [stretch_copies replicate blit]. unfold memcpy. rewrite Hrow.
    rewrite IH.
    + f_equal. lia.
    + lia.
    + replace (dst_off + dst_pitch - dst_pitch) with dst_off by lia.
      subst len. apply take_drop_inserts.
      pose proof (Hb 0 ltac:(lia)). lia.
    + intros j Hj. rewrite length_inserts.
      pose proof (Hb (S j) ltac:(lia)). lia.
Qed.

Lemma stretch_rows_spec n Bpp h_table v_table width len src src_off src_pitch
    dst_off dst_pitch dst y :
  Forall (fun v => 0 <= v)%Z v_table ->
  len = psum (treps h_table) width * Bpp ->
  (forall y' x, y <= y' < y + n -> x < width ->
     src_off + y' * src_pitch + x * Bpp + Bpp <= length src) ->
  (forall R,
     R < length (expand (treps v_table)
                        (wide_line Bpp (treps h_table) width src src_off src_pitch)
                        y n) ->
     dst_off + R * dst_pitch + len <= length dst) ->
  stretch_rows n Bpp h_table v_table width len src
               (src_off + y * src_pitch) src_pitch y dst_off dst_pitch dst =
  blit (expand (treps v_table)
               (wide_line Bpp (treps h_table) width src src_off src_pitch) y n)
       dst_off dst_pitch dst.
Proof.
  intros Hv Hlen. revert y dst_off dst.
  induction n as [|n IH]; intros y dst_off dst Hs Hd.
  - reflexivity.
  - cbn [stretch_rows]. rewrite expand_S.
    rewrite length_expand_from in Hd.
    replace (src_off + y * src_pitch + src_pitch)
      with (src_off + S y * src_pitch) by lia.
    assert (Hv0 : (0 <= default 0 (v_table !! y))%Z).
    { destruct (v_table !! y) as [v|] eqn:E; cbn [default]; [| lia].
      apply (Forall_lookup_1 _ _ _ _ Hv E). }
    unfold treps at 1. unfold treps at 1 in Hd.
    destruct (default 0%Z (v_table !! y) =? 0)%Z eqn:E.
    + apply Z.eqb_eq in E. rewrite E in *. cbn [Z.to_nat replicate app].
      apply IH.
      * intros y' x Hy' Hx. apply Hs; [lia | exact Hx].
      * intros R HR. apply Hd. cbn [Z.to_nat]. lia.
    + apply Z.eqb_neq in E.
      destruct (Z.to_nat (default 0%Z (v_table !! y))) as [|k] eqn:Ek; [lia |].
      replace (S k - 1) with k by lia.
      set (row := wide_line Bpp (treps h_table) width src src_off src_pitch y) in *.
      assert (Hrow : length row = len).
      { subst row. rewrite length_wide_line; [lia |].
        intros x Hx. apply Hs; [lia | exact Hx]. }
      rewrite stretch_row_spec
        by (intros x' Hx'; apply length_pixel, Hs; lia).
      replace (dst_off + 0 * Bpp) with dst_off by lia.
      fold (wide_line Bpp (treps h_table) width src src_off src_pitch y).
      fold row.
      rewrite (stretch_copies_spec k len (dst_off + dst_pitch) dst_pitch _ row Hrow).
      * rewrite IH.
        -- rewrite blit_app, length_replicate. cbn [replicate blit].
           f_equal. lia.
        -- intros y' x Hy' Hx. apply Hs; [lia | exact Hx].
        -- intros R HR. rewrite length_blit, length_inserts.
           pose proof (Hd (S k + R) ltac:(lia)). lia.
      * lia.
      * replace (dst_off + dst_pitch - dst_pitch) with dst_off by lia.
        rewrite <- Hrow. apply take_drop_inserts.
        pose proof (Hd 0 ltac:(lia)). lia.
      * intros j Hj. rewrite length_inserts.
        pose proof (Hd (S j) ltac:(lia)). lia.
Qed.

(** The table [fill_table] makes counts, for each source coordinate, the
    destination coordinates that map to it. *)
Lemma fill_table_hits (src dst : Z) (table : list Z) :
  (1 <= src <= 1024)%Z -> (0 <= dst <= 255 * src)%Z ->
  fill_table dst (uint_wrap (Z.shiftl dst 10) / src) src = Some table ->
  table = map (fun s : nat => hits (dst * 1024 / src) dst (Z.of_nat s))
              (seq 0 (Z.to_nat src)).
Proof.
  intros Hs Hd. unfold fill_table.
  rewrite shiftl_10, uint_wrap_small by (unfold UINT_MOD; lia).
  destruct (Z.eq_dec dst 0%Z) as [->|Hne].
  - cbn [Z.to_nat fill_loop]. intros [= <-].
    apply table_of_hits; [apply length_replicate |].
    intros s Hs'. rewrite lookup_replicate_2 by lia.
    unfold hits, first_dst. rewrite Zdiv_0_l, !Z.mul_0_r. reflexivity.
  - set (r := (dst * 1024 / src)%Z).
    assert (Hr : (0 < r <= 255 * 1024)%Z).
    { subst r. split; [apply Z.div_str_pos; lia |].
      apply Z.div_le_upper_bound; lia. }
    destruct (fill_loop_hits (Z.to_nat dst) 0%Z r src (replicate (Z.to_nat src) 0%Z))
      as (table' & Hrun & Hlen & Htab).
    + exact Hr.
    + lia.
    + lia.
    + apply length_replicate.
    + intros s Hs'. rewrite lookup_replicate_2 by lia. f_equal. unfold hits.
      pose proof (first_dst_mono r (Z.of_nat s) ltac:(lia)).
      assert (0 <= first_dst r (Z.of_nat s))%Z.
      { unfold first_dst. apply Z.div_pos; nia. }
      lia.
    + intros d' Hd'. subst r. apply maps_inside; lia.
    + rewrite Hrun. intros [= <-].
      rewrite (table_of_hits r (0 + Z.of_nat (Z.to_nat dst)) src table' Hlen Htab).
      rewrite Z.add_0_l, Z2Nat.id by lia. reflexivity.
Qed.

(** What a successful initialisation of [filter_stretch] tells. *)
Lemma stretch_init_inv (Bpp : Z) (aspect : bool)
    (src_w src_h in_pitch out_w out_h out_pitch : Z) h_table v_table dst_w dst_h :
  (1 <= src_w <= 1024)%Z -> (1 <= src_h <= 1024)%Z ->
  (0 <= out_w <= 255 * src_w)%Z -> (0 <= out_h <= 255 * src_h)%Z ->
  filter_stretch_init Bpp aspect true src_w src_h in_pitch out_w out_h out_pitch =
    Ready h_table v_table dst_w dst_h ->
  (1 <= Bpp <= 4)%Z /\ (in_pitch mod Bpp = 0)%Z /\ (out_pitch mod Bpp = 0)%Z /\
  (0 <= dst_w <= 255 * src_w)%Z /\ (0 <= dst_h <= 255 * src_h)%Z /\
  h_table = map (fun s : nat => hits (dst_w * 1024 / src_w) dst_w (Z.of_nat s))
                (seq 0 (Z.to_nat src_w)) /\
  v_table = map (fun s : nat => hits (dst_h * 1024 / src_h) dst_h (Z.of_nat s))
                (seq 0 (Z.to_nat src_h)).
Proof.
  intros Hw Hh How Hoh. unfold filter_stretch_init.
  replace (src_h =? 0)%Z with false by (symmetry; apply Z.eqb_neq; lia).
  replace (src_w =? 0)%Z with false by (symmetry; apply Z.eqb_neq; lia).
  cbn [orb].
  destruct (Bpp =? 0)%Z eqn:EB0; [discriminate |].
  destruct (in_pitch mod Bpp =? 0)%Z eqn:Eip; cbn [negb orb]; [| discriminate].
  destruct (out_pitch mod Bpp =? 0)%Z eqn:Eop; cbn [negb orb]; [| discriminate].
  destruct ((Bpp =? 1) || (Bpp =? 2) || (Bpp =? 3) || (Bpp =? 4))%Z eqn:EB;
    cbn [negb]; [| discriminate].
  set (dst := if aspect then aspect_fix src_w src_h out_w out_h else (out_w, out_h)).
  assert (Hdst : (0 <= fst dst <= 255 * src_w)%Z /\ (0 <= snd dst <= 255 * src_h)%Z).
  { subst dst. destruct aspect; [apply aspect_fix_bounds; assumption |].
    cbn [fst snd]. lia. }
  destruct dst as [dw dh]. cbn [fst snd] in Hdst.
  destruct (fill_table dw _ src_w) as [ht|] eqn:Eh; [| discriminate].
  destruct (fill_table dh _ src_h) as [vt|] eqn:Ev; [| discriminate].
  intros [= <- <- <- <-].
  apply fill_table_hits in Eh; [| lia | lia].
  apply fill_table_hits in Ev; [| lia | lia].
  rewrite !orb_true_iff, !Z.eqb_eq in EB. apply Z.eqb_eq in Eip, Eop.
  repeat split; try assumption; lia.
Qed.

Lemma treps_hits r k n x :
  x < n ->
  treps (map (fun s : nat => hits r k (Z.of_nat s)) (seq 0 n)) x =
  Z.to_nat (hits r k (Z.of_nat x)).
Proof.
  intros Hx. unfold treps.
  change (map ?f ?l) with (f <$> l).
  rewrite list_lookup_fmap, lookup_seq_lt by exact Hx. reflexivity.
Qed.

Lemma first_dst_nonneg r s : (0 <= r)%Z -> (0 <= s)%Z -> (0 <= first_dst r s)%Z.
Proof. intros Hr Hs. unfold first_dst. apply Z.div_pos; nia. Qed.

(** The counts before a source coordinate sum to where it starts. *)
Lemma psum_hits r k n x :
  (0 <= r)%Z -> (0 <= k)%Z -> x <= n ->
  psum (treps (map (fun s : nat => hits r k (Z.of_nat s)) (seq 0 n))) x =
  Z.to_nat (Z.min k (first_dst r (Z.of_nat x))).
Proof.
  intros Hr Hk. induction x as [|x IH]; intros Hx.
  - cbn [psum]. change (Z.of_nat 0) with 0%Z. rewrite first_dst_0. lia.
  - cbn [psum]. rewrite IH by lia. rewrite treps_hits by lia. unfold hits.
    pose proof (first_dst_mono r (Z.of_nat x) Hr).
    pose proof (first_dst_nonneg r (Z.of_nat x) Hr ltac:(lia)).
    replace (Z.of_nat (S x)) with (Z.of_nat x + 1)%Z by lia. lia.
Qed.

(** Where destination coordinate [C] falls in a table of
    [filter_stretch]. *)
Lemma table_locates (src dst C : nat) :
  1 <= src <= 1024 -> dst <= 255 * src -> C < dst ->
  C * 1024 / (dst * 1024 / src) < src /\
  psum (treps (map (fun s : nat =>
                      hits (Z.of_nat dst * 1024 / Z.of_nat src) (Z.of_nat dst)
                           (Z.of_nat s)) (seq 0 src)))
       (C * 1024 / (dst * 1024 / src)) <= C <
  psum (treps (map (fun s : nat =>
                      hits (Z.of_nat dst * 1024 / Z.of_nat src) (Z.of_nat dst)
                           (Z.of_nat s)) (seq 0 src)))
       (S (C * 1024 / (dst * 1024 / src))).
Proof.
  intros Hs Hd HC.
  set (r := (Z.of_nat dst * 1024 / Z.of_nat src)%Z).
  set (x := C * 1024 / (dst * 1024 / src)).
  assert (Hr : (0 < r)%Z) by (subst r; apply Z.div_str_pos; lia).
  assert (Ex : Z.of_nat x = (Z.of_nat C * 1024 / r)%Z).
  { subst x r. rewrite !Nat2Z.inj_div, !Nat2Z.inj_mul. reflexivity. }
  assert (Hx : (Z.of_nat x < Z.of_nat src)%Z).
  { rewrite Ex. subst r. apply (maps_inside _ (Z.of_nat dst)); lia. }
  split; [lia |].
  rewrite !psum_hits by lia.
  pose proof (proj1 (maps_to_iff r (Z.of_nat C) (Z.of_nat x) Hr ltac:(lia))
                    (eq_sym Ex)) as [H1 H2].
  pose proof (first_dst_nonneg r (Z.of_nat x) ltac:(lia) ltac:(lia)).
  replace (Z.of_nat (S x)) with (Z.of_nat x + 1)%Z by lia. lia.
Qed.

(** A table of [filter_stretch] sums to the destination size. *)
Lemma table_total (src dst : nat) :
  1 <= src <= 1024 -> dst <= 255 * src ->
  psum (treps (map (fun s : nat =>
                      hits (Z.of_nat dst * 1024 / Z.of_nat src) (Z.of_nat dst)
                           (Z.of_nat s)) (seq 0 src))) src = dst.
Proof.
  intros Hs Hd.
  assert (Hr : (0 <= Z.of_nat dst * 1024 / Z.of_nat src)%Z)
    by (apply Z.div_pos; lia).
  rewrite psum_hits by lia.
  pose proof (covers (Z.of_nat src) (Z.of_nat dst) ltac:(lia) ltac:(lia)). lia.
Qed.

Lemma hits_nonneg r k s : (0 <= r)%Z -> (0 <= hits r k s)%Z.
Proof.
  intros Hr. unfold hits. pose proof (first_dst_mono r s Hr). lia.
Qed.

(** X28: with the tables its initialisation makes, [filter_stretch_X]
    resamples by nearest neighbour: the output pixel at column [C] and
    line [R] is the input pixel at column [C * 1024 / h_ratio] and line
    [R * 1024 / v_ratio], the ratios being the destination size times
    1024 over the source size, and every byte outside the stretched
    picture stays as it was.  The source is at most 1024 by 1024, the
    output at most 255 times the source each way, and both pictures lie
    inside their blocks. *)
Theorem filter_stretch_X_nearest (Bpp w h ip W H op dw dh : nat)
    (aspect : bool) (h_table v_table : list Z) (i : pixbuf) (src : list Z)
    (o : pixbuf) (dst : list Z) :
  1 <= w <= 1024 -> 1 <= h <= 1024 -> W <= 255 * w -> H <= 255 * h ->
  filter_stretch_init (Z.of_nat Bpp) aspect true (Z.of_nat w) (Z.of_nat h)
                      (Z.of_nat ip) (Z.of_nat W) (Z.of_nat H) (Z.of_nat op) =
    Ready h_table v_table (Z.of_nat dw) (Z.of_nat dh) ->
  pb_width i = Z.of_nat w -> pb_height i = Z.of_nat h ->
  pb_pitch i = Z.of_nat ip ->
  pb_width o = Z.of_nat dw -> pb_pitch o = Z.of_nat op ->
  dw * Bpp <= op ->
  (forall y, y < h -> pb_off i + y * ip + w * Bpp <= length src) ->
  (forall R, R < dh -> pb_off o + R * op + dw * Bpp <= length dst) ->
  (forall R C b, R < dh -> C < dw -> b < Bpp ->
     filter_stretch_X (Z.of_nat Bpp) h_table v_table i src o dst
       !! (pb_off o + R * op + C * Bpp + b) =
     src !! (pb_off i + R * 1024 / (dh * 1024 / h) * ip
             + C * 1024 / (dw * 1024 / w) * Bpp + b)) /\
  (forall j,
     (forall R, R < dh ->
        ~ (pb_off o + R * op <= j < pb_off o + R * op + dw * Bpp)) ->
     filter_stretch_X (Z.of_nat Bpp) h_table v_table i src o dst !! j = dst !! j).
Proof.
  intros Hw Hh HW HH Hinit Ew Eh Eip Edw Eop Hop Hs Hd.
  apply stretch_init_inv in Hinit; [| lia | lia | lia | lia].
  destruct Hinit as (HB & Hipm & Hopm & Hdw & Hdh & Eht & Evt).
  rewrite !Nat2Z.id in Eht, Evt.
  assert (Hs' : forall y x, y < h -> x < w ->
                  pb_off i + y * ip + x * Bpp + Bpp <= length src).
  { intros y x Hy Hx. pose proof (Hs y Hy). nia. }
  assert (Hth : psum (treps h_table) w = dw)
    by (rewrite Eht; apply table_total; lia).
  assert (Htv : psum (treps v_table) h = dh)
    by (rewrite Evt; apply table_total; lia).
  set (line := wide_line Bpp (treps h_table) w src (pb_off i) ip).
  assert (Hlen : forall y, y < h -> length (line y) = dw * Bpp).
  { intros y Hy. subst line. cbv beta. rewrite length_wide_line, Hth; [reflexivity |].
    intros x Hx. apply Hs'; assumption. }
  assert (HF : Forall (fun r => length r = dw * Bpp)
                      (expand (treps v_table) line 0 h)).
  { apply Forall_expand. intros y Hy. apply Hlen. lia. }
  assert (Hrun : filter_stretch_X (Z.of_nat Bpp) h_table v_table i src o dst =
                 blit (expand (treps v_table) line 0 h) (pb_off o) op dst).
  { unfold filter_stretch_X. rewrite Ew, Eh, Eip, Edw, Eop, !Nat2Z.id.
    replace (Z.to_nat (Z.of_nat ip / Z.of_nat Bpp * Z.of_nat Bpp)) with ip.
    2:{ pose proof (Z.div_mod (Z.of_nat ip) (Z.of_nat Bpp) ltac:(lia)). lia. }
    replace (Z.to_nat (Z.of_nat op / Z.of_nat Bpp * Z.of_nat Bpp)) with op.
    2:{ pose proof (Z.div_mod (Z.of_nat op) (Z.of_nat Bpp) ltac:(lia)). lia. }
    replace (Z.to_nat (size_wrap (Z.of_nat dw * Z.of_nat Bpp))) with (dw * Bpp).
    2:{ unfold size_wrap, SIZE_MOD. rewrite Z.mod_small by nia.
        rewrite <- Nat2Z.inj_mul, Nat2Z.id. reflexivity. }
    replace (pb_off i) with (pb_off i + 0 * ip) at 1 by lia.
    apply stretch_rows_spec.
    - rewrite Evt. apply Forall_forall. intros v Hv.
      apply in_map_iff in Hv. destruct Hv as (s & <- & _).
      apply hits_nonneg. apply Z.div_pos; lia.
    - rewrite Hth. reflexivity.
    - intros y' x Hy' Hx. apply Hs'; [lia | exact Hx].
    - intros R HR. fold line in HR. rewrite length_expand, Htv in HR.
      apply Hd. exact HR. }
  rewrite Hrun. split.
  - intros R C b HR HC Hb.
    destruct (table_locates h dh R Hh ltac:(lia) HR) as [Hy Hyr].
    destruct (table_locates w dw C Hw ltac:(lia) HC) as [Hx Hxr].
    rewrite <- Evt in Hyr. rewrite <- Eht in Hxr.
    replace (pb_off o + R * op + C * Bpp + b)
      with (pb_off o + R * op + (C * Bpp + b)) by lia.
    rewrite (blit_lookup _ _ _ _ (dw * Bpp) R
               (line (R * 1024 / (dh * 1024 / h)))).
    + subst line. cbv beta. unfold wide_line.
      rewrite (join_expand_lookup Bpp _ _ w (C * 1024 / (dw * 1024 / w))).
      * rewrite lookup_pixel by exact Hb. reflexivity.
      * intros x Hx'. apply length_pixel. apply Hs'; assumption.
      * exact Hx.
      * exact Hxr.
      * exact Hb.
    + exact HF.
    + exact Hop.
    + apply expand_lookup; [exact Hy | exact Hyr].
    + nia.
    + apply Hd. exact HR.
  - intros j Hj. apply (blit_lookup_other _ _ _ _ (dw * Bpp)).
    + exact HF.
    + rewrite length_expand, Htv. exact Hj.
Qed.

Lemma filter_stretch_X_nearest_witness :
  filter_stretch_init 1 false true 2 1 2 3 2 3 = Ready [2; 1]%Z [2]%Z 3 2 /\
  filter_stretch_X 1 [2; 1]%Z [2]%Z (mk_pixbuf 0 2 1 2 false false) [7; 9]%Z
                   (mk_pixbuf 0 3 2 3 true false) (replicate 6 0%Z) !! 5 =
  Some 9%Z.
Proof.
  assert (Hinit : filter_stretch_init (Z.of_nat 1) false true (Z.of_nat 2)
                    (Z.of_nat 1) (Z.of_nat 2) (Z.of_nat 3) (Z.of_nat 2)
                    (Z.of_nat 3) =
                  Ready [2; 1]%Z [2]%Z (Z.of_nat 3) (Z.of_nat 2))
    by (vm_compute; reflexivity).
  split; [exact Hinit |].
  destruct (filter_stretch_X_nearest 1 2 1 2 3 2 3 3 2 false [2; 1]%Z [2]%Z
              (mk_pixbuf 0 2 1 2 false false) [7; 9]%Z
              (mk_pixbuf 0 3 2 3 true false) (replicate 6 0%Z))
    as [Hin _].
  - lia.
  - lia.
  - lia.
  - lia.
  - exact Hinit.
  - reflexivity.
  - reflexivity.
  - reflexivity.
  - reflexivity.
  - reflexivity.
  - lia.
  - intros y Hy. cbn. lia.
  - intros R HR. cbn. lia.
  - exact (Hin 1 2 0 ltac:(lia) ltac:(lia) ltac:(lia)).
Defined.

Lemma filter_scale_X_replicates_witness :
  filter_scale_X (mk_scale_data 2 2 2) (mk_pixbuf 0 2 1 4 false false)
                 [1; 2; 3; 4]%Z (mk_pixbuf 0 4 2 10 true false)
                 (replicate 20 0%Z) !! 17 = Some 4%Z /\
  filter_scale_X (mk_scale_data 2 2 2) (mk_pixbuf 0 2 1 4 false false)
                 [1; 2; 3; 4]%Z (mk_pixbuf 0 4 2 10 true false)
                 (replicate 20 0%Z) !! 8 = Some 0%Z.
Proof.
  destruct (filter_scale_X_replicates (mk_scale_data 2 2 2)
              (mk_pixbuf 0 2 1 4 false false) [1; 2; 3; 4]%Z
              (mk_pixbuf 0 4 2 10 true false) (replicate 20 0%Z)
              2 2 2 2 1 4 10)
    as [Hin Hout].
  - reflexivity.
  - reflexivity.
  - reflexivity.
  - reflexivity.
  - reflexivity.
  - reflexivity.
  - reflexivity.
  - lia.
  - lia.
  - reflexivity.
  - lia.
  - intros y Hy. cbn. lia.
  - intros R HR. cbn. lia.
  - split.
    + exact (Hin 1 3 1 ltac:(lia) ltac:(lia) ltac:(lia)).
    + rewrite Hout; [reflexivity |]. intros R HR. cbn [pb_off]. lia.
Defined.

Lemma filter_scale_fits_output_witness :
  filter_scale 2 3 3 true (mk_pixbuf 0 2 1 4 false false) [1; 2; 3; 4]%Z
               (mk_pixbuf 0 5 2 10 false false) None (replicate 20 0%Z) =
  Some (mk_pixbuf 0 4 2 10 true false, Some (mk_scale_data 2 2 2),
        filter_scale_X (mk_scale_data 2 2 2) (mk_pixbuf 0 2 1 4 false false)
                       [1; 2; 3; 4]%Z (mk_pixbuf 0 4 2 10 true false)
                       (replicate 20 0%Z)).
Proof.
  destruct (filter_scale_fits_output 2 3 3 true (mk_pixbuf 0 2 1 4 false false)
              [1; 2; 3; 4]%Z (mk_pixbuf 0 5 2 10 false false) None
              (replicate 20 0%Z))
    as (xs & ys & -> & -> & _ & _ & Hrun).
  - reflexivity.
  - reflexivity.
  - cbn. lia.
  - cbn. lia.
  - lia.
  - lia.
  - reflexivity.
  - reflexivity.
  - lia.
  - cbn. lia.
  - cbn. lia.
  - cbn. lia.
  - reflexivity.
  - reflexivity.
  - reflexivity.
  - reflexivity.
  - rewrite Hrun. reflexivity.
Defined.

(** *** Screenshots *)

Lemma land_shiftl_mask a m k :
  (0 <= k)%Z ->
  Z.land a (Z.shiftl m k) = Z.shiftl (Z.land (Z.shiftr a k) m) k.
Proof.
  intros Hk. apply Z.bits_inj'. intros n Hn.
  rewrite Z.land_spec.
  destruct (Z.lt_ge_cases n k) as [Hlt|Hge].
  - rewrite !Z.shiftl_spec_low by exact Hlt. apply andb_false_r.
  - rewrite !Z.shiftl_spec by exact Hn.
    rewrite Z.land_spec, Z.shiftr_spec by lia.
    replace (n - k + k)%Z with n by lia. reflexivity.
Qed.

(** The byte [(v >> s) & (m << k)], the field of [v] that [m] selects
    moved to bit [k]. *)
Lemma field_byte v s m k bits :
  (0 <= v)%Z -> (0 <= s)%Z -> (0 <= k)%Z -> (0 <= bits)%Z ->
  m = Z.ones bits ->
  Z.land (Z.shiftr v s) (Z.shiftl m k) =
  (2 ^ k * (v / 2 ^ (s + k) mod 2 ^ bits))%Z.
Proof.
  intros Hv Hs Hk Hb ->.
  rewrite land_shiftl_mask by exact Hk.
  rewrite Z.shiftr_shiftr by exact Hk.
  rewrite Z.land_ones by exact Hb.
  rewrite Z.shiftl_mul_pow2 by exact Hk.
  rewrite Z.shiftr_div_pow2 by lia. lia.
Qed.

(** X30: the screenshot conversions lose nothing.  Each colour of a
    16-bit (5-6-5) or 15-bit (5-5-5) pixel goes to the top bits of its
    own byte of the 24-bit pixel, in the order blue, green, red, and the
    pixel can be put together again from the three bytes (but for the
    unused top bit at 15 bits). *)
Theorem tga_pixels_are_lossless (v : Z) :
  (0 <= v < 65536)%Z ->
  tga_pixel_16 v = (8 * (v mod 32), 4 * (v / 32 mod 64), 8 * (v / 2048))%Z /\
  tga_pixel_15 v =
    (8 * (v mod 32), 8 * (v / 32 mod 32), 8 * (v / 1024 mod 32))%Z /\
  (let '(b, g, r) := tga_pixel_16 v in
   (0 <= b <= 255 /\ 0 <= g <= 255 /\ 0 <= r <= 255 /\
    v = r / 8 * 2048 + g / 4 * 32 + b / 8)%Z) /\
  (let '(b, g, r) := tga_pixel_15 v in
   (0 <= b <= 255 /\ 0 <= g <= 255 /\ 0 <= r <= 255 /\
    v mod 32768 = r / 8 * 1024 + g / 8 * 32 + b / 8)%Z).
Proof.
  intros Hv.
  assert (Hb : Z.land (Z.shiftl v 3) 248 = (8 * (v mod 32))%Z).
  { change 248%Z with (Z.shiftl 31 3).
    rewrite land_shiftl_mask by lia.
    rewrite Z.shiftr_shiftl_l by lia. change (3 - 3)%Z with 0%Z.
    rewrite Z.shiftl_0_r.
    change 31%Z with (Z.ones 5). rewrite Z.land_ones by lia.
    rewrite Z.shiftl_mul_pow2 by lia. change (2 ^ 5)%Z with 32%Z.
    change (2 ^ 3)%Z with 8%Z. lia. }
  assert (E16 : tga_pixel_16 v =
                (8 * (v mod 32), 4 * (v / 32 mod 64), 8 * (v / 2048))%Z).
  { unfold tga_pixel_16. rewrite Hb.
    change 252%Z with (Z.shiftl 63 2). change 248%Z with (Z.shiftl 31 3).
    rewrite (field_byte v 3 63 2 6), (field_byte v 8 31 3 5)
      by (lia || reflexivity).
    change (2 ^ (3 + 2))%Z with 32%Z. change (2 ^ (8 + 3))%Z with 2048%Z.
    change (2 ^ 6)%Z with 64%Z. change (2 ^ 5)%Z with 32%Z.
    change (2 ^ 2)%Z with 4%Z. change (2 ^ 3)%Z with 8%Z.
    rewrite (Z.mod_small (v / 2048))
      by (split; [apply Z.div_pos; lia | apply Z.div_lt_upper_bound; lia]).
    reflexivity. }
  assert (E15 : tga_pixel_15 v =
                (8 * (v mod 32), 8 * (v / 32 mod 32), 8 * (v / 1024 mod 32))%Z).
  { unfold tga_pixel_15. rewrite Hb.
    change 248%Z with (Z.shiftl 31 3).
    rewrite (field_byte v 2 31 3 5), (field_byte v 7 31 3 5)
      by (lia || reflexivity).
    change (2 ^ (2 + 3))%Z with 32%Z. change (2 ^ (7 + 3))%Z with 1024%Z.
    change (2 ^ 5)%Z with 32%Z. change (2 ^ 3)%Z with 8%Z.
    reflexivity. }
  split; [exact E16 |]. split; [exact E15 |].
  rewrite E16, E15. split.
  - Z.div_mod_to_equations. lia.
  - Z.div_mod_to_equations. lia.
Qed.

Lemma tga_pixels_are_lossless_witness :
  tga_pixel_16 63519 = (248, 0, 248)%Z /\ tga_pixel_15 32767 = (248, 248, 248)%Z.
Proof.
  split.
  - exact (proj1 (tga_pixels_are_lossless 63519 ltac:(lia))).
  - exact (proj1 (proj2 (tga_pixels_are_lossless 32767 ltac:(lia)))).
Defined.

End PixelsFacts.
